(* ===== verification/_CoqProject ===== *)
-Q . S2P
Prelude.v
Types.v
Kube.v
GoStrings.v
Externals.v
Demo.v
Labels.v
NmcHelper.v
Node.v
KernelMapper.v
WorkerPod.v
NmcReconciler.v
NmcProps.v
NmcLabels.v
Cluster.v
Interleave.v
Rollout.v
Converge.v
Hazards.v
InUse.v
Removal.v
Mic.v
MicReconciler.v
ModuleReconciler.v
ModuleProps.v
Deploy.v
Release.v
BuildSign.v
MbscReconciler.v
Pipeline.v
VersionLabels.v
VersionProps.v
Webhook.v
DevicePlugin.v
Dra.v
PodNodeLabel.v
Filter.v
Jobs.v
Preflight.v
Hub.v
Watches.v
Worker.v
WorkerMain.v
Conversion.v
Config.v
Manager.v
Admission.v
