(* ===== verification/Prelude.v ===== *)
(** * Kernel Module Management: a verification library

    Kernel Module Management is a Kubernetes operator that loads out-of-tree kernel modules on
    the nodes of a cluster.  A user declares a [Module]; controllers turn it, step by step,
    into pods that run modprobe on nodes.  This library models the controllers that carry that
    flow, in the language of the source, and proves what makes them correct.

    ** The program and its parts

    - The Module reconciler ([internal/controllers/module_reconciler.go]) computes, for the
      kernel of each targeted node, the module's configuration ([internal/module]), writes the
      images it needs to a ModuleImagesConfig, and adds the module to, or removes it from, the
      NodeModulesConfig of each node ([internal/nmc]).
    - The ModuleImagesConfig reconciler ([mic_reconciler.go]) finds out with pull pods
      ([internal/pod/imagepuller.go]) whether each image exists and requests builds and
      signings through a ModuleBuildSignConfig ([internal/mic], [internal/mbsc]).
    - The ModuleBuildSignConfig reconciler ([mbsc_reconciler.go]) runs build and sign pods
      ([internal/buildsign]) and records their outcome.
    - The NodeModulesConfig reconciler ([nmc_reconciler.go]) creates worker pods
      ([internal/pod/workerpodmanager.go]) that load or unload modules on the node, records in
      the status what is loaded, and labels the node.
    - The version-label reconciler ([node_label_module_version_reconciler.go] with its action
      table) drives the rolling upgrade of versioned modules through three node labels.

    - The device plugin and DRA reconcilers ([device_plugin_reconciler.go],
      [dra_reconciler.go]) run one DaemonSet per module version on the nodes where the module
      is ready; the pod-node-label reconciler ([pod_node_label_reconciler.go]) labels the nodes
      where their pods are ready.
    - The worker ([internal/worker], [cmd/worker]) is the program in the worker pods: it reads
      its configuration and runs modprobe on the node.
    - Build and sign pods are reported and let go by two small reconcilers
      ([build_sign_events_reconciler.go], [job_gc_reconciler.go]); the preflight reconciler
      ([preflightvalidation_reconciler.go], [internal/preflight]) checks all modules against a
      kernel before an upgrade.
    - On a hub, the ManagedClusterModule reconciler ([internal/controllers/hub],
      [internal/manifestwork], [internal/cluster], [internal/statusupdater]) builds images
      centrally and sends Modules to spoke clusters, which publish their kernels
      ([node_kernel_clusterclaim.go]).
    - The admission webhooks ([internal/webhook]) decide which objects users may write; a
      conversion webhook translates the deprecated PreflightValidation version.
    - Events reach the controllers through watches with predicates ([internal/filter] and the
      [SetupWithManager] functions); three servers ([cmd/manager], [cmd/manager-hub],
      [cmd/webhook-server]) read their configuration ([internal/config]) and register them.

    The controllers share no memory: they interact through the objects of the API server.

    ** Files

    - [Prelude] (this file): Go errors with the difference between [%w] and [%v] wrapping,
      the error monad [result], slices searched by key and the finite maps they stand for.
    - [Types]: the API objects as records ([api/v1beta1], [internal/api]).
    - [Kube]: programs over the calls of the Kubernetes client.  A handler is a value of
      [prog]; [wp p Q] states that [Q] holds of the trace of calls and of the result for every
      sequence of answers of the API server, [only_calls] that every call of every run
      satisfies a predicate.  Ordering and safety theorems are statements about traces.  The
      calls also have the clock and, for the worker, files and processes of the node.
    - [GoStrings]: the functions of the [strings] and [path/filepath] packages in use.
    - [Externals]: third-party functions (iteration order of Go maps, toleration matching,
      regular expressions, envsubst, name validation, finalizer and owner helpers, YAML,
      hashing, environment)
      as the class [Externals], and their documented behaviour as [ExternalsLaws]; [Demo]
      instantiates both with concrete functions and gives sample objects.
    - [Labels]: [internal/constants], [internal/meta], [internal/utils/kmmlabels.go], [pkg/labels],
      [internal/nmc/labels.go].
    - [NmcHelper]: [internal/nmc/helper.go].  [Node]: [internal/node/node.go].
      [KernelMapper]: [internal/module], [internal/kernel],
      [internal/utils/replaceStrings.go].  [WorkerPod]: [workerpodmanager.go], [common.go].
    - [NmcReconciler]: the NodeModulesConfig reconciler; [NmcProps] and [NmcLabels] its
      properties.
    - [Cluster]: handlers against a store.  [answers] states what the API server documents for
      the calls the controller of a node makes, [serves] adds failures, [steps] runs a handler that may
      be cut short at any call, [swp] is the logic for it.  [Rollout]: the history of a node as a step relation
      (passes that may fail or crash, changes of the spec, worker pods that live and end, reboots)
      and its invariant.  [Converge], [Removal]: how a module gets loaded and unloaded in that
      history.  [Hazards]: two orders of events that break it.  [InUse]: the in-use labels along it.
    - [Mic]: [internal/mic], [internal/mbsc], [imagepuller.go]; [MicReconciler]: the
      ModuleImagesConfig reconciler.
    - [ModuleReconciler]: the Module reconciler; [ModuleProps] its properties.  [Deploy]: the
      Module reconciler and the NodeModulesConfig reconciler of a node, composed.  [Release]: the
      end of a Module in that composition.
    - [BuildSign]: [internal/buildsign]; [MbscReconciler]: the ModuleBuildSignConfig
      reconciler.  [Interleave]: any number of passes that run at the same time against one
      store, interleaved at their calls, and the logic for one of them ([safe]).  [Pipeline]:
      the two image controllers running so, with the pods they create.
    - [VersionLabels]: the version-label reconciler; [VersionProps] its protocol.
    - [Webhook]: the admission webhooks ([internal/webhook], [internal/version]).
    - [DevicePlugin], [Dra], [PodNodeLabel]: the reconcilers of those names, each with its
      properties.
    - [Filter]: [internal/filter]; the predicate combinators and handlers of controller-runtime
      are the class [ControllerRuntime] with [ControllerRuntimeLaws].  [Watches]: what each
      controller watches.
    - [Jobs]: the build and sign events, the delayed removal and the kernel cluster claim.
      [Preflight]: the preflight reconciler.  [Hub]: the hub.
    - [Worker]: the worker program; [WorkerMain]: its command line, with the library that
      parses it as the class [Cobra] with [CobraLaws].  [Conversion]: the PreflightValidation
      versions.  [Config]: [internal/config], [internal/metrics].  [Manager]: the three servers.
      [Admission]: the rules of the API server, the paths and the methods of the validators.

    Definitions keep the names of the source; a function that several source files define
    under one name carries a prefix ([mic_Get], [mbsc_Get], [NMC_Reconcile], ...).  A method
    that mutates its argument returns the new value; a method that writes the answer of the
    server back into its argument ([Patch], [Status().Patch]) returns it.  A nil dereference
    is the error [ErrPanic], which no wrapping catches.

    ** What the theorems show

    - Each NodeModulesConfig handler carries out the intent that spec, status, node and worker
      pod determine ([ProcessModuleSpec_refines], [ProcessUnconfiguredModuleStatus_refines]);
      pods are deleted only after what they achieved is saved
      ([SyncStatus_saves_before_deleting]); the outcome of a loader is recorded
      ([load_converges]); ready and in-use labels are exact ([UpdateNodeLabels_ready],
      [GarbageCollectInUseLabels_exact]).
    - Over time: along every orderly history of a node, calls that fail and passes that crash
      included, the status accounts for what is loaded in the kernel
      ([status_tells_the_truth]); while spec and node stay as they are, modules of the spec are
      schedulable and the module's worker is not still running, a module of the spec ends
      up loaded as configured on a Ready node ([rollout_converges]) and one that was removed ends
      up unloaded ([removal_converges]); together with the Module reconciler, a Module ends up
      loaded on the nodes it targets ([module_reaches_kernel]) and leaves the others, or all of
      them when it is deleted ([module_leaves_kernel]).  Orderly histories leave out two orders of
      events that can happen, and are shown to break it: a reboot between the success of a loader
      and its record ([reboot_before_record_is_missed]) and a loader that ends well after it was
      released ([late_load_is_forgotten]).
    - The end of a Module: along histories whose spec writes are those of the Module controller,
      a module that is configured, recorded or loaded has its in-use label
      ([in_use_label_sound]), so that the module is gone from the kernel, the spec and the status
      of the node when the Module controller gives up the finalizer
      ([finalizer_given_up_after_unload]).  Here a third order of events is excluded, and shown to break it: a loader
      that ends well after the label of its module was taken away
      ([finalizer_given_up_while_loading]).
    - The Module reconciler decides per node exactly as targeting, mapping and version labels
      say ([scheduling_decisions]), carries every decision out independently of the others and
      adds a module only if its image exists ([reconcile_nodes_runs]), keeps
      NodeModulesConfigs well formed with labels that match entries ([nmc_module_updates]),
      and uses its finalizer as a bracket ([finalizer_before_configuration],
      [finalizer_removed_last]).
    - Images follow a state machine ([image_states_follow_machine]), are requested exactly as
      their state says ([processImagesSpecs_requests]) and become ready only on evidence
      ([exists_only_with_evidence]), also when both image controllers run at the same time and
      fail anywhere ([image_exists_on_evidence]); build and sign pods are created, replaced and collected
      exactly when needed ([Sync_behaviour], [GarbageCollect_behaviour],
      [outcomes_saved_first]).
    - The rolling upgrade is safe in every reachable state and ends after four unblocked
      passes ([upgrade_safe], [upgrade_converges]), and one pass of the reconciler over all
      labels of a node is one step of that protocol for each module ([node_pass_steps]).
    - The webhook protects the controllers: for accepted modules the mapper cannot fail on an
      expression and ignores no setting, label names fit, signed files are among those copied,
      host paths stay in the allowed directories, and updates keep what must not change
      ([accepted_mappings_usable], [accepted_label_names_fit], [accepted_signed_files_copied],
      [isAllowedHostPath_exact], [accepted_updates_keep], ...).  Requests reach the validator of
      their type for exactly the verbs it implements ([admission_rules_fit]).
    - Device plugins and DRA drivers: the finalizers bracket what they protect
      ([device_plugin_released_last], [dra_released_last], [device_plugin_finalizer_first],
      [dra_finalizer_first]), a rollout never deletes the current DaemonSet and is found again
      by the next pass ([device_plugin_rollout], [device_plugin_ds_stable],
      [live_daemonset_keeps_target]), target labels follow schedulability
      ([target_labels_follow_schedulability]), DeviceClasses converge
      ([device_classes_converge]), and ready labels follow the pods ([pod_label_protocol]).
    - The worker follows a script, stops at the first failure and succeeds only at its end
      ([LoadKmod_follows_script], [UnloadKmod_follows_script]); together with the pod templates,
      what a NodeModulesConfig entry says is what runs on the node
      ([worker_pods_do_as_configured]) and what the exit status of the pod reports
      ([worker_pod_exit_status]); an unload removes what the load copied
      ([unload_removes_copied_firmware]).
    - Preflight passes save one well-typed status before they request images
      ([preflight_pass], [preflight_status_typed]).  The hub sends a Module to a cluster only
      when its images exist ([hub_pass]), and the spoke resolves kernels as the hub did
      ([spoke_resolves_as_hub], [kernel_claim_roundtrip]).  Build pods are reported once
      ([job_events_protocol]) and released in finitely many passes ([gc_terminates]).
    - Events that are dropped do not matter and those that matter arrive
      ([retargeting_wakes_controllers], [dropped_updates_are_irrelevant],
      [cluster_changes_wake_hub]); the servers run the controllers the accepted objects and the
      finalizers in use need ([accepted_modules_served], [build_pods_are_released]), with a
      configuration that is never half read ([GetConfig_all_or_nothing]).
    - The data level: helpers refine finite maps, kernel mappings are chosen and merged as
      documented, label recognisers are exact, quoting is literal, names are well formed.
    - Some theorems pin down behaviour that differs from what the code or its documentation
      means; they are named after the effect ([upgrade_keeps_stale_fields],
      [worker_pod_does_not_protect_in_use_label], [missing_mic_is_an_error],
      [build_without_section_panics], [version_groups_collide], [preflight_conversion_loses],
      [finished_build_counts_for_other_image], [next_cluster_is_forgotten], [device_plugin_misses_label_changes], ...).

    ** Bounds

    Every function is total by structural recursion: loops are folds or [for_range] over the
    slice they range over, so no fuel is needed.  Counters of type int32 are truncated with
    [int32]; the difference of two times saturates as a duration does.  A [range] over a Go map visits the list [range_map] gives, of which only the
    content is assumed, so theorems hold for every iteration order.

    ** The histories of a node

    [Rollout] and the files on it make these assumptions about the world around the code: reads
    are current, as if the cache of the client never lagged; events happen between the passes of
    the controller of the node, while a pass can fail or stop at every call; the worker pods
    have their documented life (a status that is final once it ended, deletion after the last
    finalizer); a boot id is not one already recorded; namespaces are DNS labels.  A round of
    [rollout_converges] is a pass without error followed by the success of the module's worker
    pod if it has one; four rounds are enough because the longest way is: unload the old
    configuration, record that, load the new one, record that.

    In [Pipeline] passes of both controllers interleave with each other and with the events of the
    world at every call.  Reads are current there too, and a kernel has one image over the history;
    [finished_build_counts_for_other_image] is a history in which that changes.

    ** Not modelled

    Logging and its flags; the generated deep copies and mocks, which hold no decisions of the
    program (a copy is a value here); Go interfaces, constructors and scheme
    registrations, whose effect is the direct call of the implementation; cache
    indexes and concurrency options of the controllers; the interleaving of a directory walk
    with the removals made during it (the visits of one walk are answered at once).  *)

From stdpp Require Export base tactics option list list_numbers strings fin_maps gmap sets sorting pretty.
From Stdlib Require Export ZArith Lia Ascii.

#[export] Set Default Goal Selector "!".
#[global] Arguments String.append : simpl nomatch.

Open Scope string_scope.
Open Scope nat_scope.
Open Scope list_scope.

(** ** Go errors

    A Go [error] is a nullable interface value: [option error] below, [None] being [nil].
    The operator builds errors with [errors.New], [fmt.Errorf] and [errors.Join], and looks
    into them with [errors.Is] and the [k8serrors.IsNotFound] family.  What those can see
    depends on the verb the wrapping used: [%w] keeps the wrapped error reachable, [%v] only
    copies its text.  The constructors keep that difference, and the format string as the
    message; operands of the format are not rendered.  [ErrPanic] is a run-time panic (a nil
    pointer dereference), which the controller manager recovers into the error of the whole
    reconciliation. *)
Inductive StatusReason :=
| ReasonNotFound
| ReasonAlreadyExists
| ReasonConflict
| ReasonOther.

Inductive error :=
| ErrNew (msg : string)
| ErrSentinel (name : string)
| ErrStatus (r : StatusReason)
| Errorf_v (fmt : string) (e : error)
| Errorf_w (fmt : string) (e : error)
| ErrJoin (es : list error)
| ErrPanic (msg : string).

#[export] Instance StatusReason_eq_dec : EqDecision StatusReason.
Proof. solve_decision. Defined.

(** [errors.As(err, &APIStatus)]: the first API status on the chain of [%w] wrappings and
    joins, depth first. *)
Fixpoint errors_As_status (e : error) : option StatusReason :=
  match e with
  | ErrNew _ | ErrSentinel _ | Errorf_v _ _ | ErrPanic _ => None
  | ErrStatus r => Some r
  | Errorf_w _ e => errors_As_status e
  | ErrJoin es =>
      (fix go (es : list error) : option StatusReason :=
         match es with
         | [] => None
         | e :: es => match errors_As_status e with Some r => Some r | None => go es end
         end) es
  end.

(** [errors.Is(err, sentinel)]. *)
Fixpoint errors_Is (e : error) (sentinel : string) : bool :=
  match e with
  | ErrNew _ | ErrStatus _ | Errorf_v _ _ | ErrPanic _ => false
  | ErrSentinel s => bool_decide (s = sentinel)
  | Errorf_w _ e => errors_Is e sentinel
  | ErrJoin es =>
      (fix go (es : list error) : bool :=
         match es with [] => false | e :: es => errors_Is e sentinel || go es end) es
  end.

Definition IsNotFound (e : error) : bool :=
  bool_decide (errors_As_status e = Some ReasonNotFound).

Definition IsAlreadyExists (e : error) : bool :=
  bool_decide (errors_As_status e = Some ReasonAlreadyExists).

(** [client.IgnoreNotFound]. *)
Definition IgnoreNotFound (e : option error) : option error :=
  match e with
  | Some e => if IsNotFound e then None else Some e
  | None => None
  end.

(** A panic is not an error value: it passes through the code that wraps errors. *)
Definition is_panic (e : error) : bool := match e with ErrPanic _ => true | _ => false end.

Definition rethrow_v (fmt : string) (e : error) : error := if is_panic e then e else Errorf_v fmt e.

(** [errors.Join]: [nil] operands are dropped, and the result is [nil] when nothing is left. *)
Definition errors_Join (es : list (option error)) : option error :=
  match omap id es with
  | [] => None
  | es => Some (ErrJoin es)
  end.

Lemma errors_Join_None es : errors_Join es = None ↔ Forall (λ e, e = None) es.
Proof.
  unfold errors_Join. induction es as [|[e|] es IH]; simpl.
  - done.
  - split; [done|]. intros H. by inversion H.
  - rewrite IH. split; [by constructor|by inversion 1].
Qed.

Lemma errors_Join_app es1 es2 :
  errors_Join (es1 ++ es2) = None ↔ errors_Join es1 = None ∧ errors_Join es2 = None.
Proof. by rewrite !errors_Join_None, Forall_app. Qed.

(** A call that returns [(value, error)] with exactly one of the two meaningful. *)
Inductive result (A : Type) :=
| Ok (a : A)
| Err (e : error).
Arguments Ok {A} a.
Arguments Err {A} e.

#[export] Instance result_ret : MRet result := λ A a, Ok a.
#[export] Instance result_bind : MBind result := λ A B f r,
  match r with Ok a => f a | Err e => Err e end.

Definition is_ok {A} (r : result A) : bool :=
  match r with Ok _ => true | Err _ => false end.

Definition err_of {A} (r : result A) : option error :=
  match r with Ok _ => None | Err e => Some e end.

(** [if err != nil { return ..., fmt.Errorf(fmt, err) }], with [%v] and with [%w]. *)
Definition wrap_v {A} (fmt : string) (r : result A) : result A :=
  match r with Ok a => Ok a | Err e => Err (Errorf_v fmt e) end.

Definition wrap_w {A} (fmt : string) (r : result A) : result A :=
  match r with Ok a => Ok a | Err e => Err (Errorf_w fmt e) end.

Definition wrap_err (fmt : string) (e : option error) : option error :=
  Errorf_v fmt <$> e.

Lemma result_bind_Ok {A B} (r : result A) (f : A → result B) b :
  r ≫= f = Ok b ↔ ∃ a, r = Ok a ∧ f a = Ok b.
Proof. destruct r; naive_solver. Qed.

Lemma wrap_v_Ok {A} fmt (r : result A) a : wrap_v fmt r = Ok a ↔ r = Ok a.
Proof. destruct r; naive_solver. Qed.

Lemma wrap_w_Ok {A} fmt (r : result A) a : wrap_w fmt r = Ok a ↔ r = Ok a.
Proof. destruct r; naive_solver. Qed.

(** Decompose hypotheses [e = Ok v] along the error monad: every intermediate result is
    named, and the branches that cannot succeed are closed. *)
Ltac res_inv :=
  repeat match goal with
  | H : Ok _ = Ok _ |- _ => injection H as H; simplify_eq
  | H : Err _ = Ok _ |- _ => discriminate H
  | H : (_ ≫= _) = Ok _ |- _ => apply result_bind_Ok in H as (? & ? & H)
  | H : wrap_v _ _ = Ok _ |- _ => apply wrap_v_Ok in H
  | H : wrap_w _ _ = Ok _ |- _ => apply wrap_w_Ok in H
  | p : _ * _ |- _ => destruct p
  | H : (let '(_, _) := ?x in _) = Ok _ |- _ => destruct x
  | H : (if ?b then _ else _) = Ok _ |- _ => destruct b eqn:?
  | H : match ?x with _ => _ end = Ok _ |- _ => destruct x eqn:?
  end.

(** ** Slices searched and updated by key

    The recurring loop [for i := range l { if key matches { l[i] = x; return } }; l = append(l, x)]. *)
Section upsert.
Context {A : Type}.

Fixpoint find_first (p : A → bool) (l : list A) : option A :=
  match l with
  | [] => None
  | a :: l => if p a then Some a else find_first p l
  end.

Fixpoint upsert (p : A → bool) (x : A) (l : list A) : list A :=
  match l with
  | [] => [x]
  | a :: l => if p a then x :: l else a :: upsert p x l
  end.

(** Like [upsert], but the slot is left alone when nothing matches. *)
Fixpoint update_first (p : A → bool) (f : A → A) (l : list A) : list A :=
  match l with
  | [] => []
  | a :: l => if p a then f a :: l else a :: update_first p f l
  end.

Lemma find_first_Some p l a : find_first p l = Some a → a ∈ l ∧ p a = true.
Proof.
  induction l as [|b l IH]; simpl; [done|].
  destruct (p b) eqn:E; intros H; simplify_eq.
  - by split; [left|].
  - destruct (IH H). by split; [right|].
Qed.

Lemma find_first_None p l : find_first p l = None ↔ ∀ a, a ∈ l → p a = false.
Proof.
  induction l as [|b l IH]; simpl.
  - split; [intros _ a Ha; inversion Ha|done].
  - destruct (p b) eqn:E.
    + split; [done|]. intros H. specialize (H b). rewrite E in H.
      discriminate H. left.
    + rewrite IH. split; intros H a.
      * rewrite elem_of_cons. intros [->|Ha]; auto.
      * intros Ha. apply H. by right.
Qed.

Lemma find_first_ext p q l : (∀ a, a ∈ l → p a = q a) → find_first p l = find_first q l.
Proof.
  induction l as [|b l IH]; simpl; intros H; [done|].
  rewrite (H b) by left. destruct (q b); [done|]. apply IH. intros a Ha. apply H. by right.
Qed.

Lemma find_first_app p l1 l2 :
  find_first p (l1 ++ l2) =
  match find_first p l1 with Some a => Some a | None => find_first p l2 end.
Proof. induction l1 as [|a l1 IH]; simpl; [done|]. by destruct (p a). Qed.

Lemma find_upsert_hit p x l : p x = true → find_first p (upsert p x l) = Some x.
Proof.
  intros Hx. induction l as [|a l IH]; simpl; [by rewrite Hx|].
  destruct (p a) eqn:E; simpl; [by rewrite Hx|]. by rewrite E.
Qed.

Lemma find_upsert_miss p q x l :
  q x = false → (∀ a, p a = true → q a = false) →
  find_first q (upsert p x l) = find_first q l.
Proof.
  intros Hx Hpq. induction l as [|a l IH]; simpl; [by rewrite Hx|].
  destruct (p a) eqn:E; simpl.
  - by rewrite Hx, (Hpq a E).
  - by rewrite IH.
Qed.

Lemma elem_of_upsert p x l a : a ∈ upsert p x l → a = x ∨ a ∈ l.
Proof.
  induction l as [|b l IH]; simpl.
  - rewrite list_elem_of_singleton. by left.
  - destruct (p b); rewrite !elem_of_cons; naive_solver.
Qed.

Lemma upsert_app_miss p x l : find_first p l = None → upsert p x l = l ++ [x].
Proof.
  induction l as [|a l IH]; simpl; [done|].
  destruct (p a); [done|]. intros H. by rewrite IH.
Qed.

Lemma upsert_length_hit p x l a :
  find_first p l = Some a → length (upsert p x l) = length l.
Proof.
  induction l as [|b l IH]; simpl; [done|].
  destruct (p b); simpl; [done|]. intros H. by rewrite IH.
Qed.

(** Keys of the list: a field [key] that the predicate compares. *)
Lemma upsert_keys {K} `{EqDecision K} (key : A → K) (x : A) (l : list A) :
  key <$> upsert (λ a, bool_decide (key a = key x)) x l =
  if decide (key x ∈ key <$> l) then key <$> l else (key <$> l) ++ [key x].
Proof.
  induction l as [|a l IH].
  - rewrite decide_False; [done|]. apply not_elem_of_nil.
  - cbn [upsert fmap list_fmap]. case_bool_decide as Ha; cbn [upsert fmap list_fmap].
    + rewrite decide_True by (rewrite Ha; left). by rewrite Ha.
    + rewrite IH. destruct (decide (key x ∈ key <$> l)) as [H|H].
      * by rewrite decide_True by (by right).
      * rewrite decide_False; [done|]. rewrite elem_of_cons. naive_solver.
Qed.

Lemma upsert_NoDup_keys {K} `{EqDecision K} (key : A → K) (x : A) (l : list A) :
  NoDup (key <$> l) →
  NoDup (key <$> upsert (λ a, bool_decide (key a = key x)) x l).
Proof.
  intros H. rewrite upsert_keys. case_decide as Hx; [done|].
  apply NoDup_app. split_and!; [done| |apply NoDup_singleton].
  intros k Hk. rewrite list_elem_of_singleton. naive_solver.
Qed.

Lemma upsert_idemp p x y l :
  p x = true → p y = true → upsert p y (upsert p x l) = upsert p y l.
Proof.
  intros Hx Hy. induction l as [|a l IH]; simpl; [by rewrite Hx|].
  destruct (p a) eqn:E; simpl; [by rewrite Hx|]. by rewrite E, IH.
Qed.

End upsert.

Lemma NoDup_fmap_inj {A B} (f : A → B) (l : list A) x y : NoDup (f <$> l) → x ∈ l → y ∈ l → f x = f y → x = y.
Proof.
  intros Hnd [i Hi]%list_elem_of_lookup [j Hj]%list_elem_of_lookup E.
  assert (i = j) as ->; [|congruence]. eapply NoDup_lookup; [done|rewrite list_lookup_fmap, Hi; done|].
  by rewrite list_lookup_fmap, Hj, E.
Qed.

Lemma filter_all {A} (P : A → Prop) `{∀ a, Decision (P a)} l : Forall P l → filter P l = l.
Proof. induction 1 as [|a l Ha Hl IH]; [done|]. by rewrite filter_cons_True, IH. Qed.

(** ** Keyed slices as finite maps

    The abstract value of a slice whose elements carry a key and that is searched from the
    front: the map from each key to its first element. *)
Section keyed.
Context {K A : Type} `{Countable K} (key : A → K).

Definition keyed_map (l : list A) : gmap K A := list_to_map ((λ a, (key a, a)) <$> l).

Definition key_is (k : K) (a : A) : bool := bool_decide (key a = k).

Fixpoint delete_first (p : A → bool) (l : list A) : list A :=
  match l with
  | [] => []
  | a :: l => if p a then l else a :: delete_first p l
  end.

Lemma keyed_map_lookup l k : keyed_map l !! k = find_first (key_is k) l.
Proof.
  unfold keyed_map. induction l as [|a l IH]; simpl; [apply lookup_empty|].
  unfold key_is at 1. case_bool_decide as E.
  - rewrite <-E. apply lookup_insert_eq.
  - rewrite lookup_insert_ne by done. apply IH.
Qed.

(** With one element per key the map has the elements of the slice. *)
Lemma keyed_map_elem l a : NoDup (key <$> l) → a ∈ l ↔ keyed_map l !! key a = Some a.
Proof.
  intros Hnd. unfold keyed_map. rewrite <-elem_of_list_to_map.
  - rewrite list_elem_of_fmap. split; [by exists a|]. by intros (b & [= _ ->] & ?).
  - rewrite <-list_fmap_compose. done.
Qed.

Lemma keyed_map_dom l k : is_Some (keyed_map l !! k) ↔ k ∈ key <$> l.
Proof.
  unfold keyed_map. rewrite <-elem_of_dom, dom_list_to_map, elem_of_list_to_set, <-list_fmap_compose. done.
Qed.

Lemma keyed_map_upsert l x : keyed_map (upsert (key_is (key x)) x l) = <[key x := x]> (keyed_map l).
Proof.
  apply map_eq. intros k. rewrite keyed_map_lookup. destruct (decide (key x = k)) as [<-|Hne].
  - rewrite lookup_insert_eq. apply find_upsert_hit. unfold key_is. by case_bool_decide.
  - rewrite lookup_insert_ne, keyed_map_lookup by done.
    apply find_upsert_miss; unfold key_is; [by case_bool_decide|].
    intros a. rewrite bool_decide_eq_true, bool_decide_eq_false. congruence.
Qed.

Lemma keyed_map_filter l k :
  keyed_map (filter (λ a, key a ≠ k) l) = delete k (keyed_map l).
Proof.
  apply map_eq. intros k'. rewrite keyed_map_lookup.
  destruct (decide (k = k')) as [<-|Hne].
  - rewrite lookup_delete_eq. apply find_first_None. intros a [Ha _]%list_elem_of_filter.
    unfold key_is. by case_bool_decide.
  - rewrite lookup_delete_ne, keyed_map_lookup by done.
    induction l as [|a l IH]; [done|]. rewrite filter_cons. unfold key_is in *.
    case_decide; simpl; [by rewrite IH|]. rewrite IH. case_bool_decide; naive_solver.
Qed.

Lemma delete_first_filter l k :
  NoDup (key <$> l) → delete_first (key_is k) l = filter (λ a, key a ≠ k) l.
Proof.
  induction l as [|a l IH]; cbn [delete_first fmap list_fmap]; [done|].
  intros [Ha Hl]%NoDup_cons. rewrite filter_cons. unfold key_is at 1.
  case_bool_decide as E.
  - rewrite decide_False by naive_solver. symmetry. apply filter_all.
    apply Forall_forall. intros b Hb Hk. apply Ha. rewrite E, <-Hk.
    by apply list_elem_of_fmap_2.
  - rewrite decide_True by done. by rewrite IH.
Qed.

Lemma NoDup_keys_filter (P : A → Prop) `{∀ a, Decision (P a)} l :
  NoDup (key <$> l) → NoDup (key <$> filter P l).
Proof.
  induction l as [|a l IH]; [done|]. rewrite fmap_cons. intros [Ha Hl]%NoDup_cons.
  rewrite filter_cons. case_decide; [|auto]. rewrite fmap_cons. apply NoDup_cons.
  split; [|auto]. rewrite list_elem_of_fmap in Ha |- *.
  intros (b & Hk & [_ Hb]%list_elem_of_filter). eauto.
Qed.
End keyed.
