(* ===== verification/Types.v ===== *)
(** * API objects

    The Kubernetes objects the operator reads and writes, with the fields its code uses, and
    the custom resources declared under [api/v1beta1].  Go structs are records, string enums
    whose constants are fixed by the API are inductive types, pointers are options, maps are
    finite maps.  A [nil] map or slice and an empty one are the same value, except for the
    slices the code compares with [nil] ([InTreeModulesToRemove], [ModulesLoadingOrder]),
    which are optional lists.  Structs of third-party packages the operator only copies
    ([Probe], [ResourceRequirements], [DeviceSelector], ...) are represented by their JSON
    text. *)

From S2P Require Import Prelude.

Notation labels_t := (gmap string string).

(** ** Kubernetes core *)

(** [m[k]] in Go: the zero value when the key is absent. *)
Definition map_get (m : gmap string string) (k : string) : string :=
  default "" (m !! k).

Record NamespacedName := { nsn_Namespace : string; nsn_Name : string }.

#[export] Instance NamespacedName_eq_dec : EqDecision NamespacedName.
Proof. solve_decision. Defined.

#[export] Instance NamespacedName_countable : Countable NamespacedName.
Proof.
  refine (inj_countable' (λ n, (nsn_Namespace n, nsn_Name n))
            (λ p, {| nsn_Namespace := p.1; nsn_Name := p.2 |}) _).
  by intros [].
Defined.

Record OwnerReference := {
  or_APIVersion : string;
  or_Kind : string;
  or_Name : string;
  or_UID : string;
  or_Controller : bool;
}.

#[export] Instance OwnerReference_eq_dec : EqDecision OwnerReference.
Proof. solve_decision. Defined.

(** [DeletionTimestamp] is a time in seconds when set; [CreationTimestamp] is kept as the text
    the operator prints. *)
Record ObjectMeta := {
  om_Name : string;
  om_GenerateName : string;
  om_Namespace : string;
  om_UID : string;
  om_Generation : Z;
  om_CreationTimestamp : string;
  om_Labels : labels_t;
  om_Annotations : gmap string string;
  om_Finalizers : list string;
  om_OwnerReferences : list OwnerReference;
  om_DeletionTimestamp : option Z;
}.

#[export] Instance ObjectMeta_eq_dec : EqDecision ObjectMeta.
Proof. solve_decision. Defined.

Definition empty_meta (ns name : string) : ObjectMeta :=
  {| om_Name := name; om_GenerateName := ""; om_Namespace := ns; om_UID := "";
     om_Generation := 0%Z; om_CreationTimestamp := "";
     om_Labels := ∅; om_Annotations := ∅; om_Finalizers := [];
     om_OwnerReferences := []; om_DeletionTimestamp := None |}.

Definition meta_key (m : ObjectMeta) : NamespacedName :=
  {| nsn_Namespace := om_Namespace m; nsn_Name := om_Name m |}.

Definition meta_set_labels (m : ObjectMeta) (l : labels_t) : ObjectMeta :=
  {| om_Name := om_Name m; om_GenerateName := om_GenerateName m;
     om_Namespace := om_Namespace m; om_UID := om_UID m;
     om_Generation := om_Generation m; om_CreationTimestamp := om_CreationTimestamp m;
     om_Labels := l; om_Annotations := om_Annotations m;
     om_Finalizers := om_Finalizers m; om_OwnerReferences := om_OwnerReferences m;
     om_DeletionTimestamp := om_DeletionTimestamp m |}.

Definition meta_set_annotations (m : ObjectMeta) (a : gmap string string) : ObjectMeta :=
  {| om_Name := om_Name m; om_GenerateName := om_GenerateName m;
     om_Namespace := om_Namespace m; om_UID := om_UID m;
     om_Generation := om_Generation m; om_CreationTimestamp := om_CreationTimestamp m;
     om_Labels := om_Labels m; om_Annotations := a;
     om_Finalizers := om_Finalizers m; om_OwnerReferences := om_OwnerReferences m;
     om_DeletionTimestamp := om_DeletionTimestamp m |}.

Definition meta_set_finalizers (m : ObjectMeta) (f : list string) : ObjectMeta :=
  {| om_Name := om_Name m; om_GenerateName := om_GenerateName m;
     om_Namespace := om_Namespace m; om_UID := om_UID m;
     om_Generation := om_Generation m; om_CreationTimestamp := om_CreationTimestamp m;
     om_Labels := om_Labels m; om_Annotations := om_Annotations m;
     om_Finalizers := f; om_OwnerReferences := om_OwnerReferences m;
     om_DeletionTimestamp := om_DeletionTimestamp m |}.

Definition meta_set_owners (m : ObjectMeta) (o : list OwnerReference) : ObjectMeta :=
  {| om_Name := om_Name m; om_GenerateName := om_GenerateName m;
     om_Namespace := om_Namespace m; om_UID := om_UID m;
     om_Generation := om_Generation m; om_CreationTimestamp := om_CreationTimestamp m;
     om_Labels := om_Labels m; om_Annotations := om_Annotations m;
     om_Finalizers := om_Finalizers m; om_OwnerReferences := o;
     om_DeletionTimestamp := om_DeletionTimestamp m |}.

(** [v1.LocalObjectReference]: the name of a secret or config map. *)
Definition LocalObjectReference := string.

Record Taint := { taint_Key : string; taint_Value : string; taint_Effect : string }.

Record Toleration := {
  tol_Key : string;
  tol_Operator : string;
  tol_Value : string;
  tol_Effect : string;
  tol_Seconds : option Z;
}.

#[export] Instance Taint_eq_dec : EqDecision Taint.
Proof. solve_decision. Defined.
#[export] Instance Toleration_eq_dec : EqDecision Toleration.
Proof. solve_decision. Defined.

Definition TaintEffectNoSchedule := "NoSchedule".
Definition TaintEffectPreferNoSchedule := "PreferNoSchedule".
Definition TaintEffectNoExecute := "NoExecute".
Definition TolerationOpExists := "Exists".
Definition TolerationOpEqual := "Equal".

Record NodeCondition := { nc_Type : string; nc_Status : string }.

Definition NodeReady := "Ready".
Definition ConditionTrue := "True".
Definition ConditionUnknown := "Unknown".

(** [ni_Other] and [node_SpecOther] are the JSON text of the fields the operator only compares. *)
Record NodeSystemInfo := { ni_BootID : string; ni_KernelVersion : string; ni_Other : string }.

#[export] Instance NodeCondition_eq_dec : EqDecision NodeCondition.
Proof. solve_decision. Defined.
#[export] Instance NodeSystemInfo_eq_dec : EqDecision NodeSystemInfo.
Proof. solve_decision. Defined.

Record Node := {
  node_meta : ObjectMeta;
  node_Taints : list Taint;
  node_SpecOther : string;
  node_Conditions : list NodeCondition;
  node_NodeInfo : NodeSystemInfo;
}.

Inductive PodPhase :=
| PodPhaseUnset
| PodPending
| PodRunning
| PodSucceeded
| PodFailed
| PodUnknown.

#[export] Instance PodPhase_eq_dec : EqDecision PodPhase.
Proof. solve_decision. Defined.

Inductive VolumeSource :=
| VolDownwardAPI (items : list (string * string))
| VolHostPath (path : string) (type : string)
| VolEmptyDir
| VolConfigMap (name : string) (items : list (string * string))
| VolSecret (name : string) (items : list (string * string))
| VolOther (json : string).

Record Volume := { vol_Name : string; vol_Source : VolumeSource }.

Record VolumeMount := {
  vm_Name : string;
  vm_MountPath : string;
  vm_SubPath : string;
  vm_ReadOnly : bool;
}.

Record SecurityContext := {
  sc_Privileged : option bool;
  sc_CapabilitiesAdd : list string;
  sc_SELinuxType : option string;
  sc_RunAsUser : option Z;
}.

Inductive EnvVar :=
| EnvValue (name value : string)
| EnvFieldRef (name fieldPath : string).

(** A gRPC probe, and any other probe a user writes. *)
Inductive Probe :=
| ProbeGRPC (port : Z) (service : string) (initialDelaySeconds periodSeconds timeoutSeconds failureThreshold : Z)
| ProbeOther (json : string).

#[export] Instance Probe_eq_dec : EqDecision Probe.
Proof. solve_decision. Defined.

Record Container := {
  ct_Name : string;
  ct_Image : string;
  ct_ImagePullPolicy : string;
  ct_Command : list string;
  ct_Args : list string;
  ct_Env : list EnvVar;
  ct_Resources : string;
  ct_SecurityContext : option SecurityContext;
  ct_VolumeMounts : list VolumeMount;
  ct_LivenessProbe : option Probe;
  ct_StartupProbe : option Probe;
}.

#[export] Instance VolumeSource_eq_dec : EqDecision VolumeSource.
Proof. solve_decision. Defined.
#[export] Instance Volume_eq_dec : EqDecision Volume.
Proof. solve_decision. Defined.
#[export] Instance VolumeMount_eq_dec : EqDecision VolumeMount.
Proof. solve_decision. Defined.
#[export] Instance SecurityContext_eq_dec : EqDecision SecurityContext.
Proof. solve_decision. Defined.
#[export] Instance EnvVar_eq_dec : EqDecision EnvVar.
Proof. solve_decision. Defined.
#[export] Instance Container_eq_dec : EqDecision Container.
Proof. solve_decision. Defined.

Record PodSpec := {
  ps_InitContainers : list Container;
  ps_Containers : list Container;
  ps_NodeName : string;
  ps_NodeSelector : labels_t;
  ps_RestartPolicy : string;
  ps_ServiceAccountName : string;
  ps_ImagePullSecrets : list LocalObjectReference;
  ps_Volumes : list Volume;
  ps_Tolerations : list Toleration;
  ps_PriorityClassName : string;
  ps_AutomountServiceAccountToken : option bool;
  ps_HostNetwork : bool;
}.

Record ContainerStatus := {
  cs_Name : string;
  cs_RestartCount : Z;
  cs_WaitingReason : option string;
}.

#[export] Instance ContainerStatus_eq_dec : EqDecision ContainerStatus.
Proof. solve_decision. Defined.

(** [pod_Ready] stands for the Ready condition that [podutils.IsPodReady] reads. *)
Record PodStatus := {
  pst_Phase : PodPhase;
  pst_ContainerStatuses : list ContainerStatus;
  pst_Ready : bool;
}.

Record Pod := {
  pod_meta : ObjectMeta;
  pod_spec : PodSpec;
  pod_status : PodStatus;
}.

Definition pod_Name (p : Pod) : string := om_Name (pod_meta p).
Definition pod_Namespace (p : Pod) : string := om_Namespace (pod_meta p).
Definition pod_Labels (p : Pod) : labels_t := om_Labels (pod_meta p).
Definition pod_Annotations (p : Pod) : gmap string string := om_Annotations (pod_meta p).
Definition pod_Phase (p : Pod) : PodPhase := pst_Phase (pod_status p).

Definition pod_set_meta (p : Pod) (m : ObjectMeta) : Pod :=
  {| pod_meta := m; pod_spec := pod_spec p; pod_status := pod_status p |}.
Definition pod_set_spec (p : Pod) (s : PodSpec) : Pod :=
  {| pod_meta := pod_meta p; pod_spec := s; pod_status := pod_status p |}.
Definition pod_set_finalizers (p : Pod) (f : list string) : Pod :=
  pod_set_meta p (meta_set_finalizers (pod_meta p) f).
Definition pod_set_annotations (p : Pod) (a : gmap string string) : Pod :=
  pod_set_meta p (meta_set_annotations (pod_meta p) a).
Definition pod_set_labels (p : Pod) (l : labels_t) : Pod :=
  pod_set_meta p (meta_set_labels (pod_meta p) l).

Definition node_Name (n : Node) : string := om_Name (node_meta n).
Definition node_Labels (n : Node) : labels_t := om_Labels (node_meta n).
Definition node_set_labels (n : Node) (l : labels_t) : Node :=
  {| node_meta := meta_set_labels (node_meta n) l; node_Taints := node_Taints n; node_SpecOther := node_SpecOther n;
     node_Conditions := node_Conditions n; node_NodeInfo := node_NodeInfo n |}.

Record Namespace := { ns_meta : ObjectMeta }.

(** DaemonSets of the apps API: the pod template's labels, finalizers and specification, and the
    counters of the status (int32). *)
Record PodTemplateSpec := {
  pts_Labels : labels_t;
  pts_Finalizers : list string;
  pts_Spec : PodSpec;
}.

Record DaemonSetSpec := {
  dsp_MatchLabels : labels_t;
  dsp_Template : PodTemplateSpec;
}.

Record DaemonSet := {
  ds_meta : ObjectMeta;
  ds_spec : DaemonSetSpec;
  ds_status_DesiredNumberScheduled : Z;
  ds_status_NumberAvailable : Z;
}.

Definition ds_Name (d : DaemonSet) : string := om_Name (ds_meta d).
Definition ds_Namespace (d : DaemonSet) : string := om_Namespace (ds_meta d).
Definition ds_Labels (d : DaemonSet) : labels_t := om_Labels (ds_meta d).
Definition ds_set (d : DaemonSet) (m : ObjectMeta) (s : DaemonSetSpec) : DaemonSet :=
  {| ds_meta := m; ds_spec := s; ds_status_DesiredNumberScheduled := ds_status_DesiredNumberScheduled d;
     ds_status_NumberAvailable := ds_status_NumberAvailable d |}.

(** DeviceClasses of the resource API; selectors and configurations are opaque. *)
Record DeviceClass := {
  dcl_meta : ObjectMeta;
  dcl_Selectors : list string;
  dcl_Config : list string;
}.

(** Data of config maps and secrets; a secret's values are byte strings. *)
Record ConfigMap := { cm_meta : ObjectMeta; cm_Data : gmap string string }.
Record Secret := { sec_meta : ObjectMeta; sec_Data : gmap string string }.

(** ** Custom resources: Module *)

Record TLSOptions := { tls_Insecure : bool; tls_InsecureSkipTLSVerify : bool }.

Record BuildArg := { ba_Name : string; ba_Value : string }.

Record Build := {
  build_BuildArgs : list BuildArg;
  build_DockerfileConfigMap : option LocalObjectReference;
  build_BaseImageRegistryTLS : TLSOptions;
  build_Secrets : list LocalObjectReference;
  build_KanikoTag : option string;
  build_Selector : labels_t;
}.

Record Sign := {
  sign_UnsignedImage : string;
  sign_UnsignedImageRegistryTLS : TLSOptions;
  sign_KeySecret : option LocalObjectReference;
  sign_CertSecret : option LocalObjectReference;
  sign_FilesToSign : list string;
}.

#[export] Instance TLSOptions_eq_dec : EqDecision TLSOptions.
Proof. solve_decision. Defined.
#[export] Instance BuildArg_eq_dec : EqDecision BuildArg.
Proof. solve_decision. Defined.
#[export] Instance Build_eq_dec : EqDecision Build.
Proof. solve_decision. Defined.
#[export] Instance Sign_eq_dec : EqDecision Sign.
Proof. solve_decision. Defined.

Record KernelMapping := {
  km_Build : option Build;
  km_Sign : option Sign;
  km_ContainerImage : string;
  km_Literal : string;
  km_RegistryTLS : option TLSOptions;
  km_Regexp : string;
  km_InTreeModuleToRemove : string;
  km_InTreeModulesToRemove : option (list string);
}.

Record ModprobeArgs := { ma_Load : list string; ma_Unload : list string }.

#[export] Instance ModprobeArgs_eq_dec : EqDecision ModprobeArgs.
Proof. solve_decision. Defined.

Record ModprobeSpec := {
  mp_ModuleName : string;
  mp_Parameters : list string;
  mp_DirName : string;
  mp_Args : option ModprobeArgs;
  mp_RawArgs : option ModprobeArgs;
  mp_FirmwarePath : string;
  mp_ModprobedDir : string;
  mp_ModulesLoadingOrder : option (list string);
}.

#[export] Instance ModprobeSpec_eq_dec : EqDecision ModprobeSpec.
Proof. solve_decision. Defined.
#[export] Instance KernelMapping_eq_dec : EqDecision KernelMapping.
Proof. solve_decision. Defined.

Record ModuleLoaderContainerSpec := {
  mlc_Build : option Build;
  mlc_Sign : option Sign;
  mlc_Version : string;
  mlc_ContainerImage : string;
  mlc_ImagePullPolicy : string;
  mlc_KernelMappings : list KernelMapping;
  mlc_Modprobe : ModprobeSpec;
  mlc_RegistryTLS : TLSOptions;
  mlc_InTreeModuleToRemove : string;
  mlc_InTreeModulesToRemove : option (list string);
}.

Record ModuleLoaderSpec := {
  ml_Container : ModuleLoaderContainerSpec;
  ml_ServiceAccountName : string;
}.

Record CommonContainerSpec := {
  cc_Command : list string;
  cc_Args : list string;
  cc_Env : list EnvVar;
  cc_Image : string;
  cc_ImagePullPolicy : string;
  cc_Resources : string;
  cc_VolumeMounts : list VolumeMount;
  cc_StartupProbe : option Probe;
  cc_LivenessProbe : option Probe;
  cc_SecurityContext : option SecurityContext;
}.

Record DevicePluginSpec := {
  dp_Container : CommonContainerSpec;
  dp_InitContainer : option CommonContainerSpec;
  dp_ServiceAccountName : string;
  dp_Volumes : list Volume;
  dp_AutomountServiceAccountToken : option bool;
}.

Record DeviceClassSpec := {
  dc_Name : string;
  dc_Selectors : list string;
  dc_Config : list string;
}.

Record DRASpec := {
  dra_Container : CommonContainerSpec;
  dra_InitContainer : option CommonContainerSpec;
  dra_ServiceAccountName : string;
  dra_Volumes : list Volume;
  dra_AutomountServiceAccountToken : option bool;
  dra_DriverName : string;
  dra_DeviceClasses : list DeviceClassSpec;
}.

Record ModuleSpec := {
  ms_DevicePlugin : option DevicePluginSpec;
  ms_DRA : option DRASpec;
  ms_ModuleLoader : option ModuleLoaderSpec;
  ms_ImageRepoSecret : option LocalObjectReference;
  ms_Selector : labels_t;
  ms_Tolerations : list Toleration;
  ms_ImageRebuildTriggerGeneration : option Z;
}.

(** Counters are Go [int32]. *)
Record DaemonSetStatus := {
  dss_NodesMatchingSelectorNumber : Z;
  dss_DesiredNumber : Z;
  dss_AvailableNumber : Z;
}.

#[export] Instance DaemonSetStatus_eq_dec : EqDecision DaemonSetStatus.
Proof. solve_decision. Defined.

(** [int32(n)]: two's complement truncation. *)
Definition int32 (n : Z) : Z := ((n + 2 ^ 31) mod 2 ^ 32 - 2 ^ 31)%Z.

Lemma int32_id n : (- 2 ^ 31 ≤ n < 2 ^ 31)%Z → int32 n = n.
Proof. intros H. unfold int32. rewrite Z.mod_small; lia. Qed.

Lemma int32_range n : (- 2 ^ 31 ≤ int32 n < 2 ^ 31)%Z.
Proof. unfold int32. pose proof (Z.mod_pos_bound (n + 2 ^ 31) (2 ^ 32)). lia. Qed.

Record ModuleStatus := {
  mst_DevicePlugin : DaemonSetStatus;
  mst_DRA : DaemonSetStatus;
  mst_ModuleLoader : DaemonSetStatus;
  mst_ImageRebuildTriggerGeneration : option Z;
}.

Record Module_ := {
  mod_meta : ObjectMeta;
  mod_spec : ModuleSpec;
  mod_status : ModuleStatus;
}.

Definition mod_Name (m : Module_) : string := om_Name (mod_meta m).
Definition mod_Namespace (m : Module_) : string := om_Namespace (mod_meta m).
Definition mod_set_meta (m : Module_) (om : ObjectMeta) : Module_ :=
  {| mod_meta := om; mod_spec := mod_spec m; mod_status := mod_status m |}.
Definition mod_set_status (m : Module_) (s : ModuleStatus) : Module_ :=
  {| mod_meta := mod_meta m; mod_spec := mod_spec m; mod_status := s |}.

(** ** Custom resources: NodeModulesConfig *)

Record ModuleConfig := {
  mc_KernelVersion : string;
  mc_ContainerImage : string;
  mc_ImagePullPolicy : string;
  mc_InsecurePull : bool;
  mc_InTreeModulesToRemove : option (list string);
  mc_InTreeModuleToRemove : string;
  mc_Modprobe : ModprobeSpec;
}.

#[export] Instance ModuleConfig_eq_dec : EqDecision ModuleConfig.
Proof. solve_decision. Defined.

Record ModuleItem := {
  mi_ImageRepoSecret : option LocalObjectReference;
  mi_Name : string;
  mi_Namespace : string;
  mi_ServiceAccountName : string;
  mi_Tolerations : list Toleration;
  mi_Version : string;
}.

Record NodeModuleSpec := { nms_item : ModuleItem; nms_Config : ModuleConfig }.

Record NodeModuleStatus := {
  nmst_item : ModuleItem;
  nmst_Config : ModuleConfig;
  nmst_BootId : string;
}.

#[export] Instance ModuleItem_eq_dec : EqDecision ModuleItem.
Proof. solve_decision. Defined.
#[export] Instance NodeModuleSpec_eq_dec : EqDecision NodeModuleSpec.
Proof. solve_decision. Defined.
#[export] Instance NodeModuleStatus_eq_dec : EqDecision NodeModuleStatus.
Proof. solve_decision. Defined.

Record NodeModulesConfig := {
  nmc_meta : ObjectMeta;
  nmc_spec_Modules : list NodeModuleSpec;
  nmc_status_Modules : list NodeModuleStatus;
}.

Definition nmc_Name (n : NodeModulesConfig) : string := om_Name (nmc_meta n).
Definition nmc_Labels (n : NodeModulesConfig) : labels_t := om_Labels (nmc_meta n).
Definition nmc_set_spec (n : NodeModulesConfig) (l : list NodeModuleSpec) : NodeModulesConfig :=
  {| nmc_meta := nmc_meta n; nmc_spec_Modules := l;
     nmc_status_Modules := nmc_status_Modules n |}.
Definition nmc_set_status (n : NodeModulesConfig) (l : list NodeModuleStatus) : NodeModulesConfig :=
  {| nmc_meta := nmc_meta n; nmc_spec_Modules := nmc_spec_Modules n;
     nmc_status_Modules := l |}.
Definition nmc_set_labels (n : NodeModulesConfig) (l : labels_t) : NodeModulesConfig :=
  {| nmc_meta := meta_set_labels (nmc_meta n) l; nmc_spec_Modules := nmc_spec_Modules n;
     nmc_status_Modules := nmc_status_Modules n |}.

(** The key under which spec and status entries are looked up. *)
Definition item_key (i : ModuleItem) : NamespacedName :=
  {| nsn_Namespace := mi_Namespace i; nsn_Name := mi_Name i |}.
Definition nms_key (s : NodeModuleSpec) : NamespacedName := item_key (nms_item s).
Definition nmst_key (s : NodeModuleStatus) : NamespacedName := item_key (nmst_item s).

(** ** Custom resources: ModuleImagesConfig and ModuleBuildSignConfig *)

(** [ImageStateUnset] is the empty string. *)
Inductive ImageState :=
| ImageStateUnset
| ImageExists
| ImageDoesNotExist
| ImageNeedsBuilding
| ImageNeedsSigning.

#[export] Instance ImageState_eq_dec : EqDecision ImageState.
Proof. solve_decision. Defined.

Record ModuleImageSpec := {
  mis_Image : string;
  mis_KernelVersion : string;
  mis_Build : option Build;
  mis_Sign : option Sign;
  mis_SkipWaitMissingImage : bool;
  mis_RegistryTLS : option TLSOptions;
  mis_DirName : string;
}.

#[export] Instance ModuleImageSpec_eq_dec : EqDecision ModuleImageSpec.
Proof. solve_decision. Defined.

Record ModuleImagesConfigSpec := {
  mics_Images : list ModuleImageSpec;
  mics_ImageRepoSecret : option LocalObjectReference;
  mics_ImagePullPolicy : string;
  mics_PushBuiltImage : bool;
  mics_ImageRebuildTriggerGeneration : option Z;
  mics_Tolerations : list Toleration;
}.

Record ModuleImageState := { mist_Image : string; mist_Status : ImageState }.

Record ModuleImagesConfigStatus := {
  micst_ImagesStates : list ModuleImageState;
  micst_ImageRebuildTriggerGeneration : option Z;
}.

Record ModuleImagesConfig := {
  mic_meta : ObjectMeta;
  mic_spec : ModuleImagesConfigSpec;
  mic_status : ModuleImagesConfigStatus;
}.

Definition mic_Name (m : ModuleImagesConfig) : string := om_Name (mic_meta m).
Definition mic_Namespace (m : ModuleImagesConfig) : string := om_Namespace (mic_meta m).
Definition mic_set_status (m : ModuleImagesConfig) (s : ModuleImagesConfigStatus) : ModuleImagesConfig :=
  {| mic_meta := mic_meta m; mic_spec := mic_spec m; mic_status := s |}.
Definition mic_set_spec (m : ModuleImagesConfig) (s : ModuleImagesConfigSpec) : ModuleImagesConfig :=
  {| mic_meta := mic_meta m; mic_spec := s; mic_status := mic_status m |}.

Inductive BuildOrSignAction := BuildImage | SignImage.

(** [ActionUnset] is the empty string. *)
Inductive BuildOrSignStatus := ActionUnset | ActionSuccess | ActionFailure.

#[export] Instance BuildOrSignAction_eq_dec : EqDecision BuildOrSignAction.
Proof. solve_decision. Defined.
#[export] Instance BuildOrSignStatus_eq_dec : EqDecision BuildOrSignStatus.
Proof. solve_decision. Defined.

Record ModuleBuildSignSpec := {
  mbs_spec : ModuleImageSpec;
  mbs_Action : BuildOrSignAction;
}.

Record ModuleBuildSignConfigSpec := {
  mbscs_Images : list ModuleBuildSignSpec;
  mbscs_ImageRepoSecret : option LocalObjectReference;
  mbscs_PushBuiltImage : bool;
  mbscs_Tolerations : list Toleration;
}.

Record BuildSignImageState := {
  bsi_Image : string;
  bsi_Status : BuildOrSignStatus;
  bsi_Action : BuildOrSignAction;
}.

Record ModuleBuildSignConfig := {
  mbsc_meta : ObjectMeta;
  mbsc_spec : ModuleBuildSignConfigSpec;
  mbsc_status_Images : list BuildSignImageState;
}.

Definition mbsc_Name (m : ModuleBuildSignConfig) : string := om_Name (mbsc_meta m).
Definition mbsc_Namespace (m : ModuleBuildSignConfig) : string := om_Namespace (mbsc_meta m).
Definition mbsc_set_status (m : ModuleBuildSignConfig) (s : list BuildSignImageState) : ModuleBuildSignConfig :=
  {| mbsc_meta := mbsc_meta m; mbsc_spec := mbsc_spec m; mbsc_status_Images := s |}.

(** ** Hub: ManagedClusterModule ([api-hub/v1beta1/managedclustermodule_types.go]) *)

Record ManagedClusterModuleSpec := {
  mcms_ModuleSpec : ModuleSpec;
  mcms_SpokeNamespace : string;
  mcms_Selector : labels_t;
}.

(** Counters of type int32. *)
Record ManagedClusterModuleStatus := {
  mcmst_NumberDesired : Z;
  mcmst_NumberApplied : Z;
  mcmst_NumberDegraded : Z;
}.

Record ManagedClusterModule := {
  mcm_meta : ObjectMeta;
  mcm_spec : ManagedClusterModuleSpec;
  mcm_status : ManagedClusterModuleStatus;
}.

Definition mcm_Name (m : ManagedClusterModule) : string := om_Name (mcm_meta m).
Definition mcm_set_spec (m : ManagedClusterModule) (s : ManagedClusterModuleSpec) : ManagedClusterModule :=
  {| mcm_meta := mcm_meta m; mcm_spec := s; mcm_status := mcm_status m |}.
Definition mcm_set_status (m : ManagedClusterModule) (s : ManagedClusterModuleStatus) : ManagedClusterModule :=
  {| mcm_meta := mcm_meta m; mcm_spec := mcm_spec m; mcm_status := s |}.

(** ** Open Cluster Management: clusters, claims and manifest works *)

Record ManagedClusterClaim := { mcc_Name : string; mcc_Value : string }.

#[export] Instance ManagedClusterClaim_eq_dec : EqDecision ManagedClusterClaim.
Proof. solve_decision. Defined.

Record ManagedCluster := {
  mcl_meta : ObjectMeta;
  mcl_ClusterClaims : list ManagedClusterClaim;
}.

Record ClusterClaim := { clc_meta : ObjectMeta; clc_Value : string }.

Record JsonPath := { jp_Name : string; jp_Path : string }.

Record ResourceIdentifier := {
  ri_Group : string;
  ri_Resource : string;
  ri_Name : string;
  ri_Namespace : string;
}.

Record ManifestConfigOption := {
  mco_ResourceIdentifier : ResourceIdentifier;
  mco_JsonPaths : list JsonPath;
}.

(** The manifests the operator writes are Modules; [mws_Other] is the text of the fields it
    leaves at their zero value. *)
Record ManifestWorkSpec := {
  mws_Manifests : list Module_;
  mws_ManifestConfigs : list ManifestConfigOption;
  mws_Other : string;
}.

Record Condition := { cond_Type : string; cond_Status : string }.

Definition WorkApplied := "Applied".
Definition WorkDegraded := "Degraded".

Record ManifestWork := {
  mw_meta : ObjectMeta;
  mw_spec : ManifestWorkSpec;
  mw_Conditions : list Condition;
}.

Definition mw_Namespace (m : ManifestWork) : string := om_Namespace (mw_meta m).

(** ** PreflightValidation ([api/v1beta2/preflightvalidation_types.go]) *)

Record CRBaseStatus := {
  crs_VerificationStatus : string;
  crs_StatusReason : string;
  crs_VerificationStage : string;
  crs_LastTransitionTime : Z;
}.

Record PreflightValidationModuleStatus := {
  pvm_base : CRBaseStatus;
  pvm_Name : string;
  pvm_Namespace : string;
}.

Record PreflightValidationSpec := {
  pvs_KernelVersion : string;
  pvs_PushBuiltImage : bool;
}.

Record PreflightValidation := {
  pv_meta : ObjectMeta;
  pv_spec : PreflightValidationSpec;
  pv_status_Modules : list PreflightValidationModuleStatus;
}.

Definition pv_set_modules (pv : PreflightValidation) (l : list PreflightValidationModuleStatus) : PreflightValidation :=
  {| pv_meta := pv_meta pv; pv_spec := pv_spec pv; pv_status_Modules := l |}.

(** ** Internal data: [internal/api/moduleloaderdata.go] *)

Record ModuleLoaderData := {
  mld_KernelVersion : string;
  mld_KernelNormalizedVersion : string;
  mld_ImageRepoSecret : option LocalObjectReference;
  mld_Selector : labels_t;
  mld_Name : string;
  mld_Namespace : string;
  mld_ServiceAccountName : string;
  mld_Build : option Build;
  mld_Sign : option Sign;
  mld_ModuleVersion : string;
  mld_ContainerImage : string;
  mld_ImagePullPolicy : string;
  mld_Modprobe : ModprobeSpec;
  mld_RegistryTLS : option TLSOptions;
  mld_InTreeModulesToRemove : option (list string);
  mld_OwnerUID : string;
  mld_Tolerations : list Toleration;
}.
