(* ===== verification/Kube.v ===== *)
(** * The Kubernetes API as an effect

    The controllers talk to the cluster only through controller-runtime's [client.Client], an
    event recorder and the clock, and the worker binary to the operating system of its node;
    none of them is part of this repository.  A handler is therefore modelled as a program
    over the calls of those interfaces, and nothing is assumed about what they answer: [wp p Q] says that [Q] holds of the trace and of the result of [p] for
    {e every} sequence of answers.  [only_calls P p] restricts the calls a program can make;
    [run] executes a program against a concrete server. *)

From S2P Require Import Prelude Types.

(** ** Objects and calls *)

Inductive kind := KNode | KPod | KNamespace | KModule | KNMC | KMIC | KMBSC | KConfigMap | KSecret | KDaemonSet | KDeviceClass
| KMCM | KManagedCluster | KManifestWork | KClusterClaim | KPreflight.

#[export] Instance kind_eq_dec : EqDecision kind.
Proof. solve_decision. Defined.

Definition obj (k : kind) : Type :=
  match k with
  | KNode => Node
  | KPod => Pod
  | KNamespace => Namespace
  | KModule => Module_
  | KNMC => NodeModulesConfig
  | KMIC => ModuleImagesConfig
  | KMBSC => ModuleBuildSignConfig
  | KConfigMap => ConfigMap
  | KSecret => Secret
  | KDaemonSet => DaemonSet
  | KDeviceClass => DeviceClass
  | KMCM => ManagedClusterModule
  | KManagedCluster => ManagedCluster
  | KManifestWork => ManifestWork
  | KClusterClaim => ClusterClaim
  | KPreflight => PreflightValidation
  end.

Definition obj_meta (k : kind) : obj k → ObjectMeta :=
  match k with
  | KNode => node_meta
  | KPod => pod_meta
  | KNamespace => ns_meta
  | KModule => mod_meta
  | KNMC => nmc_meta
  | KMIC => mic_meta
  | KMBSC => mbsc_meta
  | KConfigMap => cm_meta
  | KSecret => sec_meta
  | KDaemonSet => ds_meta
  | KDeviceClass => dcl_meta
  | KMCM => mcm_meta
  | KManagedCluster => mcl_meta
  | KManifestWork => mw_meta
  | KClusterClaim => clc_meta
  | KPreflight => pv_meta
  end.

Definition obj_key (k : kind) (o : obj k) : NamespacedName := meta_key (obj_meta k o).

(** List options of controller-runtime's client. *)
Inductive ListOption :=
| MatchingLabels (m : labels_t)
| HasLabels (ks : list string)
| InNamespace (ns : string)
| MatchingFields (field value : string)
| LabelIn (key : string) (values : list string).

(** The worker's calls to the operating system and to the copy library.  [WalkDir] answers the
    sequence of visits [filepath.Walk] and [filepath.WalkDir] make below a root; a directory
    entry carries what its [Info] method answers (whether the file is regular).  A command is
    started, its two outputs are read to the end by two goroutines (the flag says which one
    finished first), and then waited for. *)
Record WalkEntry := { we_Path : string; we_Name : string; we_IsDir : bool; we_Err : option error }.
Record DirEntry := { de_Name : string; de_Regular : result bool }.

Inductive oscall :=
| ReadFile (path : string)
| WriteFile (path content : string)
| ReadDir (path : string)
| MkdirAll (path : string)
| CopyTree (src dst : string)
| WalkDir (root : string)
| RemoveFile (path : string)
| StderrPipe (cmd : list string)
| StdoutPipe (cmd : list string)
| StartCommand (cmd : list string)
| ReadOutputs (cmd : list string)
| WaitCommand (cmd : list string).

Definition os_resp (c : oscall) : Type :=
  match c with
  | ReadFile _ => result string
  | WriteFile _ _ | MkdirAll _ | CopyTree _ _ | RemoveFile _ => option error
  | ReadDir _ => result (list DirEntry)
  | WalkDir _ => list WalkEntry
  | StderrPipe _ | StdoutPipe _ | StartCommand _ | WaitCommand _ => option error
  | ReadOutputs _ => option error * option error * bool
  end.

(** One constructor per client method.  [Patch] carries the object the patch is computed from
    ([client.MergeFrom(base)]) and whether the patch takes an optimistic lock;
    [CreateOrPatch] is [controllerutil.CreateOrPatch] with its mutate function;
    [CreateOrPatchRan] is the same function for a caller whose mutate function also writes to
    its own memory: the flag of the answer says whether a failed call got as far as running it
    (a successful one always does).  [GetUnstructured] reads the metadata of an object of any
    kind.  [TimeNow] is [time.Now], in nanoseconds. *)
Inductive call :=
| Get (k : kind) (key : NamespacedName)
| ListAll (k : kind) (opts : list ListOption)
| Create (k : kind) (o : obj k)
| Delete (k : kind) (o : obj k)
| Patch (k : kind) (base new : obj k) (optimisticLock : bool)
| StatusPatch (k : kind) (base new : obj k)
| StatusUpdate (k : kind) (o : obj k)
| CreateOrPatch (k : kind) (o : obj k) (mutate : obj k → result (obj k))
| RecordEvent (on : NamespacedName) (reason : string) (args : list string)
| CreateOrPatchRan (k : kind) (o : obj k) (mutate : obj k → result (obj k))
| RecordAnnotatedEvent (on : ObjectMeta) (annotations : gmap string string) (eventType reason fmt : string) (args : list string)
| IsObjectNamespaced (apiVersion kd : string)
| GetUnstructured (apiVersion kd : string) (key : NamespacedName)
| TimeNow
| OS (c : oscall).

Definition resp (c : call) : Type :=
  match c with
  | Get k _ => result (obj k)
  | ListAll k _ => result (list (obj k))
  | Create k _ => result (obj k)
  | Delete _ _ => result ()
  | Patch k _ _ _ => result (obj k)
  | StatusPatch k _ _ => result (obj k)
  | StatusUpdate k _ => result (obj k)
  | CreateOrPatch k _ _ => result (obj k)
  | RecordEvent _ _ _ | RecordAnnotatedEvent _ _ _ _ _ _ => ()
  | CreateOrPatchRan k _ _ => result (obj k) * bool
  | IsObjectNamespaced _ _ => result bool
  | GetUnstructured _ _ _ => result ObjectMeta
  | TimeNow => Z
  | OS c => os_resp c
  end.

(** Calls that can change the cluster. *)
Definition mutates (c : call) : bool :=
  match c with
  | Get _ _ | ListAll _ _ | RecordEvent _ _ _ | RecordAnnotatedEvent _ _ _ _ _ _
  | IsObjectNamespaced _ _ | GetUnstructured _ _ _ | TimeNow | OS _ => false
  | _ => true
  end.

(** ** Programs *)

Inductive prog (R : Type) :=
| Ret (r : R)
| Call (c : call) (k : resp c → prog R).
Arguments Ret {R} r.
Arguments Call {R} c k.

#[export] Instance prog_ret : MRet prog := λ R r, Ret r.
#[export] Instance prog_bind : MBind prog :=
  λ A B f, fix bind (p : prog A) : prog B :=
    match p with
    | Ret a => f a
    | Call c k => Call c (λ x, bind (k x))
    end.

Definition perform (c : call) : prog (resp c) := Call c Ret.

(** A client method that writes the answered object back into its argument; on an error the
    argument keeps the locally modified value. *)
Definition patch (k : kind) (base new : obj k) : prog (obj k * option error) :=
  r ← (perform (Patch k base new false) : prog (result (obj k)));
  mret (match r with Ok o => (o, None) | Err e => (new, Some e) end).

Definition patch_lock (k : kind) (base new : obj k) : prog (obj k * option error) :=
  r ← (perform (Patch k base new true) : prog (result (obj k)));
  mret (match r with Ok o => (o, None) | Err e => (new, Some e) end).

Definition status_patch (k : kind) (base new : obj k) : prog (obj k * option error) :=
  r ← (perform (StatusPatch k base new) : prog (result (obj k)));
  mret (match r with Ok o => (o, None) | Err e => (new, Some e) end).

Definition get (k : kind) (key : NamespacedName) : prog (result (obj k)) :=
  perform (Get k key).
Definition list_all (k : kind) (opts : list ListOption) : prog (result (list (obj k))) :=
  perform (ListAll k opts).
Definition create (k : kind) (o : obj k) : prog (option error) :=
  r ← (perform (Create k o) : prog (result (obj k))); mret (err_of r).
Definition delete_obj (k : kind) (o : obj k) : prog (option error) :=
  r ← (perform (Delete k o) : prog (result ())); mret (err_of r).

(** [for _, a := range l { s = body(a, s) }]. *)
Fixpoint for_range {A S : Type} (l : list A) (body : A → S → prog S) (s : S) : prog S :=
  match l with
  | [] => mret s
  | a :: l => s' ← body a s; for_range l body s'
  end.

(** ** Traces and the behaviour of a program under every server *)

Record obs := Obs { obs_call : call; obs_resp : resp obs_call }.

Fixpoint wp {R} (p : prog R) (Q : list obs → R → Prop) : Prop :=
  match p with
  | Ret r => Q [] r
  | Call c k => ∀ x : resp c, wp (k x) (λ tr r, Q (Obs c x :: tr) r)
  end.

(** The runs of a program: the trace and the result of one sequence of answers. *)
Fixpoint exec {R} (p : prog R) (tr : list obs) (r : R) : Prop :=
  match p with
  | Ret r' => tr = [] ∧ r = r'
  | Call c k => ∃ x tr', tr = Obs c x :: tr' ∧ exec (k x) tr' r
  end.

Section wp.
Implicit Types tr : list obs.

Lemma wp_exec {R} (p : prog R) Q : wp p Q ↔ ∀ tr r, exec p tr r → Q tr r.
Proof.
  revert Q. induction p as [r|c k IH]; intros Q; simpl.
  - naive_solver.
  - setoid_rewrite IH. naive_solver.
Qed.

Lemma wp_mono {R} (p : prog R) (Q Q' : list obs → R → Prop) :
  (∀ tr r, Q tr r → Q' tr r) → wp p Q → wp p Q'.
Proof. rewrite !wp_exec. naive_solver. Qed.

Lemma wp_and {R} (p : prog R) (Q Q' : list obs → R → Prop) :
  wp p Q → wp p Q' → wp p (λ tr r, Q tr r ∧ Q' tr r).
Proof. rewrite !wp_exec. naive_solver. Qed.

Lemma wp_all {R} (p : prog R) (Q : list obs → R → Prop) : (∀ tr r, Q tr r) → wp p Q.
Proof. rewrite wp_exec. auto. Qed.

(** Deleting objects up to the first failure, and whether there was none. *)
Inductive deletes_until (k : kind) : list (obj k) → list obs → bool → Prop :=
| du_all : deletes_until k [] [] true
| du_deleted o u l tr b : deletes_until k l tr b → deletes_until k (o :: l) (Obs (Delete k o) (Ok u) :: tr) b
| du_failed o e l : deletes_until k (o :: l) [Obs (Delete k o) (Err e)] false.

Lemma wp_ret {R} (r : R) (Q : list obs → R → Prop) : Q [] r → wp (mret r) Q.
Proof. done. Qed.

Lemma wp_bind {A B} (p : prog A) (f : A → prog B) (Q : list obs → B → Prop) :
  wp p (λ tr a, wp (f a) (λ tr' b, Q (tr ++ tr') b)) ↔ wp (p ≫= f) Q.
Proof.
  revert Q. induction p as [r|c k IH]; intros Q; simpl.
  - done.
  - split; intros H x.
    + apply IH. apply (H x).
    + apply (IH x (λ tr b, Q (Obs c x :: tr) b)). apply H.
Qed.

(** A loop keeps an invariant on what is left to do, the trace so far and the state. *)
Lemma wp_for_range {A S} (body : A → S → prog S) (I : list A → list obs → S → Prop) l s :
  I l [] s →
  (∀ a l' tr s, I (a :: l') tr s → wp (body a s) (λ tr' s', I l' (tr ++ tr') s')) →
  wp (for_range l body s) (λ tr s', I [] tr s').
Proof.
  intros H0 Hstep.
  cut (∀ tr, I l tr s → wp (for_range l body s) (λ tr' s', I [] (tr ++ tr') s')).
  { intros H. by apply (H []). }
  clear H0. revert s. induction l as [|a l IH]; intros s tr HI; simpl.
  - by rewrite app_nil_r.
  - apply wp_bind. eapply wp_mono; [|exact (Hstep _ _ _ _ HI)].
    intros tr' s' HI'. eapply wp_mono; [|exact (IH _ _ HI')].
    intros tr'' s''. by rewrite app_assoc.
Qed.

End wp.

(** ** The calls a program can make *)

Section only_calls.
Context (P : call → Prop).

(** Every call of every run satisfies [P]. *)
Definition only_calls {R} (p : prog R) : Prop := wp p (λ tr _, Forall (λ o, P (obs_call o)) tr).

Lemma only_calls_ret {R} (r : R) : only_calls (mret r).
Proof. constructor. Qed.

Lemma only_calls_call {R} (c : call) (k : resp c → prog R) :
  P c → (∀ x, only_calls (k x)) → only_calls (Call c k).
Proof.
  intros Hc Hk x. simpl. eapply wp_mono; [|exact (Hk x)]. intros tr r Htr. by constructor.
Qed.

Lemma only_calls_bind {A B} (p : prog A) (f : A → prog B) :
  only_calls p → (∀ a, only_calls (f a)) → only_calls (p ≫= f).
Proof.
  intros Hp Hf. apply wp_bind. eapply wp_mono; [|exact Hp]. intros tr a Htr.
  eapply wp_mono; [|exact (Hf a)]. intros tr' b Htr'. by apply Forall_app.
Qed.

Lemma only_calls_for_range {A S} (l : list A) (body : A → S → prog S) s :
  (∀ a s, a ∈ l → only_calls (body a s)) → only_calls (for_range l body s).
Proof.
  revert s. induction l as [|a l IH]; intros s H; simpl; [apply only_calls_ret|].
  apply only_calls_bind; [apply H; left|]. intros s'. apply IH. intros b t Hb. apply H. by right.
Qed.

Lemma only_calls_if {R} (b : bool) (p q : prog R) :
  only_calls p → only_calls q → only_calls (if b then p else q).
Proof. by destruct b. Qed.
End only_calls.

Lemma only_calls_mono {R} (P Q : call → Prop) (p : prog R) :
  (∀ c, P c → Q c) → only_calls P p → only_calls Q p.
Proof. intros H. apply wp_mono. intros tr _ Htr. eapply Forall_impl; [exact Htr|]. simpl. auto. Qed.

Lemma Forall_obs_call (P : call → Prop) (tr : list obs) :
  Forall (λ o, P (obs_call o)) tr ↔ Forall P (obs_call <$> tr).
Proof. by rewrite Forall_fmap. Qed.

(** Lemmas about the calls of a component's operations. *)
Create HintDb calls.

(** Walk through a program: an operation with a lemma in [calls] is settled by it, every
    other primitive call is left as a goal. *)
Ltac only_calls :=
  repeat first
    [ solve [auto with calls nocore]
    | apply only_calls_ret
    | apply only_calls_bind; [|intros ?]
    | apply only_calls_call; [|intros ?]
    | apply only_calls_for_range; intros ? ? ?
    | match goal with
      | |- only_calls _ (match ?x with _ => _ end) => destruct x
      | |- only_calls _ (let '(_, _) := ?x in _) => destruct x
      end ].

(** ** Executing a program *)

Section run.
Context {W : Type} (serve : ∀ c : call, W → resp c * W).

Fixpoint run {R} (p : prog R) (w : W) : list obs * R * W :=
  match p with
  | Ret r => ([], r, w)
  | Call c k =>
      let '(x, w') := serve c w in
      let '(tr, r, w'') := run (k x) w' in
      (Obs c x :: tr, r, w'')
  end.

Lemma run_exec {R} (p : prog R) w tr r w' : run p w = (tr, r, w') → exec p tr r.
Proof.
  revert w tr. induction p as [r'|c k IH]; intros w tr; simpl.
  - naive_solver.
  - destruct (serve c w) as [x w1]. destruct (run (k x) w1) as [[tr1 r1] w2] eqn:E.
    intros H. simplify_eq. eauto.
Qed.

Lemma run_wp {R} (p : prog R) (Q : list obs → R → Prop) w :
  wp p Q → Q (run p w).1.1 (run p w).1.2.
Proof.
  intros H. destruct (run p w) as [[tr r] w'] eqn:E. simpl.
  apply run_exec in E. rewrite wp_exec in H. auto.
Qed.
End run.

(** ** Trace predicates *)

(** The state-changing calls of a trace, in order. *)
Definition mutations (tr : list obs) : list call :=
  filter (λ c, mutates c = true) (obs_call <$> tr).

Lemma mutations_app tr1 tr2 : mutations (tr1 ++ tr2) = mutations tr1 ++ mutations tr2.
Proof. unfold mutations. by rewrite fmap_app, filter_app. Qed.

Definition is_pod_delete (c : call) : bool :=
  match c with Delete KPod _ => true | _ => false end.
Definition is_pod_create (c : call) : bool :=
  match c with Create KPod _ => true | _ => false end.

(** A call that answered without an error. *)
Definition succeeded (o : obs) : bool :=
  match o with
  | Obs (Get _ _) r => is_ok r
  | Obs (ListAll _ _) r => is_ok r
  | Obs (Create _ _) r => is_ok r
  | Obs (Delete _ _) r => is_ok r
  | Obs (Patch _ _ _ _) r => is_ok r
  | Obs (StatusPatch _ _ _) r => is_ok r
  | Obs (StatusUpdate _ _) r => is_ok r
  | Obs (CreateOrPatch _ _ _) r => is_ok r
  | Obs (CreateOrPatchRan _ _ _) r => is_ok r.1
  | Obs (IsObjectNamespaced _ _) r => is_ok r
  | Obs (GetUnstructured _ _ _) r => is_ok r
  | Obs (RecordEvent _ _ _) _ | Obs (RecordAnnotatedEvent _ _ _ _ _ _) _ | Obs TimeNow _ | Obs (OS _) _ => true
  end.
