(* ===== verification/GoStrings.v ===== *)
(** * Go's strings, path/filepath and fixed regular expressions

    The functions of Go's standard library the operator applies to strings: prefixes and
    suffixes, [strings.Split]/[strings.Join], [strings.Map], [filepath.Clean]/[filepath.Join],
    and the character classes of its compiled-in regular expressions.  A string is a sequence
    of bytes; [strings.Map] and the character classes see one rune per byte, which is what Go
    does on the ASCII strings Kubernetes names, labels and kernel versions are. *)

From S2P Require Import Prelude.

Open Scope string_scope.
Open Scope nat_scope.
Open Scope list_scope.

(** ** Bytes *)

Fixpoint string_forallb (p : ascii → bool) (s : string) : bool :=
  match s with
  | EmptyString => true
  | String c s => p c && string_forallb p s
  end.

Definition byte_in (lo hi c : ascii) : bool :=
  ((nat_of_ascii lo <=? nat_of_ascii c) && (nat_of_ascii c <=? nat_of_ascii hi))%nat.

Definition is_upper (c : ascii) : bool := byte_in "A" "Z" c.
Definition is_lower (c : ascii) : bool := byte_in "a" "z" c.
Definition is_digit (c : ascii) : bool := byte_in "0" "9" c.
Definition is_alnum (c : ascii) : bool := is_upper c || is_lower c || is_digit c.
Definition is_char (d c : ascii) : bool := Ascii.eqb d c.

(** [strings.Map] for a byte-to-byte function. *)
Fixpoint string_map (f : ascii → ascii) (s : string) : string :=
  match s with
  | EmptyString => EmptyString
  | String c s => String (f c) (string_map f s)
  end.

(** ** Prefixes and suffixes *)

Fixpoint strip_prefix (p s : string) : option string :=
  match p, s with
  | EmptyString, _ => Some s
  | String a p, String b s => if Ascii.eqb a b then strip_prefix p s else None
  | String _ _, EmptyString => None
  end.

Fixpoint strip_suffix (suf s : string) : option string :=
  if String.eqb s suf then Some ""
  else match s with
       | EmptyString => None
       | String c s => String c <$> strip_suffix suf s
       end.

Definition HasPrefix (s p : string) : bool := bool_decide (is_Some (strip_prefix p s)).
Definition HasSuffix (s suf : string) : bool := bool_decide (is_Some (strip_suffix suf s)).
Definition TrimSuffix (s suf : string) : string := default s (strip_suffix suf s).
Definition TrimPrefix (s p : string) : string := default s (strip_prefix p s).

Lemma string_app_assoc (a b c : string) : (a +:+ b) +:+ c = a +:+ (b +:+ c).
Proof. induction a as [|x a IH]; simpl; [done|]. by rewrite IH. Qed.

Lemma string_app_nil_r (a : string) : a +:+ "" = a.
Proof. induction a as [|x a IH]; simpl; [done|]. by rewrite IH. Qed.

Lemma string_app_length (a b : string) :
  String.length (a +:+ b) = String.length a + String.length b.
Proof. induction a as [|x a IH]; simpl; [done|]. by rewrite IH. Qed.

Lemma string_app_inj_l (a b c : string) : a +:+ b = a +:+ c → b = c.
Proof. induction a as [|x a IH]; simpl; [done|]. intros H. simplify_eq. auto. Qed.

Lemma string_app_inj_r (a b c : string) : a +:+ c = b +:+ c → a = b.
Proof.
  revert b. induction a as [|x a IH]; intros b H.
  - destruct b as [|y b]; [done|]. apply (f_equal String.length) in H.
    rewrite !string_app_length in H. simpl in H. lia.
  - destruct b as [|y b].
    + apply (f_equal String.length) in H.
      rewrite !string_app_length in H. simpl in H. lia.
    + simpl in H. injection H as -> H. by rewrite (IH b H).
Qed.

Lemma string_last_char (a b : string) x y : a +:+ String x "" = b +:+ String y "" → x = y.
Proof.
  revert b. induction a as [|c a IH]; intros [|d b]; simpl; intros H; [naive_solver| | |].
  - injection H as _ H. by destruct b.
  - injection H as _ H. by destruct a.
  - injection H as _ H. eauto.
Qed.

Lemma strip_prefix_Some p s t : strip_prefix p s = Some t ↔ s = p +:+ t.
Proof.
  revert s. induction p as [|a p IH]; intros s; simpl.
  - naive_solver.
  - destruct s as [|b s]; [naive_solver|].
    destruct (Ascii.eqb_spec a b) as [->|Hne]; [rewrite IH|]; naive_solver.
Qed.

Lemma strip_suffix_Some suf s t : strip_suffix suf s = Some t ↔ s = t +:+ suf.
Proof.
  revert t. induction s as [|c s IH]; intros t; cbn [strip_suffix].
  - destruct (String.eqb_spec "" suf) as [<-|Hne].
    + rewrite string_app_nil_r. naive_solver.
    + split; [done|]. intros H. destruct t; simpl in H; naive_solver.
  - destruct (String.eqb_spec (String c s) suf) as [<-|Hne].
    + split; [naive_solver|]. intros H. f_equal.
      destruct t as [|b t]; [done|]. apply (f_equal String.length) in H.
      rewrite string_app_length in H. simpl in H. lia.
    + rewrite fmap_Some. setoid_rewrite IH. split.
      * by intros (t' & -> & ->).
      * destruct t as [|b t]; simpl; intros H; [naive_solver|].
        injection H as -> ->. eauto.
Qed.

Lemma HasPrefix_spec s p : HasPrefix s p = true ↔ ∃ t, s = p +:+ t.
Proof.
  unfold HasPrefix. rewrite bool_decide_eq_true. unfold is_Some.
  by setoid_rewrite strip_prefix_Some.
Qed.

Lemma HasSuffix_spec s suf : HasSuffix s suf = true ↔ ∃ t, s = t +:+ suf.
Proof.
  unfold HasSuffix. rewrite bool_decide_eq_true. unfold is_Some.
  by setoid_rewrite strip_suffix_Some.
Qed.

Lemma strip_prefix_app p t : strip_prefix p (p +:+ t) = Some t.
Proof. by apply strip_prefix_Some. Qed.

Lemma strip_suffix_app suf t : strip_suffix suf (t +:+ suf) = Some t.
Proof. by apply strip_suffix_Some. Qed.

Lemma TrimSuffix_app t suf : TrimSuffix (t +:+ suf) suf = t.
Proof. unfold TrimSuffix. by rewrite strip_suffix_app. Qed.

(** ** Character classes *)

Lemma string_forallb_app p a b :
  string_forallb p (a +:+ b) = string_forallb p a && string_forallb p b.
Proof. induction a as [|c a IH]; simpl; [done|]. by rewrite IH, andb_assoc. Qed.

Lemma string_forallb_map p f s :
  string_forallb p (string_map f s) = string_forallb (λ c, p (f c)) s.
Proof. induction s as [|c s IH]; simpl; [done|]. by rewrite IH. Qed.

Lemma string_forallb_impl (p q : ascii → bool) s :
  (∀ c, p c = true → q c = true) → string_forallb p s = true → string_forallb q s = true.
Proof.
  intros Hpq. induction s as [|c s IH]; simpl; [done|].
  rewrite !andb_true_iff. naive_solver.
Qed.

Lemma string_forallb_true p s : (∀ c, p c = true) → string_forallb p s = true.
Proof. intros H. induction s as [|c s IH]; simpl; [done|]. by rewrite H, IH. Qed.

Lemma string_map_id f s :
  string_forallb (λ c, Ascii.eqb (f c) c) s = true → string_map f s = s.
Proof.
  induction s as [|c s IH]; simpl; [done|]. rewrite andb_true_iff.
  intros [->%Ascii.eqb_eq Hs]. by rewrite IH.
Qed.

Lemma string_map_length f s : String.length (string_map f s) = String.length s.
Proof. induction s as [|c s IH]; simpl; [done|]. by rewrite IH. Qed.

(** Every byte of a string, for goals that are decided by looking at each of the 256 bytes. *)
Ltac by_bytes :=
  let c := fresh "c" in
  intros c; destruct c as [[] [] [] [] [] [] [] []]; vm_compute; try done.

(** ** Splitting and joining *)

Fixpoint split_on (sep : ascii → bool) (s : string) : list string :=
  match s with
  | EmptyString => [""]
  | String c s =>
      if sep c then "" :: split_on sep s
      else match split_on sep s with
           | [] => [String c ""]
           | w :: ws => String c w :: ws
           end
  end.

(** [strings.Join]. *)
Fixpoint Join (l : list string) (sep : string) : string :=
  match l with
  | [] => ""
  | [s] => s
  | s :: l => s +:+ sep +:+ Join l sep
  end.

Lemma split_on_not_nil sep s : split_on sep s ≠ [].
Proof. destruct s as [|c s]; simpl; [done|]. by destruct (sep c), (split_on sep s). Qed.

Lemma split_on_none sep s :
  string_forallb (λ c, negb (sep c)) s = true → split_on sep s = [s].
Proof.
  induction s as [|c s IH]; simpl; [done|]. rewrite andb_true_iff, negb_true_iff.
  intros [-> Hs]. by rewrite IH.
Qed.

Lemma split_on_app sep c a b :
  sep c = true → split_on sep (a +:+ String c b) = split_on sep a ++ split_on sep b.
Proof.
  intros Hc. induction a as [|x a IH]; simpl; [by rewrite Hc|].
  destruct (sep x); simpl; [by rewrite IH|]. rewrite IH.
  destruct (split_on sep a) eqn:E; [|done]. by destruct (split_on_not_nil sep a).
Qed.

Lemma Join_split_on c s :
  Join (split_on (is_char c) s) (String c "") = s.
Proof.
  induction s as [|x s IH]; [done|]. simpl. unfold is_char at 1.
  destruct (Ascii.eqb_spec c x) as [->|Hne].
  - destruct (split_on (is_char x) s) eqn:E; [by destruct (split_on_not_nil (is_char x) s)|].
    simpl in *. by rewrite IH.
  - destruct (split_on (is_char c) s) as [|w ws] eqn:E;
      [by destruct (split_on_not_nil (is_char c) s)|].
    destruct ws; simpl in *; by rewrite <-IH.
Qed.

Lemma Join_cons s l sep : l ≠ [] → Join (s :: l) sep = s +:+ sep +:+ Join l sep.
Proof. by destruct l. Qed.

(** [strings.Contains] for one byte. *)
Definition contains_char (c : ascii) (s : string) : bool :=
  negb (string_forallb (λ x, negb (is_char c x)) s).

(** [strings.ReplaceAll] of one byte by a string. *)
Fixpoint replace_char (c : ascii) (by_ : string) (s : string) : string :=
  match s with
  | EmptyString => ""
  | String x s => (if is_char c x then by_ else String x "") +:+ replace_char c by_ s
  end.

(** [strings.TrimLeft], [strings.TrimRight] and [strings.Trim] for one byte. *)
Fixpoint trim_left (c : ascii) (s : string) : string :=
  match s with
  | EmptyString => ""
  | String x s' => if is_char c x then trim_left c s' else s
  end.

Fixpoint trim_right (c : ascii) (s : string) : string :=
  match s with
  | EmptyString => ""
  | String x s =>
      match trim_right c s with
      | EmptyString => if is_char c x then "" else String x ""
      | s' => String x s'
      end
  end.

Definition trim (c : ascii) (s : string) : string := trim_right c (trim_left c s).

Lemma trim_left_forallb p c s :
  string_forallb p s = true → string_forallb p (trim_left c s) = true.
Proof.
  induction s as [|x s IH]; simpl; [done|]. destruct (is_char c x); simpl; [|done].
  rewrite andb_true_iff. naive_solver.
Qed.

Lemma trim_right_forallb p c s :
  string_forallb p s = true → string_forallb p (trim_right c s) = true.
Proof.
  induction s as [|x s IH]; simpl; [done|]. rewrite andb_true_iff. intros [Hx Hs].
  specialize (IH Hs). destruct (trim_right c s) as [|y t].
  - destruct (is_char c x); simpl; [done|]. by rewrite Hx.
  - simpl in *. by rewrite Hx.
Qed.

Lemma trim_right_hd c s :
  match trim_right c s with
  | EmptyString => True
  | String x _ => ∃ t, s = String x t
  end.
Proof.
  destruct s as [|x s]; simpl; [done|].
  destruct (trim_right c s); [destruct (is_char c x)|]; eauto.
Qed.

(** The last byte of a trimmed string is not the trimmed one. *)
Lemma trim_right_last c s t x : trim_right c s = t +:+ String x "" → is_char c x = false.
Proof.
  revert t. induction s as [|y s IH]; simpl; intros t.
  - by destruct t.
  - destruct (trim_right c s) as [|z r] eqn:E.
    + destruct (is_char c y) eqn:Ey.
      * by destruct t.
      * destruct t as [|a t]; simpl; intros H; simplify_eq; [done|].
        by destruct t.
    + destruct t as [|a t]; simpl; intros H; simplify_eq. by apply (IH t).
Qed.

Lemma trim_left_hd c s x t : trim_left c s = String x t → is_char c x = false.
Proof.
  induction s as [|y s IH]; simpl; [done|]. destruct (is_char c y) eqn:E; [done|].
  intros H. by simplify_eq.
Qed.

(** ** path/filepath on slash-separated paths *)

(** One step of [filepath.Clean]: [stack] holds the kept elements, last first. *)
Definition clean_step (rooted : bool) (stack : list string) (e : string) : list string :=
  if String.eqb e "" || String.eqb e "." then stack
  else if String.eqb e ".." then
    match stack with
    | x :: rest => if String.eqb x ".." then ".." :: stack else rest
    | [] => if rooted then [] else [".."]
    end
  else e :: stack.

Definition Clean (p : string) : string :=
  let rooted := HasPrefix p "/" in
  let els := rev (foldl (clean_step rooted) [] (split_on (is_char "/") p)) in
  if rooted then "/" +:+ Join els "/"
  else match els with [] => "." | _ => Join els "/" end.

(** [filepath.Join]: empty elements are skipped, and an empty list gives [""]. *)
Definition filepath_Join (l : list string) : string :=
  match filter (λ s, s ≠ "") l with
  | [] => ""
  | l' => Clean (Join l' "/")
  end.

Definition IsAbs (p : string) : bool := HasPrefix p "/".
