(* ===== verification/Externals.v ===== *)
(** * Third-party code

    The packages the operator links against and whose source is not part of this repository,
    as the fields of one class, and the documented behaviour the operator relies on as the
    fields of a second one.  Theorems that need a law take [ExternalsLaws] as an argument;
    [demo_externals] instantiates both classes with concrete functions, so that the laws are
    seen to be satisfiable and the examples can be evaluated. *)

From S2P Require Import Prelude Types GoStrings.

Open Scope string_scope.
Open Scope nat_scope.
Open Scope list_scope.

(** A pointer to a container of a pod: an index in one of its container lists. *)
Inductive container_ref :=
| CRInit (i : nat)
| CRMain (i : nat).

Definition container_at (ps : PodSpec) (r : container_ref) : option Container :=
  match r with
  | CRInit i => ps_InitContainers ps !! i
  | CRMain i => ps_Containers ps !! i
  end.

Class Externals := {
  (** The order in which one [range] over a Go map visits its entries. *)
  range_map {K : Type} `{Countable K} {V : Type} : gmap K V → list (K * V);
  (** [v1.Toleration.ToleratesTaint], comparison operators disabled. *)
  ToleratesTaint : Toleration → Taint → bool;
  (** [regexp.Compile] and [regexp.MatchString(pattern, s)] on patterns users write. *)
  regexp_Compile : string → option error;
  regexp_MatchString : string → string → result bool;
  (** [parse.New("mapping", env, &parse.Restrictions{}).Parse(template)] of envsubst. *)
  envsubst_Parse : list string → string → result string;
  (** [labels.NewRequirement(k, Equals, {v})], [labels.NewRequirement(k, In, vs)] and [Selector.Matches] of one requirement. *)
  NewRequirement : string → string → option error;
  NewRequirement_In : string → list string → option error;
  Requirement_Matches : string → string → labels_t → bool;
  (** [IsQualifiedName], [IsValidLabelValue] and [IsDNS1123Subdomain] of
      [k8s.io/apimachinery/pkg/util/validation]: the problems found. *)
  IsQualifiedName : string → list string;
  IsValidLabelValue : string → list string;
  IsDNS1123Subdomain : string → list string;
  (** [controllerutil]'s finalizer helpers, on the finalizer list. *)
  ContainsFinalizer : list string → string → bool;
  AddFinalizer : list string → string → list string;
  RemoveFinalizer : list string → string → list string;
  (** [controllerutil.SetControllerReference] and [SetOwnerReference]: owner's kind and
      metadata, then the controlled object's metadata. *)
  SetControllerReference : string → ObjectMeta → ObjectMeta → result ObjectMeta;
  SetOwnerReference : string → ObjectMeta → ObjectMeta → result ObjectMeta;
  (** [metav1.IsControlledBy]: the object's metadata, then the owner's. *)
  IsControlledBy : ObjectMeta → ObjectMeta → bool;
  (** [os.Getenv]. *)
  os_Getenv : string → string;
  (** [podcmd.FindContainerByName]: where the container of that name is. *)
  FindContainerByName : PodSpec → string → option container_ref;
  (** [hashstructure.Hash(pod, FormatV2, nil)], an unsigned 64-bit number. *)
  hashstructure_Hash : Pod → result N;
  (** The same on the two structs of the build and sign resources: the pod's spec with the
      Dockerfile, and with the private key, the public key and the sign configuration. *)
  hashstructure_Hash_build : PodSpec → string → result N;
  hashstructure_Hash_sign : PodSpec → string → string → string → result N;
  (** [sigs.k8s.io/yaml] on the two types the operator stores in annotations.
      [UnmarshalStrict] decodes into an existing value and may have changed it when it
      fails; [UnmarshalStrict] of tolerations decodes into a fresh slice. *)
  yaml_Marshal_config : ModuleConfig → result string;
  yaml_UnmarshalStrict_config : string → ModuleConfig → ModuleConfig * option error;
  yaml_Marshal_tolerations : list Toleration → result string;
  yaml_UnmarshalStrict_tolerations : string → list Toleration → list Toleration * option error;
}.

(** The order in which a Go set (a map without values) is visited. *)
Definition range_set `{Externals} {K : Type} `{Countable K} (X : gset K) : list K :=
  (range_map (gset_to_gmap () X)).*1.

(** The result of [controllerutil.RemoveFinalizer]: whether the list changed. *)
Definition RemoveFinalizer_updated `{Externals} (l : list string) (f : string) : bool :=
  bool_decide (RemoveFinalizer l f ≠ l).

(** What decoding the YAML of [c] over [old] gives: a key that [omitempty] left out of the
    document leaves the field of the decoded-into value as it was. *)
Definition overlay_str (old new : string) : string := if String.eqb new "" then old else new.
Definition overlay_list {A} (old new : list A) : list A :=
  match new with [] => old | _ => new end.
Definition overlay_olist {A} (old new : option (list A)) : option (list A) :=
  match new with None | Some [] => old | _ => new end.

Definition overlay_args (old new : option ModprobeArgs) : option ModprobeArgs :=
  match new with
  | None => old
  | Some n =>
      let o := default {| ma_Load := []; ma_Unload := [] |} old in
      Some {| ma_Load := overlay_list (ma_Load o) (ma_Load n);
              ma_Unload := overlay_list (ma_Unload o) (ma_Unload n) |}
  end.

Definition overlay_modprobe (old new : ModprobeSpec) : ModprobeSpec :=
  {| mp_ModuleName := overlay_str (mp_ModuleName old) (mp_ModuleName new);
     mp_Parameters := overlay_list (mp_Parameters old) (mp_Parameters new);
     mp_DirName := overlay_str (mp_DirName old) (mp_DirName new);
     mp_Args := overlay_args (mp_Args old) (mp_Args new);
     mp_RawArgs := overlay_args (mp_RawArgs old) (mp_RawArgs new);
     mp_FirmwarePath := overlay_str (mp_FirmwarePath old) (mp_FirmwarePath new);
     mp_ModprobedDir := overlay_str (mp_ModprobedDir old) (mp_ModprobedDir new);
     mp_ModulesLoadingOrder :=
       overlay_olist (mp_ModulesLoadingOrder old) (mp_ModulesLoadingOrder new) |}.

Definition overlay_config (old new : ModuleConfig) : ModuleConfig :=
  {| mc_KernelVersion := mc_KernelVersion new;
     mc_ContainerImage := mc_ContainerImage new;
     mc_ImagePullPolicy := mc_ImagePullPolicy new;
     mc_InsecurePull := mc_InsecurePull new;
     mc_InTreeModulesToRemove :=
       overlay_olist (mc_InTreeModulesToRemove old) (mc_InTreeModulesToRemove new);
     mc_InTreeModuleToRemove :=
       overlay_str (mc_InTreeModuleToRemove old) (mc_InTreeModuleToRemove new);
     mc_Modprobe := overlay_modprobe (mc_Modprobe old) (mc_Modprobe new) |}.

(** The zero values [var c ModuleConfig] starts from. *)
Definition empty_modprobe : ModprobeSpec :=
  {| mp_ModuleName := ""; mp_Parameters := []; mp_DirName := ""; mp_Args := None;
     mp_RawArgs := None; mp_FirmwarePath := ""; mp_ModprobedDir := "";
     mp_ModulesLoadingOrder := None |}.
Definition empty_config : ModuleConfig :=
  {| mc_KernelVersion := ""; mc_ContainerImage := ""; mc_ImagePullPolicy := "";
     mc_InsecurePull := false; mc_InTreeModulesToRemove := None;
     mc_InTreeModuleToRemove := ""; mc_Modprobe := empty_modprobe |}.

(** Configurations without empty non-nil slices: those an API server can have stored. *)
Definition config_stored (c : ModuleConfig) : bool :=
  bool_decide (mc_InTreeModulesToRemove c ≠ Some []) &&
  bool_decide (mp_ModulesLoadingOrder (mc_Modprobe c) ≠ Some []).

Lemma overlay_str_empty s : overlay_str "" s = s.
Proof. unfold overlay_str. by destruct (String.eqb_spec s ""). Qed.
Lemma overlay_list_empty {A} (l : list A) : overlay_list [] l = l.
Proof. by destruct l. Qed.
Lemma overlay_args_empty a : overlay_args None a = a.
Proof. destruct a as [[l u]|]; simpl; [|done]. by rewrite !overlay_list_empty. Qed.
Lemma overlay_olist_empty {A} (l : option (list A)) : l ≠ Some [] → overlay_olist None l = l.
Proof. by destruct l as [[|]|]. Qed.

Lemma overlay_empty_config c : config_stored c = true → overlay_config empty_config c = c.
Proof.
  unfold config_stored. rewrite andb_true_iff, !bool_decide_eq_true. intros [H1 H2].
  destruct c as [kv ci ipp ip itms itm mp]; simpl in *.
  unfold overlay_config; simpl. f_equal; auto using overlay_olist_empty, overlay_str_empty.
  destruct mp; unfold overlay_modprobe; simpl in *.
  rewrite !overlay_str_empty, !overlay_list_empty, !overlay_args_empty.
  by rewrite overlay_olist_empty.
Qed.

Lemma overlay_olist_same {A} (l : option (list A)) : overlay_olist l l = l.
Proof. by destruct l as [[|]|]. Qed.

(** ** Documented behaviour *)

Class ExternalsLaws `{Externals} : Prop := {
  range_map_perm `{Countable K} {V} (m : gmap K V) : range_map m ≡ₚ map_to_list m;
  MatchString_Compile p s : is_ok (regexp_MatchString p s) = true ↔ regexp_Compile p = None;
  Requirement_Matches_Equals k v ls :
    Requirement_Matches k v ls = bool_decide (ls !! k = Some v);
  ContainsFinalizer_spec l f : ContainsFinalizer l f = bool_decide (f ∈ l);
  AddFinalizer_spec l f : AddFinalizer l f = if decide (f ∈ l) then l else l ++ [f];
  RemoveFinalizer_spec l f : RemoveFinalizer l f = filter (λ x, x ≠ f) l;
  SetControllerReference_spec kd o m m' :
    SetControllerReference kd o m = Ok m' → m' = meta_set_owners m (om_OwnerReferences m');
  SetControllerReference_owner kd o m m' :
    SetControllerReference kd o m = Ok m' →
    ∃ r, r ∈ om_OwnerReferences m' ∧ or_Name r = om_Name o ∧ or_UID r = om_UID o ∧
         or_Controller r = true;
  SetOwnerReference_spec kd o m m' :
    SetOwnerReference kd o m = Ok m' → m' = meta_set_owners m (om_OwnerReferences m');
  IsControlledBy_spec m o :
    IsControlledBy m o = true →
    ∃ r, r ∈ om_OwnerReferences m ∧ or_Controller r = true ∧ or_UID r = om_UID o;
  SetControllerReference_controls kd o m m' :
    SetControllerReference kd o m = Ok m' → IsControlledBy m' o = true;
  FindContainerByName_Some ps n r :
    FindContainerByName ps n = Some r → ∃ c, container_at ps r = Some c ∧ ct_Name c = n;
  FindContainerByName_None ps n :
    FindContainerByName ps n = None → ∀ r c, container_at ps r = Some c → ct_Name c ≠ n;
  yaml_config_into c s old :
    yaml_Marshal_config c = Ok s →
    yaml_UnmarshalStrict_config s old = (overlay_config old c, None);
  yaml_config_empty old : yaml_UnmarshalStrict_config "" old = (old, None);
  yaml_tolerations_empty old : yaml_UnmarshalStrict_tolerations "" old = ([], None);
  yaml_tolerations_into t s :
    yaml_Marshal_tolerations t = Ok s → yaml_UnmarshalStrict_tolerations s [] = (t, None);
}.

Section laws.
Context `{EXT : Externals} `{EXTL : !ExternalsLaws}.

Lemma elem_of_range_set {K : Type} `{Countable K} (X : gset K) k : k ∈ range_set X ↔ k ∈ X.
Proof.
  unfold range_set. rewrite list_elem_of_fmap. split.
  - intros ([k' []] & -> & Hk). rewrite range_map_perm, elem_of_map_to_list in Hk.
    by apply lookup_gset_to_gmap_Some in Hk as [? _].
  - intros Hk. exists (k, ()). split; [done|].
    rewrite range_map_perm, elem_of_map_to_list. by apply lookup_gset_to_gmap_Some.
Qed.

Lemma elem_of_range_map `{Countable K} {V} (m : gmap K V) k v : (k, v) ∈ range_map m ↔ m !! k = Some v.
Proof. by rewrite range_map_perm, elem_of_map_to_list. Qed.

Lemma NoDup_range_map `{Countable K} {V} (m : gmap K V) : NoDup (range_map m).*1.
Proof. rewrite range_map_perm. apply NoDup_fst_map_to_list. Qed.

Lemma RemoveFinalizer_gone l f : f ∉ RemoveFinalizer l f.
Proof. rewrite RemoveFinalizer_spec, list_elem_of_filter. naive_solver. Qed.

Lemma yaml_config_roundtrip c s :
  config_stored c = true → yaml_Marshal_config c = Ok s →
  yaml_UnmarshalStrict_config s empty_config = (c, None).
Proof. intros Hc Hs. by rewrite (yaml_config_into c), overlay_empty_config. Qed.
End laws.
