(* ===== verification/Demo.v ===== *)
(** * A concrete instance of the third-party code

    An executable instance of [Externals] that satisfies [ExternalsLaws]: it shows that the
    laws can hold together, and it is what the concrete examples of the other files run on.
    YAML is replaced by a self-delimiting text format with the same decode-into behaviour. *)

From S2P Require Import Prelude Types GoStrings Externals.

Open Scope string_scope.
Open Scope nat_scope.
Open Scope list_scope.

(** ** A self-delimiting text format *)

Record codec (A : Type) := {
  enc : A → string;
  dec : string → option (A * string);
}.
Arguments enc {A} _ _.
Arguments dec {A} _ _.

Definition codec_ok {A} (c : codec A) : Prop :=
  ∀ a rest, dec c (enc c a +:+ rest) = Some (a, rest).

(** Every byte is preceded by a mark, and a period ends the string. *)
Fixpoint str_enc (s : string) : string :=
  match s with
  | EmptyString => "."
  | String c s => String "'" (String c (str_enc s))
  end.

Fixpoint str_dec (s : string) : option (string * string) :=
  match s with
  | String "." rest => Some ("", rest)
  | String "'" (String c s) =>
      match str_dec s with Some (t, rest) => Some (String c t, rest) | None => None end
  | _ => None
  end.

Definition str_codec : codec string := {| enc := str_enc; dec := str_dec |}.

Definition bool_codec : codec bool :=
  {| enc := λ b : bool, if b then "T" else "F";
     dec := λ s : string, match s with
                 | String "T" r => Some (true, r)
                 | String "F" r => Some (false, r)
                 | _ => None
                 end |}.

Section list_codec.
Context {A : Type} (c : codec A).

Fixpoint list_enc (l : list A) : string :=
  match l with
  | [] => "]"
  | a :: l => String "," (enc c a +:+ list_enc l)
  end.

Fixpoint list_dec (fuel : nat) (s : string) : option (list A * string) :=
  match fuel, s with
  | _, String "]" rest => Some ([], rest)
  | S fuel, String "," s =>
      '(a, s) ← dec c s;
      '(l, rest) ← list_dec fuel s;
      Some (a :: l, rest)
  | _, _ => None
  end.

Definition list_codec : codec (list A) :=
  {| enc := list_enc; dec := λ s, list_dec (String.length s) s |}.
End list_codec.

Definition option_codec {A} (c : codec A) : codec (option A) :=
  {| enc := λ o : option A, match o with Some a => String "S" (enc c a) | None => "N" end;
     dec := λ s : string, match s with
                 | String "N" r => Some (None, r)
                 | String "S" s => '(a, r) ← dec c s; Some (Some a, r)
                 | _ => None
                 end |}.

Definition pair_codec {A B} (ca : codec A) (cb : codec B) : codec (A * B) :=
  {| enc := λ p, enc ca p.1 +:+ enc cb p.2;
     dec := λ s, '(a, s) ← dec ca s; '(b, r) ← dec cb s; Some ((a, b), r) |}.

Definition map_codec {A B} (to : B → A) (from : A → B) (c : codec A) : codec B :=
  {| enc := λ b, enc c (to b);
     dec := λ s, '(a, r) ← dec c s; Some (from a, r) |}.

Lemma str_codec_ok : codec_ok str_codec.
Proof. intros s rest. simpl. induction s as [|c s IH]; simpl; [done|]. by rewrite IH. Qed.

Lemma bool_codec_ok : codec_ok bool_codec.
Proof. by intros []. Qed.

Lemma list_codec_ok {A} (c : codec A) : codec_ok c → codec_ok (list_codec c).
Proof.
  intros Hc l rest. simpl.
  cut (∀ fuel, length l ≤ fuel → list_dec c fuel (list_enc c l +:+ rest) = Some (l, rest)).
  { intros H. apply H. rewrite string_app_length.
    cut (length l ≤ String.length (list_enc c l)); [lia|].
    induction l as [|a l IH]; simpl; [lia|]. rewrite string_app_length.
    assert (length l ≤ String.length (list_enc c l)); [|lia].
    clear H IH. induction l; simpl; [lia|]. rewrite string_app_length. lia. }
  induction l as [|a l IH]; intros fuel Hf; simpl.
  - by destruct fuel.
  - destruct fuel as [|fuel]; simpl in *; [lia|].
    rewrite string_app_assoc, (Hc a). simpl. rewrite IH by lia. done.
Qed.

Lemma option_codec_ok {A} (c : codec A) : codec_ok c → codec_ok (option_codec c).
Proof. intros Hc [a|] rest; simpl; [|done]. by rewrite (Hc a). Qed.

Lemma pair_codec_ok {A B} (ca : codec A) (cb : codec B) :
  codec_ok ca → codec_ok cb → codec_ok (pair_codec ca cb).
Proof.
  intros Ha Hb [a b] rest. simpl. rewrite string_app_assoc, (Ha a). simpl.
  by rewrite (Hb b).
Qed.

Lemma map_codec_ok {A B} (to : B → A) (from : A → B) c :
  (∀ b, from (to b) = b) → codec_ok c → codec_ok (map_codec to from c).
Proof. intros Hft Hc b rest. simpl. rewrite (Hc (to b)). simpl. by rewrite Hft. Qed.

(** An integer, in unary with its sign: enough for toleration seconds in examples. *)
Definition Z_codec : codec Z :=
  map_codec (λ z : Z, ((z <? 0)%Z, repeat true (Z.to_nat (Z.abs z))))
    (λ p, if p.1 : bool then (- Z.of_nat (length p.2))%Z else Z.of_nat (length p.2))
    (pair_codec bool_codec (list_codec bool_codec)).

Definition args_codec : codec ModprobeArgs :=
  map_codec (λ a, (ma_Load a, ma_Unload a)) (λ p, {| ma_Load := p.1; ma_Unload := p.2 |})
    (pair_codec (list_codec str_codec) (list_codec str_codec)).

Definition modprobe_codec : codec ModprobeSpec :=
  map_codec
    (λ m, (mp_ModuleName m, (mp_Parameters m, (mp_DirName m, (mp_Args m, (mp_RawArgs m,
           (mp_FirmwarePath m, (mp_ModprobedDir m, mp_ModulesLoadingOrder m))))))))
    (λ '(a, (b, (c, (d, (e, (f, (g, h))))))),
       {| mp_ModuleName := a; mp_Parameters := b; mp_DirName := c; mp_Args := d;
          mp_RawArgs := e; mp_FirmwarePath := f; mp_ModprobedDir := g;
          mp_ModulesLoadingOrder := h |})
    (pair_codec str_codec (pair_codec (list_codec str_codec) (pair_codec str_codec
      (pair_codec (option_codec args_codec) (pair_codec (option_codec args_codec)
        (pair_codec str_codec (pair_codec str_codec
          (option_codec (list_codec str_codec))))))))).

Definition config_codec : codec ModuleConfig :=
  map_codec
    (λ c, (mc_KernelVersion c, (mc_ContainerImage c, (mc_ImagePullPolicy c,
           (mc_InsecurePull c, (mc_InTreeModulesToRemove c,
            (mc_InTreeModuleToRemove c, mc_Modprobe c)))))))
    (λ '(a, (b, (c, (d, (e, (f, g)))))),
       {| mc_KernelVersion := a; mc_ContainerImage := b; mc_ImagePullPolicy := c;
          mc_InsecurePull := d; mc_InTreeModulesToRemove := e;
          mc_InTreeModuleToRemove := f; mc_Modprobe := g |})
    (pair_codec str_codec (pair_codec str_codec (pair_codec str_codec (pair_codec bool_codec
      (pair_codec (option_codec (list_codec str_codec))
        (pair_codec str_codec modprobe_codec)))))).

Definition toleration_codec : codec Toleration :=
  map_codec
    (λ t, (tol_Key t, (tol_Operator t, (tol_Value t, (tol_Effect t, tol_Seconds t)))))
    (λ '(a, (b, (c, (d, e)))),
       {| tol_Key := a; tol_Operator := b; tol_Value := c; tol_Effect := d;
          tol_Seconds := e |})
    (pair_codec str_codec (pair_codec str_codec (pair_codec str_codec
      (pair_codec str_codec (option_codec Z_codec))))).

Create HintDb codec.
#[export] Hint Resolve str_codec_ok bool_codec_ok list_codec_ok option_codec_ok
  pair_codec_ok : codec.

Lemma Z_codec_ok : codec_ok Z_codec.
Proof.
  apply map_codec_ok; [|auto with codec].
  intros z. simpl. rewrite repeat_length. destruct (Z.ltb_spec z 0); lia.
Qed.
#[export] Hint Resolve Z_codec_ok : codec.

Lemma args_codec_ok : codec_ok args_codec.
Proof. apply map_codec_ok; [by intros []|auto with codec]. Qed.
#[export] Hint Resolve args_codec_ok : codec.

Lemma modprobe_codec_ok : codec_ok modprobe_codec.
Proof. apply map_codec_ok; [by intros []|auto 15 with codec]. Qed.
#[export] Hint Resolve modprobe_codec_ok : codec.

Lemma config_codec_ok : codec_ok config_codec.
Proof. apply map_codec_ok; [by intros []|auto 15 with codec]. Qed.

Lemma toleration_codec_ok : codec_ok toleration_codec.
Proof. apply map_codec_ok; [by intros []|auto 15 with codec]. Qed.
#[export] Hint Resolve config_codec_ok toleration_codec_ok : codec.

(** ** The instance *)

(** Patterns are literal prefixes, and one that starts with a bracket does not compile. *)
Definition demo_compile (p : string) : option error :=
  if HasPrefix p "[" then Some (ErrNew "missing closing ]") else None.

(** [${NAME}] is not expanded: templates without variables are their own expansion. *)
Definition demo_owner (kd : string) (controller : bool) (o m : ObjectMeta) : ObjectMeta :=
  meta_set_owners m (om_OwnerReferences m ++
    [{| or_APIVersion := "v1"; or_Kind := kd; or_Name := om_Name o; or_UID := om_UID o;
        or_Controller := controller |}]).

Definition demo_tolerates (t : Toleration) (x : Taint) : bool :=
  (String.eqb (tol_Effect t) "" || String.eqb (tol_Effect t) (taint_Effect x)) &&
  (String.eqb (tol_Key t) "" || String.eqb (tol_Key t) (taint_Key x)) &&
  (String.eqb (tol_Operator t) TolerationOpExists ||
   String.eqb (tol_Value t) (taint_Value x)).

Fixpoint index_of (i : nat) (n : string) (l : list Container) : option nat :=
  match l with
  | [] => None
  | c :: l => if String.eqb (ct_Name c) n then Some i else index_of (S i) n l
  end.

Definition demo_find (ps : PodSpec) (n : string) : option container_ref :=
  match index_of 0 n (ps_InitContainers ps) with
  | Some i => Some (CRInit i)
  | None => CRMain <$> index_of 0 n (ps_Containers ps)
  end.

Lemma index_of_Some i n l j :
  index_of i n l = Some j → i ≤ j ∧ ∃ c, l !! (j - i) = Some c ∧ ct_Name c = n.
Proof.
  revert i. induction l as [|c l IH]; intros i; simpl; [done|].
  destruct (String.eqb_spec (ct_Name c) n).
  - intros H. simplify_eq. rewrite Nat.sub_diag. split; [lia|]. eauto.
  - intros (Hij & c' & Hc & Hn)%IH. split; [lia|]. exists c'.
    replace (j - i) with (S (j - S i)) by lia. done.
Qed.

Lemma index_of_None i n l : index_of i n l = None → ∀ j c, l !! j = Some c → ct_Name c ≠ n.
Proof.
  revert i. induction l as [|c l IH]; intros i; simpl; [done|].
  destruct (String.eqb_spec (ct_Name c) n); [done|].
  intros H [|j] c' Hc; simplify_eq/=; eauto.
Qed.

Definition demo_hash (p : Pod) : N :=
  N.of_nat (String.length (om_Name (pod_meta p)) + size (om_Annotations (pod_meta p))).

#[export] Instance demo_externals : Externals := {
  range_map K _ _ V m := map_to_list m;
  ToleratesTaint := demo_tolerates;
  regexp_Compile := demo_compile;
  regexp_MatchString p s :=
    match demo_compile p with Some e => Err e | None => Ok (HasPrefix s p) end;
  envsubst_Parse env t := Ok t;
  NewRequirement k v := if String.eqb k "" then Some (ErrNew "name part must be non-empty") else None;
  NewRequirement_In k vs := None;
  Requirement_Matches k v ls := bool_decide (ls !! k = Some v);
  IsQualifiedName s := if String.eqb s "" then ["name part must be non-empty"] else [];
  IsValidLabelValue s := if 63 <? String.length s then ["must be no more than 63 characters"] else [];
  IsDNS1123Subdomain s := if string_forallb (λ c, is_lower c || is_digit c || is_char "-" c || is_char "." c) s then [] else ["a lowercase RFC 1123 subdomain"];
  ContainsFinalizer l f := bool_decide (f ∈ l);
  AddFinalizer l f := if decide (f ∈ l) then l else l ++ [f];
  RemoveFinalizer l f := filter (λ x, x ≠ f) l;
  SetControllerReference kd o m := Ok (demo_owner kd true o m);
  SetOwnerReference kd o m := Ok (demo_owner kd false o m);
  IsControlledBy m o := existsb (λ r, or_Controller r && String.eqb (or_UID r) (om_UID o)) (om_OwnerReferences m);
  os_Getenv v := "registry/" +:+ v +:+ ":v1";
  FindContainerByName := demo_find;
  hashstructure_Hash p := Ok (demo_hash p);
  hashstructure_Hash_build ps d := Ok (N.of_nat (length (ps_Tolerations ps) + String.length d));
  hashstructure_Hash_sign ps k c s := Ok (N.of_nat (String.length k + String.length c + String.length s));
  yaml_Marshal_config c := Ok (enc config_codec c);
  yaml_UnmarshalStrict_config s old :=
    if String.eqb s "" then (old, None) else
    match dec config_codec s with
    | Some (c, "") => (overlay_config old c, None)
    | _ => (old, Some (ErrNew "error converting YAML to JSON"))
    end;
  yaml_Marshal_tolerations t := Ok (enc (list_codec toleration_codec) t);
  yaml_UnmarshalStrict_tolerations s old :=
    if String.eqb s "" then ([], None) else
    match dec (list_codec toleration_codec) s with
    | Some (t, "") => (t, None)
    | _ => (old, Some (ErrNew "error converting YAML to JSON"))
    end;
}.

Lemma codec_roundtrip {A} (c : codec A) a : codec_ok c → dec c (enc c a) = Some (a, "").
Proof. intros Hc. rewrite <-(string_app_nil_r (enc c a)). apply Hc. Qed.

#[export] Instance demo_externals_laws : ExternalsLaws.
Proof.
  split; simpl.
  - done.
  - intros p s. unfold demo_compile. by destruct (HasPrefix p "[").
  - done.
  - done.
  - done.
  - done.
  - intros kd o m m' H. by simplify_eq.
  - intros kd o m m' H. simplify_eq. eexists. simpl. rewrite elem_of_app.
    split; [right; by left|done].
  - intros kd o m m' H. by simplify_eq.
  - intros m o. rewrite existsb_exists. setoid_rewrite andb_true_iff. intros (r & Hr & Hc & Hu).
    exists r. rewrite list_elem_of_In. by rewrite <-(String.eqb_eq (or_UID r)).
  - intros kd o m m' H. simplify_eq. unfold demo_owner. simpl. rewrite existsb_app. simpl.
    rewrite String.eqb_refl. by rewrite orb_true_r.
  - intros ps n r. unfold demo_find. destruct (index_of 0 n (ps_InitContainers ps)) eqn:E.
    + intros H. simplify_eq/=. apply index_of_Some in E as (_ & c & Hc & Hn).
      rewrite Nat.sub_0_r in Hc. eauto.
    + destruct (index_of 0 n (ps_Containers ps)) eqn:E'; simpl; [|done].
      intros H. simplify_eq/=. apply index_of_Some in E' as (_ & c & Hc & Hn).
      rewrite Nat.sub_0_r in Hc. eauto.
  - intros ps n. unfold demo_find. destruct (index_of 0 n (ps_InitContainers ps)) eqn:E; [done|].
    destruct (index_of 0 n (ps_Containers ps)) eqn:E'; simpl; [done|].
    intros _ [i|i] c Hc; [apply (index_of_None _ _ _ E i c Hc)|apply (index_of_None _ _ _ E' i c Hc)].
  - intros c s old H. injection H as <-.
    pose proof (codec_roundtrip config_codec c config_codec_ok) as E. simpl in E.
    destruct (String.eqb _ "") eqn:E'.
    + apply String.eqb_eq in E'. by destruct (mc_KernelVersion c).
    + by rewrite E.
  - done.
  - done.
  - intros t s H. injection H as <-.
    pose proof (codec_roundtrip (list_codec toleration_codec) t) as E. simpl in E.
    destruct (String.eqb _ "") eqn:E'.
    + apply String.eqb_eq in E'. by destruct t.
    + rewrite E; auto with codec.
Qed.

(** ** Sample objects *)

Definition demo_modprobe : ModprobeSpec :=
  {| mp_ModuleName := "mod_kmod"; mp_Parameters := ["a=1"]; mp_DirName := "/opt"; mp_Args := None;
     mp_RawArgs := None; mp_FirmwarePath := ""; mp_ModprobedDir := "";
     mp_ModulesLoadingOrder := None |}.

Definition demo_config : ModuleConfig :=
  {| mc_KernelVersion := "6.1.0"; mc_ContainerImage := "registry/mod:v1";
     mc_ImagePullPolicy := "Always"; mc_InsecurePull := false;
     mc_InTreeModulesToRemove := None; mc_InTreeModuleToRemove := "";
     mc_Modprobe := demo_modprobe |}.

Definition demo_item : ModuleItem :=
  {| mi_ImageRepoSecret := None; mi_Name := "mod"; mi_Namespace := "ns";
     mi_ServiceAccountName := "default"; mi_Tolerations := []; mi_Version := "" |}.

Definition demo_spec : NodeModuleSpec := {| nms_item := demo_item; nms_Config := demo_config |}.
Definition demo_status : NodeModuleStatus :=
  {| nmst_item := demo_item; nmst_Config := demo_config; nmst_BootId := "boot-1" |}.

Definition demo_nmc (name : string) (spec : list NodeModuleSpec) : NodeModulesConfig :=
  {| nmc_meta := empty_meta "" name; nmc_spec_Modules := spec; nmc_status_Modules := [] |}.

Definition demo_mld : ModuleLoaderData :=
  {| mld_KernelVersion := "6.1.0"; mld_KernelNormalizedVersion := "6.1.0";
     mld_ImageRepoSecret := None; mld_Selector := ∅; mld_Name := "mod"; mld_Namespace := "ns";
     mld_ServiceAccountName := ""; mld_Build := None; mld_Sign := None;
     mld_ModuleVersion := ""; mld_ContainerImage := "registry/mod:v1";
     mld_ImagePullPolicy := "Always"; mld_Modprobe := demo_modprobe; mld_RegistryTLS := None;
     mld_InTreeModulesToRemove := None; mld_OwnerUID := "uid"; mld_Tolerations := [] |}.
