(* ===== verification/Labels.v ===== *)
(** * Label names ([internal/utils/kmmlabels.go], [internal/nmc/labels.go], [internal/meta],
    [internal/constants])

    Names of the labels and finalizers the operator uses, the functions that build and
    recognise the per-module label keys, and the metadata helpers.  The compiled-in regular
    expressions are executable matchers with a declarative characterisation. *)

From S2P Require Import Prelude Types GoStrings Externals.

Open Scope string_scope.
Open Scope nat_scope.
Open Scope list_scope.

(** ** [internal/constants/constants.go] *)
Module constants.
Definition ModuleNameLabel := "kmm.node.kubernetes.io/module.name".
Definition ModuleNamespaceLabel := "kmm.node.kubernetes.io/module.namespace".
Definition NodeLabelerFinalizer := "kmm.node.kubernetes.io/node-labeler".
Definition TargetKernelTarget := "kmm.node.kubernetes.io/target-kernel".
Definition ResourceType := "kmm.node.kubernetes.io/resource-type".
Definition ResourceHashAnnotation := "kmm.node.kubernetes.io/last-hash".
Definition KernelLabel := "kmm.node.kubernetes.io/kernel-version.full".
Definition DaemonSetRole := "kmm.node.kubernetes.io/role".
Definition NamespaceLabelKey := "kmm.node.k8s.io/contains-modules".
Definition WorkerPodVersionLabelPrefix := "beta.kmm.node.kubernetes.io/version-worker-pod".
Definition SchedulePodVersionLabelPrefix := "beta.kmm.node.kubernetes.io/version-schedule-pod".
Definition ModuleVersionLabelPrefix := "kmm.node.kubernetes.io/version-module".
Definition GCDelayFinalizer := "kmm.node.kubernetes.io/gc-delay".
Definition ModuleFinalizer := "kmm.node.kubernetes.io/module-finalizer".
Definition JobEventFinalizer := "kmm.node.kubernetes.io/job-event-finalizer".
Definition DRAFinalizer := "kmm.node.kubernetes.io/dra-finalizer".
Definition DevicePluginFinalizer := "kmm.node.kubernetes.io/device-plugin-finalizer".
Definition ManagedClusterModuleNameLabel := "kmm.node.kubernetes.io/managedclustermodule.name".
Definition KernelVersionsClusterClaimName := "kernel-versions.kmm.node.kubernetes.io".
Definition DockerfileCMKey := "dockerfile".
Definition PublicSignDataKey := "cert".
Definition PrivateSignDataKey := "key".
Definition ModuleLoaderRoleLabelValue := "module-loader".
Definition DevicePluginRoleLabelValue := "device-plugin".
Definition DRARoleLabelValue := "dra".
Definition MinKubeMajorForDRA := 1%Z.
Definition MinKubeMinorForDRA := 34%Z.
End constants.

(** ** [internal/meta] *)
Definition HasLabel (m : ObjectMeta) (key : string) : bool :=
  bool_decide (is_Some (om_Labels m !! key)).
Definition RemoveLabel (m : ObjectMeta) (key : string) : ObjectMeta :=
  meta_set_labels m (delete key (om_Labels m)).
Definition SetLabel (m : ObjectMeta) (key value : string) : ObjectMeta :=
  meta_set_labels m (<[key := value]> (om_Labels m)).
Definition SetAnnotation (m : ObjectMeta) (key value : string) : ObjectMeta :=
  meta_set_annotations m (<[key := value]> (om_Annotations m)).

(** ** Matchers for the compiled-in expressions

    [^prefix([a-zA-Z0-9-]+)\.([a-zA-Z0-9-\.]+)suffix$]. *)
Definition ns_char (c : ascii) : bool := is_alnum c || is_char "-" c.
Definition name_char (c : ascii) : bool := ns_char c || is_char "." c.

Definition re_ns (s : string) : bool := negb (String.eqb s "") && string_forallb ns_char s.
Definition re_name (s : string) : bool := negb (String.eqb s "") && string_forallb name_char s.

(** Cut at the first period. *)
Fixpoint cut_dot (s : string) : option (string * string) :=
  match s with
  | EmptyString => None
  | String "." s => Some ("", s)
  | String c s => '(a, b) ← cut_dot s; Some (String c a, b)
  end.

Definition re_label (prefix suffix s : string) : option (string * string) :=
  t ← strip_prefix prefix s;
  b ← strip_suffix suffix t;
  '(ns, name) ← cut_dot b;
  if re_ns ns && re_name name then Some (ns, name) else None.

Lemma cut_dot_cons c s :
  cut_dot (String c s) =
  if is_char "." c then Some ("", s) else '(a, b) ← cut_dot s; Some (String c a, b).
Proof. by destruct c as [[] [] [] [] [] [] [] []]. Qed.

Lemma cut_dot_Some s a b :
  cut_dot s = Some (a, b) ↔ s = a +:+ "." +:+ b ∧ string_forallb (λ c, negb (is_char "." c)) a = true.
Proof.
  revert a b. induction s as [|c s IH]; intros a b.
  - split; [done|]. intros [H _]. by destruct a.
  - transitivity (if is_char "." c then "" = a ∧ s = b
                  else ∃ a', cut_dot s = Some (a', b) ∧ a = String c a').
    { rewrite cut_dot_cons. destruct (is_char "." c); [naive_solver|].
      destruct (cut_dot s) as [[a' b']|]; naive_solver. }
    unfold is_char at 1. destruct (Ascii.eqb_spec "." c) as [<-|Hne].
    + split; [by intros [<- <-]|]. intros [Heq Ha]. destruct a as [|x a]; simpl in *.
      * by simplify_eq.
      * by simplify_eq.
    + setoid_rewrite IH. split.
      * intros (a' & [-> Ha'] & ->). split; [done|]. cbn [string_forallb].
        unfold is_char at 1. by rewrite (proj2 (Ascii.eqb_neq _ _) Hne), Ha'.
      * intros [Heq Ha]. destruct a as [|x a]; simplify_eq/=.
        apply andb_true_iff in Ha as [_ Ha]. eauto.
Qed.

Lemma ns_char_no_dot c : ns_char c = true → negb (is_char "." c) = true.
Proof. revert c. by_bytes. Qed.

Lemma re_ns_no_dot s : re_ns s = true → string_forallb (λ c, negb (is_char "." c)) s = true.
Proof.
  unfold re_ns. rewrite andb_true_iff. intros [_ H].
  eapply string_forallb_impl; [|exact H]. apply ns_char_no_dot.
Qed.

Lemma re_label_Some prefix suffix s ns name :
  re_label prefix suffix s = Some (ns, name) ↔
  s = prefix +:+ ns +:+ "." +:+ name +:+ suffix ∧ re_ns ns = true ∧ re_name name = true.
Proof.
  unfold re_label. rewrite bind_Some. setoid_rewrite strip_prefix_Some.
  setoid_rewrite bind_Some. setoid_rewrite strip_suffix_Some. setoid_rewrite bind_Some.
  split.
  - intros (t & -> & b & -> & [a n] & [-> _]%cut_dot_Some & H).
    destruct (re_ns a) eqn:Ea; [|done]. destruct (re_name n) eqn:En; [|done].
    simpl in H. simplify_eq. by rewrite !string_app_assoc.
  - intros (-> & Hns & Hname). exists (ns +:+ "." +:+ name +:+ suffix). split; [done|].
    exists (ns +:+ "." +:+ name). split; [by rewrite !string_app_assoc|].
    exists (ns, name). rewrite Hns, Hname. split; [|done].
    apply cut_dot_Some. split; [done|]. by apply re_ns_no_dot.
Qed.

(** ** [internal/utils/kmmlabels.go] *)

Definition kmm_prefix := "kmm.node.kubernetes.io/".
Definition beta_prefix := "beta.kmm.node.kubernetes.io/".

Definition reKernelModuleReadyLabel := re_label kmm_prefix ".ready".
Definition reKernelModuleVersionReadyLabel := re_label kmm_prefix ".version.ready".
(** [^kmm\.node\.kubernetes\.io/[a-zA-Z0-9-]+\.ready$]. *)
Definition reDeprecatedKernelModuleReadyLabel (s : string) : bool :=
  match strip_prefix kmm_prefix s with
  | Some t => match strip_suffix ".ready" t with Some b => re_ns b | None => false end
  | None => false
  end.

Definition GetModuleVersionLabelName (namespace name : string) : string :=
  constants.ModuleVersionLabelPrefix +:+ "." +:+ namespace +:+ "." +:+ name.
Definition GetWorkerPodVersionLabelName (namespace name : string) : string :=
  constants.WorkerPodVersionLabelPrefix +:+ "." +:+ namespace +:+ "." +:+ name.
Definition GetSchedulePodVersionLabelName (namespace name : string) : string :=
  constants.SchedulePodVersionLabelPrefix +:+ "." +:+ namespace +:+ "." +:+ name.

(** The last two elements of [strings.Split(label, ".")]. *)
Definition GetNamespaceNameFromVersionLabel (label : string) : result (string * string) :=
  let parts := split_on (is_char ".") label in
  if length parts <? 2 then Err (ErrNew "label %s is in incorrect format")
  else Ok (default "" (parts !! (length parts - 2)), default "" (parts !! (length parts - 1))).

Definition IsModuleVersionLabel (label : string) : bool :=
  HasPrefix label constants.ModuleVersionLabelPrefix.
Definition IsWorkerPodVersionLabel (label : string) : bool :=
  HasPrefix label constants.WorkerPodVersionLabelPrefix.
Definition IsSchedulePodVersionLabel (label : string) : bool :=
  HasPrefix label constants.SchedulePodVersionLabelPrefix.
Definition IsVersionLabel (label : string) : bool :=
  IsModuleVersionLabel label || IsWorkerPodVersionLabel label || IsSchedulePodVersionLabel label.

Definition GetNodesVersionLabels (nodeLabels : labels_t) : labels_t :=
  filter (λ kv, IsVersionLabel kv.1 = true) nodeLabels.

Definition GetNodeWorkerPodVersionLabel (nodeLabels : labels_t) (namespace name : string) : string * bool :=
  match nodeLabels !! GetWorkerPodVersionLabelName namespace name with
  | None => ("", false)
  | Some v => (v, true)
  end.

Definition GetKernelModuleReadyNodeLabel (namespace moduleName : string) : string :=
  "kmm.node.kubernetes.io/" +:+ namespace +:+ "." +:+ moduleName +:+ ".ready".
Definition GetKernelModuleVersionReadyNodeLabel (namespace moduleName : string) : string :=
  "kmm.node.kubernetes.io/" +:+ namespace +:+ "." +:+ moduleName +:+ ".version.ready".
Definition GetDevicePluginNodeLabel (namespace moduleName : string) : string :=
  "kmm.node.kubernetes.io/" +:+ namespace +:+ "." +:+ moduleName +:+ ".device-plugin-ready".
Definition GetDRATargetNodeLabel (namespace moduleName : string) : string :=
  "kmm.node.kubernetes.io/" +:+ namespace +:+ "." +:+ moduleName +:+ ".dra-target".
Definition GetDRANodeLabel (namespace moduleName : string) : string :=
  "kmm.node.kubernetes.io/" +:+ namespace +:+ "." +:+ moduleName +:+ ".dra-ready".
Definition GetDevicePluginTargetNodeLabel (namespace moduleName : string) : string :=
  "kmm.node.kubernetes.io/" +:+ namespace +:+ "." +:+ moduleName +:+ ".device-plugin-target".

(** [pkg/labels/labels.go]: the labels that other programs may use, under the same names. *)
Definition labels_GetKernelModuleReadyNodeLabel (namespace moduleName : string) : string :=
  GetKernelModuleReadyNodeLabel namespace moduleName.
Definition labels_GetDevicePluginNodeLabel (namespace moduleName : string) : string :=
  GetDevicePluginNodeLabel namespace moduleName.
Definition labels_GetDRANodeLabel (namespace moduleName : string) : string := GetDRANodeLabel namespace moduleName.
Definition labels_GetModuleVersionLabelName (namespace name : string) : string := GetModuleVersionLabelName namespace name.
Definition labels_GetKernelModuleVersionReadyNodeLabel (namespace moduleName : string) : string :=
  GetKernelModuleVersionReadyNodeLabel namespace moduleName.

Definition IsDeprecatedKernelModuleReadyNodeLabel (label : string) : bool :=
  reDeprecatedKernelModuleReadyLabel label.
Definition IsKernelModuleVersionReadyNodeLabel (label : string) : bool :=
  bool_decide (is_Some (reKernelModuleVersionReadyLabel label)).

Definition IsKernelModuleReadyNodeLabel (label : string) : bool * string * string :=
  if IsDeprecatedKernelModuleReadyNodeLabel label then (false, "", "")
  else if IsKernelModuleVersionReadyNodeLabel label then (false, "", "")
  else match reKernelModuleReadyLabel label with
       | None => (false, "", "")
       | Some (ns, name) => (true, ns, name)
       end.

Section selected.
Context `{EXT : Externals}.

Fixpoint requirements (l : list (string * string)) : result (list (string * string)) :=
  match l with
  | [] => Ok []
  | (k, v) :: l =>
      match NewRequirement k v with
      | Some e => Err (Errorf_v "failed to create new label requirements: %v" e)
      | None => rs ← requirements l; Ok ((k, v) :: rs)
      end
  end.

(** The selector is the conjunction of the requirements added to it. *)
Definition IsObjectSelectedByLabels (objectLabels selectorLabels : labels_t) : result bool :=
  sel ← requirements (range_map selectorLabels);
  Ok (forallb (λ kv, Requirement_Matches kv.1 kv.2 objectLabels) sel).
End selected.

(** ** [internal/nmc/labels.go] *)

Definition ModuleConfiguredLabel (namespace name : string) : string :=
  "beta.kmm.node.kubernetes.io/" +:+ namespace +:+ "." +:+ name +:+ ".module-configured".
Definition ModuleInUseLabel (namespace name : string) : string :=
  "beta.kmm.node.kubernetes.io/" +:+ namespace +:+ "." +:+ name +:+ ".module-in-use".

Definition reConfiguredLabel := re_label beta_prefix ".module-configured".
Definition reInUseLabel := re_label beta_prefix ".module-in-use".

Definition IsModuleConfiguredLabel (s : string) : bool * string * string :=
  match reConfiguredLabel s with Some (ns, name) => (true, ns, name) | None => (false, "", "") end.
Definition IsModuleInUseLabel (s : string) : bool * string * string :=
  match reInUseLabel s with Some (ns, name) => (true, ns, name) | None => (false, "", "") end.

(** ** Round trips *)

(** Kubernetes names: a namespace is a DNS label, a module name may contain periods. *)
Lemma label_name_inj prefix suffix ns name ns' name' :
  re_ns ns = true → re_ns ns' = true →
  prefix +:+ ns +:+ "." +:+ name +:+ suffix = prefix +:+ ns' +:+ "." +:+ name' +:+ suffix →
  ns = ns' ∧ name = name'.
Proof.
  intros H1 H2 Heq%string_app_inj_l.
  assert (cut_dot (ns +:+ "." +:+ name +:+ suffix) = Some (ns, name +:+ suffix)) as E1.
  { apply cut_dot_Some. auto using re_ns_no_dot. }
  assert (cut_dot (ns' +:+ "." +:+ name' +:+ suffix) = Some (ns', name' +:+ suffix)) as E2.
  { apply cut_dot_Some. auto using re_ns_no_dot. }
  rewrite Heq, E2 in E1. injection E1 as <- Hn. split; [done|]. symmetry.
  by eapply string_app_inj_r.
Qed.

Lemma ModuleInUseLabel_inj ns name ns' name' :
  re_ns ns = true → re_ns ns' = true →
  ModuleInUseLabel ns name = ModuleInUseLabel ns' name' → ns = ns' ∧ name = name'.
Proof. apply label_name_inj. Qed.

Lemma ModuleConfiguredLabel_inj ns name ns' name' :
  re_ns ns = true → re_ns ns' = true →
  ModuleConfiguredLabel ns name = ModuleConfiguredLabel ns' name' → ns = ns' ∧ name = name'.
Proof. apply label_name_inj. Qed.

Lemma configured_not_in_use ns name ns' name' : ModuleConfiguredLabel ns name ≠ ModuleInUseLabel ns' name'.
Proof.
  unfold ModuleConfiguredLabel, ModuleInUseLabel. intros H%string_app_inj_l.
  change ".module-configured" with (".module-configure" +:+ "d") in H.
  change ".module-in-use" with (".module-in-us" +:+ "e") in H.
  rewrite <-!string_app_assoc in H. by apply string_last_char in H.
Qed.

Lemma IsModuleInUseLabel_spec s ns name :
  IsModuleInUseLabel s = (true, ns, name) ↔
  s = ModuleInUseLabel ns name ∧ re_ns ns = true ∧ re_name name = true.
Proof.
  unfold IsModuleInUseLabel, ModuleInUseLabel, reInUseLabel.
  rewrite <-(re_label_Some beta_prefix).
  destruct (re_label _ _ s) as [[a b]|]; naive_solver.
Qed.

Lemma IsModuleConfiguredLabel_spec s ns name :
  IsModuleConfiguredLabel s = (true, ns, name) ↔
  s = ModuleConfiguredLabel ns name ∧ re_ns ns = true ∧ re_name name = true.
Proof.
  unfold IsModuleConfiguredLabel, ModuleConfiguredLabel, reConfiguredLabel.
  rewrite <-(re_label_Some beta_prefix).
  destruct (re_label _ _ s) as [[a b]|]; naive_solver.
Qed.

Lemma IsKernelModuleVersionReadyNodeLabel_spec s :
  IsKernelModuleVersionReadyNodeLabel s = true ↔
  ∃ ns name, s = GetKernelModuleVersionReadyNodeLabel ns name ∧
             re_ns ns = true ∧ re_name name = true.
Proof.
  unfold IsKernelModuleVersionReadyNodeLabel. rewrite bool_decide_eq_true.
  unfold reKernelModuleVersionReadyLabel, GetKernelModuleVersionReadyNodeLabel.
  setoid_rewrite <-(re_label_Some kmm_prefix). split.
  - intros [[ns name] H]. eauto.
  - intros (ns & name & ->). eauto.
Qed.

(** A deprecated ready label has a single component, so it is never a per-module one. *)
Lemma deprecated_not_ready ns name :
  IsDeprecatedKernelModuleReadyNodeLabel (GetKernelModuleReadyNodeLabel ns name) = false.
Proof.
  unfold IsDeprecatedKernelModuleReadyNodeLabel, reDeprecatedKernelModuleReadyLabel,
    GetKernelModuleReadyNodeLabel.
  rewrite (strip_prefix_app kmm_prefix).
  replace (ns +:+ "." +:+ name +:+ ".ready") with ((ns +:+ "." +:+ name) +:+ ".ready")
    by (by rewrite !string_app_assoc).
  rewrite strip_suffix_app. apply not_true_is_false. intros H%re_ns_no_dot.
  rewrite string_forallb_app in H. apply andb_true_iff in H as [_ H].
  by rewrite string_forallb_app in H.
Qed.

Lemma IsKernelModuleReadyNodeLabel_exact s ns name :
  IsKernelModuleReadyNodeLabel s = (true, ns, name) ↔
  s = GetKernelModuleReadyNodeLabel ns name ∧ re_ns ns = true ∧ re_name name = true ∧
  ¬ ∃ x, name = x +:+ ".version" ∧ x ≠ "".
Proof.
  unfold IsKernelModuleReadyNodeLabel. split.
  - destruct (IsDeprecatedKernelModuleReadyNodeLabel s); [done|].
    destruct (IsKernelModuleVersionReadyNodeLabel s) eqn:E; [done|].
    unfold reKernelModuleReadyLabel.
    destruct (re_label _ _ s) as [[a b]|] eqn:L; [|done]. intros H. simplify_eq.
    apply re_label_Some in L as (-> & Hns & Hname). split_and!; [done..|].
    intros (x & -> & Hx). apply not_true_iff_false in E. apply E.
    apply IsKernelModuleVersionReadyNodeLabel_spec. exists ns, x. split_and!; [|done|].
    + by rewrite string_app_assoc.
    + revert Hname. unfold re_name. rewrite string_forallb_app, !andb_true_iff.
      intros (_ & Hc & _). split; [|done]. by destruct x.
  - intros (-> & Hns & Hname & Hnv). rewrite deprecated_not_ready.
    destruct (IsKernelModuleVersionReadyNodeLabel _) eqn:E.
    + exfalso. apply IsKernelModuleVersionReadyNodeLabel_spec in E as (ns' & x & Heq & H1 & H2).
      apply Hnv. exists x. split; [|by destruct x].
      unfold GetKernelModuleReadyNodeLabel, GetKernelModuleVersionReadyNodeLabel in Heq.
      change ".version.ready" with (".version" +:+ ".ready") in Heq.
      rewrite <-(string_app_assoc x) in Heq. by apply label_name_inj in Heq as [_ ->].
    + unfold reKernelModuleReadyLabel.
      by rewrite (proj2 (re_label_Some kmm_prefix ".ready" _ ns name)).
Qed.

(** The recognisers of the in-use, configured and ready labels accept exactly the keys
    their constructors build from a namespace without periods and a name, and return those
    two parts; the only such ready labels that are not accepted are those whose module name
    ends in [.version], which are version-ready labels of another module. *)
Theorem label_recognisers_exact s ns name :
  (IsModuleInUseLabel s = (true, ns, name) ↔
   s = ModuleInUseLabel ns name ∧ re_ns ns = true ∧ re_name name = true) ∧
  (IsModuleConfiguredLabel s = (true, ns, name) ↔
   s = ModuleConfiguredLabel ns name ∧ re_ns ns = true ∧ re_name name = true) ∧
  (IsKernelModuleReadyNodeLabel s = (true, ns, name) ↔
   s = GetKernelModuleReadyNodeLabel ns name ∧ re_ns ns = true ∧ re_name name = true ∧
   ¬ ∃ x, name = x +:+ ".version" ∧ x ≠ "").
Proof.
  split_and!.
  - apply IsModuleInUseLabel_spec.
  - apply IsModuleConfiguredLabel_spec.
  - apply IsKernelModuleReadyNodeLabel_exact.
Qed.

Definition no_dot (s : string) : bool := string_forallb (λ c, negb (is_char "." c)) s.

Lemma split_version_label prefix ns name :
  no_dot ns = true → no_dot name = true →
  split_on (is_char ".") (prefix +:+ "." +:+ ns +:+ "." +:+ name) =
  split_on (is_char ".") prefix ++ [ns; name].
Proof.
  intros Hns Hname.
  change (split_on (is_char ".") (prefix +:+ String "." (ns +:+ String "." name)) =
          split_on (is_char ".") prefix ++ [ns; name]).
  rewrite !split_on_app by done. by rewrite (split_on_none _ ns), (split_on_none _ name).
Qed.

Lemma version_label_parse prefix ns name :
  no_dot ns = true → no_dot name = true →
  GetNamespaceNameFromVersionLabel (prefix +:+ "." +:+ ns +:+ "." +:+ name) = Ok (ns, name).
Proof.
  intros Hns Hname. unfold GetNamespaceNameFromVersionLabel.
  rewrite split_version_label by done. rewrite length_app. cbn [length].
  destruct (Nat.ltb_spec (length (split_on (is_char ".") prefix) + 2) 2) as [Hl|_].
  { pose proof (split_on_not_nil (is_char ".") prefix).
    destruct (split_on (is_char ".") prefix); simpl in *; [done|lia]. }
  rewrite !lookup_app_r by lia.
  replace (_ - _ - _) with 0 by lia.
  replace (_ - 1 - _) with 1 by lia. done.
Qed.

(** The namespace and the name of a module are read back from each of its three version
    labels when neither contains a period. *)
Theorem version_labels_roundtrip ns name :
  no_dot ns = true → no_dot name = true →
  Forall (λ l, GetNamespaceNameFromVersionLabel l = Ok (ns, name) ∧ IsVersionLabel l = true)
    [GetModuleVersionLabelName ns name; GetWorkerPodVersionLabelName ns name;
     GetSchedulePodVersionLabelName ns name].
Proof.
  intros Hns Hname.
  repeat constructor; try by apply version_label_parse.
Qed.

Lemma version_labels_roundtrip_witness :
  GetNamespaceNameFromVersionLabel (GetWorkerPodVersionLabelName "ns" "mod-a") =
  Ok ("ns", "mod-a").
Proof.
  pose proof (version_labels_roundtrip "ns" "mod-a" eq_refl eq_refl) as H.
  apply Forall_cons in H as [_ H]. apply Forall_cons in H as [H _]. exact (proj1 H).
Defined.

(** For a module whose name has a period, the version labels are attributed to another
    namespace and another module. *)
Theorem version_label_dotted_name_misparsed ns a b :
  no_dot a = true → no_dot b = true →
  GetNamespaceNameFromVersionLabel (GetModuleVersionLabelName ns (a +:+ "." +:+ b)) = Ok (a, b).
Proof.
  intros Ha Hb. unfold GetModuleVersionLabelName.
  rewrite <-(version_label_parse
    (constants.ModuleVersionLabelPrefix +:+ "." +:+ ns) a b) by done.
  by rewrite !string_app_assoc.
Qed.

Lemma version_label_dotted_name_misparsed_witness :
  GetNamespaceNameFromVersionLabel (GetModuleVersionLabelName "ns" "nvidia.p2p") =
  Ok ("nvidia", "p2p").
Proof. exact (version_label_dotted_name_misparsed "ns" "nvidia" "p2p" eq_refl eq_refl). Defined.
