(* ===== verification/NmcHelper.v ===== *)
(** * NodeModulesConfig helper ([internal/nmc/helper.go])

    The entries of a NodeModulesConfig are two slices searched by (namespace, name).  The
    abstract value of each is a finite map from that pair, and the operations of the helper
    refine the map operations. *)

From S2P Require Import Prelude Types Kube Externals Demo Labels.

Open Scope string_scope.
Open Scope nat_scope.
Open Scope list_scope.

Definition nmc_Get (name : string) : prog (result NodeModulesConfig) :=
  r ← get KNMC {| nsn_Namespace := ""; nsn_Name := name |};
  mret (match r with
        | Err e => if IsNotFound e then Err e
                   else Err (Errorf_v "failed to get NodeModulesConfig %s: %v" e)
        | Ok n => Ok n
        end).

Definition item_matches (ns name : string) (i : ModuleItem) : bool :=
  String.eqb (mi_Namespace i) ns && String.eqb (mi_Name i) name.

(** The entry and its index. *)
Fixpoint find_spec_entry (i : nat) (l : list NodeModuleSpec) (ns name : string) : option (NodeModuleSpec * nat) :=
  match l with
  | [] => None
  | m :: l => if item_matches ns name (nms_item m) then Some (m, i) else find_spec_entry (S i) l ns name
  end.

Definition GetModuleSpecEntry (n : NodeModulesConfig) (modNamespace modName : string) : option (NodeModuleSpec * nat) :=
  find_spec_entry 0 (nmc_spec_Modules n) modNamespace modName.

Definition FindModuleStatus (statuses : list NodeModuleStatus) (moduleNamespace moduleName : string) : option NodeModuleStatus :=
  find_first (λ s, item_matches moduleNamespace moduleName (nmst_item s)) statuses.

Definition GetModuleStatusEntry (n : NodeModulesConfig) (modNamespace modName : string) : option NodeModuleStatus :=
  find_first (λ s, item_matches modNamespace modName (nmst_item s)) (nmc_status_Modules n).

(** The fields of [foundEntry] the helper assigns; [Name] and [Namespace] stay. *)
Definition set_entry (mld : ModuleLoaderData) (cfg : ModuleConfig) (entry : NodeModuleSpec) : NodeModuleSpec :=
  let saName := if String.eqb (mld_ServiceAccountName mld) "" then "default"
                else mld_ServiceAccountName mld in
  {| nms_item := {| mi_ImageRepoSecret := mld_ImageRepoSecret mld;
                    mi_Name := mi_Name (nms_item entry);
                    mi_Namespace := mi_Namespace (nms_item entry);
                    mi_ServiceAccountName := saName;
                    mi_Tolerations := mld_Tolerations mld;
                    mi_Version := mld_ModuleVersion mld |};
     nms_Config := cfg |}.

Definition new_entry (ns name : string) : NodeModuleSpec :=
  {| nms_item := {| mi_ImageRepoSecret := None; mi_Name := name; mi_Namespace := ns;
                    mi_ServiceAccountName := ""; mi_Tolerations := []; mi_Version := "" |};
     nms_Config := empty_config |}.

Definition SetModuleConfig (n : NodeModulesConfig) (mld : ModuleLoaderData) (moduleConfig : ModuleConfig) : NodeModulesConfig :=
  let mods := nmc_spec_Modules n in
  match GetModuleSpecEntry n (mld_Namespace mld) (mld_Name mld) with
  | None =>
      nmc_set_spec n (mods ++ [set_entry mld moduleConfig (new_entry (mld_Namespace mld) (mld_Name mld))])
  | Some (e, i) => nmc_set_spec n (<[i := set_entry mld moduleConfig e]> mods)
  end.

Definition RemoveModuleConfig (n : NodeModulesConfig) (namespace name : string) : NodeModulesConfig :=
  match GetModuleSpecEntry n namespace name with
  | None => n
  | Some (_, i) => nmc_set_spec n (take i (nmc_spec_Modules n) ++ drop (S i) (nmc_spec_Modules n))
  end.

Definition RemoveModuleStatus (statuses : list NodeModuleStatus) (modNamespace modName : string) : list NodeModuleStatus :=
  filter (λ s, mi_Namespace (nmst_item s) ≠ modNamespace ∨ mi_Name (nmst_item s) ≠ modName) statuses.

Definition SetModuleStatus (statuses : list NodeModuleStatus) (status : NodeModuleStatus) : list NodeModuleStatus :=
  upsert (λ s, item_matches (mi_Namespace (nmst_item status)) (mi_Name (nmst_item status)) (nmst_item s))
    status statuses.

(** ** Abstract values *)

Definition nsn (ns name : string) : NamespacedName := {| nsn_Namespace := ns; nsn_Name := name |}.

Definition spec_map (n : NodeModulesConfig) : gmap NamespacedName NodeModuleSpec :=
  keyed_map nms_key (nmc_spec_Modules n).
Definition status_map (l : list NodeModuleStatus) : gmap NamespacedName NodeModuleStatus :=
  keyed_map nmst_key l.

(** At most one entry per module in the spec, and one in the status. *)
Definition nmc_wf (n : NodeModulesConfig) : Prop :=
  NoDup (nms_key <$> nmc_spec_Modules n) ∧ NoDup (nmst_key <$> nmc_status_Modules n).

#[export] Instance nmc_wf_dec n : Decision (nmc_wf n).
Proof. unfold nmc_wf. apply _. Defined.

Lemma item_matches_key ns name i : item_matches ns name i = bool_decide (item_key i = nsn ns name).
Proof.
  destruct i as [? nm nsp ? ? ?]. unfold item_matches, item_key, nsn; simpl.
  destruct (String.eqb_spec nsp ns), (String.eqb_spec nm name); simpl; case_bool_decide; naive_solver.
Qed.

Lemma item_matches_spec ns name m : item_matches ns name (nms_item m) = key_is nms_key (nsn ns name) m.
Proof. apply item_matches_key. Qed.

Lemma item_matches_status ns name m : item_matches ns name (nmst_item m) = key_is nmst_key (nsn ns name) m.
Proof. apply item_matches_key. Qed.

Lemma key_is_true {A} (key : A → NamespacedName) k a : key_is key k a = true ↔ key a = k.
Proof. unfold key_is. apply bool_decide_eq_true. Qed.

Lemma find_spec_entry_Some i l ns name e j :
  find_spec_entry i l ns name = Some (e, j) →
  i ≤ j ∧ l !! (j - i) = Some e ∧ nms_key e = nsn ns name ∧
  Forall (λ m, nms_key m ≠ nsn ns name) (take (j - i) l).
Proof.
  revert i. induction l as [|m l IH]; intros i; simpl; [done|].
  rewrite item_matches_key. case_bool_decide as E.
  - intros H. simplify_eq. rewrite Nat.sub_diag. split_and!; [lia|done|done|constructor].
  - intros H. apply IH in H as (Hij & Hl & Hk & HF).
    replace (j - i) with (S (j - S i)) by lia. simpl.
    split_and!; [lia|done|done|]. by constructor.
Qed.

Lemma find_spec_entry_first i l ns name :
  fst <$> find_spec_entry i l ns name = find_first (key_is nms_key (nsn ns name)) l.
Proof.
  revert i. induction l as [|m l IH]; intros i; simpl; [done|].
  rewrite item_matches_spec. destruct (key_is _ _ m); [done|]. apply IH.
Qed.

Lemma GetModuleSpecEntry_lookup n ns name :
  fst <$> GetModuleSpecEntry n ns name = spec_map n !! nsn ns name.
Proof. unfold GetModuleSpecEntry, spec_map. by rewrite find_spec_entry_first, keyed_map_lookup. Qed.

Lemma FindModuleStatus_lookup l ns name :
  FindModuleStatus l ns name = status_map l !! nsn ns name.
Proof.
  unfold FindModuleStatus, status_map. rewrite keyed_map_lookup.
  apply find_first_ext. intros s _. apply item_matches_status.
Qed.

Lemma set_entry_key mld cfg e : nms_key (set_entry mld cfg e) = nms_key e.
Proof. done. Qed.

(** [SetModuleConfig] is the keyed insertion. *)
Lemma SetModuleConfig_upsert n mld cfg :
  nmc_spec_Modules (SetModuleConfig n mld cfg) =
  let x := set_entry mld cfg (new_entry (mld_Namespace mld) (mld_Name mld)) in
  upsert (key_is nms_key (nms_key x)) x (nmc_spec_Modules n).
Proof.
  unfold SetModuleConfig, GetModuleSpecEntry. cbv zeta.
  set (x := set_entry _ _ _).
  assert (nms_key x = nsn (mld_Namespace mld) (mld_Name mld)) as Hx by done.
  rewrite Hx. cut (∀ i,
    match find_spec_entry i (nmc_spec_Modules n) (mld_Namespace mld) (mld_Name mld) with
    | None => nmc_spec_Modules n ++ [x]
    | Some (e, j) => <[j - i := set_entry mld cfg e]> (nmc_spec_Modules n)
    end = upsert (key_is nms_key (nsn (mld_Namespace mld) (mld_Name mld))) x (nmc_spec_Modules n)).
  { intros H. rewrite <-(H 0). destruct (find_spec_entry _ _ _ _) as [[e j]|]; simpl; [|done].
    by rewrite Nat.sub_0_r. }
  induction (nmc_spec_Modules n) as [|m l IH]; intros i; simpl; [done|].
  rewrite item_matches_spec. destruct (key_is _ _ m) eqn:E.
  - rewrite Nat.sub_diag. simpl. f_equal. apply key_is_true in E. unfold x, set_entry. simpl.
    injection E as E1 E2. by rewrite E1, E2.
  - specialize (IH (S i)). destruct (find_spec_entry _ _ _ _) as [[e j]|] eqn:F.
    + apply find_spec_entry_Some in F as [Hij _].
      replace (j - i) with (S (j - S i)) by lia. simpl. by rewrite <-IH.
    + by rewrite <-IH.
Qed.

Lemma RemoveModuleConfig_delete_first n ns name :
  nmc_spec_Modules (RemoveModuleConfig n ns name) =
  delete_first (key_is nms_key (nsn ns name)) (nmc_spec_Modules n).
Proof.
  unfold RemoveModuleConfig, GetModuleSpecEntry.
  cut (∀ i, match find_spec_entry i (nmc_spec_Modules n) ns name with
    | None => nmc_spec_Modules n
    | Some (e, j) => take (j - i) (nmc_spec_Modules n) ++ drop (S (j - i)) (nmc_spec_Modules n)
    end = delete_first (key_is nms_key (nsn ns name)) (nmc_spec_Modules n)).
  { intros H. rewrite <-(H 0). destruct (find_spec_entry _ _ _ _) as [[e j]|]; [|done].
    by rewrite Nat.sub_0_r. }
  induction (nmc_spec_Modules n) as [|m l IH]; intros i; simpl; [done|].
  rewrite item_matches_spec. destruct (key_is _ _ m) eqn:E.
  - by rewrite Nat.sub_diag.
  - specialize (IH (S i)). destruct (find_spec_entry _ _ _ _) as [[e j]|] eqn:F.
    + apply find_spec_entry_Some in F as [Hij _].
      replace (j - i) with (S (j - S i)) by lia. simpl. by rewrite <-IH.
    + by rewrite <-IH.
Qed.

Lemma SetModuleConfig_wf n mld cfg : nmc_wf n → nmc_wf (SetModuleConfig n mld cfg).
Proof.
  intros [H1 H2]. split.
  - rewrite SetModuleConfig_upsert. cbv zeta. by apply upsert_NoDup_keys.
  - unfold SetModuleConfig. by destruct (GetModuleSpecEntry _ _ _) as [[]|].
Qed.

Lemma RemoveModuleConfig_wf n ns name : nmc_wf n → nmc_wf (RemoveModuleConfig n ns name).
Proof.
  intros [H1 H2]. split.
  - rewrite RemoveModuleConfig_delete_first, delete_first_filter by done.
    by apply NoDup_keys_filter.
  - unfold RemoveModuleConfig. by destruct (GetModuleSpecEntry _ _ _) as [[]|].
Qed.

Lemma SetModuleStatus_upsert l s :
  SetModuleStatus l s = upsert (key_is nmst_key (nmst_key s)) s l.
Proof.
  unfold SetModuleStatus. induction l as [|a l IH]; simpl; [done|].
  by rewrite IH, item_matches_status.
Qed.

Lemma RemoveModuleStatus_filter l ns name :
  RemoveModuleStatus l ns name = filter (λ s, nmst_key s ≠ nsn ns name) l.
Proof.
  unfold RemoveModuleStatus. apply list_filter_iff. intros s.
  unfold nmst_key, item_key, nsn. destruct (nmst_item s); simpl.
  destruct (decide (mi_Namespace = ns)), (decide (mi_Name = name)); naive_solver.
Qed.

Lemma SetModuleStatus_NoDup l s :
  NoDup (nmst_key <$> l) → NoDup (nmst_key <$> SetModuleStatus l s).
Proof. intros H. rewrite SetModuleStatus_upsert. by apply upsert_NoDup_keys. Qed.

Lemma RemoveModuleStatus_NoDup l ns name :
  NoDup (nmst_key <$> l) → NoDup (nmst_key <$> RemoveModuleStatus l ns name).
Proof. intros H. rewrite RemoveModuleStatus_filter. by apply NoDup_keys_filter. Qed.

Lemma status_map_set l s : status_map (SetModuleStatus l s) = <[nmst_key s := s]> (status_map l).
Proof. rewrite SetModuleStatus_upsert. apply keyed_map_upsert. Qed.

Lemma status_map_remove l ns name :
  status_map (RemoveModuleStatus l ns name) = delete (nsn ns name) (status_map l).
Proof. rewrite RemoveModuleStatus_filter. apply keyed_map_filter. Qed.

(** ** Refinement *)

(** The entry [SetModuleConfig] is meant to leave for a module. *)
Definition desired_entry (mld : ModuleLoaderData) (cfg : ModuleConfig) : NodeModuleSpec :=
  set_entry mld cfg (new_entry (mld_Namespace mld) (mld_Name mld)).

Lemma spec_map_set n mld cfg :
  spec_map (SetModuleConfig n mld cfg) =
  <[nsn (mld_Namespace mld) (mld_Name mld) := desired_entry mld cfg]> (spec_map n).
Proof.
  unfold spec_map. rewrite SetModuleConfig_upsert. exact (keyed_map_upsert nms_key _ (desired_entry mld cfg)).
Qed.

Lemma spec_map_remove n ns name :
  nmc_wf n → spec_map (RemoveModuleConfig n ns name) = delete (nsn ns name) (spec_map n).
Proof.
  intros [H1 _]. unfold spec_map. rewrite RemoveModuleConfig_delete_first, delete_first_filter by done.
  apply keyed_map_filter.
Qed.

Lemma SetModuleConfig_keeps n mld cfg :
  nmc_meta (SetModuleConfig n mld cfg) = nmc_meta n ∧
  nmc_status_Modules (SetModuleConfig n mld cfg) = nmc_status_Modules n.
Proof. unfold SetModuleConfig. by destruct (GetModuleSpecEntry _ _ _) as [[]|]. Qed.

Lemma RemoveModuleConfig_keeps n ns name :
  nmc_meta (RemoveModuleConfig n ns name) = nmc_meta n ∧
  nmc_status_Modules (RemoveModuleConfig n ns name) = nmc_status_Modules n.
Proof. unfold RemoveModuleConfig. by destruct (GetModuleSpecEntry _ _ _) as [[]|]. Qed.

(** On a NodeModulesConfig with one entry per module, the helper's operations are the
    operations of a finite map keyed by (namespace, name): setting a configuration inserts
    the entry, removing deletes it, looking an entry up is the map lookup, statuses are set
    and removed likewise, and one entry per module is kept. *)
Theorem nmc_helper_refines_map n mld cfg ns name st :
  nmc_wf n →
  spec_map (SetModuleConfig n mld cfg) =
    <[nsn (mld_Namespace mld) (mld_Name mld) := desired_entry mld cfg]> (spec_map n) ∧
  spec_map (RemoveModuleConfig n ns name) = delete (nsn ns name) (spec_map n) ∧
  fst <$> GetModuleSpecEntry n ns name = spec_map n !! nsn ns name ∧
  GetModuleStatusEntry n ns name = status_map (nmc_status_Modules n) !! nsn ns name ∧
  status_map (SetModuleStatus (nmc_status_Modules n) st) =
    <[nmst_key st := st]> (status_map (nmc_status_Modules n)) ∧
  status_map (RemoveModuleStatus (nmc_status_Modules n) ns name) =
    delete (nsn ns name) (status_map (nmc_status_Modules n)) ∧
  nmc_wf (SetModuleConfig n mld cfg) ∧ nmc_wf (RemoveModuleConfig n ns name) ∧
  nmc_wf (nmc_set_status n (SetModuleStatus (nmc_status_Modules n) st)) ∧
  nmc_wf (nmc_set_status n (RemoveModuleStatus (nmc_status_Modules n) ns name)).
Proof.
  intros Hwf. pose proof Hwf as [H1 H2]. split_and!.
  - apply spec_map_set.
  - by apply spec_map_remove.
  - apply GetModuleSpecEntry_lookup.
  - apply FindModuleStatus_lookup.
  - apply status_map_set.
  - apply status_map_remove.
  - by apply SetModuleConfig_wf.
  - by apply RemoveModuleConfig_wf.
  - split; [done|]. by apply SetModuleStatus_NoDup.
  - split; [done|]. by apply RemoveModuleStatus_NoDup.
Qed.

Lemma nmc_helper_refines_map_witness :
  nmc_wf (demo_nmc "node-a" [demo_spec]) ∧
  spec_map (RemoveModuleConfig (demo_nmc "node-a" [demo_spec]) "ns" "mod") =
  delete (nsn "ns" "mod") (spec_map (demo_nmc "node-a" [demo_spec])).
Proof.
  assert (nmc_wf (demo_nmc "node-a" [demo_spec])) as H by (vm_compute; repeat constructor; set_solver).
  split; [exact H|].
  pose proof (nmc_helper_refines_map _ demo_mld demo_config "ns" "mod" demo_status H) as R.
  exact (proj1 (proj2 R)).
Defined.
