(* ===== verification/Node.v ===== *)
(** * Nodes ([internal/node/node.go], [InternalTolerations] of [internal/module/helper.go])

    Which nodes a module can be scheduled on, and the label update of a node. *)

From S2P Require Import Prelude Types Kube Externals Demo Labels.

Open Scope string_scope.
Open Scope nat_scope.
Open Scope list_scope.

(** [TaintNodeDiskPressure], [TaintNodeMemoryPressure] and [TaintNodePIDPressure] of the
    Kubernetes API. *)
Definition InternalTolerations : list Toleration :=
  (λ key, {| tol_Key := key; tol_Operator := TolerationOpExists; tol_Value := "";
             tol_Effect := TaintEffectNoSchedule; tol_Seconds := None |}) <$>
  ["node.kubernetes.io/disk-pressure"; "node.kubernetes.io/memory-pressure";
   "node.kubernetes.io/pid-pressure"].

Section node.
Context `{EXT : Externals}.

Definition taint_blocks (tolerations : list Toleration) (taint : Taint) : bool :=
  let toleranceFound := existsb (λ t, ToleratesTaint t taint) tolerations in
  negb toleranceFound &&
  (String.eqb (taint_Effect taint) TaintEffectNoSchedule ||
   String.eqb (taint_Effect taint) TaintEffectNoExecute).

Fixpoint no_taint_blocks (tolerations : list Toleration) (taints : list Taint) : bool :=
  match taints with
  | [] => true
  | t :: ts => if taint_blocks tolerations t then false else no_taint_blocks tolerations ts
  end.

Definition IsNodeSchedulable (node : Node) (tolerations : list Toleration) : bool :=
  no_taint_blocks (tolerations ++ InternalTolerations) (node_Taints node).

Definition GetAllNodesBySelector (selector : labels_t) : prog (result (list Node)) :=
  r ← list_all KNode [MatchingLabels selector];
  mret (wrap_v "could not list nodes: %v" r).

Definition GetSchedulableNodesBySelector (selector : labels_t) (tolerations : list Toleration) : prog (result (list Node)) :=
  r ← GetAllNodesBySelector selector;
  mret (match r with
        | Err e => Err (Errorf_v "could not get all nodes by selector: %v" e)
        | Ok allNodes => Ok (filter (λ n, IsNodeSchedulable n tolerations = true) allNodes)
        end).

Definition GetNumTargetedNodes (selector : labels_t) (tolerations : list Toleration) : prog (result nat) :=
  r ← GetSchedulableNodesBySelector selector tolerations;
  mret (match r with
        | Err e => Err (Errorf_v "could not list nodes: %v" e)
        | Ok nodes => Ok (length nodes)
        end).

Definition addLabels (node : Node) (labels : labels_t) : Node :=
  foldl (λ n kv, node_set_labels n (<[kv.1 := kv.2]> (node_Labels n))) node (range_map labels).

Definition removeLabels (node : Node) (labels : labels_t) : Node :=
  foldl (λ n kv, node_set_labels n (delete kv.1 (node_Labels n))) node (range_map labels).

Definition UpdateLabels (node : Node) (toBeAdded toBeRemoved : labels_t) : prog (Node * option error) :=
  let original := node in
  let node := removeLabels (addLabels node toBeAdded) toBeRemoved in
  if bool_decide (node_Labels node = node_Labels original) then mret (node, None)
  else
    '(node, err) ← patch KNode original node;
    mret (node, wrap_err "could not patch node: %v" err).

Fixpoint rebooted_conds (conds : list NodeCondition) (differs : bool) : bool :=
  match conds with
  | [] => false
  | c :: cs =>
      if String.eqb (nc_Type c) NodeReady && String.eqb (nc_Status c) ConditionTrue && differs
      then true else rebooted_conds cs differs
  end.

Definition IsNodeRebooted (node : Node) (statusBootId : string) : bool :=
  rebooted_conds (node_Conditions node) (negb (String.eqb statusBootId (ni_BootID (node_NodeInfo node)))).

(** ** Properties *)

Lemma node_set_labels_same n : node_set_labels n (node_Labels n) = n.
Proof. by destruct n as [[] ? ? ?]. Qed.

Lemma node_set_labels_twice n l l' : node_set_labels (node_set_labels n l) l' = node_set_labels n l'.
Proof. done. Qed.

(** Nodes matched against the tolerations: a taint that repels pods must be tolerated. *)
Definition repels (t : Taint) : Prop :=
  taint_Effect t = TaintEffectNoSchedule ∨ taint_Effect t = TaintEffectNoExecute.

Lemma no_taint_blocks_spec tols taints :
  no_taint_blocks tols taints = true ↔
  ∀ t, t ∈ taints → repels t → ∃ tol, tol ∈ tols ∧ ToleratesTaint tol t = true.
Proof.
  assert (∀ t, taint_blocks tols t = false ↔
               (repels t → ∃ tol, tol ∈ tols ∧ ToleratesTaint tol t = true)) as Hb.
  { intros t. unfold taint_blocks, repels.
    destruct (existsb _ tols) eqn:E; simpl.
    - apply existsb_exists in E as (tol & Hin & Ht). split; [|done]. intros _ _.
      exists tol. by rewrite list_elem_of_In.
    - rewrite orb_false_iff, !String.eqb_neq.
      assert (¬ ∃ tol, tol ∈ tols ∧ ToleratesTaint tol t = true) as Hno; [|naive_solver].
      intros (tol & Hin & Ht). apply not_true_iff_false in E. apply E, existsb_exists.
      exists tol. by rewrite <-list_elem_of_In. }
  induction taints as [|t ts IH]; simpl.
  - split; [intros _ t Ht; inversion Ht|done].
  - destruct (taint_blocks tols t) eqn:E.
    + split; [done|]. intros H. rewrite (proj2 (Hb t)) in E; [done|].
      intros Hr. apply H; [left|done].
    + rewrite IH. setoid_rewrite elem_of_cons. rewrite Hb in E. naive_solver.
Qed.

(** A node can run a module exactly when each of its NoSchedule and NoExecute taints is
    tolerated by the module or by the operator's own tolerations. *)
Theorem IsNodeSchedulable_spec node tolerations :
  IsNodeSchedulable node tolerations = true ↔
  ∀ t, t ∈ node_Taints node → repels t →
  ∃ tol, (tol ∈ tolerations ∨ tol ∈ InternalTolerations) ∧ ToleratesTaint tol t = true.
Proof.
  unfold IsNodeSchedulable. rewrite no_taint_blocks_spec. by setoid_rewrite elem_of_app.
Qed.

Lemma IsNodeRebooted_spec node bootId :
  IsNodeRebooted node bootId = true ↔
  bootId ≠ ni_BootID (node_NodeInfo node) ∧
  ∃ c, c ∈ node_Conditions node ∧ nc_Type c = NodeReady ∧ nc_Status c = ConditionTrue.
Proof.
  unfold IsNodeRebooted. destruct (String.eqb_spec bootId (ni_BootID (node_NodeInfo node))) as [E|E].
  - split; [|naive_solver]. simpl. intros Hr. exfalso. revert Hr.
    induction (node_Conditions node) as [|c cs IH]; simpl; [done|].
    by rewrite andb_false_r.
  - simpl. induction (node_Conditions node) as [|c cs IH]; simpl.
    + split; [done|]. intros (_ & c & Hc & _). inversion Hc.
    + destruct (String.eqb_spec (nc_Type c) NodeReady), (String.eqb_spec (nc_Status c) ConditionTrue);
        simpl; rewrite ?IH; setoid_rewrite elem_of_cons; naive_solver.
Qed.

(** A node that is ready and runs since another boot than the one recorded. *)
Definition rebooted (node : Node) (bootId : string) : Prop :=
  bootId ≠ ni_BootID (node_NodeInfo node) ∧
  ∃ c, c ∈ node_Conditions node ∧ nc_Type c = NodeReady ∧ nc_Status c = ConditionTrue.

Lemma IsNodeRebooted_reflect node bootId : reflect (rebooted node bootId) (IsNodeRebooted node bootId).
Proof. apply iff_reflect. symmetry. apply IsNodeRebooted_spec. Qed.

Section laws.
Context `{EXTL : !ExternalsLaws}.

Lemma addLabels_labels node l : addLabels node l = node_set_labels node (l ∪ node_Labels node).
Proof.
  assert (∀ kvs (m : gmap string string), foldl (λ n kv, node_set_labels n (<[kv.1 := kv.2]> (node_Labels n)))
                     (node_set_labels node m) kvs =
                   node_set_labels node ((list_to_map (reverse kvs) : gmap string string) ∪ m)) as Hf.
  { induction kvs as [|[k v] kvs IH]; intros m; cbn [foldl]; [by rewrite reverse_nil, list_to_map_nil, map_empty_union|].
    rewrite node_set_labels_twice, IH, reverse_cons, list_to_map_app. f_equal.
    simpl. by rewrite <-(assoc_L (∪)), insert_empty, <-insert_union_singleton_l. }
  unfold addLabels. rewrite <-(node_set_labels_same node) at 1. rewrite Hf.
  f_equal. f_equal. rewrite <-(list_to_map_to_list l) at 2.
  apply list_to_map_proper; [|by rewrite reverse_Permutation, range_map_perm].
  rewrite reverse_Permutation. apply NoDup_range_map.
Qed.

Lemma removeLabels_labels node l :
  removeLabels node l = node_set_labels node (node_Labels node ∖ l).
Proof.
  assert (∀ kvs (m : gmap string string), foldl (λ n (kv : string * string), node_set_labels n (delete kv.1 (node_Labels n)))
                     (node_set_labels node m) kvs =
                   node_set_labels node (filter (λ kv, kv.1 ∉ kvs.*1) m)) as Hf.
  { induction kvs as [|[k v] kvs IH]; intros m; simpl.
    - f_equal. symmetry. apply map_filter_id. intros. apply not_elem_of_nil.
    - rewrite node_set_labels_twice, IH. f_equal. apply map_eq. intros j.
      apply option_eq. intros x. rewrite !map_lookup_filter_Some, lookup_delete_Some, not_elem_of_cons. naive_solver. }
  unfold removeLabels. rewrite <-(node_set_labels_same node) at 1. rewrite Hf.
  f_equal. apply map_eq. intros j. apply option_eq. intros x.
  rewrite map_lookup_filter_Some, lookup_difference_Some. simpl.
  rewrite list_elem_of_fmap. split.
  - intros [Hj Hn]. split; [done|]. apply eq_None_not_Some. intros [y Hy].
    apply Hn. exists (j, y). by rewrite elem_of_range_map.
  - intros [Hj Hn]. split; [done|]. intros ([j' y] & -> & Hy%elem_of_range_map). naive_solver.
Qed.

(** The labels a node is meant to have after an update. *)
Definition updated_labels (labels toBeAdded toBeRemoved : labels_t) : labels_t :=
  (toBeAdded ∪ labels) ∖ toBeRemoved.

Lemma UpdateLabels_wp node toBeAdded toBeRemoved :
  let labels' := updated_labels (node_Labels node) toBeAdded toBeRemoved in
  wp (UpdateLabels node toBeAdded toBeRemoved) (λ tr r,
    obs_call <$> tr =
      (if decide (labels' = node_Labels node) then []
       else [Patch KNode node (node_set_labels node labels') false]) ∧
    (is_Some r.2 → labels' ≠ node_Labels node)).
Proof.
  cbv zeta. unfold UpdateLabels. rewrite removeLabels_labels, addLabels_labels.
  rewrite node_set_labels_twice. fold (updated_labels (node_Labels node) toBeAdded toBeRemoved).
  change (node_Labels (node_set_labels node ?l)) with l.
  case_bool_decide as E; simpl.
  - rewrite decide_True by done. split; [done|]. by intros [? ?].
  - intros [o|e]; simpl; by rewrite decide_False by done.
Qed.
(** Whatever order the maps are visited in, [UpdateLabels] patches the node at most once,
    does so exactly when its labels change, and sends the labels with every addition applied
    and every removal done: key by key, a removed label is absent, an added one has its new
    value and any other is as it was (a label in both sets ends up absent). *)
Theorem UpdateLabels_effect node toBeAdded toBeRemoved :
  wp (UpdateLabels node toBeAdded toBeRemoved) (λ tr r, ∃ labels' : labels_t,
    obs_call <$> tr =
      (if decide (labels' = node_Labels node) then []
       else [Patch KNode node (node_set_labels node labels') false]) ∧
    (is_Some r.2 → labels' ≠ node_Labels node) ∧
    ∀ k, labels' !! k =
      if decide (is_Some (toBeRemoved !! k)) then None
      else match toBeAdded !! k with Some v => Some v | None => node_Labels node !! k end).
Proof.
  eapply wp_mono; [|apply UpdateLabels_wp]. cbv zeta. intros tr r [Htr Hr].
  eexists. split; [exact Htr|]. split; [done|]. intros k. unfold updated_labels.
  rewrite lookup_difference, lookup_union.
  destruct (toBeRemoved !! k), (toBeAdded !! k), (node_Labels node !! k); simpl; try done;
    by (rewrite decide_True by eauto) || by (rewrite decide_False by (by intros [])).
Qed.
End laws.
End node.

Definition demo_node (name : string) (labels : labels_t) : Node :=
  {| node_meta := meta_set_labels (empty_meta "" name) labels; node_Taints := []; node_SpecOther := "";
     node_Conditions := [{| nc_Type := NodeReady; nc_Status := ConditionTrue |}];
     node_NodeInfo := {| ni_BootID := "boot-1"; ni_KernelVersion := "6.1.0"; ni_Other := "" |} |}.

Lemma UpdateLabels_effect_witness :
  wp (UpdateLabels (demo_node "node-a" {[ "old" := "" ]}) {[ "new" := "" ]} {[ "old" := "" ]})
    (λ tr _, ∃ labels' : labels_t, labels' !! "new" = Some "" ∧ labels' !! "old" = None).
Proof.
  eapply wp_mono; [|exact (UpdateLabels_effect (demo_node "node-a" {[ "old" := "" ]})
                      {[ "new" := "" ]} {[ "old" := "" ]})].
  intros tr r (labels' & _ & _ & H). exists labels'.
  split; [exact (H "new")|exact (H "old")].
Defined.
