(* ===== verification/KernelMapper.v ===== *)
(** * Kernel mappings ([internal/module/*.go], [internal/kernel/kernel.go],
    [internal/utils/replaceStrings.go])

    How a Module and a kernel version become the ModuleLoaderData of one kernel: the first
    matching kernel mapping, the merge of the mapping's build and sign sections with the
    module's, and the template substitution in image names. *)

From S2P Require Import Prelude Types GoStrings Externals Demo Node.

Open Scope string_scope.
Open Scope nat_scope.
Open Scope list_scope.

(** ** [internal/kernel/kernel.go] *)

Definition replaceInvalidChar (r : ascii) : ascii :=
  if negb (is_upper r) && negb (is_lower r) && negb (is_digit r) &&
     negb (is_char "-" r) && negb (is_char "." r) && negb (is_char "_" r)
  then "_"%char else r.

Definition NormalizeVersion (version : string) : string := string_map replaceInvalidChar version.

Definition to_lower (c : ascii) : ascii :=
  if is_upper c then ascii_of_nat (nat_of_ascii c + 32) else c.
Definition dns_replace (c : ascii) : ascii :=
  if is_char "_" c || is_char "." c then "-"%char else c.

Definition DNSSafeKernelVersion (version : string) : string :=
  let normalizedVersion := NormalizeVersion version in
  let dns := string_map dns_replace (string_map to_lower normalizedVersion) in
  trim "-" dns.

(** ** [internal/utils/replaceStrings.go] *)

Definition kernel_sep (c : ascii) : bool := is_char "." c || is_char "," c || is_char "-" c.

Definition KernelComponentsAsEnvVars (kernel : string) : result (list string) :=
  match split_on kernel_sep kernel with
  | x :: y :: z :: _ =>
      Ok ["KERNEL_FULL_VERSION=" +:+ kernel;
          "KERNEL_VERSION=" +:+ kernel;
          "KERNEL_XYZ=" +:+ Join [x; y; z] ".";
          "KERNEL_X=" +:+ x;
          "KERNEL_Y=" +:+ y;
          "KERNEL_Z=" +:+ z]
  | _ => Err (ErrNew "invalid kernel version %s: expected at least three components (major.minor.patch)")
  end.

(** ** [internal/module/helper.go] *)

Definition AppendToTag (name tag : string) : string :=
  let separator := if contains_char ":" name then "_" else ":" in
  name +:+ separator +:+ tag.

Definition ShouldBeBuilt (mld : ModuleLoaderData) : bool := bool_decide (is_Some (mld_Build mld)).

(** ** [internal/module/buildargoverrider.go] *)

(** [sets.String.List]: the elements in increasing order. *)
Definition sorted_keys (X : gset string) : list string := merge_sort String.le (elements X).

(** The loop over [args]: the slot is replaced and the override is marked used. *)
Fixpoint override_loop (m : gmap string BuildArg) (args : list BuildArg) (unused : gset string) : list BuildArg * gset string :=
  match args with
  | [] => ([], unused)
  | a :: args =>
      match m !! ba_Name a with
      | Some o =>
          let '(l, u) := override_loop m args (unused ∖ {[ba_Name a]}) in (o :: l, u)
      | None => let '(l, u) := override_loop m args unused in (a :: l, u)
      end
  end.

Definition empty_arg : BuildArg := {| ba_Name := ""; ba_Value := "" |}.

Definition ApplyBuildArgOverrides (args overrides : list BuildArg) : list BuildArg :=
  let overridesMap := foldl (λ m o, <[ba_Name o := o]> m) (∅ : gmap string BuildArg) overrides in
  let '(args, unusedOverrides) := override_loop overridesMap args (dom overridesMap) in
  args ++ ((λ n, default empty_arg (overridesMap !! n)) <$> sorted_keys unusedOverrides).

(** ** [internal/module/kernelmapper.go] *)

Definition ErrNoMatchingKernelMapping : string := "kernel mapping not found".

Section mapper.
Context `{EXT : Externals}.

Fixpoint ReplaceInTemplates (envvars : list string) (templates : list string) : result (list string) :=
  match templates with
  | [] => Ok []
  | v :: templates =>
      match envsubst_Parse envvars v with
      | Err e => Err (Errorf_v "failed to substitute %q: %v" e)
      | Ok s => rest ← ReplaceInTemplates envvars templates; Ok (s :: rest)
      end
  end.

Fixpoint findKernelMapping (mappings : list KernelMapping) (kernelVersion : string) : result KernelMapping :=
  match mappings with
  | [] => Err (ErrSentinel ErrNoMatchingKernelMapping)
  | m :: mappings =>
      if negb (String.eqb (km_Literal m) "") && String.eqb (km_Literal m) kernelVersion then Ok m
      else if String.eqb (km_Regexp m) "" then findKernelMapping mappings kernelVersion
      else match regexp_MatchString (km_Regexp m) kernelVersion with
           | Err e => Err (Errorf_v "could not match regexp %q against kernel %q: %v" e)
           | Ok true => Ok m
           | Ok false => findKernelMapping mappings kernelVersion
           end
  end.

Definition getRelevantBuild (moduleBuild mappingBuild : option Build) : option Build :=
  match moduleBuild, mappingBuild with
  | None, _ => mappingBuild
  | Some _, None => moduleBuild
  | Some b, Some mb =>
      Some {| build_BuildArgs := ApplyBuildArgOverrides (build_BuildArgs b) (build_BuildArgs mb);
              build_DockerfileConfigMap :=
                match build_DockerfileConfigMap mb with
                | Some cm => Some cm
                | None => build_DockerfileConfigMap b
                end;
              build_BaseImageRegistryTLS := build_BaseImageRegistryTLS b;
              build_Secrets := build_Secrets b ++ build_Secrets mb;
              build_KanikoTag := build_KanikoTag b;
              build_Selector := build_Selector b |}
  end.

(** The sign section before the templates are replaced. *)
Definition merge_sign (moduleSign mappingSign : option Sign) : option Sign :=
  match moduleSign, mappingSign with
  | None, _ => mappingSign
  | Some _, None => moduleSign
  | Some s, Some ms =>
      Some {| sign_UnsignedImage :=
                if String.eqb (sign_UnsignedImage ms) "" then sign_UnsignedImage s
                else sign_UnsignedImage ms;
              sign_UnsignedImageRegistryTLS := sign_UnsignedImageRegistryTLS s;
              sign_KeySecret := match sign_KeySecret ms with
                                | Some k => Some k | None => sign_KeySecret s end;
              sign_CertSecret := match sign_CertSecret ms with
                                 | Some k => Some k | None => sign_CertSecret s end;
              sign_FilesToSign := sign_FilesToSign s ++ sign_FilesToSign ms |}
  end.

Definition getRelevantSign (moduleSign mappingSign : option Sign) (kernelVersion : string) : result (option Sign) :=
  match merge_sign moduleSign mappingSign with
  | None => Err (ErrPanic "nil Sign")
  | Some signConfig =>
      osConfigEnvVars ←
        wrap_v "failed to get kernel componnents as env variables, %v"
          (KernelComponentsAsEnvVars (NormalizeVersion kernelVersion));
      unsignedImage ← ReplaceInTemplates osConfigEnvVars [sign_UnsignedImage signConfig];
      filesToSign ← ReplaceInTemplates osConfigEnvVars (sign_FilesToSign signConfig);
      Ok (Some {| sign_UnsignedImage := default "" (head unsignedImage);
                  sign_UnsignedImageRegistryTLS := sign_UnsignedImageRegistryTLS signConfig;
                  sign_KeySecret := sign_KeySecret signConfig;
                  sign_CertSecret := sign_CertSecret signConfig;
                  sign_FilesToSign := filesToSign |})
  end.

Definition is_some {A} (o : option A) : bool := match o with Some _ => true | None => false end.

(** Every field but the sign section. *)
Definition base_mld (mapping : KernelMapping) (mod_ : Module_) (ml : ModuleLoaderSpec) (kernelVersion : string) (sign : option Sign) : ModuleLoaderData :=
  let c := ml_Container ml in
  let build := if is_some (km_Build mapping) || is_some (mlc_Build c)
               then getRelevantBuild (mlc_Build c) (km_Build mapping) else None in
  let inTreeModulesToRemove :=
    match km_InTreeModulesToRemove mapping with
    | Some l => Some l
    | None => mlc_InTreeModulesToRemove c
    end in
  let inTreeModuleToRemove :=
    if String.eqb (km_InTreeModuleToRemove mapping) "" then mlc_InTreeModuleToRemove c
    else km_InTreeModuleToRemove mapping in
  {| mld_KernelVersion := kernelVersion;
     mld_KernelNormalizedVersion := NormalizeVersion kernelVersion;
     mld_ImageRepoSecret := ms_ImageRepoSecret (mod_spec mod_);
     mld_Selector := ms_Selector (mod_spec mod_);
     mld_Name := mod_Name mod_;
     mld_Namespace := mod_Namespace mod_;
     mld_ServiceAccountName := ml_ServiceAccountName ml;
     mld_Build := build;
     mld_Sign := sign;
     mld_ModuleVersion := mlc_Version c;
     mld_ContainerImage :=
       if String.eqb (km_ContainerImage mapping) "" then mlc_ContainerImage c
       else km_ContainerImage mapping;
     mld_ImagePullPolicy := mlc_ImagePullPolicy c;
     mld_Modprobe := mlc_Modprobe c;
     mld_RegistryTLS :=
       match km_RegistryTLS mapping with
       | Some t => Some t
       | None => Some (mlc_RegistryTLS c)
       end;
     mld_InTreeModulesToRemove :=
       if String.eqb inTreeModuleToRemove "" then inTreeModulesToRemove
       else Some [inTreeModuleToRemove];
     mld_OwnerUID := om_UID (mod_meta mod_);
     mld_Tolerations := ms_Tolerations (mod_spec mod_) ++ InternalTolerations |}.

Definition prepareModuleLoaderData (mapping : KernelMapping) (mod_ : Module_) (ml : ModuleLoaderSpec) (kernelVersion : string) : result ModuleLoaderData :=
  let c := ml_Container ml in
  sign ←
    (if is_some (km_Sign mapping) || is_some (mlc_Sign c)
     then wrap_v "failed to get the relevant Sign configuration for kernel %s: %v"
            (getRelevantSign (mlc_Sign c) (km_Sign mapping) kernelVersion)
     else Ok None);
  Ok (base_mld mapping mod_ ml kernelVersion sign).

Definition mld_set_image (mld : ModuleLoaderData) (image : string) : ModuleLoaderData :=
  {| mld_KernelVersion := mld_KernelVersion mld;
     mld_KernelNormalizedVersion := mld_KernelNormalizedVersion mld;
     mld_ImageRepoSecret := mld_ImageRepoSecret mld; mld_Selector := mld_Selector mld;
     mld_Name := mld_Name mld; mld_Namespace := mld_Namespace mld;
     mld_ServiceAccountName := mld_ServiceAccountName mld; mld_Build := mld_Build mld;
     mld_Sign := mld_Sign mld; mld_ModuleVersion := mld_ModuleVersion mld;
     mld_ContainerImage := image; mld_ImagePullPolicy := mld_ImagePullPolicy mld;
     mld_Modprobe := mld_Modprobe mld; mld_RegistryTLS := mld_RegistryTLS mld;
     mld_InTreeModulesToRemove := mld_InTreeModulesToRemove mld;
     mld_OwnerUID := mld_OwnerUID mld; mld_Tolerations := mld_Tolerations mld |}.

Definition replaceTemplates (mld : ModuleLoaderData) : result ModuleLoaderData :=
  osConfigEnvVars ← wrap_v "failed to get kernel componnents as env variables, %v"
                      (KernelComponentsAsEnvVars (mld_KernelNormalizedVersion mld));
  let osConfigEnvVars :=
    osConfigEnvVars ++ ["MOD_NAME=" +:+ mld_Name mld; "MOD_NAMESPACE=" +:+ mld_Namespace mld] in
  replacedContainerImage ← wrap_v "failed to substitute templates in the ContainerImage field: %v"
                             (ReplaceInTemplates osConfigEnvVars [mld_ContainerImage mld]);
  Ok (mld_set_image mld (default "" (head replacedContainerImage))).

(** The module loader section is dereferenced without a check. *)
Definition GetModuleLoaderDataForKernel (mod_ : Module_) (kernelVersion : string) : result ModuleLoaderData :=
  match ms_ModuleLoader (mod_spec mod_) with
  | None => Err (ErrPanic "nil ModuleLoader")
  | Some ml =>
      let mappings := mlc_KernelMappings (ml_Container ml) in
      foundMapping ← wrap_w "failed to find mapping for kernel %s: %w"
                       (findKernelMapping mappings kernelVersion);
      mld ← wrap_v "failed to prepare module loader data for kernel %s: %v"
              (prepareModuleLoaderData foundMapping mod_ ml kernelVersion);
      wrap_v "failed to replace templates in module loader data for kernel %s: %v"
        (replaceTemplates mld)
  end.
End mapper.

(** ** Kernel version strings *)

Definition tag_char (c : ascii) : bool :=
  is_alnum c || is_char "-" c || is_char "." c || is_char "_" c.
Definition dns_char (c : ascii) : bool := is_lower c || is_digit c || is_char "-" c.

Lemma NormalizeVersion_chars v : string_forallb tag_char (NormalizeVersion v) = true.
Proof.
  unfold NormalizeVersion. rewrite string_forallb_map. apply string_forallb_true. by_bytes.
Qed.

Lemma NormalizeVersion_id v : string_forallb tag_char v = true → NormalizeVersion v = v.
Proof.
  intros Hv. apply string_map_id. eapply string_forallb_impl; [|exact Hv]. by_bytes.
Qed.

(** A normalized kernel version only has characters allowed in an image tag or a label
    value, has the length of the original, and is left alone by a second normalization. *)
Theorem NormalizeVersion_spec v :
  string_forallb tag_char (NormalizeVersion v) = true ∧
  String.length (NormalizeVersion v) = String.length v ∧
  NormalizeVersion (NormalizeVersion v) = NormalizeVersion v ∧
  (string_forallb tag_char v = true → NormalizeVersion v = v).
Proof.
  split_and!.
  - apply NormalizeVersion_chars.
  - apply string_map_length.
  - apply NormalizeVersion_id, NormalizeVersion_chars.
  - apply NormalizeVersion_id.
Qed.

Lemma DNSSafe_body_chars v :
  string_forallb dns_char (string_map dns_replace (string_map to_lower (NormalizeVersion v))) = true.
Proof.
  rewrite !string_forallb_map. eapply string_forallb_impl; [|apply NormalizeVersion_chars].
  by_bytes.
Qed.

(** [DNSSafeKernelVersion] yields only lower-case letters, digits and dashes, and neither
    starts nor ends with a dash. *)
Theorem DNSSafeKernelVersion_spec v :
  let s := DNSSafeKernelVersion v in
  string_forallb dns_char s = true ∧
  (∀ x t, s = String x t → is_char "-" x = false) ∧
  (∀ x t, s = t +:+ String x "" → is_char "-" x = false).
Proof.
  unfold DNSSafeKernelVersion, trim. cbv zeta. split_and!.
  - apply trim_right_forallb, trim_left_forallb, DNSSafe_body_chars.
  - intros x t Hs.
    pose proof (trim_right_hd "-" (trim_left "-" (string_map dns_replace (string_map to_lower (NormalizeVersion v))))) as Hh.
    rewrite Hs in Hh. destruct Hh as [t' Ht']. by eapply trim_left_hd.
  - intros x t. apply trim_right_last.
Qed.

(** ** Build argument overrides *)

(** The override in force for a name: the last one given. *)
Definition last_override (overrides : list BuildArg) (n : string) : option BuildArg :=
  last (filter (λ o, ba_Name o = n) overrides).

Lemma overridesMap_lookup overrides n :
  foldl (λ m o, <[ba_Name o := o]> m) (∅ : gmap string BuildArg) overrides !! n =
  last_override overrides n.
Proof.
  unfold last_override. induction overrides as [|o l IH] using rev_ind; [done|].
  rewrite foldl_app, filter_app. simpl. rewrite filter_cons, filter_nil.
  case_decide as E.
  - by rewrite E, lookup_insert_eq, last_snoc.
  - by rewrite lookup_insert_ne, app_nil_r.
Qed.

Lemma override_loop_spec m args unused :
  override_loop m args unused =
  ((λ a, default a (m !! ba_Name a)) <$> args,
   unused ∖ filter (λ n, is_Some (m !! n)) (list_to_set (ba_Name <$> args))).
Proof.
  revert unused. induction args as [|a args IH]; intros unused; simpl.
  - f_equal. set_solver.
  - destruct (m !! ba_Name a) as [o|] eqn:E; rewrite IH; simpl; f_equal.
    + assert (is_Some (m !! ba_Name a)) by eauto. set_solver.
    + assert (¬ is_Some (m !! ba_Name a)) by (rewrite E; by intros []). set_solver.
Qed.

Lemma sorted_keys_elem X n : n ∈ sorted_keys X ↔ n ∈ X.
Proof. unfold sorted_keys. by rewrite merge_sort_Permutation, elem_of_elements. Qed.

Lemma sorted_keys_NoDup X : NoDup (sorted_keys X).
Proof. unfold sorted_keys. rewrite merge_sort_Permutation. apply NoDup_elements. Qed.

Lemma sorted_keys_Sorted X : StronglySorted String.le (sorted_keys X).
Proof. apply StronglySorted_merge_sort; apply _. Qed.

(** Overriding build arguments keeps the positions of the module's arguments, gives each
    overridden one the value of the last override of its name, and appends, sorted by name
    and without duplicates, exactly the overrides of names the module does not set. *)
Theorem ApplyBuildArgOverrides_spec args overrides :
  ∃ tail,
    ApplyBuildArgOverrides args overrides =
      ((λ a, default a (last_override overrides (ba_Name a))) <$> args) ++ tail ∧
    (∀ o, o ∈ tail ↔ last_override overrides (ba_Name o) = Some o ∧ ba_Name o ∉ ba_Name <$> args) ∧
    StronglySorted String.le (ba_Name <$> tail) ∧ NoDup (ba_Name <$> tail).
Proof.
  unfold ApplyBuildArgOverrides. rewrite override_loop_spec.
  set (m := foldl _ _ overrides).
  assert (∀ n, m !! n = last_override overrides n) as Hm by apply overridesMap_lookup.
  assert (∀ n o, m !! n = Some o → ba_Name o = n) as Hname.
  { intros n o. rewrite Hm. unfold last_override. intros Ho%last_Some_elem_of.
    by apply list_elem_of_filter in Ho as [? _]. }
  set (u := dom m ∖ _).
  assert (∀ n, n ∈ u ↔ is_Some (m !! n) ∧ n ∉ ba_Name <$> args) as Hu.
  { intros n. subst u. rewrite elem_of_difference, elem_of_dom, elem_of_filter, elem_of_list_to_set.
    naive_solver. }
  exists ((λ n, default empty_arg (m !! n)) <$> sorted_keys u).
  assert (ba_Name <$> ((λ n, default empty_arg (m !! n)) <$> sorted_keys u) = sorted_keys u) as Hn.
  { rewrite <-list_fmap_compose. transitivity (id <$> sorted_keys u); [|by rewrite list_fmap_id].
    apply list_fmap_ext. intros i n Hi. apply list_elem_of_lookup_2 in Hi.
    rewrite sorted_keys_elem, Hu in Hi. destruct Hi as [[o Ho] _]. simpl. rewrite Ho. simpl.
    by apply Hname. }
  split_and!.
  - f_equal. apply list_fmap_ext. intros i a _. by rewrite Hm.
  - intros o. rewrite list_elem_of_fmap, <-Hm. split.
    + intros (n & -> & [[o' Ho'] Hargs]%sorted_keys_elem%Hu). rewrite Ho'. simpl.
      by rewrite (Hname _ _ Ho').
    + intros [Ho Hargs]. exists (ba_Name o). rewrite Ho. split; [done|].
      rewrite sorted_keys_elem, Hu. eauto.
  - rewrite Hn. apply sorted_keys_Sorted.
  - rewrite Hn. apply sorted_keys_NoDup.
Qed.

(** ** The mapping of a kernel *)

Section mapper_props.
Context `{EXT : Externals}.

Definition literal_matches (k : string) (m : KernelMapping) : bool :=
  negb (String.eqb (km_Literal m) "") && String.eqb (km_Literal m) k.

(** What the loop sees in one mapping. *)
Inductive verdict := VMatch | VSkip | VBad.

Definition mapping_verdict (k : string) (m : KernelMapping) : verdict :=
  if literal_matches k m then VMatch
  else if String.eqb (km_Regexp m) "" then VSkip
  else match regexp_MatchString (km_Regexp m) k with
       | Err _ => VBad | Ok true => VMatch | Ok false => VSkip
       end.

Lemma findKernelMapping_Ok ms k m :
  findKernelMapping ms k = Ok m ↔
  ∃ pre post, ms = pre ++ m :: post ∧ mapping_verdict k m = VMatch ∧
              Forall (λ x, mapping_verdict k x = VSkip) pre.
Proof.
  induction ms as [|x ms IH]; simpl.
  - split; [done|]. intros (pre & post & Hms & _). by destruct pre.
  - transitivity (match mapping_verdict k x with
                  | VMatch => x = m | VBad => False | VSkip => findKernelMapping ms k = Ok m end).
    { unfold mapping_verdict, literal_matches.
      destruct (_ && _); [naive_solver|]. destruct (String.eqb _ _); [done|].
      destruct (regexp_MatchString _ _) as [[]|]; naive_solver. }
    destruct (mapping_verdict k x) eqn:E.
    + split.
      * intros ->. by exists [], ms.
      * intros (pre & post & Hms & Hm & Hpre). destruct pre as [|y pre]; [simplify_eq/=; congruence|].
        apply Forall_cons in Hpre as [? ?]. simplify_eq/=. congruence.
    + rewrite IH. split.
      * intros (pre & post & -> & Hm & Hpre). exists (x :: pre), post. split_and!; [done..|].
        by constructor.
      * intros (pre & post & Hms & Hm & Hpre). destruct pre as [|y pre]; [simplify_eq/=; congruence|].
        apply Forall_cons in Hpre as [? ?]. simplify_eq/=. eauto.
    + split; [done|]. intros (pre & post & Hms & Hm & Hpre).
      destruct pre as [|y pre]; [simplify_eq/=; congruence|]. apply Forall_cons in Hpre as [? ?]. simplify_eq/=. congruence.
Qed.

Lemma findKernelMapping_NoMatch ms k :
  (∃ e, findKernelMapping ms k = Err e ∧ errors_Is e ErrNoMatchingKernelMapping = true) ↔
  Forall (λ m, mapping_verdict k m = VSkip) ms.
Proof.
  induction ms as [|x ms IH]; simpl.
  - split; [constructor|]. intros _. eexists. split; [done|]. by apply bool_decide_eq_true.
  - rewrite Forall_cons, <-IH. unfold mapping_verdict, literal_matches.
    destruct (_ && _); [naive_solver|]. destruct (String.eqb _ _); [naive_solver|].
    destruct (regexp_MatchString _ _) as [[]|]; naive_solver.
Qed.

(** For a module with a module loader, the error the reconciler reads as "this kernel is
    not targeted" is returned exactly when no mapping matches the kernel and no regular
    expression failed to compile; a failing expression, an unusable kernel version or a
    failing template never looks like a missing mapping. *)
Theorem NoMatchingKernelMapping_exact mod_ ml k :
  ms_ModuleLoader (mod_spec mod_) = Some ml →
  (∃ e, GetModuleLoaderDataForKernel mod_ k = Err e ∧
        errors_Is e ErrNoMatchingKernelMapping = true) ↔
  Forall (λ m, mapping_verdict k m = VSkip) (mlc_KernelMappings (ml_Container ml)).
Proof.
  intros Hml. rewrite <-findKernelMapping_NoMatch. unfold GetModuleLoaderDataForKernel. rewrite Hml.
  destruct (findKernelMapping _ k) as [m|e]; simpl.
  - destruct (prepareModuleLoaderData _ _ _ _) as [mld|e]; simpl; [|naive_solver].
    destruct (replaceTemplates mld); naive_solver.
  - split; intros (e' & He & Hs); simplify_eq; eauto.
Qed.

Lemma prepareModuleLoaderData_Ok m mod_ ml k mld :
  prepareModuleLoaderData m mod_ ml k = Ok mld → ∃ sign, mld = base_mld m mod_ ml k sign.
Proof.
  unfold prepareModuleLoaderData. destruct (if _ || _ then _ else _); [|done].
  intros H. simplify_eq/=. eauto.
Qed.

Lemma replaceTemplates_Ok mld mld' :
  replaceTemplates mld = Ok mld' → ∃ img, mld' = mld_set_image mld img.
Proof.
  unfold replaceTemplates. destruct (KernelComponentsAsEnvVars _); simpl; [|done].
  destruct (envsubst_Parse _ _); simpl; [|done]. intros H. simplify_eq. eauto.
Qed.

Lemma GetModuleLoaderDataForKernel_inv mod_ k mld :
  GetModuleLoaderDataForKernel mod_ k = Ok mld →
  ∃ ml m mld0 img, ms_ModuleLoader (mod_spec mod_) = Some ml ∧
    findKernelMapping (mlc_KernelMappings (ml_Container ml)) k = Ok m ∧
    prepareModuleLoaderData m mod_ ml k = Ok mld0 ∧ mld = mld_set_image mld0 img.
Proof.
  unfold GetModuleLoaderDataForKernel. destruct (ms_ModuleLoader _) as [ml|]; [|done].
  destruct (findKernelMapping _ k) as [m|e] eqn:E1; simpl; [|done].
  destruct (prepareModuleLoaderData _ _ _ _) as [mld0|e] eqn:E2; simpl; [|done].
  destruct (replaceTemplates mld0) as [mld'|e] eqn:E3; simpl; [|done].
  intros H. simplify_eq. apply replaceTemplates_Ok in E3 as [img ->].
  exists ml, m, mld0, img. done.
Qed.

(** The identity of the module and of the kernel is carried over unchanged. *)
Lemma GetModuleLoaderDataForKernel_identity mod_ k mld :
  GetModuleLoaderDataForKernel mod_ k = Ok mld →
  mld_Name mld = mod_Name mod_ ∧ mld_Namespace mld = mod_Namespace mod_ ∧
  mld_KernelVersion mld = k ∧ mld_OwnerUID mld = om_UID (mod_meta mod_).
Proof.
  intros (ml & m & mld0 & img & _ & _ & Hp & ->)%GetModuleLoaderDataForKernel_inv.
  by apply prepareModuleLoaderData_Ok in Hp as [sign ->].
Qed.

(** *** The data of a kernel, stated on the fields *)

(** A mapping for a kernel, one that is passed over, and the first one for it. *)
Definition matches (k : string) (m : KernelMapping) : Prop :=
  (km_Literal m ≠ "" ∧ km_Literal m = k) ∨ (km_Regexp m ≠ "" ∧ regexp_MatchString (km_Regexp m) k = Ok true).
Definition passed_over (k : string) (m : KernelMapping) : Prop :=
  (km_Literal m = "" ∨ km_Literal m ≠ k) ∧ (km_Regexp m = "" ∨ regexp_MatchString (km_Regexp m) k = Ok false).
Definition first_mapping (ms : list KernelMapping) (k : string) (m : KernelMapping) : Prop :=
  ∃ pre post, ms = pre ++ m :: post ∧ matches k m ∧ Forall (passed_over k) pre.

Lemma verdict_match k m : mapping_verdict k m = VMatch ↔ matches k m.
Proof.
  unfold mapping_verdict, literal_matches, matches.
  destruct (String.eqb_spec (km_Literal m) ""), (String.eqb_spec (km_Literal m) k), (String.eqb_spec (km_Regexp m) ""); simpl;
    try destruct (regexp_MatchString _ _) as [[]|]; naive_solver.
Qed.

Lemma verdict_skip k m : mapping_verdict k m = VSkip ↔ passed_over k m.
Proof.
  unfold mapping_verdict, literal_matches, passed_over.
  destruct (String.eqb_spec (km_Literal m) ""), (String.eqb_spec (km_Literal m) k), (String.eqb_spec (km_Regexp m) ""); simpl;
    try destruct (regexp_MatchString _ _) as [[]|]; naive_solver.
Qed.

Lemma findKernelMapping_first ms k m : findKernelMapping ms k = Ok m ↔ first_mapping ms k m.
Proof.
  rewrite findKernelMapping_Ok. unfold first_mapping. setoid_rewrite verdict_match.
  split; intros (pre & post & H1 & H2 & H3); exists pre, post; (split_and!; [done..|]);
    eapply Forall_impl; [exact H3| |exact H3|]; intros; by apply verdict_skip.
Qed.

(** The variables templates are expanded with: the kernel version and its first three components. *)
Definition kernel_env (k : string) (env : list string) : Prop :=
  ∃ x y z rest, split_on (λ c, is_char "." c || is_char "," c || is_char "-" c) (NormalizeVersion k) = x :: y :: z :: rest ∧
    env = ["KERNEL_FULL_VERSION=" +:+ NormalizeVersion k; "KERNEL_VERSION=" +:+ NormalizeVersion k;
           "KERNEL_XYZ=" +:+ x +:+ "." +:+ y +:+ "." +:+ z; "KERNEL_X=" +:+ x; "KERNEL_Y=" +:+ y; "KERNEL_Z=" +:+ z].

Lemma kernel_env_iff k env : KernelComponentsAsEnvVars (NormalizeVersion k) = Ok env ↔ kernel_env k env.
Proof.
  unfold KernelComponentsAsEnvVars, kernel_env, kernel_sep.
  destruct (split_on _ _) as [|x [|y [|z rest]]]; (split; [try done|]); try (by intros (? & ? & ? & ? & [=] & _)).
  - intros [= <-]. by exists x, y, z, rest.
  - intros (? & ? & ? & ? & [= <- <- <- <-] & ->). done.
Qed.

Definition expand (env : list string) (template result : string) : Prop := envsubst_Parse env template = Ok result.
Definition unexpandable (env : list string) (template : string) : Prop := ∃ e, envsubst_Parse env template = Err e.

Lemma ReplaceInTemplates_expand env l :
  match ReplaceInTemplates env l with
  | Ok l' => Forall2 (expand env) l l'
  | Err _ => Exists (unexpandable env) l
  end.
Proof.
  induction l as [|t l IH]; simpl; [constructor|]. destruct (envsubst_Parse env t) as [s|e] eqn:E; [|left; by exists e].
  destruct (ReplaceInTemplates env l); simpl; [by constructor|by right].
Qed.

(** Build sections: the module's one with the mapping's arguments, Dockerfile and secrets over it. *)
Definition merged_args (args overrides r : list BuildArg) : Prop :=
  ∃ extra, r = ((λ a, default a (last_override overrides (ba_Name a))) <$> args) ++ extra ∧
    (∀ o, o ∈ extra ↔ last_override overrides (ba_Name o) = Some o ∧ ba_Name o ∉ ba_Name <$> args) ∧
    StronglySorted String.le (ba_Name <$> extra) ∧ NoDup (ba_Name <$> extra).

Inductive merged_build : option Build → option Build → option Build → Prop :=
| mb_none : merged_build None None None
| mb_module b : merged_build (Some b) None (Some b)
| mb_mapping b : merged_build None (Some b) (Some b)
| mb_both b mb args cm :
    merged_args (build_BuildArgs b) (build_BuildArgs mb) args →
    cm = match build_DockerfileConfigMap mb with Some cm => Some cm | None => build_DockerfileConfigMap b end →
    merged_build (Some b) (Some mb)
      (Some {| build_BuildArgs := args; build_DockerfileConfigMap := cm;
               build_BaseImageRegistryTLS := build_BaseImageRegistryTLS b; build_Secrets := build_Secrets b ++ build_Secrets mb;
               build_KanikoTag := build_KanikoTag b; build_Selector := build_Selector b |}).

(** Sign sections: the mapping's image, key and certificate before the module's, all their files;
    the image and the files are templates. *)
Inductive merged_sign : option Sign → option Sign → option Sign → Prop :=
| sg_none : merged_sign None None None
| sg_module s : merged_sign (Some s) None (Some s)
| sg_mapping s : merged_sign None (Some s) (Some s)
| sg_both s ms image key cert :
    (sign_UnsignedImage ms = "" → image = sign_UnsignedImage s) → (sign_UnsignedImage ms ≠ "" → image = sign_UnsignedImage ms) →
    key = match sign_KeySecret ms with Some k => Some k | None => sign_KeySecret s end →
    cert = match sign_CertSecret ms with Some k => Some k | None => sign_CertSecret s end →
    merged_sign (Some s) (Some ms)
      (Some {| sign_UnsignedImage := image; sign_UnsignedImageRegistryTLS := sign_UnsignedImageRegistryTLS s;
               sign_KeySecret := key; sign_CertSecret := cert; sign_FilesToSign := sign_FilesToSign s ++ sign_FilesToSign ms |}).

Definition expanded_sign (env : list string) (s r : option Sign) : Prop :=
  match s, r with
  | None, None => True
  | Some s, Some r => expand env (sign_UnsignedImage s) (sign_UnsignedImage r) ∧
      Forall2 (expand env) (sign_FilesToSign s) (sign_FilesToSign r) ∧ sign_KeySecret r = sign_KeySecret s ∧
      sign_CertSecret r = sign_CertSecret s ∧ sign_UnsignedImageRegistryTLS r = sign_UnsignedImageRegistryTLS s
  | _, _ => False
  end.

Lemma getRelevantBuild_merged a b : merged_build a b (if is_some b || is_some a then getRelevantBuild a b else None).
Proof. destruct a as [b0|], b as [mb|]; simpl; constructor; [apply ApplyBuildArgOverrides_spec|done]. Qed.

Lemma merge_sign_merged a b : merged_sign a b (merge_sign a b).
Proof. destruct a as [s|], b as [ms|]; simpl; constructor; try done; by destruct (String.eqb_spec (sign_UnsignedImage ms) ""). Qed.

Lemma getRelevantSign_expanded a b k :
  is_some b || is_some a = true →
  match getRelevantSign a b k with
  | Ok r => ∃ env s, kernel_env k env ∧ merged_sign a b s ∧ expanded_sign env s r
  | Err _ => (∀ env, ¬ kernel_env k env) ∨ ∃ env s, kernel_env k env ∧ merged_sign a b (Some s) ∧
               Exists (unexpandable env) (sign_UnsignedImage s :: sign_FilesToSign s)
  end.
Proof.
  intros Hs. unfold getRelevantSign. pose proof (merge_sign_merged a b) as Hm.
  destruct (merge_sign a b) as [s|] eqn:E; [|by destruct a, b].
  destruct (KernelComponentsAsEnvVars (NormalizeVersion k)) as [env|e] eqn:Ee; simpl.
  2: { left. intros env Henv%kernel_env_iff. congruence. }
  apply kernel_env_iff in Ee. destruct (envsubst_Parse env (sign_UnsignedImage s)) as [img|e] eqn:Ei; simpl.
  2: { right. exists env, s. split_and!; [done..|]. left. by exists e. }
  pose proof (ReplaceInTemplates_expand env (sign_FilesToSign s)) as Hf. destruct (ReplaceInTemplates env (sign_FilesToSign s)) as [files|e]; simpl.
  - exists env, (Some s). by split_and!.
  - right. exists env, s. split_and!; [done..|]. by right.
Qed.

(** The image template of a mapping, and the in-tree modules to remove. *)
Definition image_template (c : ModuleLoaderContainerSpec) (m : KernelMapping) (t : string) : Prop :=
  (km_ContainerImage m = "" → t = mlc_ContainerImage c) ∧ (km_ContainerImage m ≠ "" → t = km_ContainerImage m).

Definition in_tree (c : ModuleLoaderContainerSpec) (m : KernelMapping) (r : option (list string)) : Prop :=
  (km_InTreeModuleToRemove m ≠ "" → r = Some [km_InTreeModuleToRemove m]) ∧
  (km_InTreeModuleToRemove m = "" → mlc_InTreeModuleToRemove c ≠ "" → r = Some [mlc_InTreeModuleToRemove c]) ∧
  (km_InTreeModuleToRemove m = "" → mlc_InTreeModuleToRemove c = "" →
   r = match km_InTreeModulesToRemove m with Some l => Some l | None => mlc_InTreeModulesToRemove c end).

(** The data of a module for a kernel: what is carried over, and what is merged with the mapping. *)
Definition carried_over (mod_ : Module_) (ml : ModuleLoaderSpec) (k : string) (mld : ModuleLoaderData) : Prop :=
  let c := ml_Container ml in
  mld_Name mld = mod_Name mod_ ∧ mld_Namespace mld = mod_Namespace mod_ ∧ mld_OwnerUID mld = om_UID (mod_meta mod_) ∧
  mld_KernelVersion mld = k ∧ mld_KernelNormalizedVersion mld = NormalizeVersion k ∧
  mld_ImageRepoSecret mld = ms_ImageRepoSecret (mod_spec mod_) ∧ mld_Selector mld = ms_Selector (mod_spec mod_) ∧
  mld_ServiceAccountName mld = ml_ServiceAccountName ml ∧ mld_ModuleVersion mld = mlc_Version c ∧
  mld_ImagePullPolicy mld = mlc_ImagePullPolicy c ∧ mld_Modprobe mld = mlc_Modprobe c ∧
  mld_Tolerations mld = ms_Tolerations (mod_spec mod_) ++ InternalTolerations.

Definition merged (mod_ : Module_) (ml : ModuleLoaderSpec) (m : KernelMapping) (env : list string) (mld : ModuleLoaderData) : Prop :=
  let c := ml_Container ml in
  merged_build (mlc_Build c) (km_Build m) (mld_Build mld) ∧
  (∃ s, merged_sign (mlc_Sign c) (km_Sign m) s ∧ expanded_sign env s (mld_Sign mld)) ∧
  (∃ t, image_template c m t ∧
     expand (env ++ ["MOD_NAME=" +:+ mod_Name mod_; "MOD_NAMESPACE=" +:+ mod_Namespace mod_]) t (mld_ContainerImage mld)) ∧
  mld_RegistryTLS mld = Some (default (mlc_RegistryTLS c) (km_RegistryTLS m)) ∧ in_tree c m (mld_InTreeModulesToRemove mld).

(** Why there is no data: no loader section; no mapping for the kernel before one that cannot be
    evaluated; or, with the first mapping, a kernel version of less than three components or a
    template that cannot be expanded. *)
Definition unavailable (mod_ : Module_) (k : string) : Prop :=
  ms_ModuleLoader (mod_spec mod_) = None ∨
  ∃ ml, ms_ModuleLoader (mod_spec mod_) = Some ml ∧
    ((∀ m, ¬ first_mapping (mlc_KernelMappings (ml_Container ml)) k m) ∨
     ∃ m, first_mapping (mlc_KernelMappings (ml_Container ml)) k m ∧
       ((∀ env, ¬ kernel_env k env) ∨
        ∃ env, kernel_env k env ∧
          ((∃ s, merged_sign (mlc_Sign (ml_Container ml)) (km_Sign m) (Some s) ∧
                 Exists (unexpandable env) (sign_UnsignedImage s :: sign_FilesToSign s)) ∨
           ∃ t, image_template (ml_Container ml) m t ∧
                unexpandable (env ++ ["MOD_NAME=" +:+ mod_Name mod_; "MOD_NAMESPACE=" +:+ mod_Namespace mod_]) t))).

Lemma kernel_env_unique k env env' : kernel_env k env → kernel_env k env' → env = env'.
Proof. rewrite <-!kernel_env_iff. congruence. Qed.

Lemma base_mld_in_tree m mod_ ml k sign : in_tree (ml_Container ml) m (mld_InTreeModulesToRemove (base_mld m mod_ ml k sign)).
Proof.
  unfold in_tree. simpl. destruct (String.eqb_spec (km_InTreeModuleToRemove m) "") as [E|E].
  - destruct (String.eqb_spec (mlc_InTreeModuleToRemove (ml_Container ml)) ""); split_and!; naive_solver.
  - rewrite (proj2 (String.eqb_neq _ _) E). split_and!; naive_solver.
Qed.

Lemma base_mld_image m mod_ ml k sign : image_template (ml_Container ml) m (mld_ContainerImage (base_mld m mod_ ml k sign)).
Proof. unfold image_template. simpl. by destruct (String.eqb_spec (km_ContainerImage m) ""). Qed.

Lemma prepareModuleLoaderData_sign m mod_ ml k :
  match prepareModuleLoaderData m mod_ ml k with
  | Ok mld => ∃ sign, mld = base_mld m mod_ ml k sign ∧ ∀ env, kernel_env k env →
      ∃ s, merged_sign (mlc_Sign (ml_Container ml)) (km_Sign m) s ∧ expanded_sign env s sign
  | Err _ => (∀ env, ¬ kernel_env k env) ∨ ∃ env s, kernel_env k env ∧ merged_sign (mlc_Sign (ml_Container ml)) (km_Sign m) (Some s) ∧
               Exists (unexpandable env) (sign_UnsignedImage s :: sign_FilesToSign s)
  end.
Proof.
  unfold prepareModuleLoaderData. destruct (is_some (km_Sign m) || is_some (mlc_Sign (ml_Container ml))) eqn:E; simpl.
  - pose proof (getRelevantSign_expanded _ _ k E) as H. destruct (getRelevantSign _ _ _) as [sign|e]; simpl; [|exact H].
    destruct H as (env & s & Henv & Hs & Hx). exists sign. split; [done|]. intros env' Henv'. exists s. split; [done|].
    by rewrite <-(kernel_env_unique k env env').
  - exists None. split; [done|]. intros env _. exists None. destruct (km_Sign m), (mlc_Sign (ml_Container ml)); [done..|]. by split; [constructor|].
Qed.


(** A mapping is always found, or its absence reported as such, when every expression
    compiles: the other failure of the search is excluded. *)
Lemma compiled_no_bad `{!ExternalsLaws} ms k :
  Forall (λ m, km_Regexp m = "" ∨ regexp_Compile (km_Regexp m) = None) ms →
  Forall (λ m, mapping_verdict k m ≠ VBad) ms.
Proof.
  intros Hms. eapply Forall_impl; [exact Hms|]. intros m Hm. unfold mapping_verdict.
  destruct (literal_matches k m); [done|]. destruct (String.eqb_spec (km_Regexp m) ""); [done|].
  destruct Hm as [|Hm]; [done|]. apply (MatchString_Compile _ k) in Hm.
  by destruct (regexp_MatchString _ k) as [[]|].
Qed.
End mapper_props.

(** ** Examples *)

Definition demo_mapping (literal regexp image : string) : KernelMapping :=
  {| km_Build := None; km_Sign := None; km_ContainerImage := image; km_Literal := literal;
     km_RegistryTLS := None; km_Regexp := regexp; km_InTreeModuleToRemove := "";
     km_InTreeModulesToRemove := None |}.

Definition demo_ml : ModuleLoaderSpec :=
  {| ml_Container :=
       {| mlc_Build := None; mlc_Sign := None; mlc_Version := ""; mlc_ContainerImage := "registry/mod:v1";
          mlc_ImagePullPolicy := "Always";
          mlc_KernelMappings := [demo_mapping "5.4.0" "" "old"; demo_mapping "" "6." ""];
          mlc_Modprobe := demo_modprobe;
          mlc_RegistryTLS := {| tls_Insecure := false; tls_InsecureSkipTLSVerify := false |};
          mlc_InTreeModuleToRemove := ""; mlc_InTreeModulesToRemove := None |};
     ml_ServiceAccountName := "" |}.

Definition demo_module : Module_ :=
  {| mod_meta := empty_meta "ns" "mod";
     mod_spec := {| ms_DevicePlugin := None; ms_DRA := None; ms_ModuleLoader := Some demo_ml;
                    ms_ImageRepoSecret := None; ms_Selector := ∅; ms_Tolerations := [];
                    ms_ImageRebuildTriggerGeneration := None |};
     mod_status :=
       let z := {| dss_NodesMatchingSelectorNumber := 0; dss_DesiredNumber := 0;
                   dss_AvailableNumber := 0 |} in
       {| mst_DevicePlugin := z; mst_DRA := z; mst_ModuleLoader := z;
          mst_ImageRebuildTriggerGeneration := None |} |}.

Lemma NoMatchingKernelMapping_exact_witness :
  ∃ e, GetModuleLoaderDataForKernel demo_module "4.18.0" = Err e ∧
       errors_Is e ErrNoMatchingKernelMapping = true.
Proof.
  apply (NoMatchingKernelMapping_exact demo_module demo_ml "4.18.0" eq_refl).
  repeat constructor.
Defined.

Definition demo_mld_6 : ModuleLoaderData :=
  Eval vm_compute in
  match GetModuleLoaderDataForKernel demo_module "6.1.0" with Ok m => m | Err _ => demo_mld end.

