(* ===== verification/WorkerPod.v ===== *)
(** * Worker pods ([internal/pod/workerpodmanager.go], [internal/pod/common.go])

    The loader and unloader pods the NodeModulesConfig reconciler runs on a node: their
    templates, the annotations that carry the module configuration, and the calls that create,
    look up and delete them.  A Go pointer to a container is a [container_ref]; the template
    functions mutate the pod in place, so they return the updated pod. *)

From S2P Require Import Prelude Types Kube GoStrings Externals Demo Labels NmcHelper.

Open Scope string_scope.
Open Scope nat_scope.
Open Scope list_scope.

(** [config.Worker] of [internal/config/config.go]. *)
Record WorkerConfig := {
  wc_RunAsUser : option Z;
  wc_SELinuxType : string;
  wc_FirmwareHostPath : option string;
}.

Definition NodeModulesConfigFinalizer := "kmm.node.kubernetes.io/nodemodulesconfig-reconciler".
Definition WorkerContainerName := "worker".
Definition volMountPointConfig := "/etc/kmm-worker".
Definition configFileName := "config.yaml".
Definition configFullPath := volMountPointConfig +:+ "/" +:+ configFileName.
Definition volNameConfig := "config".
Definition sharedFilesDir := "/tmp".
Definition volNameTmp := "tmp".
Definition initContainerName := "image-extractor".
Definition modulesOrderKey := "kmm.node.kubernetes.io/modules-order".
Definition workerActionLoad := "Load".
Definition workerActionUnload := "Unload".
Definition actionLabelKey := "kmm.node.kubernetes.io/worker-action".
Definition configAnnotationKey := "kmm.node.kubernetes.io/worker-config".
Definition hashAnnotationKey := "kmm.node.kubernetes.io/worker-hash".
Definition tolerationsAnnotationKey := "kmm.node.kubernetes.io/worker-tolerations".
Definition moduleVersionAnnotationKey := "kmm.node.kubernetes.io/worker-module-version".
Definition FlagFirmwarePath := "firmware-path".
Definition worker_resources :=
  "requests: cpu 0.5, memory 64Mi; limits: cpu 1, memory 128Mi".

(** [scripts/copy-modprobed-dir.sh] after its first two lines; a backquote stands for the
    double quote, and the script has no backquote. *)
Definition copyModprobedDirScript_tail : string :=
  string_map (λ c, if is_char "`" c then "034"%char else c)
"if [ ! -d `$src` ]; then
  echo `modprobedDir $src is missing or not a directory` >&2
  exit 1
fi
found=0
for p in `$src`/* `$src`/.*; do
  b=${p##*/}
  if [ `$b` = `.` ] || [ `$b` = `..` ]; then
    continue
  fi
  if [ ! -e `$p` ]; then
    continue
  fi
  if [ -d `$p` ]; then
    echo `modprobedDir $src contains a subdirectory` >&2
    exit 1
  fi
  if [ -f `$p` ]; then
    found=1
  fi
done
if [ `$found` -eq 0 ]; then
  echo `modprobedDir $src contains no regular files` >&2
  exit 1
fi
mkdir -p `$dst` || exit 1
for p in `$src`/* `$src`/.*; do
  b=${p##*/}
  if [ `$b` = `.` ] || [ `$b` = `..` ]; then
    continue
  fi
  if [ -f `$p` ]; then
    cp `$p` `$dst/` || exit 1
  fi
done
".

Definition newline : string := String "010" "".

Definition WorkerPodName (nodeName moduleName : string) : string :=
  "kmm-worker-" +:+ nodeName +:+ "-" +:+ moduleName.

(** One line per adjacent pair of the loading order. *)
Fixpoint getModulesOrderAnnotationValue (modulesNames : list string) : string :=
  match modulesNames with
  | a :: (b :: _) as rest =>
      "softdep " +:+ a +:+ " pre: " +:+ b +:+ newline +:+ getModulesOrderAnnotationValue rest
  | _ => ""
  end.

Definition shellSingleQuote (s : string) : string :=
  "'" +:+ replace_char "'" "'\''" s +:+ "'".

(** ** Updating containers through pointers *)

Definition ps_set_init (ps : PodSpec) (l : list Container) : PodSpec :=
  {| ps_InitContainers := l; ps_Containers := ps_Containers ps; ps_NodeName := ps_NodeName ps;
     ps_NodeSelector := ps_NodeSelector ps; ps_RestartPolicy := ps_RestartPolicy ps;
     ps_ServiceAccountName := ps_ServiceAccountName ps;
     ps_ImagePullSecrets := ps_ImagePullSecrets ps; ps_Volumes := ps_Volumes ps;
     ps_Tolerations := ps_Tolerations ps; ps_PriorityClassName := ps_PriorityClassName ps;
     ps_AutomountServiceAccountToken := ps_AutomountServiceAccountToken ps; ps_HostNetwork := ps_HostNetwork ps |}.
Definition ps_set_containers (ps : PodSpec) (l : list Container) : PodSpec :=
  {| ps_InitContainers := ps_InitContainers ps; ps_Containers := l; ps_NodeName := ps_NodeName ps;
     ps_NodeSelector := ps_NodeSelector ps; ps_RestartPolicy := ps_RestartPolicy ps;
     ps_ServiceAccountName := ps_ServiceAccountName ps;
     ps_ImagePullSecrets := ps_ImagePullSecrets ps; ps_Volumes := ps_Volumes ps;
     ps_Tolerations := ps_Tolerations ps; ps_PriorityClassName := ps_PriorityClassName ps;
     ps_AutomountServiceAccountToken := ps_AutomountServiceAccountToken ps; ps_HostNetwork := ps_HostNetwork ps |}.
Definition ps_add_volume (ps : PodSpec) (v : Volume) : PodSpec :=
  {| ps_InitContainers := ps_InitContainers ps; ps_Containers := ps_Containers ps;
     ps_NodeName := ps_NodeName ps;
     ps_NodeSelector := ps_NodeSelector ps; ps_RestartPolicy := ps_RestartPolicy ps;
     ps_ServiceAccountName := ps_ServiceAccountName ps;
     ps_ImagePullSecrets := ps_ImagePullSecrets ps; ps_Volumes := ps_Volumes ps ++ [v];
     ps_Tolerations := ps_Tolerations ps; ps_PriorityClassName := ps_PriorityClassName ps;
     ps_AutomountServiceAccountToken := ps_AutomountServiceAccountToken ps; ps_HostNetwork := ps_HostNetwork ps |}.

Definition update_container (ps : PodSpec) (r : container_ref) (f : Container → Container) : PodSpec :=
  match r with
  | CRInit i => ps_set_init ps (alter f i (ps_InitContainers ps))
  | CRMain i => ps_set_containers ps (alter f i (ps_Containers ps))
  end.

Definition ct_set_args (c : Container) (args : list string) : Container :=
  {| ct_Name := ct_Name c; ct_Image := ct_Image c; ct_ImagePullPolicy := ct_ImagePullPolicy c;
     ct_Command := ct_Command c; ct_Args := args; ct_Env := ct_Env c;
     ct_Resources := ct_Resources c; ct_SecurityContext := ct_SecurityContext c;
     ct_VolumeMounts := ct_VolumeMounts c; ct_LivenessProbe := ct_LivenessProbe c;
     ct_StartupProbe := ct_StartupProbe c |}.
Definition ct_set_security (c : Container) (sc : SecurityContext) : Container :=
  {| ct_Name := ct_Name c; ct_Image := ct_Image c; ct_ImagePullPolicy := ct_ImagePullPolicy c;
     ct_Command := ct_Command c; ct_Args := ct_Args c; ct_Env := ct_Env c;
     ct_Resources := ct_Resources c; ct_SecurityContext := Some sc;
     ct_VolumeMounts := ct_VolumeMounts c; ct_LivenessProbe := ct_LivenessProbe c;
     ct_StartupProbe := ct_StartupProbe c |}.
Definition ct_add_mount (c : Container) (vm : VolumeMount) : Container :=
  {| ct_Name := ct_Name c; ct_Image := ct_Image c; ct_ImagePullPolicy := ct_ImagePullPolicy c;
     ct_Command := ct_Command c; ct_Args := ct_Args c; ct_Env := ct_Env c;
     ct_Resources := ct_Resources c; ct_SecurityContext := ct_SecurityContext c;
     ct_VolumeMounts := ct_VolumeMounts c ++ [vm]; ct_LivenessProbe := ct_LivenessProbe c;
     ct_StartupProbe := ct_StartupProbe c |}.

(** [container.Args[0] = container.Args[0] + s]. *)
Definition ct_append_arg0 (s : string) (c : Container) : Container :=
  ct_set_args c (alter (λ a, a +:+ s) 0 (ct_Args c)).

Definition pod_annotate (p : Pod) (k v : string) : Pod :=
  pod_set_meta p (SetAnnotation (pod_meta p) k v).

Section worker_pod.
Context `{EXT : Externals} (workerCfg : WorkerConfig) (workerImage : string).

(** [container, _ := podcmd.FindContainerByName(pod, name)], then an update through it. *)
Definition with_container (p : Pod) (name msg : string) (f : Container → Container) : result Pod :=
  match FindContainerByName (pod_spec p) name with
  | None => Err (ErrNew msg)
  | Some r => Ok (pod_set_spec p (update_container (pod_spec p) r f))
  end.

Definition setWorkerConfigAnnotation (p : Pod) (cfg : ModuleConfig) : result Pod :=
  b ← wrap_v "could not marshal the ModuleConfig to YAML: %v" (yaml_Marshal_config cfg);
  Ok (pod_annotate p configAnnotationKey b).

Definition setWorkerTolerationsAnnotation (p : Pod) (tolerations : list Toleration) : result Pod :=
  match tolerations with
  | [] => Ok p
  | _ => b ← wrap_v "could not marshal the Tolerations to YAML: %v" (yaml_Marshal_tolerations tolerations);
         Ok (pod_annotate p tolerationsAnnotationKey b)
  end.

Definition setWorkerModuleVersionAnnotation (p : Pod) (moduleVersion : string) : Pod :=
  if String.eqb moduleVersion "" then p
  else pod_annotate p moduleVersionAnnotationKey moduleVersion.

Definition setWorkerSofdepConfig (p : Pod) (modulesLoadingOrder : list string) : result Pod :=
  let p := pod_annotate p modulesOrderKey (getModulesOrderAnnotationValue modulesLoadingOrder) in
  let softdepVolume :=
    {| vol_Name := "modules-order";
       vol_Source := VolDownwardAPI
         [("softdep.conf", "metadata.annotations['" +:+ modulesOrderKey +:+ "']")] |} in
  let p := pod_set_spec p (ps_add_volume (pod_spec p) softdepVolume) in
  with_container p WorkerContainerName "could not find the worker container" (λ c,
    ct_add_mount c {| vm_Name := "modules-order"; vm_MountPath := "/etc/modprobe.d/softdep.conf";
                      vm_SubPath := "softdep.conf"; vm_ReadOnly := true |}).

Definition addCopyCommand (p : Pod) (src dst : string) : result Pod :=
  with_container p initContainerName "could not find the init container"
    (ct_append_arg0 (newline +:+ "mkdir -p " +:+ dst +:+ ";" +:+ newline +:+
                     "cp -R " +:+ src +:+ " " +:+ dst +:+ ";" +:+ newline)).

Definition addModprobedDirCopyCommand (p : Pod) (modprobedDir : string) : result Pod :=
  let dst := filepath_Join [sharedFilesDir; modprobedDir] in
  let copyCommand :=
    newline +:+ "src=" +:+ shellSingleQuote modprobedDir +:+ newline +:+
    "dst=" +:+ shellSingleQuote dst +:+ newline +:+ copyModprobedDirScript_tail in
  with_container p initContainerName "could not find the init container" (ct_append_arg0 copyCommand).

Definition setFirmwareVolume (p : Pod) (firmwareHostPath : option string) : result Pod :=
  match FindContainerByName (pod_spec p) WorkerContainerName with
  | None => Err (ErrNew "could not find the worker container")
  | Some r =>
      match firmwareHostPath with
      | None => Err (ErrNew "hostFirmwarePath must be set")
      | Some path =>
          let vm := {| vm_Name := "lib-firmware"; vm_MountPath := path; vm_SubPath := "";
                       vm_ReadOnly := false |} in
          let v := {| vol_Name := "lib-firmware";
                      vol_Source := VolHostPath path "DirectoryOrCreate" |} in
          Ok (pod_set_spec p (update_container (ps_add_volume (pod_spec p) v) r (λ c, ct_add_mount c vm)))
      end
  end.

Definition worker_security (privileged : bool) : SecurityContext :=
  if privileged
  then {| sc_Privileged := Some true; sc_CapabilitiesAdd := []; sc_SELinuxType := None;
          sc_RunAsUser := wc_RunAsUser workerCfg |}
  else {| sc_Privileged := None; sc_CapabilitiesAdd := ["SYS_MODULE"];
          sc_SELinuxType := Some (wc_SELinuxType workerCfg);
          sc_RunAsUser := wc_RunAsUser workerCfg |}.

Definition setWorkerSecurityContext (p : Pod) (privileged : bool) : result Pod :=
  with_container p WorkerContainerName "could not find the worker container"
    (λ c, ct_set_security c (worker_security privileged)).

Definition setWorkerContainerArgs (p : Pod) (args : list string) : result Pod :=
  with_container p WorkerContainerName "could not find the worker container" (λ c, ct_set_args c args).

Definition setHashAnnotation (p : Pod) : result Pod :=
  hash ← wrap_v "could not hash the pod template: %v" (hashstructure_Hash p);
  Ok (pod_annotate p hashAnnotationKey (pretty hash)).

(** The pod literal of [baseWorkerPod]. *)
Definition worker_pod_literal (nodeName : string) (item : ModuleItem) (moduleConfig : ModuleConfig) : Pod :=
  let labels : labels_t :=
    {[ "app.kubernetes.io/name" := "kmm"; "app.kubernetes.io/component" := "worker";
       "app.kubernetes.io/part-of" := "kmm"; constants.ModuleNameLabel := mi_Name item ]} in
  let mount name path ro := {| vm_Name := name; vm_MountPath := path; vm_SubPath := ""; vm_ReadOnly := ro |} in
  {| pod_meta := meta_set_labels (empty_meta (mi_Namespace item) (WorkerPodName nodeName (mi_Name item))) labels;
     pod_spec :=
       {| ps_InitContainers :=
            [{| ct_Name := initContainerName; ct_Image := mc_ContainerImage moduleConfig;
                ct_ImagePullPolicy := mc_ImagePullPolicy moduleConfig;
                ct_Command := ["/bin/sh"; "-c"]; ct_Args := [""]; ct_Env := [];
                ct_Resources := worker_resources; ct_SecurityContext := None;
                ct_VolumeMounts := [mount volNameTmp sharedFilesDir false];
                ct_LivenessProbe := None; ct_StartupProbe := None |}];
          ps_Containers :=
            [{| ct_Name := WorkerContainerName; ct_Image := workerImage; ct_ImagePullPolicy := "";
                ct_Command := []; ct_Args := []; ct_Env := [];
                ct_Resources := worker_resources; ct_SecurityContext := None;
                ct_VolumeMounts :=
                  [mount volNameConfig volMountPointConfig true;
                   mount "lib-modules" "/lib/modules" true;
                   mount "lib-modules" "/host/lib/modules" true;
                   mount volNameTmp sharedFilesDir true];
                ct_LivenessProbe := None; ct_StartupProbe := None |}];
          ps_NodeName := nodeName;
          ps_NodeSelector := ∅;
          ps_RestartPolicy := "OnFailure";
          ps_ServiceAccountName := mi_ServiceAccountName item;
          ps_ImagePullSecrets := match mi_ImageRepoSecret item with Some s => [s] | None => [] end;
          ps_Volumes :=
            [{| vol_Name := volNameConfig;
                vol_Source := VolDownwardAPI
                  [(configFileName, "metadata.annotations['" +:+ configAnnotationKey +:+ "']")] |};
             {| vol_Name := "lib-modules"; vol_Source := VolHostPath "/lib/modules" "Directory" |};
             {| vol_Name := volNameTmp; vol_Source := VolEmptyDir |}];
          ps_Tolerations := mi_Tolerations item; ps_PriorityClassName := "";
          ps_AutomountServiceAccountToken := None; ps_HostNetwork := false |};
     pod_status := {| pst_Phase := PodPhaseUnset; pst_ContainerStatuses := []; pst_Ready := false |} |}.

Definition baseWorkerPod (nmc : NodeModulesConfig) (item : ModuleItem) (moduleConfig : ModuleConfig) : result Pod :=
  let p := worker_pod_literal (nmc_Name nmc) item moduleConfig in
  m ← wrap_v "could not set the owner as controller: %v"
        (SetControllerReference "NodeModulesConfig" (nmc_meta nmc) (pod_meta p));
  let p := pod_set_meta p m in
  let dir := mp_DirName (mc_Modprobe moduleConfig) in
  let kmodsPathContainerImg := filepath_Join [dir; "lib"; "modules"; mc_KernelVersion moduleConfig] in
  let kmodsPathWorkerImg := filepath_Join [sharedFilesDir; dir; "lib"; "modules"] in
  p ← wrap_v "could not add the copy command to the init container: %v"
        (addCopyCommand p kmodsPathContainerImg kmodsPathWorkerImg);
  Ok (pod_set_finalizers p (AddFinalizer (om_Finalizers (pod_meta p)) NodeModulesConfigFinalizer)).

(** The firmware part of both templates: the copy command, the volume and the extra flag. *)
Definition add_firmware (p : Pod) (firmwarePath missing volmsg : string) (args : list string) : result (Pod * list string) :=
  match wc_FirmwareHostPath workerCfg with
  | None => Err (ErrNew missing)
  | Some host =>
      let args := args ++ ["--" +:+ FlagFirmwarePath; host] in
      p ← wrap_v "could not add the copy command to the init container: %v"
            (addCopyCommand p (filepath_Join [firmwarePath; "*"])
               (filepath_Join [sharedFilesDir; firmwarePath]));
      p ← wrap_v volmsg (setFirmwareVolume p (Some host));
      Ok (p, args)
  end.

(** The first half of [LoaderPodTemplate]: the base pod, the module order, the firmware and
    the modprobe.d directory, with the worker's arguments and whether it is privileged. *)
Definition loader_files (nmc : NodeModulesConfig) (nms : NodeModuleSpec) : result (Pod * list string * bool) :=
  let cfg := nms_Config nms in
  let mp := mc_Modprobe cfg in
  p ← wrap_v "could not create the base Pod: %v" (baseWorkerPod nmc (nms_item nms) cfg);
  p ← (match mp_ModulesLoadingOrder mp with
       | Some ((_ :: _) as order) =>
           wrap_v "could not set software dependency for mulitple modules: %v" (setWorkerSofdepConfig p order)
       | _ => Ok p
       end);
  let args := ["kmod"; "load"; configFullPath] in
  '(p, args, privileged) ←
    (if String.eqb (mp_FirmwarePath mp) "" then Ok (p, args, false)
     else '(p, args) ← add_firmware p (mp_FirmwarePath mp)
                         "firmwareHostPath wasn't set, while the Module requires firmware loading"
                         "could not map host volume needed for firmware loading: %v" args;
          Ok (p, args, true));
  if String.eqb (mp_ModprobedDir mp) "" then Ok (p, args, privileged)
  else p ← wrap_v "could not add the modprobedDir copy command to the init container: %v"
             (addModprobedDirCopyCommand p (mp_ModprobedDir mp));
       Ok (p, args, true).

Definition LoaderPodTemplate (nmc : NodeModulesConfig) (nms : NodeModuleSpec) : result Pod :=
  '(p, args, privileged) ← loader_files nmc nms;
  p ← wrap_v "could not set worker config: %v" (setWorkerConfigAnnotation p (nms_Config nms));
  p ← wrap_v "could not set worker tolerations: %v"
        (setWorkerTolerationsAnnotation p (mi_Tolerations (nms_item nms)));
  let p := setWorkerModuleVersionAnnotation p (mi_Version (nms_item nms)) in
  p ← wrap_v "could not set the worker Pod as privileged: %v" (setWorkerSecurityContext p privileged);
  p ← wrap_v "could not set worker container args: %v" (setWorkerContainerArgs p args);
  let p := pod_set_meta p (SetLabel (pod_meta p) actionLabelKey workerActionLoad) in
  setHashAnnotation p.

Definition UnloaderPodTemplate (nmc : NodeModulesConfig) (nms : NodeModuleStatus) : result Pod :=
  let cfg := nmst_Config nms in
  let mp := mc_Modprobe cfg in
  p ← wrap_v "could not create the base Pod: %v" (baseWorkerPod nmc (nmst_item nms) cfg);
  let args := ["kmod"; "unload"; configFullPath] in
  p ← wrap_v "could not set worker config: %v" (setWorkerConfigAnnotation p cfg);
  p ← wrap_v "could not set worker tolerations: %v"
        (setWorkerTolerationsAnnotation p (mi_Tolerations (nmst_item nms)));
  let privileged := negb (String.eqb (mp_ModprobedDir mp) "") in
  p ← wrap_v "could not set the worker Pod's security context: %v" (setWorkerSecurityContext p privileged);
  '(p, args) ←
    (if String.eqb (mp_FirmwarePath mp) "" then Ok (p, args)
     else add_firmware p (mp_FirmwarePath mp)
            "firmwareHostPath was not set while the Module requires firmware unloading"
            "could not map host volume needed for firmware unloading: %v" args);
  p ← (if String.eqb (mp_ModprobedDir mp) "" then Ok p
       else wrap_v "could not add the modprobedDir copy command to the init container: %v"
              (addModprobedDirCopyCommand p (mp_ModprobedDir mp)));
  p ← wrap_v "could not set worker container args: %v" (setWorkerContainerArgs p args);
  let p := pod_set_meta p (SetLabel (pod_meta p) actionLabelKey workerActionUnload) in
  setHashAnnotation p.

Definition CreateLoaderPod (nmc : NodeModulesConfig) (nms : NodeModuleSpec) : prog (option error) :=
  match LoaderPodTemplate nmc nms with
  | Err e => mret (Some (Errorf_v "could not get loader Pod template: %v" e))
  | Ok p => create KPod p
  end.

Definition CreateUnloaderPod (nmc : NodeModulesConfig) (nms : NodeModuleStatus) : prog (option error) :=
  match UnloaderPodTemplate nmc nms with
  | Err e => mret (Some (Errorf_v "could not create the Pod template: %v" e))
  | Ok p => create KPod p
  end.

(** [deletePod] of [common.go]. *)
Definition deletePod (p : Pod) : prog (option error) :=
  match om_DeletionTimestamp (pod_meta p) with
  | Some _ => mret None
  | None =>
      err ← delete_obj KPod p;
      mret (match IgnoreNotFound err with
            | Some _ => wrap_err "failed to delete pull pod %s/%s: %v" err
            | None => None
            end)
  end.

(** The patch writes the answered pod back, and that pod is deleted. *)
Definition DeletePod (p : Pod) : prog (option error) :=
  let p' := pod_set_finalizers p (RemoveFinalizer (om_Finalizers (pod_meta p)) NodeModulesConfigFinalizer) in
  '(p', err) ← patch KPod p p';
  match err with
  | Some e => mret (Some (Errorf_v "could not patch Pod %s/%s: %v" e))
  | None => deletePod p'
  end.

Definition GetWorkerPod (podName namespace : string) : prog (result (option Pod)) :=
  r ← get KPod (nsn namespace podName);
  mret (match r with
        | Ok p => Ok (Some p)
        | Err e => if IsNotFound e then Ok None else Err (Errorf_v "could not get pod %s: %v" e)
        end).

Definition ListWorkerPodsOnNode (nodeName : string) : prog (result (list Pod)) :=
  r ← list_all KPod [HasLabels [actionLabelKey]; MatchingFields ".spec.nodeName" nodeName];
  mret (wrap_v "could not list worker pods for node %s: %v" r).
End worker_pod.

(** A [nil] pod is [None]. *)
Definition IsLoaderPod (p : option Pod) : bool :=
  match p with
  | None => false
  | Some p => String.eqb (map_get (pod_Labels p) actionLabelKey) workerActionLoad
  end.
Definition IsUnloaderPod (p : option Pod) : bool :=
  match p with
  | None => false
  | Some p => String.eqb (map_get (pod_Labels p) actionLabelKey) workerActionUnload
  end.
Definition GetConfigAnnotation (p : option Pod) : string :=
  match p with None => "" | Some p => map_get (pod_Annotations p) configAnnotationKey end.
Definition GetTolerationsAnnotation (p : option Pod) : string :=
  match p with None => "" | Some p => map_get (pod_Annotations p) tolerationsAnnotationKey end.
Definition GetModuleVersionAnnotation (p : option Pod) : string :=
  match p with None => "" | Some p => map_get (pod_Annotations p) moduleVersionAnnotationKey end.
Definition HashAnnotationDiffer (p1 p2 : option Pod) : bool :=
  match p1, p2 with
  | None, None => false
  | None, Some _ | Some _, None => true
  | Some p1, Some p2 =>
      negb (String.eqb (map_get (pod_Annotations p1) hashAnnotationKey)
                       (map_get (pod_Annotations p2) hashAnnotationKey))
  end.

(** ** Shape of a worker pod *)

Section props.
Context `{EXT : Externals} `{EXTL : !ExternalsLaws} (workerCfg : WorkerConfig) (workerImage : string).

(** One init container and one worker container, under their names. *)
Definition shaped (p : Pod) (i w : Container) : Prop :=
  ps_InitContainers (pod_spec p) = [i] ∧ ct_Name i = initContainerName ∧
  ps_Containers (pod_spec p) = [w] ∧ ct_Name w = WorkerContainerName.

Lemma shaped_find_init p i w :
  shaped p i w → FindContainerByName (pod_spec p) initContainerName = Some (CRInit 0).
Proof.
  intros (Hi & Hin & Hw & Hwn).
  destruct (FindContainerByName _ _) as [[n|n]|] eqn:E.
  - apply FindContainerByName_Some in E as (c & Hc & _). simpl in Hc. rewrite Hi in Hc.
    by destruct n.
  - apply FindContainerByName_Some in E as (c & Hc & Hn). simpl in Hc. rewrite Hw in Hc.
    destruct n; simplify_eq/=. by rewrite Hwn in Hn.
  - exfalso. apply (FindContainerByName_None _ _ E (CRInit 0) i); [|done]. simpl. by rewrite Hi.
Qed.

Lemma shaped_find_worker p i w :
  shaped p i w → FindContainerByName (pod_spec p) WorkerContainerName = Some (CRMain 0).
Proof.
  intros (Hi & Hin & Hw & Hwn).
  destruct (FindContainerByName _ _) as [[n|n]|] eqn:E.
  - apply FindContainerByName_Some in E as (c & Hc & Hn). simpl in Hc. rewrite Hi in Hc.
    destruct n; simplify_eq/=. by rewrite Hin in Hn.
  - apply FindContainerByName_Some in E as (c & Hc & _). simpl in Hc. rewrite Hw in Hc.
    by destruct n.
  - exfalso. apply (FindContainerByName_None _ _ E (CRMain 0) w); [|done]. simpl. by rewrite Hw.
Qed.

(** Nothing but the annotations and the containers differs. *)
Definition same_rest (p p' : Pod) : Prop :=
  pod_meta p' = meta_set_annotations (pod_meta p) (pod_Annotations p') ∧
  ps_NodeName (pod_spec p') = ps_NodeName (pod_spec p) ∧
  ps_Tolerations (pod_spec p') = ps_Tolerations (pod_spec p).

#[local] Instance same_rest_refl : Reflexive same_rest.
Proof. by intros [[] ? ?]. Qed.

#[local] Instance same_rest_trans : Transitive same_rest.
Proof.
  intros p1 p2 p3 (H1 & H2 & H3) (G1 & G2 & G3). split_and!; [|congruence..].
  by rewrite G1, H1.
Qed.

Lemma same_rest_annotate p k v : same_rest p (pod_annotate p k v).
Proof. done. Qed.

(** What one template step does: the containers become [i'] and [w'], the annotations [a']. *)
Definition step_to (p p' : Pod) (i' w' : Container) (a' : gmap string string) : Prop :=
  shaped p' i' w' ∧ pod_Annotations p' = a' ∧ same_rest p p'.

Lemma with_init_step p i w msg f :
  shaped p i w → ct_Name (f i) = ct_Name i →
  ∃ p', with_container p initContainerName msg f = Ok p' ∧ step_to p p' (f i) w (pod_Annotations p).
Proof.
  intros Hs Hf. unfold with_container. erewrite shaped_find_init by done. eexists. split; [done|].
  destruct Hs as (Hi & Hin & Hw & Hwn).
  unfold step_to, shaped, same_rest. destruct p as [[] ? ?]; simpl in *. by rewrite Hi, Hf.
Qed.

Lemma with_worker_step p i w msg f :
  shaped p i w → ct_Name (f w) = ct_Name w →
  ∃ p', with_container p WorkerContainerName msg f = Ok p' ∧ step_to p p' i (f w) (pod_Annotations p).
Proof.
  intros Hs Hf. unfold with_container. erewrite shaped_find_worker by done. eexists. split; [done|].
  destruct Hs as (Hi & Hin & Hw & Hwn).
  unfold step_to, shaped, same_rest. destruct p as [[] ? ?]; simpl in *. by rewrite Hw, Hf.
Qed.

Lemma firmware_step p i w host :
  shaped p i w →
  ∃ p' w', setFirmwareVolume p (Some host) = Ok p' ∧ step_to p p' i w' (pod_Annotations p) ∧
           ct_SecurityContext w' = ct_SecurityContext w.
Proof.
  intros Hs. unfold setFirmwareVolume. erewrite shaped_find_worker by done.
  destruct Hs as (Hi & Hin & Hw & Hwn). eexists _, (ct_add_mount w _). split; [done|].
  unfold step_to, shaped, same_rest. destruct p as [[] ? ?]; simpl in *. by rewrite Hw.
Qed.

Lemma copy_step p i w src dst :
  shaped p i w →
  ∃ p' i', addCopyCommand p src dst = Ok p' ∧ step_to p p' i' w (pod_Annotations p).
Proof.
  intros Hs. unfold addCopyCommand. match goal with |- context [with_container p _ ?m ?f] =>
    destruct (with_init_step p i w m f Hs eq_refl) as (p' & E & H) end. eauto.
Qed.

Lemma modprobed_step p i w dir :
  shaped p i w →
  ∃ p' i', addModprobedDirCopyCommand p dir = Ok p' ∧ step_to p p' i' w (pod_Annotations p).
Proof.
  intros Hs. unfold addModprobedDirCopyCommand. match goal with |- context [with_container p _ ?m ?f] =>
    destruct (with_init_step p i w m f Hs eq_refl) as (p' & E & H) end. eauto.
Qed.

Lemma softdep_step p i w order :
  shaped p i w →
  ∃ p' w', setWorkerSofdepConfig p order = Ok p' ∧
    step_to p p' i w' (<[modulesOrderKey := getModulesOrderAnnotationValue order]> (pod_Annotations p)) ∧
    ct_SecurityContext w' = ct_SecurityContext w.
Proof.
  intros Hs. unfold setWorkerSofdepConfig.
  set (p1 := pod_set_spec _ _).
  assert (shaped p1 i w) as Hs1 by done.
  match goal with |- context [with_container p1 _ ?m ?f] =>
    destruct (with_worker_step p1 i w m f Hs1 eq_refl) as (p' & E & Hp') end.
  exists p'. eexists. split; [exact E|]. split; [exact Hp'|done].
Qed.

Lemma base_step nmc item cfg p :
  baseWorkerPod workerImage nmc item cfg = Ok p →
  ∃ i w r, shaped p i w ∧ pod_Annotations p = ∅ ∧
    pod_Name p = WorkerPodName (nmc_Name nmc) (mi_Name item) ∧ pod_Namespace p = mi_Namespace item ∧
    ps_NodeName (pod_spec p) = nmc_Name nmc ∧ ps_Tolerations (pod_spec p) = mi_Tolerations item ∧
    map_get (pod_Labels p) constants.ModuleNameLabel = mi_Name item ∧
    om_Finalizers (pod_meta p) = [NodeModulesConfigFinalizer] ∧
    r ∈ om_OwnerReferences (pod_meta p) ∧ or_Name r = nmc_Name nmc ∧
    or_UID r = om_UID (nmc_meta nmc) ∧ or_Controller r = true.
Proof.
  unfold baseWorkerPod. intros Hb. res_inv.
  match goal with H : SetControllerReference _ _ _ = Ok ?m |- _ =>
    pose proof (SetControllerReference_owner _ _ _ _ H) as (r & Hr & Hn & Hu & Hc);
    pose proof (SetControllerReference_spec _ _ _ _ H) as Hm end.
  edestruct (copy_step (pod_set_meta (worker_pod_literal workerImage (nmc_Name nmc) item cfg) x))
    as (p1 & i' & E & Hs & Ha & Hrest); [by repeat split|].
  match goal with H : addCopyCommand _ _ _ = Ok _ |- _ => rewrite E in H; injection H as <- end.
  destruct Hrest as (Hp1 & Hnode & Htol).
  eexists _, _, r. split; [exact Hs|].
  unfold pod_Annotations, pod_Name, pod_Namespace, pod_Labels in *. simpl in *.
  rewrite Hp1. simpl. rewrite Ha, Hm. simpl. split_and!; try done.
  - rewrite AddFinalizer_spec. case_decide; [set_solver|done].
Qed.

Lemma add_firmware_step p i w fp m1 m2 args p' args' :
  shaped p i w → add_firmware workerCfg p fp m1 m2 args = Ok (p', args') →
  ∃ i' w', step_to p p' i' w' (pod_Annotations p) ∧ ct_SecurityContext w' = ct_SecurityContext w ∧
    args' = args ++ match wc_FirmwareHostPath workerCfg with Some h => ["--" +:+ FlagFirmwarePath; h] | None => [] end.
Proof.
  intros Hs Hf. unfold add_firmware in Hf. destruct (wc_FirmwareHostPath workerCfg) as [host|]; [|done].
  destruct (copy_step p i w (filepath_Join [fp; "*"]) (filepath_Join [sharedFilesDir; fp]) Hs)
    as (p1 & i' & E & Hs1 & Ha1 & Hr1).
  destruct (firmware_step p1 i' w host Hs1) as (p2 & w' & E2 & (Hs2 & Ha2 & Hr2) & Hsc).
  rewrite E in Hf. simpl in Hf. rewrite E2 in Hf. res_inv.
  exists i', w'. split; [|done]. split_and!; [done|congruence|by etrans].
Qed.

(** What both templates promise about the pod of a module on a node. *)
Record worker_pod_for (nmc : NodeModulesConfig) (item : ModuleItem) (cfg : ModuleConfig) (p : Pod) : Prop := {
  wpf_name : pod_Name p = WorkerPodName (nmc_Name nmc) (mi_Name item);
  wpf_namespace : pod_Namespace p = mi_Namespace item;
  wpf_node : ps_NodeName (pod_spec p) = nmc_Name nmc;
  wpf_tolerations : ps_Tolerations (pod_spec p) = mi_Tolerations item;
  wpf_module : map_get (pod_Labels p) constants.ModuleNameLabel = mi_Name item;
  wpf_finalizer : om_Finalizers (pod_meta p) = [NodeModulesConfigFinalizer];
  wpf_owner : ∃ r, r ∈ om_OwnerReferences (pod_meta p) ∧ or_Name r = nmc_Name nmc ∧
                   or_UID r = om_UID (nmc_meta nmc) ∧ or_Controller r = true;
  wpf_config : yaml_Marshal_config cfg = Ok (GetConfigAnnotation (Some p));
  wpf_tolerations_ann :
    match mi_Tolerations item with
    | [] => GetTolerationsAnnotation (Some p) = ""
    | ts => yaml_Marshal_tolerations ts = Ok (GetTolerationsAnnotation (Some p))
    end;
}.

(** The security context and the arguments of the worker container. *)
Definition worker_sc (p : Pod) : option SecurityContext :=
  w ← head (ps_Containers (pod_spec p)); ct_SecurityContext w.
Definition worker_args (p : Pod) : option (list string) :=
  ct_Args <$> head (ps_Containers (pod_spec p)).

(** The value of the worker's [firmware-path] flag, and its command line. *)
Definition firmware_flag (cfg : ModuleConfig) : option string :=
  if String.eqb (mp_FirmwarePath (mc_Modprobe cfg)) "" then None else wc_FirmwareHostPath workerCfg.
Definition worker_command (verb : string) (cfg : ModuleConfig) : list string :=
  ["kmod"; verb; configFullPath] ++
  match firmware_flag cfg with Some h => ["--" +:+ FlagFirmwarePath; h] | None => [] end.

Lemma config_annotation_step p cfg p' :
  setWorkerConfigAnnotation p cfg = Ok p' →
  ∃ b, yaml_Marshal_config cfg = Ok b ∧ p' = pod_annotate p configAnnotationKey b.
Proof. unfold setWorkerConfigAnnotation. intros H. res_inv. eauto. Qed.

(** The tolerations annotation, as a function on the annotations. *)
Lemma tolerations_annotation_step p ts p' :
  setWorkerTolerationsAnnotation p ts = Ok p' →
  match ts with
  | [] => p' = p
  | _ => ∃ b, yaml_Marshal_tolerations ts = Ok b ∧ p' = pod_annotate p tolerationsAnnotationKey b
  end.
Proof. unfold setWorkerTolerationsAnnotation. destruct ts; intros H; res_inv; eauto. Qed.

Lemma security_step p i w b p' :
  shaped p i w → setWorkerSecurityContext workerCfg p b = Ok p' →
  step_to p p' i (ct_set_security w (worker_security workerCfg b)) (pod_Annotations p).
Proof.
  intros Hs H. unfold setWorkerSecurityContext in H.
  match goal with H : with_container p _ ?m ?f = _ |- _ =>
    destruct (with_worker_step p i w m f Hs eq_refl) as (p1 & E & H1); rewrite E in H end.
  by res_inv.
Qed.

Lemma args_step p i w args p' :
  shaped p i w → setWorkerContainerArgs p args = Ok p' →
  step_to p p' i (ct_set_args w args) (pod_Annotations p).
Proof.
  intros Hs H. unfold setWorkerContainerArgs in H.
  match goal with H : with_container p _ ?m ?f = _ |- _ =>
    destruct (with_worker_step p i w m f Hs eq_refl) as (p1 & E & H1); rewrite E in H end.
  by res_inv.
Qed.

Lemma hash_step p p' :
  setHashAnnotation p = Ok p' → ∃ h, p' = pod_annotate p hashAnnotationKey h.
Proof. unfold setHashAnnotation. intros H. res_inv. eauto. Qed.

(** From the base pod [p0] to the finished one: only annotations, containers and the action
    label differ. *)
Lemma finish_worker_pod nmc item cfg p0 p q h action :
  baseWorkerPod workerImage nmc item cfg = Ok p0 →
  same_rest p0 p →
  q = pod_annotate (pod_set_meta p (SetLabel (pod_meta p) actionLabelKey action)) hashAnnotationKey h →
  yaml_Marshal_config cfg = Ok (map_get (pod_Annotations p) configAnnotationKey) →
  match mi_Tolerations item with
  | [] => map_get (pod_Annotations p) tolerationsAnnotationKey = ""
  | ts => yaml_Marshal_tolerations ts = Ok (map_get (pod_Annotations p) tolerationsAnnotationKey)
  end →
  worker_pod_for nmc item cfg q ∧ map_get (pod_Labels q) actionLabelKey = action.
Proof.
  intros (i & w & r & _ & _ & Hn & Hns & Hnode & Htol & Hlab & Hfin & Hr)%base_step
    (Hm & Hn' & Ht') -> Hcfg Htolann.
  pose proof (f_equal om_Name Hm) as H1. pose proof (f_equal om_Namespace Hm) as H2.
  pose proof (f_equal om_Labels Hm) as H3. pose proof (f_equal om_Finalizers Hm) as H4.
  pose proof (f_equal om_OwnerReferences Hm) as H5. simpl in H1, H2, H3, H4, H5. clear Hm.
  split; [|unfold map_get, pod_Labels; simpl; by rewrite lookup_insert_eq].
  split; simpl.
  - unfold pod_Name in *. simpl. congruence.
  - unfold pod_Namespace in *. simpl. congruence.
  - congruence.
  - congruence.
  - unfold pod_Labels, map_get in *. simpl. rewrite lookup_insert_ne by done. by rewrite H3.
  - by rewrite H4.
  - exists r. by rewrite H5.
  - rewrite Hcfg. unfold pod_Annotations, map_get. simpl. by rewrite lookup_insert_ne by done.
  - unfold GetTolerationsAnnotation, pod_Annotations, map_get in *. simpl.
    by rewrite lookup_insert_ne by done.
Qed.
(** Annotations written after the optional module order: configuration and tolerations. *)
Lemma annotations_steps p i w cfg ts p1 p2 :
  shaped p i w → map_get (pod_Annotations p) tolerationsAnnotationKey = "" →
  setWorkerConfigAnnotation p cfg = Ok p1 → setWorkerTolerationsAnnotation p1 ts = Ok p2 →
  shaped p2 i w ∧ same_rest p p2 ∧
  yaml_Marshal_config cfg = Ok (map_get (pod_Annotations p2) configAnnotationKey) ∧
  match ts with
  | [] => map_get (pod_Annotations p2) tolerationsAnnotationKey = ""
  | _ => yaml_Marshal_tolerations ts = Ok (map_get (pod_Annotations p2) tolerationsAnnotationKey)
  end ∧
  (∀ k, k ≠ configAnnotationKey → k ≠ tolerationsAnnotationKey →
        pod_Annotations p2 !! k = pod_Annotations p !! k).
Proof.
  intros Hs Ht (b & Hb & ->)%config_annotation_step H2%tolerations_annotation_step.
  unfold map_get, pod_Annotations in *.
  destruct ts as [|t ts].
  - subst p2. split_and!; try done; simpl.
    + by rewrite lookup_insert_eq.
    + by rewrite lookup_insert_ne.
    + intros k Hk _. by rewrite lookup_insert_ne.
  - destruct H2 as (b' & Hb' & ->). split_and!; try done; simpl.
    + by rewrite lookup_insert_ne, lookup_insert_eq.
    + by rewrite lookup_insert_eq.
    + intros k Hk Hk'. by rewrite !lookup_insert_ne.
Qed.

Lemma map_get_miss (m : gmap string string) k : m !! k = None → map_get m k = "".
Proof. unfold map_get. by intros ->. Qed.

(** An annotation only the annotation steps set is absent before them. *)
Definition fresh_annotations (p : Pod) : Prop :=
  pod_Annotations p !! tolerationsAnnotationKey = None ∧
  pod_Annotations p !! moduleVersionAnnotationKey = None.

Lemma order_step p i w (order : option (list string)) p' :
  shaped p i w → fresh_annotations p →
  (match order with
   | Some ((_ :: _) as order) =>
       wrap_v "could not set software dependency for mulitple modules: %v" (setWorkerSofdepConfig p order)
   | _ => Ok p
   end) = Ok p' →
  ∃ w', shaped p' i w' ∧ same_rest p p' ∧ fresh_annotations p'.
Proof.
  intros Hs Ha H. destruct order as [[|o os]|]; [by res_inv; exists w| |by res_inv; exists w].
  destruct (softdep_step p i w (o :: os) Hs) as (q & w' & E & (Hs' & Ha' & Hr') & _).
  rewrite E in H. res_inv. exists w'. split_and!; [done..|].
  unfold fresh_annotations in *. rewrite Ha', !lookup_insert_ne by done. done.
Qed.

Lemma loader_files_step nmc nms p args priv :
  loader_files workerCfg workerImage nmc nms = Ok (p, args, priv) →
  let mp := mc_Modprobe (nms_Config nms) in
  ∃ p0 i w, baseWorkerPod workerImage nmc (nms_item nms) (nms_Config nms) = Ok p0 ∧
    same_rest p0 p ∧ shaped p i w ∧ fresh_annotations p ∧
    args = worker_command "load" (nms_Config nms) ∧
    priv = negb (String.eqb (mp_FirmwarePath mp) "") || negb (String.eqb (mp_ModprobedDir mp) "").
Proof.
  unfold loader_files. intros H. cbv zeta.
  apply result_bind_Ok in H as (p0 & H0%wrap_v_Ok & H).
  destruct (base_step _ _ _ _ H0) as (i & w & r & Hs & Ha & _).
  apply result_bind_Ok in H as (p1 & H1 & H).
  apply order_step with (i := i) (w := w) in H1 as (w1 & Hs1 & Hr1 & Hf1);
    [|done|by unfold fresh_annotations; rewrite Ha].
  apply result_bind_Ok in H as ([[p2 args2] priv2] & H2 & H).
  assert (∃ i2 w2, step_to p1 p2 i2 w2 (pod_Annotations p1) ∧
    priv2 = negb (String.eqb (mp_FirmwarePath (mc_Modprobe (nms_Config nms))) "") ∧
    args2 = worker_command "load" (nms_Config nms))
    as (i2 & w2 & (Hs2 & Ha2 & Hr2) & Hpriv & Hargs).
  { clear H. unfold worker_command, firmware_flag. destruct (String.eqb _ _); res_inv; [by exists i, w1|].
    match goal with G : add_firmware _ _ _ _ _ _ = _ |- _ =>
      destruct (add_firmware_step _ _ _ _ _ _ _ _ _ Hs1 G) as (i' & w' & Hst & _ & Ha') end.
    by exists i', w'. }
  exists p0. destruct (String.eqb (mp_ModprobedDir _) "").
  - injection H as -> -> ->. exists i2, w2. rewrite orb_false_r.
    split_and!; [done|by etrans|done|by unfold fresh_annotations; rewrite Ha2|done|done].
  - apply result_bind_Ok in H as (p3 & H3%wrap_v_Ok & H). injection H as -> -> <-.
    edestruct (modprobed_step p2 i2 w2) as (p' & i' & E & Hs3 & Ha3 & Hr3); [done|].
    rewrite E in H3. injection H3 as ->. exists i', w2. rewrite orb_true_r.
    split_and!; [done|etrans; [|done]; by etrans|done| |done|done].
    unfold fresh_annotations. by rewrite Ha3, Ha2.
Qed.

Lemma version_step p i w v :
  shaped p i w → map_get (pod_Annotations p) moduleVersionAnnotationKey = "" →
  let p' := setWorkerModuleVersionAnnotation p v in
  shaped p' i w ∧ same_rest p p' ∧
  (∀ k, k ≠ moduleVersionAnnotationKey → pod_Annotations p' !! k = pod_Annotations p !! k) ∧
  map_get (pod_Annotations p') moduleVersionAnnotationKey = v.
Proof.
  intros Hs Ha. unfold setWorkerModuleVersionAnnotation.
  destruct (String.eqb_spec v "") as [->|Hv]; [done|].
  split_and!; try done; unfold map_get, pod_Annotations; simpl.
  - intros k Hk. by rewrite lookup_insert_ne.
  - by rewrite lookup_insert_eq.
Qed.

Lemma loader_template_facts nmc nms p :
  LoaderPodTemplate workerCfg workerImage nmc nms = Ok p →
  let mp := mc_Modprobe (nms_Config nms) in
  worker_pod_for nmc (nms_item nms) (nms_Config nms) p ∧
  IsLoaderPod (Some p) = true ∧ IsUnloaderPod (Some p) = false ∧
  GetModuleVersionAnnotation (Some p) = mi_Version (nms_item nms) ∧
  worker_sc p = Some (worker_security workerCfg
    (negb (String.eqb (mp_FirmwarePath mp) "") || negb (String.eqb (mp_ModprobedDir mp) ""))) ∧
  worker_args p = Some (worker_command "load" (nms_Config nms)).
Proof.
  unfold LoaderPodTemplate. intros H. cbv zeta.
  apply result_bind_Ok in H as ([[p3 args] priv] & H3 & H).
  apply loader_files_step in H3 as (p0 & i & w & H0 & Hr3 & Hs3 & [Ht3 Hv3] & Hargs & Hpriv).
  apply result_bind_Ok in H as (p4 & H4%wrap_v_Ok & H).
  apply result_bind_Ok in H as (p5 & H5%wrap_v_Ok & H).
  edestruct (annotations_steps p3 i w) as (Hs5 & Hr5 & Hcfg & Htol & Hoth);
    [done|by apply map_get_miss|done|done|].
  apply result_bind_Ok in H as (p7 & H7%wrap_v_Ok & H).
  destruct (version_step p5 i w (mi_Version (nms_item nms))) as (Hs6 & Hr6 & Ho6 & Hv6);
    [done|apply map_get_miss; by rewrite Hoth|].
  eapply security_step in H7 as (Hs7 & Ha7 & Hr7); [|done].
  apply result_bind_Ok in H as (p8 & H8%wrap_v_Ok & H).
  eapply args_step in H8 as (Hs8 & Ha8 & Hr8); [|done].
  apply hash_step in H as [h Hq].
  assert (∀ k, k ≠ moduleVersionAnnotationKey →
    map_get (pod_Annotations p8) k = map_get (pod_Annotations p5) k) as Hk8.
  { intros k Hk. unfold map_get. by rewrite Ha8, Ha7, Ho6. }
  destruct (finish_worker_pod nmc (nms_item nms) (nms_Config nms) p0 p8 p h workerActionLoad) as [Hw Hact];
    [done| |done|by rewrite Hk8|by destruct (mi_Tolerations _); rewrite Hk8|].
  { do 4 (etrans; [|done]). by etrans. }
  split_and!; [done| | | | |].
  - unfold IsLoaderPod. by rewrite Hact.
  - unfold IsUnloaderPod. by rewrite Hact.
  - unfold GetModuleVersionAnnotation. rewrite Hq, <-Hv6, <-Ha7, <-Ha8.
    unfold map_get, pod_Annotations. simpl. by rewrite lookup_insert_ne.
  - rewrite Hq. unfold worker_sc. simpl. destruct Hs8 as (_ & _ & -> & _). simpl. by rewrite Hpriv.
  - rewrite Hq. unfold worker_args. simpl. destruct Hs8 as (_ & _ & -> & _). simpl. by rewrite Hargs.
Qed.

(** An unloader pod template that is produced describes the pod of that module on that
    node in the same way, from the status entry; it is an unloader pod and not a loader pod,
    its worker is privileged exactly when a modprobe.d directory must be removed, and its
    command line asks for the unloading. *)
Lemma unloader_template_facts nmc nms p :
  UnloaderPodTemplate workerCfg workerImage nmc nms = Ok p →
  let mp := mc_Modprobe (nmst_Config nms) in
  worker_pod_for nmc (nmst_item nms) (nmst_Config nms) p ∧
  IsUnloaderPod (Some p) = true ∧ IsLoaderPod (Some p) = false ∧
  worker_sc p = Some (worker_security workerCfg (negb (String.eqb (mp_ModprobedDir mp) ""))) ∧
  worker_args p = Some (worker_command "unload" (nmst_Config nms)).
Proof.
  unfold UnloaderPodTemplate. intros H. cbv zeta in *.
  apply result_bind_Ok in H as (p0 & H0%wrap_v_Ok & H).
  destruct (base_step _ _ _ _ H0) as (i & w & r & Hs & Ha & _).
  apply result_bind_Ok in H as (p1 & H1%wrap_v_Ok & H).
  apply result_bind_Ok in H as (p2 & H2%wrap_v_Ok & H).
  edestruct (annotations_steps p0 i w) as (Hs2 & Hr2 & Hcfg & Htol & _);
    [done|by rewrite Ha|done|done|].
  apply result_bind_Ok in H as (p3 & H3%wrap_v_Ok & H).
  eapply security_step in H3 as (Hs3 & Ha3 & Hr3); [|done].
  apply result_bind_Ok in H as ([p4 args] & H4 & H).
  assert (∃ i4 w4, step_to p3 p4 i4 w4 (pod_Annotations p3) ∧ ct_SecurityContext w4 =
    Some (worker_security workerCfg (negb (String.eqb (mp_ModprobedDir (mc_Modprobe (nmst_Config nms))) ""))) ∧
    args = worker_command "unload" (nmst_Config nms))
    as (i4 & w4 & (Hs4 & Ha4 & Hr4) & Hsc & Hargs).
  { clear H. unfold worker_command, firmware_flag. destruct (String.eqb (mp_FirmwarePath _) "");
    [injection H4 as <- <-; eexists _, _; split; [by split|done]|].
    destruct (add_firmware_step _ _ _ _ _ _ _ _ _ Hs3 H4) as (i' & w' & Hst & Hsc & Ha').
    by exists i', w'. }
  apply result_bind_Ok in H as (p5 & H5 & H).
  assert (∃ i5, step_to p4 p5 i5 w4 (pod_Annotations p4)) as (i5 & Hs5 & Ha5 & Hr5).
  { clear H H4. destruct (String.eqb (mp_ModprobedDir _) ""); [injection H5 as <-; exists i4; by split|].
    edestruct (modprobed_step p4 i4 w4) as (p' & i' & E & Hst); [done|].
    rewrite E in H5. res_inv. by exists i'. }
  apply result_bind_Ok in H as (p6 & H6%wrap_v_Ok & H).
  eapply args_step in H6 as (Hs6 & Ha6 & Hr6); [|done].
  apply hash_step in H as [h Hq].
  assert (pod_Annotations p6 = pod_Annotations p2) as Hk by congruence.
  destruct (finish_worker_pod nmc (nmst_item nms) (nmst_Config nms) p0 p6 p h workerActionUnload) as [Hw Hact];
    [done| |done|by rewrite Hk|by destruct (mi_Tolerations _); rewrite Hk|].
  { do 3 (etrans; [|done]). by etrans. }
  split_and!; [done| | | |].
  - unfold IsUnloaderPod. by rewrite Hact.
  - unfold IsLoaderPod. by rewrite Hact.
  - rewrite Hq. unfold worker_sc. simpl. destruct Hs6 as (_ & _ & -> & _). done.
  - rewrite Hq. unfold worker_args. simpl. destruct Hs6 as (_ & _ & -> & _). simpl. by rewrite Hargs.
Qed.

(** A loader pod template that is produced describes the pod of that module on that
    node: its name, namespace, node and tolerations, the module name label, the finalizer
    that delays its removal, the NodeModulesConfig as controlling owner, the YAML of the
    module configuration, of the tolerations and the module version in its annotations; it
    is a loader pod and not an unloader pod; and its worker is privileged exactly when
    firmware or a modprobe.d directory must be written, having SYS_MODULE only otherwise.
    Decoding its configuration annotation into a fresh value gives the configuration back. *)
Theorem LoaderPodTemplate_spec nmc nms p :
  LoaderPodTemplate workerCfg workerImage nmc nms = Ok p →
  let mp := mc_Modprobe (nms_Config nms) in
  worker_pod_for nmc (nms_item nms) (nms_Config nms) p ∧
  IsLoaderPod (Some p) = true ∧ IsUnloaderPod (Some p) = false ∧
  GetModuleVersionAnnotation (Some p) = mi_Version (nms_item nms) ∧
  worker_sc p = Some (worker_security workerCfg
    (negb (String.eqb (mp_FirmwarePath mp) "") || negb (String.eqb (mp_ModprobedDir mp) ""))) ∧
  (config_stored (nms_Config nms) = true →
   yaml_UnmarshalStrict_config (GetConfigAnnotation (Some p)) empty_config = (nms_Config nms, None)).
Proof.
  intros H. destruct (loader_template_facts _ _ _ H) as (Hw & Hl & Hu & Hv & Hsc & _).
  split_and!; try done. intros Hc. by apply yaml_config_roundtrip, (wpf_config _ _ _ _ Hw).
Qed.
End props.

(** ** Shell quoting *)

(** How a POSIX shell reads one word made of single-quoted parts and escaped characters:
    [None] when a quote is left open or an unquoted character would be interpreted. *)
Fixpoint sh_read (quoted : bool) (s : string) : option string :=
  match s with
  | EmptyString => if quoted then None else Some ""
  | String c s =>
      if quoted then
        if is_char "'" c then sh_read false s else String c <$> sh_read true s
      else if is_char "'" c then sh_read true s
      else if is_char "\" c then
        match s with
        | String d s => String d <$> sh_read false s
        | EmptyString => None
        end
      else None
  end.

Lemma sh_read_quoted s t :
  sh_read true (replace_char "'" "'\''" s +:+ String "'" t) = String.append s <$> sh_read false t.
Proof.
  induction s as [|c s IH]; [by simpl; destruct (sh_read false t)|].
  cbn [replace_char]. rewrite string_app_assoc. unfold is_char at 1.
  destruct (Ascii.eqb_spec "'" c) as [<-|Hne].
  - simpl. rewrite IH. by destruct (sh_read false t).
  - cbn [String.append sh_read]. unfold is_char at 1. rewrite (proj2 (Ascii.eqb_neq _ _) Hne), IH. by destruct (sh_read false t).
Qed.

(** A path quoted with [shellSingleQuote] is read back by the shell as exactly that path:
    nothing in it is expanded and no quote is left open, whatever characters it has. *)
Theorem shellSingleQuote_literal s : sh_read false (shellSingleQuote s) = Some s.
Proof.
  unfold shellSingleQuote. simpl.
  rewrite (sh_read_quoted s ""). simpl. by rewrite string_app_nil_r.
Qed.

(** ** Module order *)

Definition softdep_line (ab : string * string) : string := "softdep " +:+ ab.1 +:+ " pre: " +:+ ab.2.

Definition no_newline (s : string) : bool := string_forallb (λ c, negb (is_char "010" c)) s.

(** The softdep file of a loading order has one line per adjacent pair, in order, each
    making a module depend on its successor. *)
Theorem softdep_lines order :
  Forall (λ s, no_newline s = true) order →
  split_on (is_char "010") (getModulesOrderAnnotationValue order) =
  (softdep_line <$> zip order (tail order)) ++ [""].
Proof.
  intros Hl. induction Hl as [|a [|b l] Ha Hl IH]; [done|done|].
  cbn [getModulesOrderAnnotationValue zip_with tail fmap list_fmap app].
  replace (_ +:+ _) with (softdep_line (a, b) +:+ String "010" (getModulesOrderAnnotationValue (b :: l))).
  2:{ unfold softdep_line. simpl. by rewrite !string_app_assoc. }
  rewrite split_on_app by done. rewrite IH.
  rewrite split_on_none; [done|]. unfold softdep_line.
  apply Forall_cons in Hl as [Hb _]. unfold no_newline in *. cbn [fst snd].
  by rewrite !string_forallb_app, Ha, Hb.
Qed.

Lemma softdep_lines_witness :
  split_on (is_char "010") (getModulesOrderAnnotationValue ["a"; "b"; "c"]) =
  ["softdep a pre: b"; "softdep b pre: c"; ""].
Proof. rewrite softdep_lines by (repeat constructor). reflexivity. Defined.

(** ** Names *)

(** The name of a worker pod does not determine the node and the module: dashes are
    ordinary characters of both. *)
Theorem WorkerPodName_ambiguous node part rest :
  WorkerPodName (node +:+ "-" +:+ part) rest = WorkerPodName node (part +:+ "-" +:+ rest).
Proof. unfold WorkerPodName. by rewrite !string_app_assoc. Qed.

(** ** Examples *)

Definition demo_worker_cfg : WorkerConfig :=
  {| wc_RunAsUser := Some 0%Z; wc_SELinuxType := "spc_t"; wc_FirmwareHostPath := Some "/var/lib/firmware" |}.

Definition demo_loader_pod : Pod :=
  Eval vm_compute in
  match LoaderPodTemplate demo_worker_cfg "worker:v1" (demo_nmc "node-a" []) demo_spec with
  | Ok p => p
  | Err _ => worker_pod_literal "" "" demo_item demo_config
  end.

Definition demo_unloader_pod : Pod :=
  Eval vm_compute in
  match UnloaderPodTemplate demo_worker_cfg "worker:v1" (demo_nmc "node-a" []) demo_status with
  | Ok p => p
  | Err _ => worker_pod_literal "" "" demo_item demo_config
  end.

Lemma LoaderPodTemplate_spec_witness :
  LoaderPodTemplate demo_worker_cfg "worker:v1" (demo_nmc "node-a" []) demo_spec = Ok demo_loader_pod ∧
  IsLoaderPod (Some demo_loader_pod) = true.
Proof.
  assert (LoaderPodTemplate demo_worker_cfg "worker:v1" (demo_nmc "node-a" []) demo_spec
          = Ok demo_loader_pod) as H by (vm_compute; reflexivity).
  split; [exact H|].
  destruct (LoaderPodTemplate_spec demo_worker_cfg "worker:v1" _ _ _ H) as (_ & Hl & _). exact Hl.
Defined.
