(* ===== verification/NmcReconciler.v ===== *)
(** * The NodeModulesConfig reconciler ([internal/controllers/nmc_reconciler.go])

    One reconciliation of the NodeModulesConfig of a node: the status is brought up to date
    from the worker pods, each module of the spec and each orphan status is processed, labels
    and pods are garbage collected and the node's labels updated.  The object [nmcObj] is
    passed by pointer, so a step that changes it returns the changed value. *)

From S2P Require Import Prelude Types Kube GoStrings Externals Demo Labels NmcHelper Node WorkerPod.

Open Scope string_scope.
Open Scope nat_scope.
Open Scope list_scope.

(** [GetContainerStatus(statuses, name)]: the zero status when there is none. *)
Definition GetContainerStatus (statuses : list ContainerStatus) (name : string) : ContainerStatus :=
  default {| cs_Name := ""; cs_RestartCount := 0; cs_WaitingReason := None |}
    (find_first (λ s, String.eqb (cs_Name s) name) statuses).

Definition worker_restarts (p : Pod) : Z :=
  cs_RestartCount (GetContainerStatus (pst_ContainerStatuses (pod_status p)) WorkerContainerName).

Section nmc_reconciler.
Context `{EXT : Externals} (workerCfg : WorkerConfig) (workerImage : string).

(** ** Worker pods of one module *)

Definition ProcessModuleSpec (nmcObj : NodeModulesConfig) (spec : NodeModuleSpec) (status : option NodeModuleStatus) (node : Node) : prog (option error) :=
  let podName := WorkerPodName (nmc_Name nmcObj) (mi_Name (nms_item spec)) in
  r ← GetWorkerPod podName (mi_Namespace (nms_item spec));
  match r with
  | Err e => mret (Some (Errorf_v "could not get the worker Pod %s: %v" e))
  | Ok None =>
      match status with
      | None => CreateLoaderPod workerCfg workerImage nmcObj spec
      | Some st =>
          if bool_decide (nms_Config spec ≠ nmst_Config st) then
            if String.eqb (mc_KernelVersion (nms_Config spec)) (mc_KernelVersion (nmst_Config st))
            then CreateUnloaderPod workerCfg workerImage nmcObj st
            else CreateLoaderPod workerCfg workerImage nmcObj spec
          else if IsNodeRebooted node (nmst_BootId st)
          then CreateLoaderPod workerCfg workerImage nmcObj spec
          else mret None
      end
  | Ok (Some p) =>
      if negb (IsLoaderPod (Some p)) then mret None
      else if (worker_restarts p =? 0)%Z then mret None
      else match LoaderPodTemplate workerCfg workerImage nmcObj spec with
           | Err e => mret (Some (Errorf_v "could not create the Pod template for %s: %v" e))
           | Ok podTemplate =>
               if HashAnnotationDiffer (Some podTemplate) (Some p) then DeletePod p else mret None
           end
  end.

Definition ProcessUnconfiguredModuleStatus (nmcObj : NodeModulesConfig) (status : NodeModuleStatus) (node : Node) : prog (NodeModulesConfig * option error) :=
  let podName := WorkerPodName (nmc_Name nmcObj) (mi_Name (nmst_item status)) in
  if IsNodeRebooted node (nmst_BootId status) then
    status_patch KNMC nmcObj
      (nmc_set_status nmcObj
         (RemoveModuleStatus (nmc_status_Modules nmcObj)
            (mi_Namespace (nmst_item status)) (mi_Name (nmst_item status))))
  else
    r ← GetWorkerPod podName (mi_Namespace (nmst_item status));
    err ← (match r with
           | Err e => mret (Some (Errorf_v "error while getting the worker Pod %s: %v" e))
           | Ok None => CreateUnloaderPod workerCfg workerImage nmcObj status
           | Ok (Some p) =>
               if IsLoaderPod (Some p) then DeletePod p
               else if (worker_restarts p =? 0)%Z then mret None
               else match UnloaderPodTemplate workerCfg workerImage nmcObj status with
                    | Err e => mret (Some (Errorf_v "could not create the Pod template for %s: %v" e))
                    | Ok podTemplate =>
                        if HashAnnotationDiffer (Some podTemplate) (Some p) then DeletePod p else mret None
                    end
           end);
    mret (nmcObj, err).

(** ** Garbage collection *)

Definition GarbageCollectWorkerPods (nmcObj : NodeModulesConfig) : prog (option error) :=
  r ← ListWorkerPodsOnNode (nmc_Name nmcObj);
  match r with
  | Err e => mret (Some (Errorf_v "could not list worker Pods: %v" e))
  | Ok podsList =>
      let modulePresentInNMC : gset string :=
        list_to_set ((λ s, mi_Name (nms_item s)) <$> nmc_spec_Modules nmcObj) ∪
        list_to_set ((λ s, mi_Name (nmst_item s)) <$> nmc_status_Modules nmcObj) in
      errs ← for_range podsList (λ workerPod errs,
        let podModuleName := map_get (pod_Labels workerPod) constants.ModuleNameLabel in
        if bool_decide (podModuleName ∈ modulePresentInNMC) then mret errs
        else
          let fins := om_Finalizers (pod_meta workerPod) in
          '(workerPod, errs) ←
            (if RemoveFinalizer_updated fins NodeModulesConfigFinalizer then
               '(p, err) ← patch KPod workerPod
                             (pod_set_finalizers workerPod (RemoveFinalizer fins NodeModulesConfigFinalizer));
               mret (p, match err with
                        | Some e => errs ++ [Some (Errorf_v "could not patch Pod %s/%s: %v" e)]
                        | None => errs
                        end)
             else mret (workerPod, errs));
          err ← DeletePod workerPod;
          mret (match err with
                | Some e => errs ++ [Some (Errorf_v "could not delete pod %s: %v" e)]
                | None => errs
                end)) [];
      mret (errors_Join errs)
  end.

Definition GarbageCollectInUseLabels (nmcObj : NodeModulesConfig) : prog (NodeModulesConfig * option error) :=
  let labelSet : gset string := filter (λ k, (IsModuleInUseLabel k).1.1 = true) (dom (nmc_Labels nmcObj)) in
  let desiredSet : gset string :=
    list_to_set ((λ s, ModuleInUseLabel (mi_Namespace (nms_item s)) (mi_Name (nms_item s))) <$> nmc_spec_Modules nmcObj) ∪
    list_to_set ((λ s, ModuleInUseLabel (mi_Namespace (nmst_item s)) (mi_Name (nmst_item s))) <$> nmc_status_Modules nmcObj) in
  r ← ListWorkerPodsOnNode (nmc_Name nmcObj);
  match r with
  | Err e => mret (nmcObj, Some (Errorf_v "could not list worker Pods: %v" e))
  | Ok podList =>
      let desiredSet := desiredSet ∪
        list_to_set ((λ p, ModuleInUseLabel (pod_Name p) (map_get (pod_Labels p) constants.ModuleNameLabel)) <$> podList) in
      let diff := labelSet ∖ desiredSet in
      if bool_decide (diff = ∅) then mret (nmcObj, None)
      else
        let labels := foldl (λ m k, delete k m) (nmc_Labels nmcObj) (range_set diff) in
        patch KNMC nmcObj (nmc_set_labels nmcObj labels)
  end.

Definition RemovePodFinalizers (nodeName : string) : prog (option error) :=
  r ← ListWorkerPodsOnNode nodeName;
  match r with
  | Err e => mret (Some (Errorf_v "could not delete orphan worker Pods on node %s: %v" e))
  | Ok pods =>
      errs ← for_range pods (λ p errs,
        let fins := om_Finalizers (pod_meta p) in
        if RemoveFinalizer_updated fins NodeModulesConfigFinalizer then
          '(_, err) ← patch KPod p (pod_set_finalizers p (RemoveFinalizer fins NodeModulesConfigFinalizer));
          mret (match err with
                | Some e => errs ++ [Some (Errorf_v "could not patch Pod %s/%s: %v" e)]
                | None => errs
                end)
        else mret errs) [];
      mret (errors_Join errs)
  end.

(** ** Status *)

(** [&kmmv1beta1.NodeModuleStatus{...}] for a module seen for the first time. *)
Definition new_status (ns name : string) : NodeModuleStatus :=
  {| nmst_item := {| mi_ImageRepoSecret := None; mi_Name := name; mi_Namespace := ns;
                     mi_ServiceAccountName := ""; mi_Tolerations := []; mi_Version := "" |};
     nmst_Config := empty_config; nmst_BootId := "" |}.

Definition status_with_config (s : NodeModuleStatus) (c : ModuleConfig) : NodeModuleStatus :=
  {| nmst_item := nmst_item s; nmst_Config := c; nmst_BootId := nmst_BootId s |}.

Definition status_with_tolerations (s : NodeModuleStatus) (t : list Toleration) : NodeModuleStatus :=
  let i := nmst_item s in
  {| nmst_item := {| mi_ImageRepoSecret := mi_ImageRepoSecret i; mi_Name := mi_Name i;
                     mi_Namespace := mi_Namespace i; mi_ServiceAccountName := mi_ServiceAccountName i;
                     mi_Tolerations := t; mi_Version := mi_Version i |};
     nmst_Config := nmst_Config s; nmst_BootId := nmst_BootId s |}.

(** The last assignments: secret, service account, boot id and version. *)
Definition status_from_pod (p : Pod) (node : Node) (s : NodeModuleStatus) : NodeModuleStatus :=
  let i := nmst_item s in
  {| nmst_item :=
       {| mi_ImageRepoSecret := match ps_ImagePullSecrets (pod_spec p) with
                                | sec :: _ => Some sec
                                | [] => mi_ImageRepoSecret i
                                end;
          mi_Name := mi_Name i; mi_Namespace := mi_Namespace i;
          mi_ServiceAccountName := ps_ServiceAccountName (pod_spec p);
          mi_Tolerations := mi_Tolerations i;
          mi_Version := GetModuleVersionAnnotation (Some p) |};
     nmst_Config := nmst_Config s;
     nmst_BootId := ni_BootID (node_NodeInfo node) |}.

(** Assignments through a status pointer: it aliases the slice entry when one was found, and
    is a fresh value otherwise. *)
Definition write_back (found : option NodeModuleStatus) (s : NodeModuleStatus) (statuses : list NodeModuleStatus) : list NodeModuleStatus :=
  match found with
  | Some _ => SetModuleStatus statuses s
  | None => statuses
  end.

Record sync_state := {
  sy_statuses : list NodeModuleStatus;
  sy_errs : list (option error);
  sy_podsToDelete : list Pod;
}.

(** The body of the loop over the worker pods. *)
Definition sync_pod (specEntries : gset NamespacedName) (node : Node) (st : sync_state) (p : Pod) : sync_state :=
  let modNamespace := pod_Namespace p in
  let modName := map_get (pod_Labels p) constants.ModuleNameLabel in
  let found := FindModuleStatus (sy_statuses st) modNamespace modName in
  let delete_it statuses :=
    {| sy_statuses := statuses; sy_errs := sy_errs st; sy_podsToDelete := sy_podsToDelete st ++ [p] |} in
  match pod_Phase p with
  | PodRunning =>
      if bool_decide (nsn modNamespace modName ∉ specEntries) && bool_decide (found = None)
      then delete_it (sy_statuses st) else st
  | PodFailed => delete_it (sy_statuses st)
  | PodSucceeded =>
      if IsUnloaderPod (Some p)
      then delete_it (RemoveModuleStatus (sy_statuses st) modNamespace modName)
      else
        let status := default (new_status modNamespace modName) found in
        let fail status e :=
          {| sy_statuses := write_back found status (sy_statuses st);
             sy_errs := sy_errs st ++ [Some (Errorf_v "%s: could not unmarshal the ModuleConfig from YAML: %v" e)];
             sy_podsToDelete := sy_podsToDelete st |} in
        let '(cfg, err) := yaml_UnmarshalStrict_config (GetConfigAnnotation (Some p)) (nmst_Config status) in
        let status := status_with_config status cfg in
        match err with
        | Some e => fail status e
        | None =>
            let '(tols, err) := yaml_UnmarshalStrict_tolerations (GetTolerationsAnnotation (Some p))
                                  (mi_Tolerations (nmst_item status)) in
            let status := status_with_tolerations status tols in
            match err with
            | Some e => fail status e
            | None => delete_it (SetModuleStatus (sy_statuses st) (status_from_pod p node status))
            end
        end
  | _ => st
  end.

Definition sync_loop (nmcObj : NodeModulesConfig) (node : Node) (pods : list Pod) : sync_state :=
  let specEntries := list_to_set (nms_key <$> nmc_spec_Modules nmcObj) in
  foldl (sync_pod specEntries node)
    {| sy_statuses := nmc_status_Modules nmcObj; sy_errs := []; sy_podsToDelete := [] |} pods.

Definition SyncStatus (nmcObj : NodeModulesConfig) (node : Node) : prog (NodeModulesConfig * option error) :=
  r ← ListWorkerPodsOnNode (nmc_Name nmcObj);
  match r with
  | Err e => mret (nmcObj, Some (Errorf_v "could not list worker pods for NodeModulesConfig %s: %v" e))
  | Ok [] => mret (nmcObj, None)
  | Ok pods =>
      let st := sync_loop nmcObj node pods in
      '(nmcObj', err) ← status_patch KNMC nmcObj (nmc_set_status nmcObj (sy_statuses st));
      match errors_Join (sy_errs st ++ [err]) with
      | Some e => mret (nmcObj', Some (Errorf_v "encountered errors while reconciling NMC %s status: %v" e))
      | None =>
          errs ← for_range (sy_podsToDelete st) (λ p errs, err ← DeletePod p; mret (errs ++ [err])) [];
          mret (nmcObj', errors_Join errs)
      end
  end.

(** ** Node labels *)

Definition getNodeKernelModuleReadyLabels (node : Node) : gset NamespacedName :=
  list_to_set (omap (λ label,
    match IsKernelModuleReadyNodeLabel label with
    | (true, namespace, name) => Some (nsn namespace name)
    | _ => None
    end) (map_to_list (node_Labels node)).*1).

Definition getDeprecatedKernelModuleReadyLabels (node : Node) : labels_t :=
  filter (λ kv, IsDeprecatedKernelModuleReadyNodeLabel kv.1 = true) (node_Labels node).

(** A later entry overwrites an earlier one. *)
Definition getSpecLabelsAndTheirConfigs (n : NodeModulesConfig) : gmap NamespacedName ModuleConfig :=
  foldl (λ m s, <[nms_key s := nms_Config s]> m) ∅ (nmc_spec_Modules n).

Definition getStatusLabelsAndTheirConfigs (n : NodeModulesConfig) : gmap NamespacedName ModuleConfig :=
  foldl (λ m s, <[nmst_key s := nmst_Config s]> m) ∅ (nmc_status_Modules n).

Definition getStatusVersions (n : NodeModulesConfig) : gmap NamespacedName string :=
  foldl (λ m s, if String.eqb (mi_Version (nmst_item s)) "" then m
                else <[nmst_key s := mi_Version (nmst_item s)]> m) ∅ (nmc_status_Modules n).

Definition removeOrphanedLabels (nodeModuleReadyLabels : gset NamespacedName) (specLabels statusLabels : gmap NamespacedName ModuleConfig) : list NamespacedName :=
  filter (λ x, specLabels !! x = None ∧ statusLabels !! x = None) (range_set nodeModuleReadyLabels).

Definition addEqualLabels (nodeModuleReadyLabels : gset NamespacedName) (specLabels statusLabels : gmap NamespacedName ModuleConfig) : list NamespacedName :=
  fst <$> filter (λ kc, statusLabels !! kc.1 = Some kc.2 ∧ kc.1 ∉ nodeModuleReadyLabels) (range_map specLabels).

Definition ready_label (x : NamespacedName) : string :=
  GetKernelModuleReadyNodeLabel (nsn_Namespace x) (nsn_Name x).
Definition version_ready_label (x : NamespacedName) : string :=
  GetKernelModuleVersionReadyNodeLabel (nsn_Namespace x) (nsn_Name x).

Definition UpdateNodeLabels (n : NodeModulesConfig) (node : Node) : prog (Node * result (list NamespacedName * list NamespacedName)) :=
  let nodeModuleReadyLabels := getNodeKernelModuleReadyLabels node in
  let deprecated := getDeprecatedKernelModuleReadyLabels node in
  let specLabels := getSpecLabelsAndTheirConfigs n in
  let statusLabels := getStatusLabelsAndTheirConfigs n in
  let statusVersions := getStatusVersions n in
  let nsnLabelsToBeRemoved := removeOrphanedLabels nodeModuleReadyLabels specLabels statusLabels in
  let nsnLabelsToBeLoaded := addEqualLabels nodeModuleReadyLabels specLabels statusLabels in
  let unloadedLabels :=
    foldl (λ m x, <[version_ready_label x := ""]> (<[ready_label x := ""]> m)) deprecated nsnLabelsToBeRemoved in
  let loadedLabels :=
    foldl (λ m x, let m := <[ready_label x := ""]> m in
                  match statusVersions !! x with
                  | Some version => <[version_ready_label x := version]> m
                  | None => m
                  end) (∅ : labels_t) nsnLabelsToBeLoaded in
  '(node, err) ← UpdateLabels node loadedLabels unloadedLabels;
  mret (node, match err with
              | Some e => Err (Errorf_v "could not update labels on the node: %v" e)
              | None => Ok (nsnLabelsToBeLoaded, nsnLabelsToBeRemoved)
              end).

Definition nsn_String (x : NamespacedName) : string := nsn_Namespace x +:+ "/" +:+ nsn_Name x.

Definition record_event (on : NamespacedName) (reason : string) (args : list string) : prog () :=
  Call (RecordEvent on reason args) (λ _, Ret ()).

Definition RecordEvents (node : Node) (loadedModules unloadedModules : list NamespacedName) : prog () :=
  let key := nsn "" (node_Name node) in
  for_range loadedModules (λ x _, record_event key "ModuleLoaded" [nsn_String x]) ();;
  for_range unloadedModules (λ x _, record_event key "ModuleUnloaded" [nsn_String x]) ().

(** ** Reconcile *)

Definition module_key (i : ModuleItem) : string := mi_Namespace i +:+ "/" +:+ mi_Name i.

Record reconcile_state := {
  rs_statusMap : gmap string NodeModuleStatus;
  rs_errs : list (option error);
  rs_readyLabelsToRemove : labels_t;
}.

(** One iteration of the loop over the modules of the spec. *)
Definition reconcile_spec (nmcObj : NodeModulesConfig) (node : Node) (mod_ : NodeModuleSpec) (st : reconcile_state) : prog reconcile_state :=
  let i := nms_item mod_ in
  let key := module_key i in
  let statusMap := delete key (rs_statusMap st) in
  if negb (IsNodeSchedulable node (mi_Tolerations i)) then
    mret {| rs_statusMap := statusMap; rs_errs := rs_errs st;
            rs_readyLabelsToRemove :=
              <[GetKernelModuleVersionReadyNodeLabel (mi_Namespace i) (mi_Name i) := ""]>
                (<[GetKernelModuleReadyNodeLabel (mi_Namespace i) (mi_Name i) := ""]>
                   (rs_readyLabelsToRemove st)) |}
  else
    err ← ProcessModuleSpec nmcObj mod_ (rs_statusMap st !! key) node;
    mret {| rs_statusMap := statusMap;
            rs_errs := match err with
                       | Some e => rs_errs st ++ [Some (Errorf_v "error processing Module %s: %v" e)]
                       | None => rs_errs st
                       end;
            rs_readyLabelsToRemove := rs_readyLabelsToRemove st |}.

(** One iteration of the loop over the orphan statuses. *)
Definition reconcile_orphan (node : Node) (ks : string * NodeModuleStatus) (st : NodeModulesConfig * list (option error)) : prog (NodeModulesConfig * list (option error)) :=
  let '(nmcObj, errs) := st in
  '(nmcObj, err) ← ProcessUnconfiguredModuleStatus nmcObj ks.2 node;
  mret (nmcObj, match err with
                | Some e => errs ++ [Some (Errorf_v "error processing orphan status for Module %s: %v" e)]
                | None => errs
                end).

Definition build_statusMap (statuses : list NodeModuleStatus) : gmap string NodeModuleStatus :=
  foldl (λ m s, <[module_key (nmst_item s) := s]> m) ∅ statuses.

(** What follows the two loops when no ready label has to be removed. *)
Definition reconcile_finish (nmcObj : NodeModulesConfig) (node : Node) (errs : list (option error)) : prog (option error) :=
  '(nmcObj, err) ← GarbageCollectInUseLabels nmcObj;
  let errs := match err with
              | Some e => errs ++ [Some (Errorf_v "failed to GC in-use labels for NMC %s: %v" e)]
              | None => errs end in
  err ← GarbageCollectWorkerPods nmcObj;
  let errs := match err with
              | Some e => errs ++ [Some (Errorf_v "failed to GC orphan worker pods for NMC %s: %v" e)]
              | None => errs end in
  '(node, r) ← UpdateNodeLabels nmcObj node;
  match r with
  | Err e => mret (errors_Join (errs ++ [Some (Errorf_v "could not update node's labels for NMC %s: %v" e)]))
  | Ok (loaded, unloaded) => RecordEvents node loaded unloaded;; mret (errors_Join errs)
  end.

(** The part of [Reconcile] after the status was synchronised. *)
Definition reconcile_modules (nmcObj : NodeModulesConfig) (node : Node) : prog (option error) :=
  st ← for_range (nmc_spec_Modules nmcObj) (reconcile_spec nmcObj node)
         {| rs_statusMap := build_statusMap (nmc_status_Modules nmcObj); rs_errs := [];
            rs_readyLabelsToRemove := ∅ |};
  '(nmcObj, errs) ← for_range (range_map (rs_statusMap st)) (reconcile_orphan node) (nmcObj, rs_errs st);
  if bool_decide (rs_readyLabelsToRemove st ≠ ∅) then
    '(_, err) ← UpdateLabels node ∅ (rs_readyLabelsToRemove st);
    mret (wrap_err "could remove node %s labels: %v" err)
  else reconcile_finish nmcObj node errs.

Definition NMC_Reconcile (req : NamespacedName) : prog (option error) :=
  r ← get KNMC req;
  match r with
  | Err e =>
      if IsNotFound e then
        err ← RemovePodFinalizers (nsn_Name req);
        mret (wrap_err "could not clear all Pod finalizers for NMC %s: %v" err)
      else mret (Some (Errorf_v "could not get NodeModuleState %s: %v" e))
  | Ok nmcObj =>
      r ← get KNode (nsn "" (nmc_Name nmcObj));
      match r with
      | Err e => mret (Some (Errorf_v "could not get node %s: %v" e))
      | Ok node =>
          '(nmcObj, err) ← SyncStatus nmcObj node;
          match err with
          | Some e => mret (Some (Errorf_v "could not reconcile status for NodeModulesConfig %s: %v" e))
          | None => reconcile_modules nmcObj node
          end
      end
  end.
End nmc_reconciler.
