(* ===== verification/NmcProps.v ===== *)
(** * Properties of the NodeModulesConfig reconciler

    The decision the reconciler takes for a module is stated as a relation between what it
    sees (spec, status, node, worker pod) and what it does; the handlers are shown to refine
    it for every answer of the API server.  Then: the status is saved before a pod is
    removed, a successful load is recorded so that the module is settled, the labels that are
    collected, and the scope of one reconciliation. *)

From S2P Require Import Prelude Types Kube GoStrings Externals Demo Labels NmcHelper Node WorkerPod NmcReconciler.

Open Scope string_scope.
Open Scope nat_scope.
Open Scope list_scope.

(** ** Intents *)

Inductive intent :=
| Nothing
| Blocked
| Load
| Unload (st : NodeModuleStatus)
| Replace (p : Pod).

(** What the intents are read off: the action a pod was made for, how often its worker container
    was restarted, and the hash of the template it was made from. *)
Definition loader_pod (p : Pod) : Prop := map_get (pod_Labels p) actionLabelKey = workerActionLoad.

Definition restarts (p : Pod) (n : Z) : Prop :=
  match find_first (λ s, String.eqb (cs_Name s) WorkerContainerName) (pst_ContainerStatuses (pod_status p)) with
  | Some s => cs_RestartCount s = n
  | None => n = 0%Z
  end.

Definition template_hash (p : Pod) : string := map_get (pod_Annotations p) hashAnnotationKey.

Lemma loader_pod_reflect p : reflect (loader_pod p) (IsLoaderPod (Some p)).
Proof. apply iff_reflect. symmetry. apply String.eqb_eq. Qed.

Lemma worker_restarts_spec p n : worker_restarts p = n ↔ restarts p n.
Proof. unfold worker_restarts, restarts, GetContainerStatus. destruct (find_first _ _); simpl; naive_solver. Qed.

Lemma hash_reflect t p : reflect (template_hash t ≠ template_hash p) (HashAnnotationDiffer (Some t) (Some p)).
Proof.
  apply iff_reflect. unfold HashAnnotationDiffer. rewrite negb_true_iff. fold (template_hash t) (template_hash p).
  by destruct (String.eqb_spec (template_hash t) (template_hash p)).
Qed.

Section intents.
Context `{EXT : Externals} (workerCfg : WorkerConfig) (workerImage : string).
Implicit Types (nmcObj : NodeModulesConfig) (spec : NodeModuleSpec) (status : option NodeModuleStatus).

(** What a worker pod that does the work it is there for needs, given the template it would be made
    from now: a pod that keeps failing and comes from another template is replaced. *)
Inductive pod_intent (template : result Pod) (p : Pod) : intent → Prop :=
| pi_working : restarts p 0 → pod_intent template p Nothing
| pi_no_template e : ¬ restarts p 0 → template = Err e → pod_intent template p Blocked
| pi_current t : ¬ restarts p 0 → template = Ok t → template_hash t = template_hash p → pod_intent template p Nothing
| pi_stale t : ¬ restarts p 0 → template = Ok t → template_hash t ≠ template_hash p → pod_intent template p (Replace p).

(** What a module of the spec needs, given its worker pod. *)
Inductive spec_intent (nmcObj : NodeModulesConfig) (spec : NodeModuleSpec) (node : Node) : option NodeModuleStatus → option Pod → intent → Prop :=
| si_new : spec_intent nmcObj spec node None None Load
| si_outdated st :
    nms_Config spec ≠ nmst_Config st →
    mc_KernelVersion (nms_Config spec) = mc_KernelVersion (nmst_Config st) →
    spec_intent nmcObj spec node (Some st) None (Unload st)
| si_upgraded st :
    mc_KernelVersion (nms_Config spec) ≠ mc_KernelVersion (nmst_Config st) →
    spec_intent nmcObj spec node (Some st) None Load
| si_rebooted st :
    nms_Config spec = nmst_Config st → rebooted node (nmst_BootId st) →
    spec_intent nmcObj spec node (Some st) None Load
| si_settled st :
    nms_Config spec = nmst_Config st → ¬ rebooted node (nmst_BootId st) →
    spec_intent nmcObj spec node (Some st) None Nothing
| si_unloading status p : ¬ loader_pod p → spec_intent nmcObj spec node status (Some p) Nothing
| si_loading status p i :
    loader_pod p → pod_intent (LoaderPodTemplate workerCfg workerImage nmcObj spec) p i →
    spec_intent nmcObj spec node status (Some p) i.

(** What a status without a spec entry needs. *)
Inductive orphan_intent (nmcObj : NodeModulesConfig) (st : NodeModuleStatus) (node : Node) : option Pod → intent → Prop :=
| oi_missing : orphan_intent nmcObj st node None (Unload st)
| oi_loading p : loader_pod p → orphan_intent nmcObj st node (Some p) (Replace p)
| oi_unloading p i :
    ¬ loader_pod p → pod_intent (UnloaderPodTemplate workerCfg workerImage nmcObj st) p i →
    orphan_intent nmcObj st node (Some p) i.

(** A pod made from a template that may not exist: one creation, whose outcome is reported. *)
Definition creates (template : result Pod) (tr : list obs) (r : option error) : Prop :=
  match template with
  | Ok p => ∃ x, tr = [Obs (Create KPod p) x] ∧ (r = None ↔ is_ok x = true)
  | Err _ => tr = [] ∧ is_Some r
  end.

(** A pod is replaced by dropping the controller's finalizer and, when that succeeded and the pod
    is not going away already, deleting it as the server answered it; one that is gone by
    then counts as deleted. *)
Definition replaces (p : Pod) (tr : list obs) (r : option error) : Prop :=
  ∃ x rest,
    tr = Obs (Patch KPod p (pod_set_finalizers p (RemoveFinalizer (om_Finalizers (pod_meta p)) NodeModulesConfigFinalizer)) false) x :: rest ∧
    match x with
    | Err _ => rest = [] ∧ is_Some r
    | Ok q =>
        match om_DeletionTimestamp (pod_meta q) with
        | Some _ => rest = [] ∧ r = None
        | None => ∃ y, rest = [Obs (Delete KPod q) y] ∧ (r = None ↔ IgnoreNotFound (err_of y) = None)
        end
    end.

(** The run that carries out an intent. *)
Definition carries_out (nmcObj : NodeModulesConfig) (spec : option NodeModuleSpec) (i : intent) (tr : list obs) (r : option error) : Prop :=
  match i with
  | Nothing => tr = [] ∧ r = None
  | Blocked => tr = [] ∧ is_Some r
  | Load => ∃ s, spec = Some s ∧ creates (LoaderPodTemplate workerCfg workerImage nmcObj s) tr r
  | Unload st => creates (UnloaderPodTemplate workerCfg workerImage nmcObj st) tr r
  | Replace p => replaces p tr r
  end.

Definition pod_key (nmcObj : NodeModulesConfig) (i : ModuleItem) : NamespacedName :=
  nsn (mi_Namespace i) (WorkerPodName (nmc_Name nmcObj) (mi_Name i)).

(** What the lookup of a pod answered: a pod, no pod, or a failure. *)
Definition pod_answer (a : result Pod) : result (option Pod) :=
  match a with
  | Ok p => Ok (Some p)
  | Err e => if IsNotFound e then Ok None else Err e
  end.

Lemma wp_GetWorkerPod name ns (Q : list obs → result (option Pod) → Prop) :
  (∀ a : result Pod, Q [Obs (Get KPod (nsn ns name)) a]
     (match pod_answer a with
      | Ok o => Ok o
      | Err e => Err (Errorf_v "could not get pod %s: %v" e)
      end)) →
  wp (GetWorkerPod name ns) Q.
Proof.
  intros H a. simpl. specialize (H a). unfold pod_answer in H.
  destruct a as [p|e]; [exact H|]. simpl. destruct (IsNotFound e); exact H.
Qed.

Lemma wp_create_pod o (Q : list obs → option error → Prop) :
  (∀ a : result Pod, Q [Obs (Create KPod o) a] (err_of a)) → wp (create KPod o) Q.
Proof. intros H a. apply H. Qed.

Lemma wp_DeletePod p (Q : list obs → option error → Prop) :
  (∀ tr r, replaces p tr r → Q tr r) → wp (DeletePod p) Q.
Proof.
  intros H. unfold DeletePod, patch. simpl. intros [q|e]; simpl; [|apply H; by eexists _, []].
  unfold deletePod. destruct (om_DeletionTimestamp (pod_meta q)) eqn:Ed; simpl.
  - apply H. eexists _, []. split; [done|]. simpl. by rewrite Ed.
  - intros a. apply H. eexists _, _. split; [done|]. simpl. rewrite Ed. eexists. split; [done|].
    destruct a as [|e]; simpl; [done|]. by destruct (IsNotFound e).
Qed.

Lemma wp_creates (template : result Pod) (f : error → error) (Q : list obs → option error → Prop) :
  (∀ tr r, creates template tr r → Q tr r) →
  wp (match template with Err e => mret (Some (f e)) | Ok p => create KPod p end) Q.
Proof.
  intros H. destruct template as [p|e].
  - apply wp_create_pod. intros a. apply H. eexists. split; [done|]. by destruct a.
  - apply H. by split; [|eexists].
Qed.

Lemma wp_CreateLoaderPod nmcObj spec (Q : list obs → option error → Prop) :
  (∀ tr r, carries_out nmcObj (Some spec) Load tr r → Q tr r) →
  wp (CreateLoaderPod workerCfg workerImage nmcObj spec) Q.
Proof. intros H. apply (wp_creates _ (Errorf_v _)). intros tr r Hc. apply H. by exists spec. Qed.

Lemma wp_CreateUnloaderPod nmcObj st (Q : list obs → option error → Prop) :
  (∀ tr r, carries_out nmcObj None (Unload st) tr r → Q tr r) →
  wp (CreateUnloaderPod workerCfg workerImage nmcObj st) Q.
Proof. intros H. by apply (wp_creates _ (Errorf_v _)). Qed.

(** A pod that is there, as both handlers treat it. *)
Definition check_pod (template : result Pod) (p : Pod) : prog (option error) :=
  if (worker_restarts p =? 0)%Z then mret None
  else match template with
       | Err e => mret (Some (Errorf_v "could not create the Pod template for %s: %v" e))
       | Ok podTemplate => if HashAnnotationDiffer (Some podTemplate) (Some p) then DeletePod p else mret None
       end.

Lemma wp_check_pod nmcObj (spec : option NodeModuleSpec) template p (Q : list obs → option error → Prop) :
  (∀ i tr r, pod_intent template p i → carries_out nmcObj spec i tr r → Q tr r) → wp (check_pod template p) Q.
Proof.
  intros H. unfold check_pod. destruct (Z.eqb_spec (worker_restarts p) 0) as [E|E]; rewrite worker_restarts_spec in E.
  { by apply (H Nothing); [apply pi_working|]. }
  destruct template as [t|e] eqn:Et; [|by apply (H Blocked); [eapply pi_no_template|split; [|eexists]]].
  destruct (hash_reflect t p) as [Eh|Eh].
  - apply wp_DeletePod. intros tr r Hr. by apply (H (Replace p)); [eapply pi_stale|].
  - apply (H Nothing); [|done]. eapply pi_current; [done..|]. by destruct (decide (template_hash t = template_hash p)).
Qed.

Lemma ProcessModuleSpec_wp nmcObj spec status node :
  wp (ProcessModuleSpec workerCfg workerImage nmcObj spec status node) (λ tr r,
    ∃ a rest, tr = Obs (Get KPod (pod_key nmcObj (nms_item spec))) a :: rest ∧
    match pod_answer a with
    | Err _ => rest = [] ∧ is_Some r
    | Ok po => ∃ i, spec_intent nmcObj spec node status po i ∧ carries_out nmcObj (Some spec) i rest r
    end).
Proof.
  unfold ProcessModuleSpec. apply wp_bind, wp_GetWorkerPod. intros a.
  destruct (pod_answer a) as [[p|]|e] eqn:Ea; cbn [mbind].
  - destruct (loader_pod_reflect p) as [El|El]; simpl negb; cbv match;
      [|exists a, []; rewrite Ea; split; [done|]; exists Nothing; split; [by apply si_unloading|done]].
    fold (check_pod (LoaderPodTemplate workerCfg workerImage nmcObj spec) p). apply (wp_check_pod nmcObj (Some spec)).
    intros i tr r Hi Hc. exists a, tr. rewrite Ea. split; [done|]. exists i. split; [by apply si_loading|done].
  - assert (∀ i tr r, spec_intent nmcObj spec node status None i → carries_out nmcObj (Some spec) i tr r →
      ∃ a' rest, [Obs (Get KPod (pod_key nmcObj (nms_item spec))) a] ++ tr = Obs (Get KPod (pod_key nmcObj (nms_item spec))) a' :: rest ∧
        match pod_answer a' with
        | Err _ => rest = [] ∧ is_Some r
        | Ok po => ∃ i, spec_intent nmcObj spec node status po i ∧ carries_out nmcObj (Some spec) i rest r
        end) as Hfin.
    { intros i tr r Hi Hc. exists a, tr. rewrite Ea. split; [done|]. by exists i. }
    destruct status as [st|]; [|apply wp_CreateLoaderPod; intros tr r; apply Hfin; constructor].
    case_bool_decide as Hc.
    + destruct (String.eqb_spec (mc_KernelVersion (nms_Config spec)) (mc_KernelVersion (nmst_Config st))).
      * apply wp_CreateUnloaderPod. intros tr r H. apply (Hfin (Unload st)); [by constructor|exact H].
      * apply wp_CreateLoaderPod. intros tr r. apply Hfin. by constructor.
    + destruct (IsNodeRebooted_reflect node (nmst_BootId st)) as [Hb|Hb].
      * apply wp_CreateLoaderPod. intros tr r. apply Hfin. by constructor.
      * apply (Hfin Nothing []); [by constructor|done].
  - exists a, []. rewrite Ea. split; [done|]. eauto.
Qed.

Lemma pod_intent_unique template p i j : pod_intent template p i → pod_intent template p j → i = j.
Proof. intros Hi Hj. inversion Hi; subst; inversion Hj; subst; congruence. Qed.

Lemma intent_unique nmcObj spec node status po i j :
  spec_intent nmcObj spec node status po i → spec_intent nmcObj spec node status po j → i = j.
Proof.
  intros Hi Hj. inversion Hi; subst; inversion Hj; subst; try done; try congruence. by eapply pod_intent_unique.
Qed.

Lemma ProcessUnconfiguredModuleStatus_wp nmcObj st node :
  wp (ProcessUnconfiguredModuleStatus workerCfg workerImage nmcObj st node) (λ tr r,
    if IsNodeRebooted node (nmst_BootId st) then
      obs_call <$> tr =
        [StatusPatch KNMC nmcObj
           (nmc_set_status nmcObj (filter (λ s, nmst_key s ≠ nmst_key st) (nmc_status_Modules nmcObj)))]
    else
      r.1 = nmcObj ∧
      ∃ a rest, tr = Obs (Get KPod (pod_key nmcObj (nmst_item st))) a :: rest ∧
      match pod_answer a with
      | Err _ => rest = [] ∧ is_Some r.2
      | Ok po => ∃ i, orphan_intent nmcObj st node po i ∧ carries_out nmcObj None i rest r.2
      end).
Proof.
  unfold ProcessUnconfiguredModuleStatus. destruct (IsNodeRebooted _ _).
  { rewrite RemoveModuleStatus_filter. by intros [o|e]. }
  apply wp_bind, wp_GetWorkerPod. intros a. apply wp_bind.
  assert (∀ po i tr r, pod_answer a = Ok po → orphan_intent nmcObj st node po i → carries_out nmcObj None i tr r →
    nmcObj = nmcObj ∧ ∃ a' rest, [Obs (Get KPod (pod_key nmcObj (nmst_item st))) a] ++ tr ++ [] =
      Obs (Get KPod (pod_key nmcObj (nmst_item st))) a' :: rest ∧
      match pod_answer a' with
      | Err _ => rest = [] ∧ is_Some r
      | Ok po => ∃ i, orphan_intent nmcObj st node po i ∧ carries_out nmcObj None i rest r
      end) as Hfin.
  { intros po i tr r Ea Hi Hc. split; [done|]. exists a, tr. rewrite Ea, app_nil_r. split; [done|]. by exists i. }
  destruct (pod_answer a) as [[p|]|e] eqn:Ea.
  - destruct (loader_pod_reflect p) as [El|El].
    { apply wp_DeletePod. intros tr r H. by eapply Hfin; [|by apply oi_loading|]. }
    fold (check_pod (UnloaderPodTemplate workerCfg workerImage nmcObj st) p). apply (wp_check_pod nmcObj None).
    intros i tr r Hi Hc. by eapply Hfin; [|by eapply oi_unloading|].
  - apply wp_CreateUnloaderPod. intros tr r H. by eapply Hfin; [|constructor|].
  - split; [done|]. exists a, []. rewrite Ea. simpl. split; [done|]. eauto.
Qed.

Lemma orphan_intent_unique nmcObj st node po i j :
  orphan_intent nmcObj st node po i → orphan_intent nmcObj st node po j → i = j.
Proof.
  intros Hi Hj. inversion Hi; subst; inversion Hj; subst; try done. by eapply pod_intent_unique.
Qed.


(** For every answer of the API server, processing a status without a spec entry either
    drops the entry in one status patch, when the node was rebooted since the module was
    loaded, or looks the worker pod up and carries out the intent that status and pod
    determine: unload the module, remove a loader pod, or leave an unloader alone. *)
Theorem ProcessUnconfiguredModuleStatus_refines nmcObj st node :
  wp (ProcessUnconfiguredModuleStatus workerCfg workerImage nmcObj st node) (λ tr r,
    if IsNodeRebooted node (nmst_BootId st) then
      obs_call <$> tr =
        [StatusPatch KNMC nmcObj
           (nmc_set_status nmcObj (filter (λ s, nmst_key s ≠ nmst_key st) (nmc_status_Modules nmcObj)))]
    else
      ∃ a rest, tr = Obs (Get KPod (pod_key nmcObj (nmst_item st))) a :: rest ∧
      match pod_answer a with
      | Err _ => rest = [] ∧ is_Some r.2
      | Ok po => ∃ i, (∀ j, orphan_intent nmcObj st node po j ↔ j = i) ∧
                      carries_out nmcObj None i rest r.2
      end).
Proof.
  eapply wp_mono; [|apply ProcessUnconfiguredModuleStatus_wp]. intros tr r H.
  destruct (IsNodeRebooted _ _); [done|]. destruct H as (_ & a & rest & -> & H).
  exists a, rest. split; [done|]. destruct (pod_answer a); [|done].
  destruct H as (i & Hi & Hc). exists i. split; [|done]. intros j.
  split; [|by intros ->]. intros Hj. by eapply orphan_intent_unique.
Qed.
End intents.

(** ** Synchronising the status *)

Section sync.
Context `{EXT : Externals} (workerCfg : WorkerConfig) (workerImage : string).

(** The module a worker pod belongs to. *)
Definition pod_module (p : Pod) : NamespacedName :=
  nsn (pod_Namespace p) (map_get (pod_Labels p) constants.ModuleNameLabel).

Definition unloader_pod (p : Pod) : Prop := map_get (pod_Labels p) actionLabelKey = workerActionUnload.

Lemma unloader_pod_reflect p : reflect (unloader_pod p) (IsUnloaderPod (Some p)).
Proof. apply iff_reflect. symmetry. apply String.eqb_eq. Qed.

(** ** What the worker pods mean for the status

    The statuses are a map from modules to entries.  The entry of a module whose loader succeeded: *)
Definition loaded_entry (p : Pod) (node : Node) (old : option NodeModuleStatus) (c : ModuleConfig) (tols : list Toleration) : NodeModuleStatus :=
  {| nmst_item :=
       {| mi_ImageRepoSecret := match ps_ImagePullSecrets (pod_spec p) with
                                | sec :: _ => Some sec
                                | [] => old ≫= λ s, mi_ImageRepoSecret (nmst_item s)
                                end;
          mi_Name := map_get (pod_Labels p) constants.ModuleNameLabel; mi_Namespace := pod_Namespace p;
          mi_ServiceAccountName := ps_ServiceAccountName (pod_spec p); mi_Tolerations := tols;
          mi_Version := map_get (pod_Annotations p) moduleVersionAnnotationKey |};
     nmst_Config := c;
     nmst_BootId := ni_BootID (node_NodeInfo node) |}.

Inductive pod_fate := Stays | Goes | Unreadable.

(** What one pod does to the map, and its fate.  An unreadable annotation may leave its module's
    entry half decoded. *)
Inductive pod_effect (spec : list NamespacedName) (node : Node) (m : gmap NamespacedName NodeModuleStatus) (p : Pod) : gmap NamespacedName NodeModuleStatus → pod_fate → Prop :=
| pe_waiting :
    pod_Phase p ≠ PodRunning → pod_Phase p ≠ PodFailed → pod_Phase p ≠ PodSucceeded → pod_effect spec node m p m Stays
| pe_running :
    pod_Phase p = PodRunning → pod_module p ∈ spec ∨ is_Some (m !! pod_module p) → pod_effect spec node m p m Stays
| pe_orphan :
    pod_Phase p = PodRunning → pod_module p ∉ spec → m !! pod_module p = None → pod_effect spec node m p m Goes
| pe_failed : pod_Phase p = PodFailed → pod_effect spec node m p m Goes
| pe_unloaded :
    pod_Phase p = PodSucceeded → unloader_pod p → pod_effect spec node m p (delete (pod_module p) m) Goes
| pe_loaded c tols :
    pod_Phase p = PodSucceeded → ¬ unloader_pod p →
    yaml_UnmarshalStrict_config (map_get (pod_Annotations p) configAnnotationKey)
      (default empty_config (nmst_Config <$> m !! pod_module p)) = (c, None) →
    yaml_UnmarshalStrict_tolerations (map_get (pod_Annotations p) tolerationsAnnotationKey)
      (default [] ((λ s, mi_Tolerations (nmst_item s)) <$> m !! pod_module p)) = (tols, None) →
    pod_effect spec node m p (<[pod_module p := loaded_entry p node (m !! pod_module p) c tols]> m) Goes
| pe_unreadable m' :
    pod_Phase p = PodSucceeded → ¬ unloader_pod p →
    (∃ c e, yaml_UnmarshalStrict_config (map_get (pod_Annotations p) configAnnotationKey)
       (default empty_config (nmst_Config <$> m !! pod_module p)) = (c, Some e)) ∨
    (∃ tols e, yaml_UnmarshalStrict_tolerations (map_get (pod_Annotations p) tolerationsAnnotationKey)
       (default [] ((λ s, mi_Tolerations (nmst_item s)) <$> m !! pod_module p)) = (tols, Some e)) →
    (∀ k, k ≠ pod_module p → m' !! k = m !! k) → (is_Some (m' !! pod_module p) ↔ is_Some (m !! pod_module p)) →
    pod_effect spec node m p m' Unreadable.

Inductive pods_effect (spec : list NamespacedName) (node : Node) : gmap NamespacedName NodeModuleStatus → list Pod → gmap NamespacedName NodeModuleStatus → list (Pod * pod_fate) → Prop :=
| pes_nil m : pods_effect spec node m [] m []
| pes_snoc m pods m' fates p m'' f :
    pods_effect spec node m pods m' fates → pod_effect spec node m' p m'' f →
    pods_effect spec node m (pods ++ [p]) m'' (fates ++ [(p, f)]).

(** The pods that go, and whether all could be read. *)
Definition going (fates : list (Pod * pod_fate)) : list Pod :=
  omap (λ pf, match pf.2 with Goes => Some pf.1 | _ => None end) fates.
Definition readable (fates : list (Pod * pod_fate)) : Prop := Forall (λ pf, pf.2 ≠ Unreadable) fates.

(** The pods of a list replaced one after the other, each whatever happened to the others. *)
Inductive replaces_all : list Pod → list obs → list (option error) → Prop :=
| ra_nil : replaces_all [] [] []
| ra_cons p tr r l trs rs : replaces p tr r → replaces_all l trs rs → replaces_all (p :: l) (tr ++ trs) (r :: rs).

(** ** The loop over the pods *)

Lemma found_key statuses ns name s :
  FindModuleStatus statuses ns name = Some s → nmst_key s = nsn ns name.
Proof.
  rewrite FindModuleStatus_lookup. unfold status_map. rewrite keyed_map_lookup.
  intros [_ H]%find_first_Some. by apply key_is_true in H.
Qed.

(** The entry written through the status pointer of the loop. *)
Lemma status_of_pod_entry p node l c tols :
  let found := FindModuleStatus l (pod_Namespace p) (map_get (pod_Labels p) constants.ModuleNameLabel) in
  let old := default (new_status (pod_Namespace p) (map_get (pod_Labels p) constants.ModuleNameLabel)) found in
  status_from_pod p node (status_with_tolerations (status_with_config old c) tols) =
  loaded_entry p node (status_map l !! pod_module p) c tols.
Proof.
  cbv zeta. unfold pod_module. rewrite <-FindModuleStatus_lookup. destruct (FindModuleStatus _ _ _) as [s|] eqn:E; [|done].
  apply found_key in E. unfold nmst_key, nsn in E. injection E as E1 E2.
  unfold status_from_pod, loaded_entry. simpl. by rewrite E1, E2.
Qed.

Lemma half_decoded p l s :
  nmst_key s = pod_module p →
  let found := FindModuleStatus l (pod_Namespace p) (map_get (pod_Labels p) constants.ModuleNameLabel) in
  (∀ k, k ≠ pod_module p → status_map (write_back found s l) !! k = status_map l !! k) ∧
  (is_Some (status_map (write_back found s l) !! pod_module p) ↔ is_Some (status_map l !! pod_module p)).
Proof.
  intros Hk. cbv zeta. rewrite FindModuleStatus_lookup. fold (pod_module p).
  destruct (status_map l !! pod_module p) as [s0|] eqn:E; simpl; [|by rewrite E].
  rewrite status_map_set, Hk. split; [intros k Hne; by apply lookup_insert_ne|]. rewrite lookup_insert_eq. naive_solver.
Qed.

(** The entry the pod is decoded into. *)
Lemma old_entry p l :
  let old := default (new_status (pod_Namespace p) (map_get (pod_Labels p) constants.ModuleNameLabel)) (status_map l !! pod_module p) in
  nmst_key old = pod_module p ∧ nmst_Config old = default empty_config (nmst_Config <$> status_map l !! pod_module p) ∧
  mi_Tolerations (nmst_item old) = default [] ((λ s, mi_Tolerations (nmst_item s)) <$> status_map l !! pod_module p).
Proof.
  cbv zeta. destruct (status_map l !! pod_module p) as [s|] eqn:E; [|done]. split_and!; [|done..]. simpl.
  unfold pod_module in E. rewrite <-FindModuleStatus_lookup in E. by apply found_key in E.
Qed.

(** One pod: what it does to the statuses, the pods to delete and the errors. *)
Definition pod_synced (nmcObj : NodeModulesConfig) (node : Node) (st : sync_state) (p : Pod) (st' : sync_state) : Prop :=
  ∃ f, pod_effect (nms_key <$> nmc_spec_Modules nmcObj) node (status_map (sy_statuses st)) p (status_map (sy_statuses st')) f ∧
    sy_podsToDelete st' = sy_podsToDelete st ++ (match f with Goes => [p] | _ => [] end) ∧
    (errors_Join (sy_errs st') = None ↔ errors_Join (sy_errs st) = None ∧ f ≠ Unreadable).

Lemma pod_synced_fate f nmcObj node st p st' :
  pod_effect (nms_key <$> nmc_spec_Modules nmcObj) node (status_map (sy_statuses st)) p (status_map (sy_statuses st')) f →
  sy_errs st' = sy_errs st → f ≠ Unreadable → sy_podsToDelete st' = sy_podsToDelete st ++ (match f with Goes => [p] | _ => [] end) →
  pod_synced nmcObj node st p st'.
Proof. intros Hf He Hn Hd. exists f. rewrite He. naive_solver. Qed.

Lemma pod_synced_unreadable nmcObj node st p s e :
  pod_Phase p = PodSucceeded → ¬ unloader_pod p → nmst_key s = pod_module p →
  (∃ c e, yaml_UnmarshalStrict_config (map_get (pod_Annotations p) configAnnotationKey)
     (default empty_config (nmst_Config <$> status_map (sy_statuses st) !! pod_module p)) = (c, Some e)) ∨
  (∃ tols e, yaml_UnmarshalStrict_tolerations (map_get (pod_Annotations p) tolerationsAnnotationKey)
     (default [] ((λ s, mi_Tolerations (nmst_item s)) <$> status_map (sy_statuses st) !! pod_module p)) = (tols, Some e)) →
  pod_synced nmcObj node st p
    {| sy_statuses := write_back (status_map (sy_statuses st) !! pod_module p) s (sy_statuses st);
       sy_errs := sy_errs st ++ [Some e]; sy_podsToDelete := sy_podsToDelete st |}.
Proof.
  intros Hph Hu Hs He. destruct (half_decoded p (sy_statuses st) s Hs) as [H1 H2]. rewrite FindModuleStatus_lookup in H1, H2.
  exists Unreadable. split; [by apply pe_unreadable|]. split; [by rewrite app_nil_r|]. simpl. rewrite errors_Join_app. naive_solver.
Qed.

Lemma sync_pod_effect nmcObj node st p :
  pod_synced nmcObj node st p (sync_pod (list_to_set (nms_key <$> nmc_spec_Modules nmcObj)) node st p).
Proof.
  unfold sync_pod. rewrite FindModuleStatus_lookup. fold (pod_module p).
  destruct (old_entry p (sy_statuses st)) as (Hok & Hoc & Hot).
  pose proof (λ c tols, status_of_pod_entry p node (sy_statuses st) c tols) as Hentry.
  cbv zeta in Hentry. rewrite FindModuleStatus_lookup in Hentry. fold (pod_module p) in Hentry.
  assert (pod_Phase p ≠ PodRunning → pod_Phase p ≠ PodFailed → pod_Phase p ≠ PodSucceeded → pod_synced nmcObj node st p st) as Hwait
    by (intros; by apply (pod_synced_fate Stays); [apply pe_waiting|..|rewrite app_nil_r]).
  destruct (pod_Phase p) eqn:Eph; [by apply Hwait..| | | |by apply Hwait].
  - destruct (bool_decide _) eqn:E1; simpl.
    + apply bool_decide_eq_true in E1. rewrite elem_of_list_to_set in E1. case_bool_decide as E2.
      * by apply (pod_synced_fate Goes); [apply pe_orphan|..].
      * apply (pod_synced_fate Stays); [|done..|by rewrite app_nil_r]. apply pe_running; [done|]. right. by apply not_eq_None_Some.
    + apply bool_decide_eq_false in E1. rewrite elem_of_list_to_set in E1. apply dec_stable in E1.
      apply (pod_synced_fate Stays); [|done..|by rewrite app_nil_r]. apply pe_running; auto.
  - destruct (unloader_pod_reflect p) as [Hu|Hu].
    { apply (pod_synced_fate Goes); [|done..]. simpl. rewrite status_map_remove. by apply pe_unloaded. }
    unfold GetConfigAnnotation. rewrite Hoc. destruct (yaml_UnmarshalStrict_config _ _) as [c [e|]] eqn:Ec;
      [apply pod_synced_unreadable; [done..|exact Hok|left; eauto]|].
    unfold GetTolerationsAnnotation. change (mi_Tolerations (nmst_item (status_with_config ?x c))) with (mi_Tolerations (nmst_item x)). rewrite Hot.
    destruct (yaml_UnmarshalStrict_tolerations _ _) as [tols [e|]] eqn:Et; [apply pod_synced_unreadable; [done..|exact Hok|right; eauto]|].
    apply (pod_synced_fate Goes); [|done..]. simpl. rewrite Hentry, status_map_set. by apply pe_loaded.
  - by apply (pod_synced_fate Goes); [apply pe_failed|..].
Qed.

Lemma sync_loop_effect nmcObj node pods :
  let st := sync_loop nmcObj node pods in
  ∃ fates, pods_effect (nms_key <$> nmc_spec_Modules nmcObj) node (status_map (nmc_status_Modules nmcObj)) pods (status_map (sy_statuses st)) fates ∧
    sy_podsToDelete st = going fates ∧ (errors_Join (sy_errs st) = None ↔ readable fates).
Proof.
  cbv zeta. unfold sync_loop. induction pods as [|p pods (fates & H1 & H2 & H3)] using rev_ind.
  - exists []. split_and!; [constructor|done|]. split; [constructor|done].
  - rewrite foldl_app. simpl. destruct (sync_pod_effect nmcObj node (foldl (sync_pod (list_to_set (nms_key <$> nmc_spec_Modules nmcObj)) node)
      {| sy_statuses := nmc_status_Modules nmcObj; sy_errs := []; sy_podsToDelete := [] |} pods) p) as (f & E1 & E2 & E3).
    exists (fates ++ [(p, f)]). split_and!; [by eapply pes_snoc| |].
    + rewrite E2, H2. unfold going. rewrite omap_app. simpl. by destruct f.
    + rewrite E3, H3. unfold readable. rewrite Forall_app, Forall_singleton. done.
Qed.

Lemma delete_pods_all (l : list Pod) es :
  wp (for_range l (λ p errs, err ← DeletePod p; mret (errs ++ [err])) es) (λ tr errs, ∃ rs, errs = es ++ rs ∧ replaces_all l tr rs).
Proof.
  revert es. induction l as [|p l IH]; intros es; cbn [for_range]; [exists []; split; [by rewrite app_nil_r|constructor]|].
  apply wp_bind, wp_bind, wp_DeletePod. intros tr r Hr. apply wp_ret. eapply wp_mono; [|apply IH].
  intros trs errs (rs & -> & Hrs). exists (r :: rs). rewrite <-app_assoc, app_nil_r. split; [done|by constructor].
Qed.

(** C10: what a synchronisation saves and removes.  It lists the worker pods of the node; with none, or
    when the list fails, nothing is changed.  Otherwise the status that the pods mean is saved
    first: entries of modules whose unloader succeeded are gone, those whose loader succeeded
    are recorded from their annotations with the boot id of the node, all others are as before.
    Only when that succeeded and every annotation could be read are pods removed, and exactly
    those that failed, those that succeeded, and the running ones of modules in neither
    spec nor status; each is released and deleted whatever happens to the others, and an
    error is returned exactly if something failed. *)
Theorem SyncStatus_saves_before_deleting nmcObj node :
  wp (SyncStatus nmcObj node) (λ tr r,
    ∃ a tr', tr = Obs (ListAll KPod [HasLabels [actionLabelKey]; MatchingFields ".spec.nodeName" (nmc_Name nmcObj)]) a :: tr' ∧
    match a with
    | Err _ => tr' = [] ∧ r.1 = nmcObj ∧ is_Some r.2
    | Ok [] => tr' = [] ∧ r = (nmcObj, None)
    | Ok pods => ∃ statuses fates x rest,
        pods_effect (nms_key <$> nmc_spec_Modules nmcObj) node (status_map (nmc_status_Modules nmcObj)) pods (status_map statuses) fates ∧
        tr' = Obs (StatusPatch KNMC nmcObj (nmc_set_status nmcObj statuses)) x :: rest ∧
        ((is_ok x = true ∧ readable fates ∧ ∃ rs, replaces_all (going fates) rest rs ∧ (r.2 = None ↔ Forall (λ e, e = None) rs)) ∨
         (¬ (is_ok x = true ∧ readable fates) ∧ rest = [] ∧ is_Some r.2))
    end).
Proof.
  unfold SyncStatus. intros [pods|e]; cbn -[sync_loop errors_Join DeletePod]; [|exists (Err e), []; split; [done|]; by split_and!; [..|eexists]].
  destruct pods as [|p0 pods]; cbn -[sync_loop errors_Join DeletePod]; [by exists (Ok []), []|].
  intros x. destruct (sync_loop_effect nmcObj node (p0 :: pods)) as (fates & H1 & H2 & H3).
  assert (errors_Join (sy_errs (sync_loop nmcObj node (p0 :: pods)) ++ [err_of x]) = None ↔ is_ok x = true ∧ readable fates) as Hok.
  { rewrite errors_Join_app, H3. destruct x; simpl; naive_solver. }
  assert (∀ (rest : list obs) (r : option error), (is_ok x = true ∧ readable fates ∧ (∃ rs, replaces_all (going fates) rest rs ∧ (r = None ↔ Forall (λ e, e = None) rs))) ∨
      (¬ (is_ok x = true ∧ readable fates) ∧ rest = [] ∧ is_Some r) → ∃ statuses fates y rest',
      pods_effect (nms_key <$> nmc_spec_Modules nmcObj) node (status_map (nmc_status_Modules nmcObj)) (p0 :: pods) (status_map statuses) fates ∧
      Obs (StatusPatch KNMC nmcObj (nmc_set_status nmcObj (sy_statuses (sync_loop nmcObj node (p0 :: pods))))) x :: rest =
      Obs (StatusPatch KNMC nmcObj (nmc_set_status nmcObj statuses)) y :: rest' ∧
      ((is_ok y = true ∧ readable fates ∧ ∃ rs, replaces_all (going fates) rest' rs ∧ (r = None ↔ Forall (λ e, e = None) rs)) ∨
       (¬ (is_ok y = true ∧ readable fates) ∧ rest' = [] ∧ is_Some r))) as Hfin.
  { intros rest r H. by exists (sy_statuses (sync_loop nmcObj node (p0 :: pods))), fates, x, rest. }
  clear H3. destruct x as [n'|e]; cbn -[sync_loop errors_Join DeletePod];
    (destruct (errors_Join (_ ++ _)) as [e'|] eqn:Ej;
     [apply wp_ret; eexists _, _; (split; [done|]); apply Hfin; right; (split; [|by eauto]); intros H; apply Hok in H; cbn in H; congruence|]);
    destruct (proj1 Hok eq_refl) as [Hx Hread]; [|done].
  apply wp_bind. eapply wp_mono; [|apply delete_pods_all]. intros rest errs (rs & -> & Hrs). apply wp_ret.
  eexists _, _. split; [done|]. rewrite app_nil_r. apply Hfin. left. split_and!; [done..|]. exists rs. rewrite <-H2.
  split; [done|]. apply errors_Join_None.
Qed.
End sync.

(** ** What the status records *)

Section recorded.
Context `{EXT : Externals} (workerCfg : WorkerConfig) (workerImage : string).

(** The status a reconciliation saves from the pods it saw. *)
Definition synced (nmcObj : NodeModulesConfig) (node : Node) (pods : list Pod) : NodeModulesConfig :=
  nmc_set_status nmcObj (sy_statuses (sync_loop nmcObj node pods)).

Lemma write_back_other found s statuses k :
  (∀ s0, found = Some s0 → nmst_key s ≠ k) →
  status_map (write_back found s statuses) !! k = status_map statuses !! k.
Proof.
  destruct found as [s0|]; simpl; [|done]. intros H. rewrite status_map_set.
  apply lookup_insert_ne. eauto.
Qed.

(** A worker pod only affects the status of its own module. *)
Lemma sync_pod_other spec node st p k :
  k ≠ pod_module p →
  status_map (sy_statuses (sync_pod spec node st p)) !! k = status_map (sy_statuses st) !! k.
Proof.
  intros Hk. unfold sync_pod.
  set (found := FindModuleStatus _ _ _).
  assert (∀ c, nmst_key (status_with_config (default (new_status (pod_Namespace p)
    (map_get (pod_Labels p) constants.ModuleNameLabel)) found) c) = pod_module p) as Hkey.
  { intros c. destruct found as [s0|] eqn:E; [|done]. by apply found_key in E. }
  destruct (pod_Phase p); try done; [by destruct (_ && _)|].
  destruct (IsUnloaderPod (Some p)); [simpl; rewrite status_map_remove; by apply lookup_delete_ne|].
  destruct (yaml_UnmarshalStrict_config _ _) as [cfg [e|]]; simpl.
  { apply write_back_other. intros s0 _. rewrite Hkey. done. }
  destruct (yaml_UnmarshalStrict_tolerations _ _) as [tols [e|]]; simpl.
  - apply write_back_other. intros s0 _. change (nmst_key (status_with_tolerations ?x tols)) with (nmst_key x).
    by rewrite Hkey.
  - rewrite status_map_set. apply lookup_insert_ne.
    change (nmst_key (status_from_pod p node (status_with_tolerations ?x tols))) with (nmst_key x).
    by rewrite Hkey.
Qed.

Lemma sync_pods_other spec node pods st k :
  Forall (λ q, pod_module q ≠ k) pods →
  status_map (sy_statuses (foldl (sync_pod spec node) st pods)) !! k = status_map (sy_statuses st) !! k.
Proof.
  revert st. induction pods as [|q pods IH]; intros st; simpl; [done|].
  intros [Hq Hpods]%Forall_cons. rewrite IH by done. by apply sync_pod_other.
Qed.

Lemma sync_pod_NoDup spec node st p :
  NoDup (nmst_key <$> sy_statuses st) → NoDup (nmst_key <$> sy_statuses (sync_pod spec node st p)).
Proof.
  intros Hnd. unfold sync_pod. set (found := FindModuleStatus _ _ _).
  assert (∀ s, NoDup (nmst_key <$> write_back found s (sy_statuses st))) as Hwb.
  { intros s. destruct found; simpl; [by apply SetModuleStatus_NoDup|done]. }
  destruct (pod_Phase p); try done; [by destruct (_ && _)|].
  destruct (IsUnloaderPod (Some p)); [by apply RemoveModuleStatus_NoDup|].
  destruct (yaml_UnmarshalStrict_config _ _) as [cfg [e|]]; [apply Hwb|].
  destruct (yaml_UnmarshalStrict_tolerations _ _) as [tols [e|]]; [apply Hwb|].
  by apply SetModuleStatus_NoDup.
Qed.

(** Synchronising the status keeps one entry per module in spec and status, leaves the
    entries of modules without worker pods alone, and never invents an entry for a module
    that had none and no worker pod. *)
Theorem sync_loop_invariant nmcObj node pods :
  nmc_wf nmcObj →
  nmc_wf (synced nmcObj node pods) ∧
  (∀ k, k ∉ pod_module <$> pods →
     status_map (nmc_status_Modules (synced nmcObj node pods)) !! k =
     status_map (nmc_status_Modules nmcObj) !! k).
Proof.
  intros [Hs Hst]. unfold synced, sync_loop. split.
  - split; [done|]. simpl.
    assert (∀ st, NoDup (nmst_key <$> sy_statuses st) → NoDup (nmst_key <$> sy_statuses
      (foldl (sync_pod (list_to_set (nms_key <$> nmc_spec_Modules nmcObj)) node) st pods))) as H.
    { induction pods as [|q pods IH]; intros st H; simpl; [done|]. by apply IH, sync_pod_NoDup. }
    by apply H.
  - intros k Hk. simpl. rewrite sync_pods_other; [done|]. apply Forall_forall. intros q Hq Heq.
    apply Hk. apply list_elem_of_fmap. eauto.
Qed.

Section recorded_laws.
Context `{EXTL : !ExternalsLaws}.

(** A pod the cluster ran from a template: what the kubelet and the API server keep. *)
Record ran_from (t p : Pod) : Prop := {
  rf_namespace : pod_Namespace p = pod_Namespace t;
  rf_labels : pod_Labels p = pod_Labels t;
  rf_annotations : pod_Annotations p = pod_Annotations t;
  rf_spec : pod_spec p = pod_spec t;
  rf_succeeded : pod_Phase p = PodSucceeded;
}.

Lemma ran_module nmcObj nms t p :
  LoaderPodTemplate workerCfg workerImage nmcObj nms = Ok t → ran_from t p →
  pod_module p = nms_key nms ∧ IsUnloaderPod (Some p) = false ∧
  yaml_Marshal_config (nms_Config nms) = Ok (GetConfigAnnotation (Some p)) ∧
  GetModuleVersionAnnotation (Some p) = mi_Version (nms_item nms) ∧
  (mi_Tolerations (nms_item nms) = [] → GetTolerationsAnnotation (Some p) = "") ∧
  (mi_Tolerations (nms_item nms) ≠ [] →
   yaml_Marshal_tolerations (mi_Tolerations (nms_item nms)) = Ok (GetTolerationsAnnotation (Some p))).
Proof.
  intros (Hw & Hl & Hu & Hv & Hsc)%loader_template_facts [Hns Hlab Hann Hspec Hph].
  destruct Hw as [_ Hwns _ _ Hmod _ _ Hcfg Htol].
  unfold pod_module, IsUnloaderPod, GetConfigAnnotation, GetModuleVersionAnnotation,
    GetTolerationsAnnotation in *.
  rewrite Hns, Hlab, Hann, Hwns, Hmod. split_and!; try done.
  - by intros E; rewrite E in Htol.
  - intros E. by destruct (mi_Tolerations (nms_item nms)).
Qed.

(** One successful loader pod: the entry it leaves, over the entry it found. *)
Lemma sync_pod_loaded spec node st nmcObj nms t p :
  LoaderPodTemplate workerCfg workerImage nmcObj nms = Ok t → ran_from t p →
  (∀ s0, status_map (sy_statuses st) !! nms_key nms = Some s0 → mi_Tolerations (nms_item nms) = []) →
  let old := status_map (sy_statuses st) !! nms_key nms in
  ∃ s, status_map (sy_statuses (sync_pod spec node st p)) !! nms_key nms = Some s ∧
    nmst_Config s = overlay_config (default empty_config (nmst_Config <$> old)) (nms_Config nms) ∧
    mi_Tolerations (nmst_item s) = mi_Tolerations (nms_item nms) ∧
    mi_Version (nmst_item s) = mi_Version (nms_item nms) ∧
    nmst_BootId s = ni_BootID (node_NodeInfo node).
Proof.
  intros Ht Hran Hold. pose proof (ran_module _ _ _ _ Ht Hran) as (Hmod & Hu & Hcfg & Hv & Ht0 & Ht1).
  cbv zeta. unfold sync_pod. rewrite (rf_succeeded _ _ Hran), Hu.
  rewrite FindModuleStatus_lookup. fold (pod_module p). rewrite Hmod.
  set (status := default _ _).
  rewrite (yaml_config_into _ _ _ Hcfg). cbv beta iota zeta.
  match goal with |- context [yaml_UnmarshalStrict_tolerations ?a ?b] =>
    assert (yaml_UnmarshalStrict_tolerations a b = (mi_Tolerations (nms_item nms), None)) as -> end.
  { destruct (decide (mi_Tolerations (nms_item nms) = [])) as [E|E].
    - rewrite (Ht0 E), E. apply yaml_tolerations_empty.
    - subst status. destruct (status_map _ !! _) as [s0|] eqn:Es; [by destruct E; eauto|].
      simpl. by apply yaml_tolerations_into, Ht1. }
  simpl. eexists. rewrite status_map_set. split; [|split_and!].
  - rewrite lookup_insert_Some. left. split; [|reflexivity].
    change (nmst_key (status_from_pod p node (status_with_tolerations (status_with_config ?x ?c) ?t0))) with (nmst_key x).
    subst status. destruct (status_map _ !! _) as [s0|] eqn:Es; [|by rewrite <-Hmod].
    simpl. unfold status_map in Es. rewrite keyed_map_lookup in Es.
    apply find_first_Some in Es as [_ Es]. by apply key_is_true in Es.
  - simpl. subst status. by destruct (status_map _ !! _).
  - done.
  - by rewrite <-Hv.
  - done.
Qed.

(** When the loader pod made for a module not loaded before succeeds, the synchronised
    status records the module with the configuration, tolerations and version of the spec
    and the node's boot id, whatever other pods run on the node; and with that status the
    module is settled: the reconciler has nothing more to do for it. *)
Theorem load_converges nmcObj node nms t p pre post :
  LoaderPodTemplate workerCfg workerImage nmcObj nms = Ok t → ran_from t p →
  config_stored (nms_Config nms) = true →
  Forall (λ q, pod_module q ≠ nms_key nms) (pre ++ post) →
  status_map (nmc_status_Modules nmcObj) !! nms_key nms = None →
  ∃ s, status_map (nmc_status_Modules (synced nmcObj node (pre ++ p :: post))) !! nms_key nms = Some s ∧
    nmst_Config s = nms_Config nms ∧ mi_Version (nmst_item s) = mi_Version (nms_item nms) ∧
    mi_Tolerations (nmst_item s) = mi_Tolerations (nms_item nms) ∧
    (∀ i, spec_intent workerCfg workerImage nmcObj nms node (Some s) None i ↔ i = Nothing).
Proof.
  intros Ht Hran Hcfg [Hpre Hpost]%Forall_app Hnone.
  unfold synced, sync_loop. rewrite foldl_app. simpl. set (st := foldl _ _ pre).
  assert (status_map (sy_statuses st) !! nms_key nms = None) as Hst.
  { unfold st. by rewrite sync_pods_other. }
  destruct (sync_pod_loaded (list_to_set (nms_key <$> nmc_spec_Modules nmcObj)) node st nmcObj nms t p Ht Hran)
    as (s & Hs & Hc & Htol & Hv & Hb); [by intros s0; rewrite Hst|].
  rewrite Hst in Hc. simpl in Hc. rewrite overlay_empty_config in Hc by done.
  exists s. rewrite sync_pods_other by done. split_and!; try done.
  assert (spec_intent workerCfg workerImage nmcObj nms node (Some s) None Nothing) as Hi.
  { apply si_settled; [done|]. by intros [Hne _]. }
  intros i. split; [|by intros ->]. intros Hi'. by eapply intent_unique.
Qed.

(** After a kernel upgrade the status of the old kernel is decoded over, and fields the
    new configuration leaves empty keep their old value: a firmware path dropped from the
    module survives in the status, so the module that was just loaded is seen as outdated and
    is unloaded again. *)
Theorem upgrade_keeps_stale_fields nmcObj node nms t p old :
  LoaderPodTemplate workerCfg workerImage nmcObj nms = Ok t → ran_from t p →
  status_map (nmc_status_Modules nmcObj) !! nms_key nms = Some old →
  mi_Tolerations (nms_item nms) = [] →
  mp_FirmwarePath (mc_Modprobe (nmst_Config old)) ≠ "" →
  mp_FirmwarePath (mc_Modprobe (nms_Config nms)) = "" →
  ∃ s, status_map (nmc_status_Modules (synced nmcObj node [p])) !! nms_key nms = Some s ∧
    spec_intent workerCfg workerImage nmcObj nms node (Some s) None (Unload s).
Proof.
  intros Ht Hran Hold Htol Hf Hf'. unfold synced, sync_loop. simpl.
  edestruct (sync_pod_loaded (list_to_set (nms_key <$> nmc_spec_Modules nmcObj)) node
    {| sy_statuses := nmc_status_Modules nmcObj; sy_errs := []; sy_podsToDelete := [] |}
    nmcObj nms t p Ht Hran) as (s & Hs & Hc & _); [done|].
  exists s. split; [done|]. simpl in Hc. rewrite Hold in Hc. simpl in Hc.
  apply si_outdated; rewrite Hc; [|done].
  intros Heq. apply (f_equal (λ c, mp_FirmwarePath (mc_Modprobe c))) in Heq. simpl in Heq.
  rewrite Hf' in Heq. unfold overlay_str in Heq. simpl in Heq. congruence.
Qed.
End recorded_laws.
End recorded.

(** ** Examples *)

(** The pod the cluster reports once the containers of a template have succeeded. *)
Definition succeeded_pod (t : Pod) : Pod :=
  {| pod_meta := pod_meta t; pod_spec := pod_spec t;
     pod_status := {| pst_Phase := PodSucceeded; pst_ContainerStatuses := []; pst_Ready := false |} |}.

Lemma succeeded_ran_from t : ran_from t (succeeded_pod t).
Proof. by split. Qed.

Lemma sync_loop_invariant_witness :
  nmc_wf (synced (demo_nmc "node-a" [demo_spec]) (demo_node "node-a" ∅) [succeeded_pod demo_loader_pod]).
Proof.
  apply (sync_loop_invariant (demo_nmc "node-a" [demo_spec]) (demo_node "node-a" ∅)
           [succeeded_pod demo_loader_pod]).
  vm_compute. repeat constructor; set_solver.
Defined.

Lemma load_converges_witness :
  ∃ s, status_map (nmc_status_Modules (synced (demo_nmc "node-a" []) (demo_node "node-a" ∅)
          ([] ++ succeeded_pod demo_loader_pod :: []))) !! nms_key demo_spec = Some s ∧
       nmst_Config s = demo_config.
Proof.
  destruct (load_converges demo_worker_cfg "worker:v1" (demo_nmc "node-a" []) (demo_node "node-a" ∅)
              demo_spec demo_loader_pod (succeeded_pod demo_loader_pod) [] []) as (s & Hs & Hc & _).
  - vm_compute. reflexivity.
  - apply succeeded_ran_from.
  - reflexivity.
  - constructor.
  - reflexivity.
  - exists s. split; [exact Hs|exact Hc].
Defined.

Definition demo_old_status : NodeModuleStatus :=
  status_with_config demo_status
    {| mc_KernelVersion := "5.14.0"; mc_ContainerImage := "registry/mod:v0";
       mc_ImagePullPolicy := "Always"; mc_InsecurePull := false;
       mc_InTreeModulesToRemove := None; mc_InTreeModuleToRemove := "";
       mc_Modprobe := {| mp_ModuleName := "mod_kmod"; mp_Parameters := []; mp_DirName := "/opt";
                         mp_Args := None; mp_RawArgs := None; mp_FirmwarePath := "/firmware";
                         mp_ModprobedDir := ""; mp_ModulesLoadingOrder := None |} |}.

Definition demo_upgraded : NodeModulesConfig := nmc_set_status (demo_nmc "node-a" [demo_spec]) [demo_old_status].

Lemma upgrade_keeps_stale_fields_witness :
  ∃ s, status_map (nmc_status_Modules (synced demo_upgraded (demo_node "node-a" ∅)
          [succeeded_pod demo_loader_pod])) !! nms_key demo_spec = Some s ∧
       spec_intent demo_worker_cfg "worker:v1" demo_upgraded demo_spec (demo_node "node-a" ∅) (Some s) None (Unload s).
Proof.
  apply (upgrade_keeps_stale_fields demo_worker_cfg "worker:v1" demo_upgraded (demo_node "node-a" ∅)
           demo_spec demo_loader_pod (succeeded_pod demo_loader_pod) demo_old_status).
  - vm_compute. reflexivity.
  - apply succeeded_ran_from.
  - vm_compute. reflexivity.
  - reflexivity.
  - discriminate.
  - reflexivity.
Defined.
