(* ===== verification/NmcLabels.v ===== *)
(** * Labels and scope of a NodeModulesConfig reconciliation

    Which in-use labels are collected, which ready labels a node ends up with, and for which
    modules worker pods are created in one reconciliation. *)

From S2P Require Import Prelude Types Kube GoStrings Externals Demo Labels NmcHelper Node WorkerPod NmcReconciler NmcProps.

Open Scope string_scope.
Open Scope nat_scope.
Open Scope list_scope.

(** ** In-use labels *)

Section in_use.
Context `{EXT : Externals} `{EXTL : !ExternalsLaws}.

Definition in_use_label (k : NamespacedName) : string := ModuleInUseLabel (nsn_Namespace k) (nsn_Name k).

(** The key under which the collector looks a worker pod up. *)
Definition pod_in_use_label (p : Pod) : string :=
  ModuleInUseLabel (pod_Name p) (map_get (pod_Labels p) constants.ModuleNameLabel).

(** A label to collect: an in-use label that neither spec, status nor a worker pod claims. *)
Definition collectable (n : NodeModulesConfig) (pods : list Pod) (k : string) : Prop :=
  (IsModuleInUseLabel k).1.1 = true ∧
  k ∉ in_use_label <$> (nms_key <$> nmc_spec_Modules n) ∧
  k ∉ in_use_label <$> (nmst_key <$> nmc_status_Modules n) ∧
  k ∉ pod_in_use_label <$> pods.

#[local] Instance collectable_dec n pods k : Decision (collectable n pods k).
Proof. unfold collectable. apply _. Defined.

Definition kept_labels (n : NodeModulesConfig) (pods : list Pod) : labels_t :=
  filter (λ kv, ¬ collectable n pods kv.1) (nmc_Labels n).

Lemma foldl_delete_filter (l : list string) (m : labels_t) :
  foldl (λ m k, delete k m) m l = filter (λ kv, kv.1 ∉ l) m.
Proof.
  revert m. induction l as [|k l IH]; intros m; simpl.
  - symmetry. apply map_filter_id. intros. apply not_elem_of_nil.
  - rewrite IH. apply map_eq. intros j. apply option_eq. intros x.
    rewrite !map_lookup_filter_Some, lookup_delete_Some, not_elem_of_cons. naive_solver.
Qed.

Lemma collected_labels n pods (diff : gset string) :
  (∀ k, k ∈ diff ↔ k ∈ dom (nmc_Labels n) ∧ collectable n pods k) →
  foldl (λ m k, delete k m) (nmc_Labels n) (range_set diff) = kept_labels n pods ∧
  (diff = ∅ ↔ kept_labels n pods = nmc_Labels n).
Proof.
  intros Hd. unfold kept_labels. split.
  - rewrite foldl_delete_filter. apply map_filter_ext. intros k x Hk. simpl.
    rewrite elem_of_range_set, Hd, elem_of_dom. split; naive_solver.
  - split.
    + intros ->. apply map_filter_id. intros k x Hk Hc.
      assert (k ∈ (∅ : gset string)); [|set_solver]. apply Hd. split; [|done].
      by apply elem_of_dom_2 in Hk.
    + intros Hf. apply elem_of_equiv_empty_L. intros k [Hk Hc]%Hd.
      apply elem_of_dom in Hk as [x Hx]. rewrite <-Hf, map_lookup_filter_Some in Hx. naive_solver.
Qed.

(** The collector removes exactly the in-use labels that no entry of the spec or the
    status (and no worker pod, under the key it builds for it) accounts for, in one patch that
    is sent only when there is something to remove; all other labels stay. *)
Theorem GarbageCollectInUseLabels_exact n :
  wp (GarbageCollectInUseLabels n) (λ tr r,
    ∃ (a : result (list Pod)) rest, tr =
      Obs (ListAll KPod [HasLabels [actionLabelKey]; MatchingFields ".spec.nodeName" (nmc_Name n)]) a :: rest ∧
    match a with
    | Err _ => rest = [] ∧ r.1 = n ∧ is_Some r.2
    | Ok pods =>
        obs_call <$> rest =
          if decide (kept_labels n pods = nmc_Labels n) then []
          else [Patch KNMC n (nmc_set_labels n (kept_labels n pods)) false]
    end).
Proof.
  unfold GarbageCollectInUseLabels. intros [pods|e]; cbn -[wp_bind].
  2:{ eexists _, []. split; [done|]. simpl. eauto. }
  set (diff := _ ∖ _).
  destruct (collected_labels n pods diff) as [Hf Hd].
  { intros k. unfold diff, collectable. rewrite elem_of_difference, elem_of_filter.
    rewrite !elem_of_union, !elem_of_list_to_set, <-!list_fmap_compose. unfold in_use_label.
    simpl. unfold compose. simpl. naive_solver. }
  rewrite Hf. case_bool_decide as E; simpl.
  - eexists _, []. split; [done|]. simpl. by rewrite decide_True by (by apply Hd).
  - intros x. destruct x; simpl; eexists _, [_]; (split; [done|]); simpl;
      by rewrite decide_False by (by rewrite <-Hd).
Qed.

(** A worker pod does not keep the in-use label of its module: the collector builds the
    key from the pod's name instead of its namespace, so the label is removed while the
    module's worker pod is still running. *)
Theorem worker_pod_does_not_protect_in_use_label n p :
  re_ns (pod_Namespace p) = true → re_ns (pod_Name p) = true → pod_Name p ≠ pod_Namespace p →
  re_name (map_get (pod_Labels p) constants.ModuleNameLabel) = true →
  nmc_spec_Modules n = [] → nmc_status_Modules n = [] →
  kept_labels n [p] !! in_use_label (pod_module p) = None.
Proof.
  intros Hns Hn Hne Hm Hs Hst. unfold kept_labels. apply map_lookup_filter_None. right.
  intros x Hx Hc. apply Hc. simpl. unfold collectable. rewrite Hs, Hst. simpl. split_and!.
  - by rewrite (proj2 (IsModuleInUseLabel_spec _ (pod_Namespace p) (map_get (pod_Labels p) constants.ModuleNameLabel))).
  - apply not_elem_of_nil.
  - apply not_elem_of_nil.
  - rewrite list_elem_of_singleton. intros Heq.
    apply ModuleInUseLabel_inj in Heq as [? _]; [|done..]. simpl in *. congruence.
Qed.
End in_use.

(** ** Ready labels *)

(** Namespaces and module names without periods, the names of DNS labels. *)
Definition well_named (x : NamespacedName) : Prop :=
  re_ns (nsn_Namespace x) = true ∧ re_ns (nsn_Name x) = true.

#[export] Instance well_named_dec x : Decision (well_named x).
Proof. unfold well_named. apply _. Defined.

Lemma re_ns_re_name s : re_ns s = true → re_name s = true.
Proof.
  unfold re_ns, re_name. rewrite !andb_true_iff. intros [? H]. split; [done|].
  eapply string_forallb_impl; [|exact H]. intros c Hc. unfold name_char. by rewrite Hc.
Qed.

Lemma no_dot_not_version name x : re_ns name = true → name ≠ x +:+ ".version".
Proof.
  intros H%re_ns_no_dot ->. rewrite string_forallb_app in H.
  apply andb_true_iff in H as [_ H]. discriminate H.
Qed.

Lemma ready_label_inj x y :
  well_named x → re_ns (nsn_Namespace y) = true → ready_label x = ready_label y → x = y.
Proof.
  intros [Hx _] Hy Heq. apply label_name_inj in Heq as [H1 H2]; [|done..].
  by destruct x, y; simpl in *; subst.
Qed.

Lemma ready_not_version x y :
  well_named x → re_ns (nsn_Namespace y) = true → ready_label x ≠ version_ready_label y.
Proof.
  intros [Hx Hn] Hy Heq. unfold ready_label, version_ready_label, GetKernelModuleReadyNodeLabel,
    GetKernelModuleVersionReadyNodeLabel in Heq.
  change ".version.ready" with (".version" +:+ ".ready") in Heq.
  rewrite <-(string_app_assoc (nsn_Name y)) in Heq.
  apply label_name_inj in Heq as [_ Heq]; [|done..]. exact (no_dot_not_version _ _ Hn Heq).
Qed.

Lemma ready_recognised x :
  well_named x → IsKernelModuleReadyNodeLabel (ready_label x) = (true, nsn_Namespace x, nsn_Name x).
Proof.
  intros [Hns Hn]. apply IsKernelModuleReadyNodeLabel_exact. split_and!; [done|done|by apply re_ns_re_name|].
  intros (y & Hy & _). exact (no_dot_not_version _ _ Hn Hy).
Qed.

Lemma elem_of_ready_labels node x :
  x ∈ getNodeKernelModuleReadyLabels node ↔
  ∃ k, is_Some (node_Labels node !! k) ∧ IsKernelModuleReadyNodeLabel k = (true, nsn_Namespace x, nsn_Name x).
Proof.
  unfold getNodeKernelModuleReadyLabels. rewrite elem_of_list_to_set, list_elem_of_omap.
  setoid_rewrite list_elem_of_fmap. split.
  - intros (k & ([k' v] & -> & Hk%elem_of_map_to_list) & Hx). exists k'. split; [eauto|].
    simpl in Hx. destruct (IsKernelModuleReadyNodeLabel k') as [[[] ns] name]; by simplify_eq/=.
  - intros (k & [v Hv] & Hk). exists k. split.
    + exists (k, v). by rewrite elem_of_map_to_list.
    + rewrite Hk. by destruct x.
Qed.

Section ready.
Context `{EXT : Externals} `{EXTL : !ExternalsLaws}.

(** The module is in the spec and in the status with the same configuration. *)
Definition settled (n : NodeModulesConfig) (x : NamespacedName) : Prop :=
  ∃ c, getSpecLabelsAndTheirConfigs n !! x = Some c ∧ getStatusLabelsAndTheirConfigs n !! x = Some c.

(** The module is in the spec or in the status. *)
Definition known (n : NodeModulesConfig) (x : NamespacedName) : Prop :=
  is_Some (getSpecLabelsAndTheirConfigs n !! x) ∨ is_Some (getStatusLabelsAndTheirConfigs n !! x).

Lemma spec_cfg_key n x c :
  getSpecLabelsAndTheirConfigs n !! x = Some c → x ∈ nms_key <$> nmc_spec_Modules n.
Proof.
  unfold getSpecLabelsAndTheirConfigs.
  assert (∀ l (m : gmap NamespacedName ModuleConfig),
    foldl (λ m s, <[nms_key s := nms_Config s]> m) m l !! x = Some c → m !! x = Some c ∨ x ∈ nms_key <$> l) as H.
  { induction l as [|s l IH]; intros m; simpl; [by left|]. intros [Hm|Hx]%IH.
    - apply lookup_insert_Some in Hm as [[-> _]|[_ Hm]]; [right; left|by left].
    - right. by right. }
  intros [Hm|Hx]%H; [|done]. by rewrite lookup_empty in Hm.
Qed.

Lemma unloaded_lookup (l : list NamespacedName) (m : labels_t) k :
  is_Some (foldl (λ m x, <[version_ready_label x := ""]> (<[ready_label x := ""]> m)) m l !! k) ↔
  is_Some (m !! k) ∨ ∃ x, x ∈ l ∧ (k = ready_label x ∨ k = version_ready_label x).
Proof.
  revert m. induction l as [|y l IH]; intros m; simpl.
  - set_solver.
  - rewrite IH, !lookup_insert_is_Some'. setoid_rewrite elem_of_cons. split.
    + intros [[<-|[<-|?]]|(x & ? & ?)]; eauto 10.
    + intros [?|(x & [->|?] & ?)]; eauto 10. intuition.
Qed.

Lemma loaded_lookup (vs : gmap NamespacedName string) (l : list NamespacedName) (m : labels_t) k :
  is_Some (foldl (λ m x, let m := <[ready_label x := ""]> m in
             match vs !! x with Some v => <[version_ready_label x := v]> m | None => m end) m l !! k) ↔
  is_Some (m !! k) ∨
  ∃ x, x ∈ l ∧ (k = ready_label x ∨ (k = version_ready_label x ∧ is_Some (vs !! x))).
Proof.
  revert m. induction l as [|y l IH]; intros m; simpl.
  - set_solver.
  - rewrite IH. setoid_rewrite elem_of_cons.
    destruct (vs !! y) as [v|] eqn:Ey; rewrite !lookup_insert_is_Some'; split.
    + intros [[<-|[<-|?]]|(x & ? & ?)]; [right; exists y; rewrite Ey|..]; eauto 10.
    + intros [?|(x & [->|?] & ?)]; eauto 10. intuition.
    + intros [[<-|?]|(x & ? & ?)]; eauto 10.
    + intros [?|(x & [->|?] & [->|[-> [v Hv]]])]; [by eauto|by eauto|congruence|by eauto 10|].
      right. exists x. eauto.
Qed.

Lemma elem_of_addEqualLabels R n x :
  x ∈ addEqualLabels R (getSpecLabelsAndTheirConfigs n) (getStatusLabelsAndTheirConfigs n) ↔
  settled n x ∧ x ∉ R.
Proof.
  unfold addEqualLabels, settled. rewrite list_elem_of_fmap. split.
  - intros ([y c] & -> & [[Hc HR] Hy]%list_elem_of_filter). apply elem_of_range_map in Hy. eauto.
  - intros [(c & Hs & Ht) HR]. exists (x, c). split; [done|].
    apply list_elem_of_filter. simpl. by rewrite elem_of_range_map.
Qed.

Lemma elem_of_removeOrphanedLabels R n x :
  x ∈ removeOrphanedLabels R (getSpecLabelsAndTheirConfigs n) (getStatusLabelsAndTheirConfigs n) ↔
  x ∈ R ∧ ¬ known n x.
Proof.
  unfold removeOrphanedLabels, known. rewrite list_elem_of_filter, elem_of_range_set.
  rewrite !eq_None_not_Some. naive_solver.
Qed.

End ready.

(** ** Scope of a reconciliation *)

Section scope.
Context `{EXT : Externals} `{EXTL : !ExternalsLaws} (workerCfg : WorkerConfig) (workerImage : string).

Definition spec_keys (n : NodeModulesConfig) : list string :=
  (λ s, module_key (nms_item s)) <$> nmc_spec_Modules n.

(** What a worker pod may be created for. *)
Inductive created_for (n : NodeModulesConfig) (node : Node) (p : Pod) : Prop :=
| cf_load m :
    m ∈ nmc_spec_Modules n → IsNodeSchedulable node (mi_Tolerations (nms_item m)) = true →
    LoaderPodTemplate workerCfg workerImage n m = Ok p → created_for n node p
| cf_unload_outdated m st :
    m ∈ nmc_spec_Modules n → IsNodeSchedulable node (mi_Tolerations (nms_item m)) = true →
    st ∈ nmc_status_Modules n → module_key (nmst_item st) = module_key (nms_item m) →
    nmst_Config st ≠ nms_Config m →
    UnloaderPodTemplate workerCfg workerImage n st = Ok p → created_for n node p
| cf_unload_orphan n' st :
    st ∈ nmc_status_Modules n → module_key (nmst_item st) ∉ spec_keys n →
    IsNodeRebooted node (nmst_BootId st) = false →
    UnloaderPodTemplate workerCfg workerImage n' st = Ok p → created_for n node p.

Definition create_ok (n : NodeModulesConfig) (node : Node) (c : call) : Prop :=
  match c with Create KPod p => created_for n node p | Create _ _ => False | _ => True end.

Lemma build_statusMap_Some l k s :
  build_statusMap l !! k = Some s → s ∈ l ∧ module_key (nmst_item s) = k.
Proof.
  unfold build_statusMap. induction l as [|x l IH] using rev_ind; [done|].
  rewrite foldl_app. simpl. rewrite lookup_insert_Some, elem_of_app, list_elem_of_singleton.
  intros [[Hk <-]|[_ H]]; [by auto|]. apply IH in H. tauto.
Qed.

Lemma DeletePod_create_ok n node p : only_calls (create_ok n node) (DeletePod p).
Proof. unfold DeletePod, patch, deletePod, delete_obj. only_calls; done. Qed.

#[local] Hint Resolve DeletePod_create_ok : calls.

Lemma reconcile_finish_create_ok n node n' node' errs :
  only_calls (create_ok n node) (reconcile_finish n' node' errs).
Proof.
  unfold reconcile_finish, GarbageCollectInUseLabels, GarbageCollectWorkerPods, UpdateNodeLabels,
    UpdateLabels, RecordEvents, record_event, ListWorkerPodsOnNode, list_all, patch, perform.
  only_calls; done.
Qed.

(** The calls that carry out an intent, case by case. *)
Lemma creates_calls (P : call → Prop) template tr r :
  creates template tr r → (∀ p, template = Ok p → P (Create KPod p)) → Forall (λ o, P (obs_call o)) tr.
Proof.
  unfold creates. destruct template as [p|e]; [|by intros [-> _]]. intros (x & -> & _) H. repeat constructor. by apply H.
Qed.

Lemma replaces_calls (P : call → Prop) p tr r :
  replaces p tr r → (∀ p l, P (Patch KPod p (pod_set_finalizers p l) false)) → (∀ q, P (Delete KPod q)) → Forall (λ o, P (obs_call o)) tr.
Proof.
  intros (x & rest & -> & H) Hpatch Hdel. constructor; [apply Hpatch|]. destruct x as [q|]; [|by destruct H as [-> _]].
  destruct (om_DeletionTimestamp _); [by destruct H as [-> _]|]. destruct H as (y & -> & _). repeat constructor. apply Hdel.
Qed.

Lemma carries_out_calls (P : call → Prop) n spec i tr r :
  carries_out workerCfg workerImage n spec i tr r →
  (∀ m p, i = Load → spec = Some m → LoaderPodTemplate workerCfg workerImage n m = Ok p → P (Create KPod p)) →
  (∀ st p, i = Unload st → UnloaderPodTemplate workerCfg workerImage n st = Ok p → P (Create KPod p)) →
  (∀ p l, P (Patch KPod p (pod_set_finalizers p l) false)) → (∀ q, P (Delete KPod q)) →
  Forall (λ o, P (obs_call o)) tr.
Proof.
  intros H Hload Hunload Hpatch Hdel. destruct i as [| | |st|q]; simpl in H.
  1,2: by destruct H as [-> _].
  - destruct H as (m & -> & H). eapply creates_calls; [exact H|]. intros p. by apply Hload.
  - eapply creates_calls; [exact H|]. intros p. by apply Hunload.
  - by eapply replaces_calls.
Qed.

Lemma reconcile_spec_create_ok n node m st :
  m ∈ nmc_spec_Modules n →
  (∀ k s, rs_statusMap st !! k = Some s → s ∈ nmc_status_Modules n ∧ module_key (nmst_item s) = k) →
  only_calls (create_ok n node) (reconcile_spec workerCfg workerImage n node m st).
Proof.
  intros Hm Hst. unfold reconcile_spec.
  destruct (IsNodeSchedulable node (mi_Tolerations (nms_item m))) eqn:Es; simpl negb; cbv match;
    [|apply only_calls_ret].
  apply only_calls_bind; [|intros; apply only_calls_ret].
  eapply wp_mono; [|apply ProcessModuleSpec_wp]. intros tr r (a & rest & -> & H).
  constructor; [done|]. destruct (pod_answer a) as [po|]; [|by destruct H as [-> _]].
  destruct H as (i & Hi & Hc). eapply carries_out_calls; [exact Hc|..]; try done.
  - intros m' p -> [= <-] Hp. by eapply cf_load.
  - intros s p -> Hp. inversion Hi as [|st' ? ?| | | | |? ? ? _ Hpi]; subst; [|inversion Hpi].
    match goal with E : Some s = _ |- _ => destruct (Hst _ _ (eq_sym E)) end.
    by eapply cf_unload_outdated.
Qed.

Lemma orphan_create_ok n node ks acc :
  ks.2 ∈ nmc_status_Modules n → module_key (nmst_item ks.2) ∉ spec_keys n →
  only_calls (create_ok n node) (reconcile_orphan workerCfg workerImage node ks acc).
Proof.
  intros Hin Hk. unfold reconcile_orphan. destruct acc as [n' errs].
  apply only_calls_bind; [|intros []; apply only_calls_ret].
  eapply wp_mono; [|apply ProcessUnconfiguredModuleStatus_wp]. intros tr r H.
  destruct (IsNodeRebooted _ _) eqn:Eb; [apply Forall_obs_call; rewrite H; by repeat constructor|].
  destruct H as (_ & a & rest & -> & H). constructor; [done|].
  destruct (pod_answer a) as [po|]; [|by destruct H as [-> _]].
  destruct H as (i & Hi & Hc). eapply carries_out_calls; [exact Hc|..]; try done.
  intros s p -> Hp. inversion Hi as [| |? ? _ Hpi]; subst; [|inversion Hpi]. by eapply cf_unload_orphan.
Qed.

(** The statuses left after the spec was processed. *)
Lemma spec_loop n node :
  wp (for_range (nmc_spec_Modules n) (reconcile_spec workerCfg workerImage n node)
        {| rs_statusMap := build_statusMap (nmc_status_Modules n); rs_errs := [];
           rs_readyLabelsToRemove := ∅ |})
    (λ tr st, Forall (λ o, create_ok n node (obs_call o)) tr ∧
       rs_statusMap st = filter (λ ks, ks.1 ∉ spec_keys n) (build_statusMap (nmc_status_Modules n))).
Proof.
  set (keys := λ s, module_key (nms_item s)).
  eapply wp_mono; [|apply (wp_for_range _ (λ l tr st, ∃ before, nmc_spec_Modules n = before ++ l ∧
     Forall (λ o, create_ok n node (obs_call o)) tr ∧
     rs_statusMap st = filter (λ ks, ks.1 ∉ keys <$> before) (build_statusMap (nmc_status_Modules n))))].
  - intros tr st (before & Hb & Htr & Hst). rewrite app_nil_r in Hb. split; [done|].
    by rewrite Hst, <-Hb.
  - exists []. split_and!; [done|constructor|]. simpl. symmetry. apply map_filter_id.
    intros. apply not_elem_of_nil.
  - intros m l tr st (before & Hb & Htr & Hst).
    assert (only_calls (create_ok n node) (reconcile_spec workerCfg workerImage n node m st)) as Hc.
    { apply reconcile_spec_create_ok; [rewrite Hb; set_solver|]. intros k s. rewrite Hst.
      intros [Hs _]%map_lookup_filter_Some. by apply build_statusMap_Some. }
    assert (wp (reconcile_spec workerCfg workerImage n node m st) (λ _ st',
      rs_statusMap st' = delete (keys m) (rs_statusMap st))) as Hd.
    { unfold reconcile_spec. destruct (negb _); [done|]. apply wp_bind. apply wp_exec. done. }
    eapply wp_mono; [|apply (wp_and _ _ _ Hc Hd)]. intros tr' st' [Htr' Hst'].
    exists (before ++ [m]). split_and!; [by rewrite <-app_assoc|by apply Forall_app|].
    rewrite Hst', Hst. apply map_eq. intros k. apply option_eq. intros s.
    rewrite lookup_delete_Some, !map_lookup_filter_Some, fmap_app, not_elem_of_app. simpl.
    rewrite list_elem_of_singleton. naive_solver.
Qed.

(** One reconciliation creates a worker pod only (1) to load a module of the spec that
    tolerates the node's taints, (2) to unload such a module whose recorded configuration
    differs, or (3) to unload a module recorded in the status, absent from the spec, on a node
    not rebooted since; no other object is created. *)
Theorem reconcile_scope n node :
  only_calls (create_ok n node) (reconcile_modules workerCfg workerImage n node).
Proof.
  unfold reconcile_modules. apply wp_bind. eapply wp_mono; [|apply spec_loop].
  intros tr st [Htr Hst].
  eapply wp_mono with (Q := λ tr' _, Forall (λ o, create_ok n node (obs_call o)) tr').
  { intros tr' r Htr'. by apply Forall_app. }
  apply only_calls_bind.
  - apply only_calls_for_range. intros [k s] acc Hks. rewrite elem_of_range_map, Hst in Hks.
    apply map_lookup_filter_Some in Hks as [Hs Hk]. apply build_statusMap_Some in Hs as [Hin Hkey].
    apply orphan_create_ok; simpl in *; [done|by rewrite Hkey].
  - intros [n' errs]. case_bool_decide; [|apply reconcile_finish_create_ok].
    unfold UpdateLabels, patch, perform. only_calls; done.
Qed.
End scope.

(** ** Errors *)

Section errors.
Context `{EXT : Externals} (workerCfg : WorkerConfig) (workerImage : string).

Lemma spec_loop_labels n node m0 :
  m0 ∈ nmc_spec_Modules n → IsNodeSchedulable node (mi_Tolerations (nms_item m0)) = false →
  wp (for_range (nmc_spec_Modules n) (reconcile_spec workerCfg workerImage n node)
        {| rs_statusMap := build_statusMap (nmc_status_Modules n); rs_errs := [];
           rs_readyLabelsToRemove := ∅ |})
    (λ _ st, rs_readyLabelsToRemove st ≠ ∅).
Proof.
  intros Hm0 Hs. eapply wp_mono; [|apply (wp_for_range _ (λ l _ st,
    m0 ∈ l ∨ rs_readyLabelsToRemove st ≠ ∅))].
  - intros tr st [H|H]; [by apply elem_of_nil in H|done].
  - by left.
  - intros m l tr st H. unfold reconcile_spec.
    destruct (IsNodeSchedulable node (mi_Tolerations (nms_item m))) eqn:Es; simpl negb; cbv match.
    + apply wp_bind, wp_exec. intros tr' r _. simpl. rewrite elem_of_cons in H.
      destruct H as [[<-|H]|H]; [congruence|by left|by right].
    + right. simpl. apply insert_non_empty.
Qed.

(** When a module of the spec does not tolerate the node's taints, the reconciliation
    reports an error only if its last call, the update of the node's labels, failed: the
    errors met while processing every other module and every orphan status are dropped, and
    the request is not retried. *)
Theorem unschedulable_module_hides_errors n node m :
  m ∈ nmc_spec_Modules n → IsNodeSchedulable node (mi_Tolerations (nms_item m)) = false →
  wp (reconcile_modules workerCfg workerImage n node) (λ tr r,
    is_Some r → ∃ base new e, last tr = Some (Obs (Patch KNode base new false) (Err e))).
Proof.
  intros Hm Hs. unfold reconcile_modules. apply wp_bind.
  eapply wp_mono; [|exact (spec_loop_labels _ _ m Hm Hs)]. intros tr st Hr.
  apply wp_bind, wp_exec. intros tr1 [n' errs] _. rewrite bool_decide_true by done.
  apply wp_bind. unfold UpdateLabels. case_bool_decide; [by intros []|].
  intros [o|e]; simpl; [by intros []|]. intros _.
  exists node. eexists _, e. by rewrite app_assoc, last_snoc.
Qed.
End errors.

(** ** Examples *)

Definition demo_pod : Pod := Eval vm_compute in demo_loader_pod.

Lemma worker_pod_does_not_protect_in_use_label_witness :
  kept_labels (nmc_set_labels (demo_nmc "node-a" []) {[ in_use_label (pod_module demo_pod) := "" ]})
    [demo_pod] !! in_use_label (pod_module demo_pod) = None.
Proof.
  apply worker_pod_does_not_protect_in_use_label; try reflexivity. discriminate.
Defined.

Lemma GarbageCollectInUseLabels_exact_witness :
  wp (GarbageCollectInUseLabels (demo_nmc "node-a" [demo_spec])) (λ tr _, tr ≠ []).
Proof.
  eapply wp_mono; [|exact (GarbageCollectInUseLabels_exact (demo_nmc "node-a" [demo_spec]))].
  intros tr r (a & rest & -> & _). discriminate.
Defined.


Lemma reconcile_scope_witness :
  only_calls (create_ok demo_worker_cfg "worker:v1" (demo_nmc "node-a" [demo_spec]) (demo_node "node-a" ∅))
    (reconcile_modules demo_worker_cfg "worker:v1" (demo_nmc "node-a" [demo_spec]) (demo_node "node-a" ∅)).
Proof. exact (reconcile_scope demo_worker_cfg "worker:v1" _ _). Defined.

Definition demo_tainted_node : Node :=
  {| node_meta := empty_meta "" "node-a";
     node_Taints := [{| taint_Key := "maintenance"; taint_Value := ""; taint_Effect := TaintEffectNoSchedule |}];
     node_SpecOther := ""; node_Conditions := []; node_NodeInfo := {| ni_BootID := "boot-1"; ni_KernelVersion := "6.1.0"; ni_Other := "" |} |}.

Lemma unschedulable_module_hides_errors_witness :
  IsNodeSchedulable demo_tainted_node (mi_Tolerations demo_item) = false ∧
  wp (reconcile_modules demo_worker_cfg "worker:v1" (demo_nmc "node-a" [demo_spec]) demo_tainted_node)
    (λ tr r, is_Some r → ∃ base new e, last tr = Some (Obs (Patch KNode base new false) (Err e))).
Proof.
  split; [reflexivity|].
  apply (unschedulable_module_hides_errors demo_worker_cfg "worker:v1" _ _ demo_spec);
    [by left|reflexivity].
Defined.
