(* ===== verification/Cluster.v ===== *)
(** * Controllers in a cluster

    The theorems of the component files hold for every sequence of answers of the API server.
    Here the answers come from a store: [answers] states what the API server documents for the
    calls the controller of one node makes, [serves] adds failures, and [steps] runs a program
    against it, possibly cut short by a crash of the operator.  [swp] is the matching logic: an
    invariant that holds after every single call (so that a crash cannot break it) and a
    postcondition for the runs that end. *)

From S2P Require Import Prelude Types Kube GoStrings Externals Labels NmcHelper Node WorkerPod.

Open Scope string_scope.
Open Scope nat_scope.
Open Scope list_scope.

(** ** Programs against a store *)

Lemma resp_inhabited (c : call) : resp c.
Proof.
  destruct c as [| | | | | | | | | | | | | |o]; simpl; try exact (Err (ErrNew "")); try exact ().
  - exact (Err (ErrNew ""), false).
  - exact 0%Z.
  - destruct o; simpl; try exact (Err (ErrNew "")); try exact None; [exact []|exact (None, None, true)].
Qed.

Lemma exec_total {R} (p : prog R) : ∃ tr r, exec p tr r.
Proof.
  induction p as [r|c k IH]; [by exists [], r|].
  destruct (IH (resp_inhabited c)) as (tr & r & H). by exists (Obs c (resp_inhabited c) :: tr), r, (resp_inhabited c), tr.
Qed.

Section served.
Context {S : Type} (serves : S → ∀ c : call, resp c → S → Prop).

(** The runs of a program from a store: [Some r] when it returned [r], [None] when it was cut
    short. *)
Inductive steps {R} : S → prog R → S → option R → Prop :=
| steps_ret s r : steps s (Ret r) s (Some r)
| steps_crash s p : steps s p s None
| steps_call s c k x s' s'' o :
    serves s c x s' → steps s' (k x) s'' o → steps s (Call c k) s'' o.

Fixpoint swp {R} (I : S → Prop) (p : prog R) (Q : R → S → Prop) (s : S) : Prop :=
  I s ∧
  match p with
  | Ret r => Q r s
  | Call c k => ∀ x s', serves s c x s' → swp I (k x) Q s'
  end.

Implicit Types (I : S → Prop) (s : S).

Lemma swp_sound {R} I (p : prog R) Q s s' o :
  swp I p Q s → steps s p s' o → I s' ∧ (∀ r, o = Some r → Q r s').
Proof.
  intros Hp Hs. induction Hs as [s r|s p|s c k x s' s'' o Hc Hs IH].
  - destruct Hp as [HI HQ]. split; [done|]. by intros r' [= <-].
  - destruct p; destruct Hp as [HI _]; by split.
  - destruct Hp as [_ Hp]. eauto.
Qed.

Lemma swp_inv {R} I (p : prog R) Q s : swp I p Q s → I s.
Proof. destruct p; by intros [? _]. Qed.

Lemma swp_ret {R} I (r : R) (Q : R → S → Prop) s : I s → Q r s → swp I (mret r) Q s.
Proof. done. Qed.

Lemma swp_mono {R} I (p : prog R) (Q Q' : R → S → Prop) s :
  (∀ r s, I s → Q r s → Q' r s) → swp I p Q s → swp I p Q' s.
Proof.
  intros H. revert s. induction p as [r|c k IH]; intros s; simpl.
  - intros [HI HQ]. eauto.
  - intros [HI Hk]. split; [done|]. eauto.
Qed.

Lemma swp_bind {A B} I (p : prog A) (f : A → prog B) Q s :
  swp I p (λ a s', swp I (f a) Q s') s → swp I (p ≫= f) Q s.
Proof.
  revert s. induction p as [r|c k IH]; intros s; simpl.
  - by intros [_ H].
  - intros [HI Hk]. split; [done|]. intros x s' Hx. apply IH. by apply Hk.
Qed.

(** Two invariants, and what they are good for, together. *)
Lemma swp_and {R} I I' (p : prog R) Q Q' s :
  swp I p Q s → swp I' p Q' s → swp (λ s, I s ∧ I' s) p (λ r s, Q r s ∧ Q' r s) s.
Proof.
  revert s. induction p as [r|c k IH]; intros s; simpl.
  - naive_solver.
  - intros [HI Hk] [HI' Hk']. split; [done|]. intros x s' Hx. by apply IH; [apply Hk|apply Hk'].
Qed.

(** What holds of the result under every server holds of it here. *)
Lemma swp_wp {R} I (p : prog R) (P : R → Prop) (Q : R → S → Prop) s :
  wp p (λ _ r, P r) → swp I p Q s → swp I p (λ r s', P r ∧ Q r s') s.
Proof.
  revert s. induction p as [r|c k IH]; intros s; simpl.
  - naive_solver.
  - intros Hw [HI Hk]. split; [done|]. intros x s' Hx. apply IH; [apply Hw|by apply Hk].
Qed.

(** One call of the client. *)
Lemma swp_call {R} I c (k : resp c → prog R) Q s :
  I s → (∀ x s', serves s c x s' → swp I (k x) Q s') → swp I (Call c k) Q s.
Proof. by split. Qed.

Lemma swp_for_range {A St} I (body : A → St → prog St) (J : list A → St → S → Prop) l st s :
  I s → J l st s →
  (∀ a l' st s, I s → J (a :: l') st s → swp I (body a st) (J l') s) →
  swp I (for_range l body st) (J []) s.
Proof.
  intros HI HJ Hstep. revert st s HI HJ. induction l as [|a l IH]; intros st s HI HJ; [done|].
  cbn [for_range]. apply swp_bind. eapply swp_mono; [|by apply Hstep]. intros st' s' HI' HJ'. by apply IH.
Qed.

(** A program all of whose calls keep the invariant keeps it. *)
Lemma swp_only_calls {R} I (P : call → Prop) (p : prog R) s :
  (∀ c x s s', P c → I s → serves s c x s' → I s') →
  only_calls P p → I s → swp I p (λ _ _, True) s.
Proof.
  intros HP. unfold only_calls. revert s. induction p as [r|c k IH]; intros s Hp HI; [done|].
  simpl in Hp. split; [done|]. intros x s' Hx.
  destruct (exec_total (k x)) as (tr & r & Hex).
  assert (P c) as Hc.
  { specialize (Hp x). rewrite wp_exec in Hp. specialize (Hp _ _ Hex). by inversion Hp. }
  apply IH; [|by eapply HP]. eapply wp_mono; [|exact (Hp x)]. intros tr' r' H. by inversion H.
Qed.

(** An executable server that behaves as [serves] says gives a run. *)
Lemma run_served {R} (serve : ∀ c : call, S → resp c * S) (p : prog R) s :
  (∀ c s, serves s c (serve c s).1 (serve c s).2) → steps s p (run serve p s).2 (Some (run serve p s).1.2).
Proof.
  intros Hs. revert s. induction p as [r|c f IH]; intros s; simpl; [constructor|].
  pose proof (Hs c s) as Ha. destruct (serve c s) as [x s']. specialize (IH x s').
  destruct (run serve (f x) s') as [[tr r] s'']. by econstructor.
Qed.
End served.

(** ** The objects of one node

    The store a NodeModulesConfig controller sees for one node: the Node, its
    NodeModulesConfig and the worker pods, under their names. *)
Record cluster := {
  cl_node : Node;
  cl_nmc : NodeModulesConfig;
  cl_pods : gmap NamespacedName Pod;
}.

Definition set_nmc (s : cluster) (n : NodeModulesConfig) : cluster :=
  {| cl_node := cl_node s; cl_nmc := n; cl_pods := cl_pods s |}.
Definition set_node (s : cluster) (n : Node) : cluster :=
  {| cl_node := n; cl_nmc := cl_nmc s; cl_pods := cl_pods s |}.
Definition set_pods (s : cluster) (m : gmap NamespacedName Pod) : cluster :=
  {| cl_node := cl_node s; cl_nmc := cl_nmc s; cl_pods := m |}.

(** A merge patch changes what differs between [base] and [new]: keys of a map one by one, a
    list as a whole. *)
Definition merge_map (base new cur : labels_t) : labels_t :=
  filter (λ kv, base !! kv.1 = new !! kv.1) cur ∪ filter (λ kv, base !! kv.1 ≠ Some kv.2) new.
Definition merge_list {A} `{EqDecision A} (base new cur : list A) : list A :=
  if decide (base = new) then cur else new.

(** A pod is created with a status of its own, whatever the object sent says. *)
Definition pod_created (p : Pod) : Pod :=
  {| pod_meta := pod_meta p; pod_spec := pod_spec p;
     pod_status := {| pst_Phase := PodPending; pst_ContainerStatuses := []; pst_Ready := false |} |}.

Definition pod_terminating (p : Pod) (t : Z) : Pod :=
  let m := pod_meta p in
  pod_set_meta p
    {| om_Name := om_Name m; om_GenerateName := om_GenerateName m; om_Namespace := om_Namespace m;
       om_UID := om_UID m; om_Generation := om_Generation m; om_CreationTimestamp := om_CreationTimestamp m;
       om_Labels := om_Labels m; om_Annotations := om_Annotations m; om_Finalizers := om_Finalizers m;
       om_OwnerReferences := om_OwnerReferences m; om_DeletionTimestamp := Some t |}.

Definition matches_option (p : Pod) (o : ListOption) : bool :=
  match o with
  | HasLabels ks => forallb (λ k, bool_decide (is_Some (pod_Labels p !! k))) ks
  | MatchingLabels m => bool_decide (m ⊆ pod_Labels p)
  | InNamespace ns => String.eqb (pod_Namespace p) ns
  | MatchingFields f v => negb (String.eqb f ".spec.nodeName") || String.eqb (ps_NodeName (pod_spec p)) v
  | LabelIn k vs => match pod_Labels p !! k with Some v => bool_decide (v ∈ vs) | None => false end
  end.

Definition matches_options (opts : list ListOption) (p : Pod) : bool := forallb (matches_option p) opts.

(** The pod [q], stored under [key]: a pod that is being deleted goes away with its last
    finalizer, at once when its containers have ended and else when the kubelet has stopped
    them. *)
Definition finished (p : Pod) : bool :=
  match pod_Phase p with PodSucceeded | PodFailed => true | _ => false end.

Definition stores_pod (s : cluster) (key : NamespacedName) (q : Pod) (s' : cluster) : Prop :=
  match om_DeletionTimestamp (pod_meta q), om_Finalizers (pod_meta q) with
  | Some _, [] =>
      s' = set_pods s (delete key (cl_pods s)) ∨
      (finished q = false ∧ s' = set_pods s (<[key := q]> (cl_pods s)))
  | _, _ => s' = set_pods s (<[key := q]> (cl_pods s))
  end.

(** What the API server answers, call by call, and the store it leaves.  Calls that no
    controller of the node makes are left open: any answer and any store. *)
Definition answers (s : cluster) (c : call) : resp c → cluster → Prop :=
  match c as c return resp c → cluster → Prop with
  | Get k key =>
      match k as k return result (obj k) → cluster → Prop with
      | KNMC => λ x s', s' = s ∧
          x = if decide (key = obj_key KNMC (cl_nmc s)) then Ok (cl_nmc s) else Err (ErrStatus ReasonNotFound)
      | KNode => λ x s', s' = s ∧
          x = if decide (key = obj_key KNode (cl_node s)) then Ok (cl_node s) else Err (ErrStatus ReasonNotFound)
      | KPod => λ x s', s' = s ∧
          x = match cl_pods s !! key with Some p => Ok p | None => Err (ErrStatus ReasonNotFound) end
      | _ => λ _ _, True
      end
  | ListAll k opts =>
      match k as k return result (list (obj k)) → cluster → Prop with
      | KPod => λ x s', s' = s ∧
          ∃ l, x = Ok l ∧ l ≡ₚ filter (λ p, matches_options opts p = true) (map_to_list (cl_pods s)).*2
      | _ => λ _ _, True
      end
  | Create k o =>
      match k as k return obj k → result (obj k) → cluster → Prop with
      | KPod => λ p x s',
          match cl_pods s !! obj_key KPod p with
          | Some _ => s' = s ∧ x = Err (ErrStatus ReasonAlreadyExists)
          | None => x = Ok (pod_created p) ∧ s' = set_pods s (<[obj_key KPod p := pod_created p]> (cl_pods s))
          end
      | _ => λ _ _ _, True
      end o
  | Delete k o =>
      match k as k return obj k → result () → cluster → Prop with
      | KPod => λ p x s',
          match cl_pods s !! obj_key KPod p with
          | None => s' = s ∧ x = Err (ErrStatus ReasonNotFound)
          | Some q => x = Ok () ∧ ∃ t, stores_pod s (obj_key KPod p) (pod_terminating q t) s'
          end
      | _ => λ _ _ _, True
      end o
  | Patch k base new _ =>
      match k as k return obj k → obj k → result (obj k) → cluster → Prop with
      | KPod => λ base new x s',
          new = pod_set_finalizers base (om_Finalizers (pod_meta new)) →
          match cl_pods s !! obj_key KPod base with
          | None => s' = s ∧ x = Err (ErrStatus ReasonNotFound)
          | Some q =>
              let q' := pod_set_finalizers q
                (merge_list (om_Finalizers (pod_meta base)) (om_Finalizers (pod_meta new)) (om_Finalizers (pod_meta q))) in
              x = Ok q' ∧ stores_pod s (obj_key KPod base) q' s'
          end
      | KNMC => λ base new x s',
          new = nmc_set_labels base (nmc_Labels new) → obj_key KNMC base = obj_key KNMC (cl_nmc s) →
          let n := nmc_set_labels (cl_nmc s) (merge_map (nmc_Labels base) (nmc_Labels new) (nmc_Labels (cl_nmc s))) in
          x = Ok n ∧ s' = set_nmc s n
      | KNode => λ base new x s',
          new = node_set_labels base (node_Labels new) → obj_key KNode base = obj_key KNode (cl_node s) →
          let n := node_set_labels (cl_node s) (merge_map (node_Labels base) (node_Labels new) (node_Labels (cl_node s))) in
          x = Ok n ∧ s' = set_node s n
      | _ => λ _ _ _ _, True
      end base new
  | StatusPatch k base new =>
      match k as k return obj k → obj k → result (obj k) → cluster → Prop with
      | KNMC => λ base new x s',
          new = nmc_set_status base (nmc_status_Modules new) → obj_key KNMC base = obj_key KNMC (cl_nmc s) →
          let n := nmc_set_status (cl_nmc s)
            (merge_list (nmc_status_Modules base) (nmc_status_Modules new) (nmc_status_Modules (cl_nmc s))) in
          x = Ok n ∧ s' = set_nmc s n
      | _ => λ _ _ _ _, True
      end base new
  | RecordEvent _ _ _ => λ _ s', s' = s
  | _ => λ _ _, True
  end.

(** An error of the connection or of the server: whether the call took effect is unknown. *)
Definition failed (c : call) : resp c → Prop :=
  match c as c return resp c → Prop with
  | Get _ _ | ListAll _ _ | Create _ _ | Delete _ _ | Patch _ _ _ _ | StatusPatch _ _ _
  | StatusUpdate _ _ | CreateOrPatch _ _ _ => λ x, ∃ e, x = Err e ∧ IsNotFound e = false
  | _ => λ _, False
  end.

Definition serves (s : cluster) (c : call) (x : resp c) (s' : cluster) : Prop :=
  answers s c x s' ∨ (failed c x ∧ (s' = s ∨ ∃ x', answers s c x' s')).

Lemma swp_true {S R} (sv : S → ∀ c : call, resp c → S → Prop) (p : prog R) s : swp sv (λ _, True) p (λ _ _, True) s.
Proof. revert s. induction p as [r|c f IH]; intros s; simpl; [done|]. split; [done|]. auto. Qed.

Lemma swp_weaken {S R} (sv : S → ∀ c : call, resp c → S → Prop) (I I' : S → Prop) (p : prog R) Q s :
  (∀ s, I s → I' s) → swp sv I p Q s → swp sv I' p Q s.
Proof.
  intros H. revert s. induction p as [r|c k IH]; intros s; simpl.
  - intros [HI HQ]. split; [by apply H|done].
  - intros [HI Hk]. split; [by apply H|]. eauto.
Qed.

Lemma merge_map_lookup base new cur k :
  merge_map base new cur !! k = if decide (base !! k = new !! k) then cur !! k else new !! k.
Proof.
  unfold merge_map. apply option_eq. intros v.
  rewrite lookup_union_Some_raw, map_lookup_filter_None, !map_lookup_filter_Some.
  destruct (decide (base !! k = new !! k)) as [E|E]; simpl; split.
  - intros [[? _]|(_ & Hn & Hb)]; [done|]. by rewrite E in Hb.
  - by left.
  - by intros [[_ ?]|(_ & ? & _)].
  - intros Hv. right. split_and!; [by right|done|]. by rewrite <-Hv.
Qed.

(** A patch computed from the current value gives the new one. *)
Lemma merge_map_current base new : merge_map base new base = new.
Proof. apply map_eq. intros k. rewrite merge_map_lookup. by destruct (decide (base !! k = new !! k)). Qed.

Lemma merge_list_current {A} `{EqDecision A} (base new : list A) : merge_list base new base = new.
Proof. unfold merge_list. by case_decide. Qed.

(** ** An executable server

    One server that behaves as [answers] says.  With [prompt] the kubelet stops the containers of
    a deleted pod at once; without, they go on for the time they are given. *)
Section server.
Context (prompt : bool).

Definition store_pod (s : cluster) (key : NamespacedName) (q : Pod) : cluster :=
  match om_DeletionTimestamp (pod_meta q), om_Finalizers (pod_meta q) with
  | Some _, [] =>
      if prompt || finished q then set_pods s (delete key (cl_pods s)) else set_pods s (<[key := q]> (cl_pods s))
  | _, _ => set_pods s (<[key := q]> (cl_pods s))
  end.

Lemma store_pod_stores s key q : stores_pod s key q (store_pod s key q).
Proof.
  unfold stores_pod, store_pod. destruct (om_DeletionTimestamp _); [|done]. destruct (om_Finalizers _); [|done].
  destruct prompt, (finished q); simpl; auto.
Qed.

Definition serve (c : call) (s : cluster) : resp c * cluster :=
  match c as c return resp c * cluster with
  | Get k key =>
      match k as k return result (obj k) * cluster with
      | KNMC => (if decide (key = obj_key KNMC (cl_nmc s)) then Ok (cl_nmc s) else Err (ErrStatus ReasonNotFound), s)
      | KNode => (if decide (key = obj_key KNode (cl_node s)) then Ok (cl_node s) else Err (ErrStatus ReasonNotFound), s)
      | KPod => (match cl_pods s !! key with Some p => Ok p | None => Err (ErrStatus ReasonNotFound) end, s)
      | _ => (Err (ErrStatus ReasonOther), s)
      end
  | ListAll k opts =>
      match k as k return result (list (obj k)) * cluster with
      | KPod => (Ok (filter (λ p, matches_options opts p = true) (map_to_list (cl_pods s)).*2), s)
      | _ => (Err (ErrStatus ReasonOther), s)
      end
  | Create k o =>
      match k as k return obj k → result (obj k) * cluster with
      | KPod => λ p,
          match cl_pods s !! obj_key KPod p with
          | Some _ => (Err (ErrStatus ReasonAlreadyExists), s)
          | None => (Ok (pod_created p), set_pods s (<[obj_key KPod p := pod_created p]> (cl_pods s)))
          end
      | _ => λ _, (Err (ErrStatus ReasonOther), s)
      end o
  | Delete k o =>
      match k as k return obj k → result () * cluster with
      | KPod => λ p,
          match cl_pods s !! obj_key KPod p with
          | None => (Err (ErrStatus ReasonNotFound), s)
          | Some q => (Ok (), store_pod s (obj_key KPod p) (pod_terminating q 0))
          end
      | _ => λ _, (Err (ErrStatus ReasonOther), s)
      end o
  | Patch k base new _ =>
      match k as k return obj k → obj k → result (obj k) * cluster with
      | KPod => λ base new,
          match cl_pods s !! obj_key KPod base with
          | None => (Err (ErrStatus ReasonNotFound), s)
          | Some q =>
              let q' := pod_set_finalizers q
                (merge_list (om_Finalizers (pod_meta base)) (om_Finalizers (pod_meta new)) (om_Finalizers (pod_meta q))) in
              (Ok q', store_pod s (obj_key KPod base) q')
          end
      | KNMC => λ base new,
          let n := nmc_set_labels (cl_nmc s) (merge_map (nmc_Labels base) (nmc_Labels new) (nmc_Labels (cl_nmc s))) in
          (Ok n, set_nmc s n)
      | KNode => λ base new,
          let n := node_set_labels (cl_node s) (merge_map (node_Labels base) (node_Labels new) (node_Labels (cl_node s))) in
          (Ok n, set_node s n)
      | _ => λ _ _, (Err (ErrStatus ReasonOther), s)
      end base new
  | StatusPatch k base new =>
      match k as k return obj k → obj k → result (obj k) * cluster with
      | KNMC => λ base new,
          let n := nmc_set_status (cl_nmc s)
            (merge_list (nmc_status_Modules base) (nmc_status_Modules new) (nmc_status_Modules (cl_nmc s))) in
          (Ok n, set_nmc s n)
      | _ => λ _ _, (Err (ErrStatus ReasonOther), s)
      end base new
  | c => (resp_inhabited c, s)
  end.

Lemma serve_answers c s : answers s c (serve c s).1 (serve c s).2.
Proof.
  destruct c as [k ?|k ?|k o|k o|k base new ?|k base new| | | | | | | | |]; try done; destruct k; try done; simpl.
  - split; [done|]. eauto.
  - destruct (cl_pods s !! _); by split.
  - destruct (cl_pods s !! _); [|by split]. split; [done|]. exists 0%Z. apply store_pod_stores.
  - intros _. destruct (cl_pods s !! _); [|by split]. split; [done|]. apply store_pod_stores.
Qed.

Lemma run_steps {R} (p : prog R) s : steps answers s p (run serve p s).2 (Some (run serve p s).1.2).
Proof. apply run_served. intros c s'. apply serve_answers. Qed.
End server.
