(* ===== verification/Interleave.v ===== *)
(** * Controllers that run at the same time

    [Cluster] runs one pass of a controller at a time.  Here any number of passes run against one
    store, interleaved at their calls, each of which may stop at any point, while the world around
    them goes on.  [safe] is the logic for one pass in such company: it may rely on an invariant
    of the store and on what it has learnt from it as far as that lasts, and must keep both. *)

From S2P Require Import Prelude Types Kube Cluster.

Open Scope string_scope.
Open Scope nat_scope.
Open Scope list_scope.

(** A pass under way. *)
Definition thread := {R : Type & prog R}.
Definition thread_of {R} (p : prog R) : thread := existT R p.

Record pool (S : Type) := Pool { po_store : S; po_threads : list thread }.
Arguments Pool {S} _ _.
Arguments po_store {S} _.
Arguments po_threads {S} _.

Section pool.
Context {S : Type} (serves : S → ∀ c : call, resp c → S → Prop).
Context (starts : S → thread → Prop) (events : S → S → Prop).

Inductive pool_step : pool S → pool S → Prop :=
| pool_start s l t : starts s t → pool_step (Pool s l) (Pool s (t :: l))
| pool_call s l1 l2 R c (k : resp c → prog R) x s' :
    serves s c x s' → pool_step (Pool s (l1 ++ thread_of (Call c k) :: l2)) (Pool s' (l1 ++ thread_of (k x) :: l2))
| pool_end s l1 t l2 : pool_step (Pool s (l1 ++ t :: l2)) (Pool s (l1 ++ l2))
| pool_event s s' l : events s s' → pool_step (Pool s l) (Pool s' l).

(** ** The logic of one pass

    [le s s'] says that what was learnt from [s] still holds of [s']. *)
Context (inv : S → Prop) (le : S → S → Prop) `{!PreOrder le}.

Fixpoint safe {R} (p : prog R) (Q : R → S → Prop) (s0 : S) : Prop :=
  match p with
  | Ret r => ∀ s, le s0 s → Q r s
  | Call c k => ∀ s x s', le s0 s → inv s → serves s c x s' → inv s' ∧ le s s' ∧ safe (k x) Q s'
  end.

(** What is learnt lasts. *)
Lemma safe_le {R} (p : prog R) Q s s' : le s s' → safe p Q s → safe p Q s'.
Proof. intros Hle. destruct p as [r|c k]; simpl; intros H; [intros s1 H1|intros s1 x s2 H1]; apply H; by etrans. Qed.

Lemma safe_ret {R} (r : R) (Q : R → S → Prop) s : (∀ s', le s s' → Q r s') → safe (mret r) Q s.
Proof. done. Qed.

Lemma safe_mono {R} (p : prog R) (Q Q' : R → S → Prop) s :
  (∀ r s', le s s' → Q r s' → Q' r s') → safe p Q s → safe p Q' s.
Proof.
  revert s. induction p as [r|c k IH]; intros s HQ; simpl; [eauto|].
  intros H s1 x s2 Hle Hi Hc. destruct (H _ _ _ Hle Hi Hc) as (? & Hle2 & Hk). split_and!; [done..|].
  eapply IH; [|done]. intros r s' Hs'. apply HQ. etrans; [done|]. by etrans.
Qed.

Lemma safe_bind {A B} (p : prog A) (f : A → prog B) Q s :
  safe p (λ a, safe (f a) Q) s → safe (p ≫= f) Q s.
Proof.
  revert s. induction p as [r|c k IH]; intros s; simpl.
  - intros H. by apply H.
  - intros H s1 x s2 Hle Hi Hc. destruct (H _ _ _ Hle Hi Hc) as (? & ? & Hk). auto.
Qed.

Lemma safe_call {R} c (k : resp c → prog R) Q s :
  (∀ s1 x s2, le s s1 → inv s1 → serves s1 c x s2 → inv s2 ∧ le s1 s2 ∧ safe (k x) Q s2) → safe (Call c k) Q s.
Proof. done. Qed.

(** A loop keeps an invariant that lasts. *)
Lemma safe_for_range {A St} (body : A → St → prog St) (J : St → S → Prop) l st s :
  (∀ st s s', le s s' → J st s → J st s') → J st s →
  (∀ a st s', a ∈ l → le s s' → J st s' → safe (body a st) J s') →
  safe (for_range l body st) J s.
Proof.
  intros HJ. revert st s. induction l as [|a l IH]; intros st s Hst Hb; simpl; [by intros; eapply HJ|].
  apply safe_bind. eapply safe_mono; [|apply Hb; [left|reflexivity|done]]. intros st' s' Hle Hst'. apply IH; [done|].
  intros b st'' s'' ? ? ?. apply Hb; [by right|by etrans|done].
Qed.

(** A part whose calls keep the invariant, whatever is known, and what it returns. *)
Lemma safe_only_calls {R} (C : call → Prop) (p : prog R) (P : R → Prop) s :
  (∀ c s x s', C c → inv s → serves s c x s' → inv s' ∧ le s s') →
  only_calls C p → wp p (λ _ r, P r) → safe p (λ r _, P r) s.
Proof.
  intros HC. unfold only_calls. revert s. induction p as [r|c k IH]; intros s Hp Hr; simpl in *; [done|].
  intros s1 x s2 _ Hi Hc. destruct (exec_total (k x)) as (tr & r & Hex).
  assert (C c) as Hcc.
  { specialize (Hp x). rewrite wp_exec in Hp. specialize (Hp _ _ Hex). by inversion Hp. }
  destruct (HC _ _ _ _ Hcc Hi Hc) as [? ?]. split_and!; [done..|]. apply IH; [|apply Hr].
  eapply wp_mono; [|exact (Hp x)]. intros tr' r' H'. by inversion H'.
Qed.

(** ** Every execution

    When every pass that can start is safe and the world keeps the invariant, it always holds. *)
Definition thread_safe (s : S) (t : thread) : Prop := safe (projT2 t) (λ _ _, True) s.

Definition pool_safe (w : pool S) : Prop := inv (po_store w) ∧ Forall (thread_safe (po_store w)) (po_threads w).

Lemma threads_le s s' l : le s s' → Forall (thread_safe s) l → Forall (thread_safe s') l.
Proof. intros Hle Hl. eapply Forall_impl; [exact Hl|]. intros t. by apply safe_le. Qed.

Lemma pool_step_safe w w' :
  (∀ s t, inv s → starts s t → thread_safe s t) → (∀ s s', events s s' → inv s → inv s' ∧ le s s') →
  pool_step w w' → pool_safe w → pool_safe w'.
Proof.
  intros Hst Hev Hs [Hi Hl]. destruct Hs as [s l t Ht|s l1 l2 R c k x s' Hc|s l1 t l2|s s' l He]; simpl in *.
  - split; [done|]. constructor; [by apply Hst|done].
  - apply Forall_app in Hl as [Hl1 Hl2]. apply Forall_cons in Hl2 as [Ht Hl2].
    destruct (Ht s x s' (reflexivity s) Hi Hc) as (Hi' & Hle & Ht'). split; [done|]. apply Forall_app.
    split; [by eapply threads_le|]. constructor; [done|by eapply threads_le].
  - split; [done|]. apply Forall_app in Hl as [Hl1 Hl2]. apply Forall_cons in Hl2 as [_ Hl2]. by apply Forall_app.
  - destruct (Hev _ _ He Hi) as [Hi' Hle]. split; [done|by eapply threads_le].
Qed.

Lemma pool_sound s0 w :
  (∀ s t, inv s → starts s t → thread_safe s t) → (∀ s s', events s s' → inv s → inv s' ∧ le s s') →
  inv s0 → rtc pool_step (Pool s0 []) w → inv (po_store w).
Proof.
  intros Hst Hev Hi Hr. assert (pool_safe (Pool s0 [])) as Hs by (split; [done|constructor]).
  revert Hs. induction Hr as [w|w1 w2 w3 H12 Hr IH]; intros Hs; [apply Hs|]. apply IH. by eapply pool_step_safe.
Qed.

(** A pass that runs alone, to its end. *)
Lemma pool_pass (serve : ∀ c : call, S → resp c * S) {R} (p : prog R) s :
  (∀ c s, serves s c (serve c s).1 (serve c s).2) → starts s (thread_of p) →
  rtc pool_step (Pool s []) (Pool (run serve p s).2 []).
Proof.
  intros Hs Hp. eapply rtc_l; [by apply pool_start|]. clear Hp. revert s.
  induction p as [r|c k IH]; intros s; [apply rtc_once, (pool_end s [] _ [])|]. simpl.
  eapply rtc_l; [apply (pool_call s [] []), (Hs c s)|]. destruct (serve c s) as [x s']. specialize (IH x s').
  by destruct (run serve (k x) s') as [[tr r] s''].
Qed.
End pool.
