(* ===== verification/Rollout.v ===== *)
(** * The rollout of modules on a node

    The NodeModulesConfig controller, the worker pods it runs, the kubelet and the kernel of
    one node as one system.  A state is the store of the API server and the set of modules
    loaded in the running kernel; the steps are passes of the controller (with failing calls
    and crashes), changes of the spec, the life of the worker pods and reboots.  The status is
    shown to tell the truth about the kernel in every reachable state, and two orders of events
    in which it does not are exhibited. *)

From S2P Require Import Prelude Types Kube GoStrings Externals Demo Labels NmcHelper Node WorkerPod NmcReconciler NmcProps NmcLabels Cluster.

Open Scope string_scope.
Open Scope nat_scope.
Open Scope list_scope.

(** ** What synchronising the status does to the entry of one module *)

Section sync.
Context `{EXT : Externals} `{EXTL : !ExternalsLaws}.

(** The module is recorded as loaded in the boot [b]. *)
Definition recorded_in (b : string) (l : list NodeModuleStatus) (k : NamespacedName) : Prop :=
  (nmst_BootId <$> status_map l !! k) = Some b.

Lemma sync_pod_errs spec node st p :
  errors_Join (sy_errs (sync_pod spec node st p)) = None → errors_Join (sy_errs st) = None.
Proof.
  unfold sync_pod. destruct (pod_Phase p); try done; [by destruct (_ && _)|].
  destruct (IsUnloaderPod (Some p)); [done|].
  destruct (yaml_UnmarshalStrict_config _ _) as [cfg [e|]]; simpl; [by intros [? _]%errors_Join_app|].
  destruct (yaml_UnmarshalStrict_tolerations _ _) as [tols [e|]]; simpl; [by intros [? _]%errors_Join_app|done].
Qed.

Lemma sync_pods_errs spec node pods st :
  errors_Join (sy_errs (foldl (sync_pod spec node) st pods)) = None → errors_Join (sy_errs st) = None.
Proof.
  revert st. induction pods as [|p pods IH]; intros st; simpl; [done|]. intros H%IH. by eapply sync_pod_errs.
Qed.

Lemma write_back_boot statuses ns name (s : NodeModuleStatus) k :
  let found := FindModuleStatus statuses ns name in
  nmst_key s = nsn ns name → (∀ s0, found = Some s0 → nmst_BootId s = nmst_BootId s0) →
  (nmst_BootId <$> status_map (write_back found s statuses) !! k) = (nmst_BootId <$> status_map statuses !! k).
Proof.
  cbv zeta. intros Hk Hb. destruct (FindModuleStatus statuses ns name) as [s0|] eqn:E; [|done]. simpl.
  rewrite status_map_set, Hk. destruct (decide (nsn ns name = k)) as [<-|Hne].
  - rewrite lookup_insert_eq. rewrite FindModuleStatus_lookup in E. rewrite E. simpl. by rewrite (Hb s0).
  - by rewrite lookup_insert_ne.
Qed.

(** The entry of the pod's own module. *)
Lemma sync_pod_own spec node st p :
  let b := ni_BootID (node_NodeInfo node) in
  let before := nmst_BootId <$> status_map (sy_statuses st) !! pod_module p in
  let st' := sync_pod spec node st p in
  let after := nmst_BootId <$> status_map (sy_statuses st') !! pod_module p in
  if bool_decide (pod_Phase p = PodSucceeded) then
    if IsUnloaderPod (Some p) then after = None
    else after = Some b ∨ (after = before ∧ errors_Join (sy_errs st') ≠ None)
  else after = before.
Proof.
  cbv zeta. unfold sync_pod. set (found := FindModuleStatus _ _ _).
  assert (∀ c, nmst_key (status_with_config (default (new_status (pod_Namespace p)
    (map_get (pod_Labels p) constants.ModuleNameLabel)) found) c) = pod_module p) as Hkey.
  { intros c. destruct found as [s0|] eqn:E; [|done]. by apply found_key in E. }
  assert (∀ c s0, found = Some s0 → nmst_BootId (status_with_config (default (new_status (pod_Namespace p)
    (map_get (pod_Labels p) constants.ModuleNameLabel)) found) c) = nmst_BootId s0) as Hboot.
  { intros c s0 E. by rewrite E. }
  assert (∀ e, errors_Join (sy_errs st ++ [Some e]) ≠ None) as Herr.
  { intros e [_ H]%errors_Join_app. done. }
  case_bool_decide as Eph; [rewrite Eph|destruct (pod_Phase p); try done; by destruct (_ && _)].
  destruct (IsUnloaderPod (Some p)); [simpl; rewrite status_map_remove; unfold pod_module; by rewrite lookup_delete_eq|].
  destruct (yaml_UnmarshalStrict_config _ _) as [cfg [e|]]; simpl.
  { right. split; [|done]. apply write_back_boot; [apply Hkey|apply Hboot]. }
  destruct (yaml_UnmarshalStrict_tolerations _ _) as [tols [e|]]; simpl.
  { right. split; [|done]. apply write_back_boot; [apply Hkey|apply Hboot]. }
  left. rewrite status_map_set.
  change (nmst_key (status_from_pod p node (status_with_tolerations ?x tols))) with (nmst_key x).
  by rewrite Hkey, lookup_insert_eq.
Qed.

(** The same for a whole listing in which a module has at most one pod. *)
Lemma sync_loop_own nmcObj node pods p :
  NoDup (pod_module <$> pods) → p ∈ pods →
  let b := ni_BootID (node_NodeInfo node) in
  let before := nmst_BootId <$> status_map (nmc_status_Modules nmcObj) !! pod_module p in
  let st' := sync_loop nmcObj node pods in
  let after := nmst_BootId <$> status_map (sy_statuses st') !! pod_module p in
  if bool_decide (pod_Phase p = PodSucceeded) then
    if IsUnloaderPod (Some p) then after = None
    else after = Some b ∨ (after = before ∧ errors_Join (sy_errs st') ≠ None)
  else after = before.
Proof.
  intros Hnd (pre & post & ->)%list_elem_of_split. cbv zeta. unfold sync_loop.
  set (spec := list_to_set _). rewrite fmap_app, fmap_cons in Hnd.
  apply NoDup_app in Hnd as (_ & Hpre & [Hpost _]%NoDup_cons).
  rewrite foldl_app. cbn [foldl]. set (st := foldl _ _ pre).
  assert (status_map (sy_statuses st) !! pod_module p = status_map (nmc_status_Modules nmcObj) !! pod_module p) as Hst.
  { unfold st. rewrite sync_pods_other; [done|]. apply Forall_forall. intros q Hq Heq.
    eapply Hpre; [by apply list_elem_of_fmap_2|]. rewrite Heq. by left. }
  rewrite sync_pods_other.
  2:{ apply Forall_forall. intros q Hq Heq. apply Hpost. rewrite <-Heq. by apply list_elem_of_fmap_2. }
  pose proof (sync_pod_own spec node st p) as H. cbv zeta in H. rewrite Hst in H.
  case_bool_decide; [|done]. destruct (IsUnloaderPod (Some p)); [done|].
  destruct H as [H|[H He]]; [by left|right]. split; [done|]. intros E%sync_pods_errs. by apply He.
Qed.
End sync.

(** ** The invariant *)

Section rollout.
Context `{EXT : Externals} `{EXTL : !ExternalsLaws} (workerCfg : WorkerConfig) (workerImage : string).
Implicit Types (s : cluster) (k : NamespacedName) (p : Pod) (L : gset NamespacedName).

Definition boot s : string := ni_BootID (node_NodeInfo (cl_node s)).
Definition node_name s : string := nmc_Name (cl_nmc s).

(** The status says that the module was loaded since the node was last started. *)
Definition recorded s k : Prop := recorded_in (boot s) (nmc_status_Modules (cl_nmc s)) k.

Definition worker_key (n : string) k : NamespacedName := nsn (nsn_Namespace k) (WorkerPodName n (nsn_Name k)).

Record worker_pod (n : string) (key : NamespacedName) p : Prop := {
  wk_key : obj_key KPod p = key;
  wk_module : key = worker_key n (pod_module p);
  wk_node : ps_NodeName (pod_spec p) = n;
  wk_action : is_Some (pod_Labels p !! actionLabelKey);
}.

(** The worker pod of a module, of the given kind, has succeeded and is still there. *)
Definition worker_done s (unload : bool) k : Prop :=
  ∃ p, cl_pods s !! worker_key (node_name s) k = Some p ∧
       pod_Phase p = PodSucceeded ∧ IsUnloaderPod (Some p) = unload.

(** The outcome of a pod is in the status. *)
Definition outcome_recorded s p : Prop :=
  if IsUnloaderPod (Some p) then ¬ recorded s (pod_module p) else recorded s (pod_module p).

Definition held p : Prop := NodeModulesConfigFinalizer ∈ om_Finalizers (pod_meta p).

Record consistent L s : Prop := {
  co_node : obj_key KNode (cl_node s) = nsn "" (node_name s);
  co_nmc : obj_key KNMC (cl_nmc s) = nsn "" (node_name s);
  co_status : NoDup (nmst_key <$> nmc_status_Modules (cl_nmc s));
  co_pods key p : cl_pods s !! key = Some p → worker_pod (node_name s) key p;
  co_loaded k : worker_done s false k → k ∈ L;
  co_unloaded k : worker_done s true k → k ∉ L;
  co_recorded k : recorded s k → k ∈ L ∨ worker_done s true k;
  co_accounted k : k ∈ L → recorded s k ∨ worker_done s false k;
  co_released key p : cl_pods s !! key = Some p → pod_Phase p = PodSucceeded → ¬ held p → outcome_recorded s p;
}.

(** Every finished worker pod has its outcome in the status. *)
Definition up_to_date s : Prop :=
  ∀ key p, cl_pods s !! key = Some p → pod_Phase p = PodSucceeded → outcome_recorded s p.

Lemma worker_key_inj n k k' : worker_key n k = worker_key n k' → k = k'.
Proof.
  unfold worker_key, WorkerPodName. intros H.
  pose proof (f_equal nsn_Namespace H) as Hns. apply (f_equal nsn_Name) in H. cbn [nsn_Name nsn_Namespace] in *.
  apply string_app_inj_l, string_app_inj_l, string_app_inj_l in H. by destruct k, k'; simpl in *; subst.
Qed.

Lemma pod_of_module n k p : worker_pod n (worker_key n k) p → pod_module p = k.
Proof. intros [_ H _ _]. by apply worker_key_inj in H. Qed.

(** ** Calls that keep what the invariant speaks about *)

(** Pods that differ at most in metadata the invariant does not look at. *)
Record alike (p q : Pod) : Prop := {
  al_key : obj_key KPod q = obj_key KPod p;
  al_labels : pod_Labels q = pod_Labels p;
  al_spec : pod_spec q = pod_spec p;
  al_status : pod_status q = pod_status p;
}.

#[local] Instance alike_preorder : PreOrder alike.
Proof. split; [by split|]. intros p q r [] []. split; congruence. Qed.

Lemma alike_module (p q : Pod) : alike p q → pod_module q = pod_module p.
Proof.
  intros [Hk Hl _ _]. unfold pod_module. rewrite Hl. f_equal. exact (f_equal nsn_Namespace Hk).
Qed.

Record keeps (s s' : cluster) : Prop := {
  ke_node : obj_key KNode (cl_node s') = obj_key KNode (cl_node s);
  ke_boot : boot s' = boot s;
  ke_nmc : obj_key KNMC (cl_nmc s') = obj_key KNMC (cl_nmc s);
  ke_status : NoDup (nmst_key <$> nmc_status_Modules (cl_nmc s)) → NoDup (nmst_key <$> nmc_status_Modules (cl_nmc s'));
  ke_recorded k : recorded s' k ↔ recorded s k;
  ke_pods key (p' : Pod) : cl_pods s' !! key = Some p' →
    (∃ p, cl_pods s !! key = Some p ∧ alike p p') ∨
    (worker_pod (node_name s) key p' ∧ pod_Phase p' ≠ PodSucceeded);
}.

Lemma ke_name s s' : keeps s s' → node_name s' = node_name s.
Proof. intros H. pose proof (ke_nmc _ _ H) as E. by apply (f_equal nsn_Name) in E. Qed.

#[export] Instance keeps_preorder : PreOrder keeps.
Proof.
  split.
  - intros s. split; try done. intros key p ?. left. by exists p.
  - intros s1 s2 s3 H12 H23. pose proof (ke_name _ _ H12) as Hn.
    destruct H12 as [Hn1 Hb1 Hm1 Hs1 Hr1 Hp1], H23 as [Hn2 Hb2 Hm2 Hs2 Hr2 Hp2].
    split; try congruence; [auto|intros k; by rewrite Hr2|].
    intros key p3 [(p2 & E2 & H2)|H2]%Hp2; [|right; by rewrite <-Hn].
    apply Hp1 in E2 as [(p1 & E1 & H1)|[[] ?]]; [left; exists p1; split; [done|by etrans]|right].
    pose proof (alike_module _ _ H2) as E. destruct H2 as [Hk Hl Hsp Hst].
    unfold pod_Phase. rewrite Hst. split; [|done].
    split; congruence.
Qed.

Lemma alike_unloader (p q : Pod) : alike p q → IsUnloaderPod (Some q) = IsUnloaderPod (Some p).
Proof. intros [_ Hl _ _]. simpl. by rewrite Hl. Qed.

Lemma keeps_up_to_date s s' : up_to_date s → keeps s s' → up_to_date s'.
Proof.
  intros Hu H key p' [(p & E & Ha)|[_ Hn]]%(ke_pods _ _ H) Hph; [|done].
  unfold outcome_recorded. rewrite (alike_unloader _ _ Ha), (alike_module _ _ Ha).
  assert (pod_Phase p = PodSucceeded) as Hp by (unfold pod_Phase in *; by rewrite <-(al_status _ _ Ha)).
  specialize (Hu _ _ E Hp). unfold outcome_recorded in Hu. by destruct (IsUnloaderPod _); rewrite (ke_recorded _ _ H).
Qed.

Lemma keeps_done s s' unload k : keeps s s' → worker_done s' unload k → worker_done s unload k.
Proof.
  intros H (p' & E & Hph & Hu). rewrite (ke_name _ _ H) in E.
  apply (ke_pods _ _ H) in E as [(p & E & Ha)|[_ Hn]]; [|done].
  exists p. split_and!; [done| |by rewrite <-(alike_unloader _ _ Ha)].
  unfold pod_Phase in *. by rewrite <-(al_status _ _ Ha).
Qed.

(** Once the status is up to date, such calls cannot break the invariant. *)
Lemma keeps_consistent L s s' : consistent L s → up_to_date s → keeps s s' → consistent L s'.
Proof.
  intros H Hu Hk. pose proof (ke_name _ _ Hk) as Hn.
  assert (∀ k unload, worker_done s unload k → if unload then ¬ recorded s k else recorded s k) as Hd.
  { intros k unload (p & E & Hph & <-). pose proof (pod_of_module _ _ _ (co_pods _ _ H _ _ E)) as Hm.
    specialize (Hu _ _ E Hph). unfold outcome_recorded in Hu. by rewrite Hm in Hu. }
  split.
  - rewrite (ke_node _ _ Hk), Hn. apply H.
  - rewrite (ke_nmc _ _ Hk), Hn. apply H.
  - apply Hk, H.
  - intros key p' [(p & E & Ha)|[? _]]%(ke_pods _ _ Hk); [|by rewrite Hn].
    pose proof (alike_module _ _ Ha) as Hm. destruct Ha as [Hkey Hl Hsp _].
    destruct (co_pods _ _ H _ _ E). rewrite Hn. split; congruence.
  - intros k Hdone%(keeps_done _ _ _ _ Hk). by apply H.
  - intros k Hdone%(keeps_done _ _ _ _ Hk). by apply H.
  - intros k Hr%(ke_recorded _ _ Hk). left. destruct (co_recorded _ _ H _ Hr) as [|Hdone]; [done|].
    by destruct (Hd _ _ Hdone).
  - intros k HkL. left. apply (ke_recorded _ _ Hk). destruct (co_accounted _ _ H _ HkL) as [|Hdone]; [done|].
    exact (Hd _ _ Hdone).
  - intros key p E Hph _. by apply (keeps_up_to_date _ _ Hu Hk _ _ E).
Qed.

(** The calls of a pass after the status was synchronised, the status updates apart. *)
Definition safe_call s (c : call) : Prop :=
  match c with
  | Get KNMC _ | Get KNode _ | Get KPod _ | ListAll KPod _ | RecordEvent _ _ _ | Delete KPod _ => True
  | Create KPod p => worker_pod (node_name s) (obj_key KPod p) p
  | Patch KPod base new _ => new = pod_set_finalizers base (om_Finalizers (pod_meta new))
  | Patch KNMC base new _ => new = nmc_set_labels base (nmc_Labels new) ∧ obj_key KNMC base = obj_key KNMC (cl_nmc s)
  | Patch KNode base new _ => new = node_set_labels base (node_Labels new) ∧ obj_key KNode base = obj_key KNode (cl_node s)
  | _ => False
  end.

Lemma set_pods_keeps s m :
  (∀ key (p' : Pod), m !! key = Some p' → (∃ p, cl_pods s !! key = Some p ∧ alike p p') ∨
     (worker_pod (node_name s) key p' ∧ pod_Phase p' ≠ PodSucceeded)) →
  keeps s (set_pods s m).
Proof. by intros H; split. Qed.

Lemma stores_pod_keeps s key (p q : Pod) s' :
  cl_pods s !! key = Some p → alike p q → stores_pod s key q s' → keeps s s'.
Proof.
  intros Hp Ha Hs.
  assert (keeps s (set_pods s (<[key := q]> (cl_pods s)))) as H1.
  { apply set_pods_keeps. intros key' p' [[<- <-]|[_ ?]]%lookup_insert_Some; left; [by exists p|by exists p']. }
  assert (keeps s (set_pods s (delete key (cl_pods s)))) as H2.
  { apply set_pods_keeps. intros key' p' [_ ?]%lookup_delete_Some. left. by exists p'. }
  unfold stores_pod in Hs. destruct (om_DeletionTimestamp _); [|by subst].
  destruct (om_Finalizers _); [|by subst]. by destruct Hs as [->|[_ ->]].
Qed.

Lemma safe_answer_keeps s c x s' : safe_call s c → answers s c x s' → keeps s s'.
Proof.
  destruct c as [k key|k opts|k o|k o|k base new b| | | | | | | | | |]; try done.
  - destruct k; try done; by intros _ [-> _].
  - destruct k; try done; by intros _ [-> _].
  - destruct k; try done. simpl. intros Hw. destruct (cl_pods s !! _) as [q|] eqn:E; [by intros [-> _]|].
    intros [_ ->]. apply set_pods_keeps. intros key p' [[<- <-]|[_ ?]]%lookup_insert_Some; [right|left; by exists p'].
    split; [|done]. destruct Hw. by split.
  - destruct k; try done. simpl. intros _. destruct (cl_pods s !! _) as [q|] eqn:E; [|by intros [-> _]].
    intros (_ & t & Hs). eapply stores_pod_keeps; [exact E| |exact Hs]. by split.
  - destruct k; try done; simpl.
    + intros [H1 H2] H. destruct (H H1 H2) as [_ ->]. by split; try done; intros key p ?; left; exists p.
    + intros H1 H. specialize (H H1). destruct (cl_pods s !! _) as [q|] eqn:E; [|by destruct H as [-> _]].
      destruct H as [_ Hs]. eapply stores_pod_keeps; [exact E| |exact Hs]. by split.
    + intros [H1 H2] H. destruct (H H1 H2) as [_ ->]. by split; try done; intros key p ?; left; exists p.
  - simpl. by intros _ ->.
Qed.

Lemma safe_call_keeps s c x s' : safe_call s c → serves s c x s' → keeps s s'.
Proof.
  intros Hc [H|[_ [->|[x' H]]]]; [|done|]; by eapply safe_answer_keeps.
Qed.

Lemma safe_call_stable s s' c : keeps s s' → safe_call s c → safe_call s' c.
Proof.
  intros H. pose proof (ke_name _ _ H) as Hn. pose proof (ke_nmc _ _ H) as H1. pose proof (ke_node _ _ H) as H2.
  destruct c as [k ?|k ?|k ?|k ?|k ? ? ?| | | | | | | | | |]; try done; destruct k; try done; simpl in *; congruence.
Qed.

(** A program that makes only such calls keeps everything. *)
Lemma swp_safe {R} s0 s (p : prog R) :
  keeps s0 s → only_calls (safe_call s0) p → swp serves (keeps s0) p (λ _ s', keeps s0 s') s.
Proof.
  intros Hs Hp. eapply swp_mono; [|eapply swp_only_calls; [|exact Hp|exact Hs]]; [done|].
  intros c x s1 s2 Hc H1 Hx. etrans; [exact H1|]. eapply safe_call_keeps; [|exact Hx]. by eapply safe_call_stable.
Qed.

(** ** Synchronising the status *)

Definition listed s (pods : list Pod) : Prop := pods ≡ₚ (map_to_list (cl_pods s)).*2.

Lemma listed_elem s pods p : listed s pods → p ∈ pods ↔ ∃ key, cl_pods s !! key = Some p.
Proof.
  unfold listed. intros ->. rewrite list_elem_of_fmap. split.
  - intros ([key q] & -> & Hq%elem_of_map_to_list). eauto.
  - intros [key Hq]. exists (key, p). by rewrite elem_of_map_to_list.
Qed.

Lemma listed_NoDup n s pods :
  (∀ key p, cl_pods s !! key = Some p → worker_pod n key p) → listed s pods → NoDup (pod_module <$> pods).
Proof.
  intros H Hl. unfold listed in Hl. rewrite Hl, <-list_fmap_compose.
  apply NoDup_fmap_2_strong; [|apply NoDup_map_to_list].
  intros [key p] [key' p'] E%elem_of_map_to_list E'%elem_of_map_to_list Hm. simpl in Hm.
  assert (key = key') as <-; [|by f_equal; congruence].
  by rewrite (wk_module _ _ _ (H _ _ E)), (wk_module _ _ _ (H _ _ E')), Hm.
Qed.

(** The selector of the controller finds all worker pods of the node. *)
Lemma listing_all n s (l : list Pod) :
  (∀ key p, cl_pods s !! key = Some p → worker_pod n key p) →
  l ≡ₚ filter (λ p, matches_options [HasLabels [actionLabelKey]; MatchingFields ".spec.nodeName" n] p = true)
         (map_to_list (cl_pods s)).*2 →
  listed s l.
Proof.
  intros H Hl. unfold listed. rewrite Hl. rewrite filter_all; [done|]. apply Forall_forall.
  intros p Hp. apply (listed_elem s _ _ (Permutation_refl _)) in Hp as [key E].
  destruct (H _ _ E) as [_ _ Hn Ha]. simpl. rewrite bool_decide_true by done. by rewrite Hn, String.eqb_refl.
Qed.

(** The store after the status computed from the pods [pods] was saved. *)
Definition saved s (pods : list Pod) : cluster := set_nmc s (synced (cl_nmc s) (cl_node s) pods).

Lemma sync_unchanged L s pods k :
  consistent L s → listed s pods → cl_pods s !! worker_key (node_name s) k = None →
  recorded (saved s pods) k ↔ recorded s k.
Proof.
  intros H Hl Hk. unfold recorded, recorded_in, saved, boot. simpl. unfold sync_loop.
  rewrite sync_pods_other; [done|]. apply Forall_forall. intros p (key & E)%(listed_elem _ _ _ Hl) Hm.
  pose proof (wk_module _ _ _ (co_pods _ _ H _ _ E)) as Hkey. rewrite Hm in Hkey. congruence.
Qed.

Lemma sync_changed L s pods k p :
  consistent L s → listed s pods → cl_pods s !! worker_key (node_name s) k = Some p →
  if bool_decide (pod_Phase p = PodSucceeded) then
    if IsUnloaderPod (Some p) then ¬ recorded (saved s pods) k
    else recorded (saved s pods) k ∨
         ((recorded (saved s pods) k ↔ recorded s k) ∧
          errors_Join (sy_errs (sync_loop (cl_nmc s) (cl_node s) pods)) ≠ None)
  else recorded (saved s pods) k ↔ recorded s k.
Proof.
  intros H Hl Hp. pose proof (pod_of_module _ _ _ (co_pods _ _ H _ _ Hp)) as Hm.
  assert (p ∈ pods) as Hin by (apply (listed_elem _ _ _ Hl); eauto).
  pose proof (sync_loop_own (cl_nmc s) (cl_node s) pods p (listed_NoDup _ _ _ (co_pods _ _ H) Hl) Hin) as Hs.
  cbv zeta in Hs. rewrite Hm in Hs. unfold recorded, recorded_in, saved, boot. simpl nmc_status_Modules.
  case_bool_decide; [|by rewrite Hs]. destruct (IsUnloaderPod (Some p)); [by rewrite Hs|].
  destruct Hs as [Hs|[Hs He]]; [by left|right]. by rewrite Hs.
Qed.

Lemma sync_NoDup nmcObj node pods :
  NoDup (nmst_key <$> nmc_status_Modules nmcObj) →
  NoDup (nmst_key <$> sy_statuses (sync_loop nmcObj node pods)).
Proof.
  intros Hnd. unfold sync_loop. generalize (list_to_set (C := gset NamespacedName) (nms_key <$> nmc_spec_Modules nmcObj)).
  intros spec. set (st := {| sy_statuses := _; sy_errs := _; sy_podsToDelete := _ |}).
  assert (NoDup (nmst_key <$> sy_statuses st)) as H by done. clearbody st. revert st H.
  induction pods as [|q pods IH]; intros st H; simpl; [done|]. by apply IH, sync_pod_NoDup.
Qed.

(** Saving the synchronised status keeps the invariant, and brings the status up to date when
    no pod's annotations failed to decode. *)
Lemma saved_consistent L s pods :
  consistent L s → listed s pods → consistent L (saved s pods).
Proof.
  intros H Hl.
  assert (∀ k, worker_done (saved s pods) false k → k ∈ L) as Hload by apply H.
  assert (∀ k, worker_done (saved s pods) true k → k ∉ L) as Hunload by apply H.
  split; try apply H; try done.
  - by apply sync_NoDup, H.
  - intros k Hr. destruct (cl_pods s !! worker_key (node_name s) k) as [p|] eqn:E.
    + pose proof (sync_changed _ _ _ _ _ H Hl E) as Hc. case_bool_decide.
      * left. destruct (IsUnloaderPod (Some p)) eqn:Eu; [done|]. apply Hload. by exists p.
      * by apply (co_recorded _ _ H), Hc.
    + by apply (co_recorded _ _ H), (sync_unchanged _ _ _ _ H Hl E).
  - intros k Hk. destruct (cl_pods s !! worker_key (node_name s) k) as [p|] eqn:E.
    + pose proof (sync_changed _ _ _ _ _ H Hl E) as Hc. case_bool_decide.
      * destruct (IsUnloaderPod (Some p)) eqn:Eu; [|right; by exists p]. exfalso. apply (Hunload k); [by exists p|done].
      * rewrite Hc. by apply (co_accounted _ _ H).
    + rewrite (sync_unchanged _ _ _ _ H Hl E). by apply (co_accounted _ _ H).
  - intros key p E Hph Hn. pose proof (co_released _ _ H _ _ E Hph Hn) as Ho.
    rewrite (wk_module _ _ _ (co_pods _ _ H _ _ E)) in E.
    pose proof (sync_changed _ _ _ _ _ H Hl E) as Hc. rewrite bool_decide_true in Hc by done.
    unfold outcome_recorded in *. destruct (IsUnloaderPod (Some p)); [done|]. tauto.
Qed.

Lemma saved_up_to_date L s pods :
  consistent L s → listed s pods →
  errors_Join (sy_errs (sync_loop (cl_nmc s) (cl_node s) pods)) = None → up_to_date (saved s pods).
Proof.
  intros H Hl He key p E Hph. change (cl_pods s !! key = Some p) in E.
  rewrite (wk_module _ _ _ (co_pods _ _ H _ _ E)) in E.
  pose proof (sync_changed _ _ _ _ _ H Hl E) as Hc. rewrite bool_decide_true in Hc by done.
  unfold outcome_recorded. destruct (IsUnloaderPod (Some p)); [done|]. tauto.
Qed.

(** ** One pass *)

(** A NodeModulesConfig in the memory of the controller that agrees with the stored one about
    what is recorded. *)
Record local_view s (n : NodeModulesConfig) : Prop := {
  lv_key : obj_key KNMC n = obj_key KNMC (cl_nmc s);
  lv_status : NoDup (nmst_key <$> nmc_status_Modules n);
  lv_recorded k : recorded_in (boot s) (nmc_status_Modules n) k ↔ recorded s k;
}.

Lemma local_view_keeps s s' n : keeps s s' → local_view s n → local_view s' n.
Proof.
  intros Hk [H1 H2 H3]. split; [by rewrite (ke_nmc _ _ Hk)|done|].
  intros k. by rewrite (ke_boot _ _ Hk), (ke_recorded _ _ Hk).
Qed.

Lemma local_view_stored L s : consistent L s → local_view s (cl_nmc s).
Proof. intros H. by split; [|apply H|]. Qed.

(** What the server answers to a listing of the worker pods. *)
Lemma serves_listing L s x s' :
  consistent L s →
  serves s (ListAll KPod [HasLabels [actionLabelKey]; MatchingFields ".spec.nodeName" (node_name s)]) x s' →
  s' = s ∧ (∀ pods : list Pod, x = Ok pods → listed s pods).
Proof.
  intros H Hx.
  destruct Hx as [[-> (l & -> & Hl)]|[(e & -> & _) [->|(x' & -> & _)]]]; [|done..].
  split; [done|]. intros pods [= <-]. eapply listing_all; [apply H|exact Hl].
Qed.

Lemma serves_status_patch s new (x : result NodeModulesConfig) s' :
  new = nmc_set_status (cl_nmc s) (nmc_status_Modules new) →
  serves s (StatusPatch KNMC (cl_nmc s) new) x s' →
  (s' = s ∨ s' = set_nmc s new) ∧ (∀ n', x = Ok n' → n' = new ∧ s' = set_nmc s new).
Proof.
  intros Hnew Hx.
  assert (∀ y s', answers s (StatusPatch KNMC (cl_nmc s) new) y s' → y = Ok new ∧ s' = set_nmc s new) as Ha.
  { intros y s1 Hy. destruct (Hy Hnew eq_refl) as [-> ->]. by rewrite merge_list_current, <-Hnew. }
  destruct Hx as [[-> ->]%Ha|[(e & -> & _) Hs]].
  - split; [by right|]. by intros n' [= <-].
  - split; [|done]. destruct Hs as [->|[y [_ ->]%Ha]]; auto.
Qed.

Lemma DeletePod_safe s p : only_calls (safe_call s) (DeletePod p).
Proof.
  eapply wp_DeletePod. intros tr r H. by apply (replaces_calls (safe_call s) p tr r H).
Qed.

#[local] Hint Resolve DeletePod_safe : calls.

Lemma SyncStatus_swp L s :
  consistent L s →
  swp serves (consistent L) (SyncStatus (cl_nmc s) (cl_node s)) (λ r s',
    r.2 = None → up_to_date s' ∧ local_view s' r.1 ∧
      obj_key KNode (cl_node s') = obj_key KNode (cl_node s) ∧ boot s' = boot s) s.
Proof.
  intros H. unfold SyncStatus, ListWorkerPodsOnNode. apply swp_bind, swp_bind, swp_call; [done|].
  intros x s1 [-> Hl]%(serves_listing L _ _ _ H). split; [done|]. apply swp_ret; [done|].
  destruct x as [pods|e]; cbn -[sync_loop swp DeletePod]; [|by apply swp_ret]. specialize (Hl pods eq_refl).
  destruct pods as [|p0 pods0]; [|set (pods := p0 :: pods0) in *].
  { apply swp_ret; [done|]. intros _. split_and!; [|by eapply local_view_stored|done|done].
    intros key p E. assert (p ∈ @nil Pod) as Hp by (apply (listed_elem _ _ _ Hl); eauto). by apply elem_of_nil in Hp. }
  pose proof (saved_consistent _ _ _ H Hl) as Hc.
  apply swp_call; [done|]. intros x s1 Hx.
  apply (serves_status_patch s (synced (cl_nmc s) (cl_node s) pods)) in Hx as [Hs1 Hx]; [|done].
  assert (consistent L s1) as H1 by (by destruct Hs1 as [->| ->]).
  destruct x as [n'|e]; cbn -[sync_loop swp errors_Join DeletePod].
  2:{ destruct (errors_Join _) as [e'|] eqn:Ej; [by apply swp_ret|]. by apply errors_Join_app in Ej as [_ Ej]. }
  destruct (Hx n' eq_refl) as [-> ->].
  destruct (errors_Join _) as [e'|] eqn:Ej; [by apply swp_ret|]. apply errors_Join_app in Ej as [Ej _].
  pose proof (saved_up_to_date _ _ _ H Hl Ej) as Hu.
  apply (swp_weaken _ (keeps (saved s pods))); [by intros s2; apply keeps_consistent|].
  apply swp_bind. eapply swp_mono; [|apply swp_safe; [reflexivity|only_calls]].
  intros errs s2 _ H2. apply swp_ret; [done|]. intros _. split_and!.
  - by eapply keeps_up_to_date.
  - eapply local_view_keeps; [exact H2|]. by eapply (local_view_stored L (saved s pods)).
  - by rewrite (ke_node _ _ H2).
  - by rewrite (ke_boot _ _ H2).
Qed.

Lemma template_worker_pod s n item cfg p :
  obj_key KNMC n = obj_key KNMC (cl_nmc s) → worker_pod_for n item cfg p →
  IsLoaderPod (Some p) = true ∨ IsUnloaderPod (Some p) = true →
  worker_pod (node_name s) (obj_key KPod p) p.
Proof.
  intros Hn [Hname Hns Hnode _ Hmod _ _ _ _] Ha. apply (f_equal nsn_Name) in Hn.
  change (nmc_Name n = node_name s) in Hn. rewrite Hn in *. split; [done| |done|].
  - unfold worker_key, pod_module. simpl. rewrite Hmod, <-Hname. done.
  - unfold IsLoaderPod, IsUnloaderPod, map_get in Ha.
    destruct (pod_Labels p !! actionLabelKey); [done|]. by destruct Ha.
Qed.

Lemma carries_out_safe s n spec i tr r :
  obj_key KNMC n = obj_key KNMC (cl_nmc s) → carries_out workerCfg workerImage n spec i tr r →
  Forall (λ o, safe_call s (obs_call o)) tr.
Proof.
  intros Hn H. eapply carries_out_calls; [exact H|..]; try done.
  - intros m p _ _ (Hw & Hl & _)%loader_template_facts. by eapply template_worker_pod; eauto.
  - intros st p _ (Hw & Hu & _)%unloader_template_facts. by eapply template_worker_pod; eauto.
Qed.

Lemma ProcessModuleSpec_safe s n spec status node :
  obj_key KNMC n = obj_key KNMC (cl_nmc s) →
  only_calls (safe_call s) (ProcessModuleSpec workerCfg workerImage n spec status node).
Proof.
  intros Hn. eapply wp_mono; [|apply ProcessModuleSpec_wp]. intros tr r (a & rest & -> & H).
  constructor; [done|]. destruct (pod_answer a); [|by destruct H as [-> _]].
  destruct H as (i & _ & Hc). by eapply carries_out_safe.
Qed.

Lemma spec_loop_swp s0 s n node :
  keeps s0 s → obj_key KNMC n = obj_key KNMC (cl_nmc s0) →
  swp serves (keeps s0)
    (for_range (nmc_spec_Modules n) (reconcile_spec workerCfg workerImage n node)
        {| rs_statusMap := build_statusMap (nmc_status_Modules n); rs_errs := [];
           rs_readyLabelsToRemove := ∅ |})
    (λ st s', (∀ key x, rs_statusMap st !! key = Some x → x ∈ nmc_status_Modules n) ∧ keeps s0 s') s.
Proof.
  intros Hs Hn. apply swp_wp.
  - eapply wp_mono; [|apply spec_loop]. intros tr st [_ ->] key x [Hx _]%map_lookup_filter_Some.
    by apply build_statusMap_Some in Hx as [? _].
  - apply swp_safe; [done|]. apply only_calls_for_range. intros m st _. unfold reconcile_spec.
    destruct (negb _); [apply only_calls_ret|].
    apply only_calls_bind; [by apply ProcessModuleSpec_safe|intros; apply only_calls_ret].
Qed.

(** Removing an entry of an earlier boot changes nothing the invariant speaks about. *)
Lemma remove_unrecorded s n st :
  local_view s n → ¬ recorded s (nmst_key st) →
  local_view s (nmc_set_status n (RemoveModuleStatus (nmc_status_Modules n) (mi_Namespace (nmst_item st)) (mi_Name (nmst_item st)))).
Proof.
  intros [H1 H2 H3] Hst. split; [done|by apply RemoveModuleStatus_NoDup|].
  intros k. rewrite <-H3. unfold recorded_in. simpl. rewrite status_map_remove.
  destruct (decide (nmst_key st = k)) as [<-|Hne].
  - change (nsn _ _) with (nmst_key st). rewrite lookup_delete_eq. split; [done|].
    intros Hr%H3. by destruct Hst.
  - by rewrite lookup_delete_ne.
Qed.

Lemma status_patch_keeps s0 s base new x s' :
  NoDup (nmst_key <$> nmc_status_Modules (cl_nmc s0)) → keeps s0 s →
  local_view s0 base → local_view s0 new → new = nmc_set_status base (nmc_status_Modules new) →
  serves s (StatusPatch KNMC base new) x s' →
  keeps s0 s' ∧ (∀ n', x = Ok n' → local_view s0 n').
Proof.
  intros Hnd0 Hs Hb Hnew Heq Hx. pose proof (local_view_keeps _ _ _ Hs Hb) as [Hkey _ _].
  pose proof (local_view_keeps _ _ _ Hs Hnew) as [_ Hnd Hrec].
  set (l := merge_list (nmc_status_Modules base) (nmc_status_Modules new) (nmc_status_Modules (cl_nmc s))).
  assert ((NoDup (nmst_key <$> nmc_status_Modules (cl_nmc s)) → NoDup (nmst_key <$> l)) ∧
          ∀ k, recorded_in (boot s) l k ↔ recorded s k) as [Hl1 Hl2].
  { unfold l, merge_list. by destruct (decide _). }
  assert (∀ y s', answers s (StatusPatch KNMC base new) y s' →
    y = Ok (nmc_set_status (cl_nmc s) l) ∧ s' = set_nmc s (nmc_set_status (cl_nmc s) l)) as Ha.
  { intros y s1 Hy. by destruct (Hy Heq Hkey). }
  assert (keeps s (set_nmc s (nmc_set_status (cl_nmc s) l))) as Hk.
  { split; try done. intros key p ?. left. by exists p. }
  destruct Hx as [[-> ->]%Ha|[(e & -> & _) Hor]].
  - split; [by etrans|]. intros n' [= <-]. destruct Hs as [_ Hboot Hn Hst Hr _].
    split; [done|by apply Hl1, Hst|]. intros k. by rewrite <-Hr, <-Hl2, Hboot.
  - split; [|done]. destruct Hor as [->|[y [_ ->]%Ha]]; [done|by etrans].
Qed.

Lemma in_status_map l (st : NodeModuleStatus) :
  NoDup (nmst_key <$> l) → st ∈ l → status_map l !! nmst_key st = Some st.
Proof. intros Hnd Hst. by apply keyed_map_elem. Qed.

(** The entry of a module that is gone, on a node that was not restarted. *)
Lemma orphan_safe s n st node :
  obj_key KNMC n = obj_key KNMC (cl_nmc s) → IsNodeRebooted node (nmst_BootId st) = false →
  only_calls (safe_call s) (ProcessUnconfiguredModuleStatus workerCfg workerImage n st node) ∧
  wp (ProcessUnconfiguredModuleStatus workerCfg workerImage n st node) (λ _ r, r.1 = n).
Proof.
  intros Hn Er. split; (eapply wp_mono; [|apply ProcessUnconfiguredModuleStatus_wp]); intros tr r; rewrite Er; [|by intros [? _]].
  intros (_ & a & rest & -> & H). constructor; [done|].
  destruct (pod_answer a); [|by destruct H as [-> _]]. destruct H as (i & _ & Hcar). by eapply carries_out_safe.
Qed.

Lemma orphan_swp s0 s n st node :
  NoDup (nmst_key <$> nmc_status_Modules (cl_nmc s0)) → keeps s0 s → local_view s0 n →
  (IsNodeRebooted node (nmst_BootId st) = true → ¬ recorded s0 (nmst_key st)) →
  swp serves (keeps s0) (ProcessUnconfiguredModuleStatus workerCfg workerImage n st node)
    (λ r s', local_view s0 r.1) s.
Proof.
  intros Hnd Hs Hn Hst. destruct (IsNodeRebooted node (nmst_BootId st)) eqn:Er.
  - unfold ProcessUnconfiguredModuleStatus. rewrite Er. pose proof (remove_unrecorded s0 n st Hn (Hst eq_refl)) as Hnew.
    apply swp_bind, swp_call; [done|]. intros x s' Hx.
    apply (status_patch_keeps s0) in Hx as [Hs' Hv]; [|done..]. split; [done|].
    destruct x as [n'|e]; cbn; split; auto.
  - destruct (orphan_safe s0 n st node (lv_key _ _ Hn) Er) as [Hc Hr].
    eapply swp_mono; [|apply (swp_wp _ _ _ (λ r, r.1 = n)); [exact Hr|by apply swp_safe]].
    intros r s' _ [-> _]. done.
Qed.

Lemma reconcile_finish_safe s n node errs :
  obj_key KNMC n = obj_key KNMC (cl_nmc s) → obj_key KNode node = obj_key KNode (cl_node s) →
  only_calls (safe_call s) (reconcile_finish n node errs).
Proof.
  intros Hn Hnode. unfold reconcile_finish. apply only_calls_bind.
  { unfold GarbageCollectInUseLabels, ListWorkerPodsOnNode, list_all, patch, perform. only_calls; done. }
  intros [n' err]. apply only_calls_bind.
  { unfold GarbageCollectWorkerPods, ListWorkerPodsOnNode, list_all, patch, perform. only_calls; done. }
  intros err'. apply only_calls_bind.
  { unfold UpdateNodeLabels. apply only_calls_bind; [|intros []; apply only_calls_ret].
    eapply wp_mono; [|apply UpdateLabels_wp]. cbv zeta. intros tr r [Htr _]. apply Forall_obs_call. rewrite Htr.
    case_decide; repeat constructor; done. }
  intros [node' [[loaded unloaded]|e]]; [|apply only_calls_ret].
  unfold RecordEvents, record_event. only_calls; done.
Qed.

(** An entry that calls for a restart is not of the current boot. *)
Lemma rebooted_unrecorded s n node (st : NodeModuleStatus) :
  local_view s n → ni_BootID (node_NodeInfo node) = boot s → IsNodeRebooted node (nmst_BootId st) = true →
  st ∈ nmc_status_Modules n → ¬ recorded s (nmst_key st).
Proof.
  intros Hn Hboot [Hr _]%IsNodeRebooted_spec Hin Hrec. apply (lv_recorded _ _ Hn) in Hrec. unfold recorded_in in Hrec.
  rewrite (in_status_map _ _ (lv_status _ _ Hn) Hin) in Hrec. simpl in Hrec. congruence.
Qed.

Lemma reconcile_modules_swp s n node :
  NoDup (nmst_key <$> nmc_status_Modules (cl_nmc s)) → local_view s n →
  obj_key KNode node = obj_key KNode (cl_node s) → ni_BootID (node_NodeInfo node) = boot s →
  swp serves (keeps s) (reconcile_modules workerCfg workerImage n node) (λ _ _, True) s.
Proof.
  intros Hnd Hn Hnode Hboot. unfold reconcile_modules. apply swp_bind.
  eapply swp_mono; [|apply spec_loop_swp; [reflexivity|apply Hn]].
  intros st s1 H1 [Hst _]. apply swp_bind.
  eapply swp_mono; [|apply (swp_for_range _ _ _ (λ l acc _, local_view s acc.1 ∧
    ∀ kx, kx ∈ l → kx.2 ∈ nmc_status_Modules n)); [done| |]].
  - intros [n' errs] s2 H2 [Hn' _]. simpl in Hn'.
    eapply swp_mono; [|apply (swp_safe s s2); [done|]]; [done|].
    case_bool_decide; [|by apply reconcile_finish_safe; [apply Hn'|]].
    apply only_calls_bind; [|intros []; apply only_calls_ret].
    eapply wp_mono; [|apply UpdateLabels_wp]. cbv zeta. intros tr r [Htr _]. apply Forall_obs_call. rewrite Htr.
    case_decide; repeat constructor; done.
  - split; [done|]. intros [key x] Hx%elem_of_range_map. by eapply Hst.
  - intros [key x] l [n' errs] s2 H2 [Hn' Hl]. unfold reconcile_orphan. apply swp_bind.
    eapply swp_mono; [|apply (orphan_swp s); [done..|]].
    + intros [n2 err] s3 H3 Hn2. apply swp_ret; [done|]. split; [done|]. intros kx Hkx. apply Hl. by right.
    + intros Hr. apply (rebooted_unrecorded s n node); [done..|]. apply (Hl (key, x)). left.
Qed.

(** The two reads a pass starts with. *)
Lemma serves_get_nmc L s (x : result NodeModulesConfig) s' :
  serves s (Get KNMC (nsn "" (node_name s))) x s' → consistent L s →
  s' = s ∧ ((∃ e, x = Err e ∧ IsNotFound e = false) ∨ x = Ok (cl_nmc s)).
Proof.
  intros Hx H. destruct Hx as [[-> ->]|[He Hs]]; [rewrite decide_True by (by rewrite (co_nmc _ _ H)); by auto|].
  split; [|by left]. by destruct Hs as [->|[x' [-> _]]].
Qed.

Lemma serves_get_node L s (x : result Node) s' :
  serves s (Get KNode (nsn "" (node_name s))) x s' → consistent L s →
  s' = s ∧ ((∃ e, x = Err e) ∨ x = Ok (cl_node s)).
Proof.
  intros Hx H. destruct Hx as [[-> ->]|[(e & -> & _) Hs]]; [rewrite decide_True by (by rewrite (co_node _ _ H)); by auto|].
  split; [|eauto]. by destruct Hs as [->|[x' [-> _]]].
Qed.

(** Whatever fails and wherever it is cut short, a pass keeps the invariant. *)
Lemma NMC_Reconcile_swp L s :
  consistent L s →
  swp serves (consistent L) (NMC_Reconcile workerCfg workerImage (nsn "" (node_name s))) (λ _ _, True) s.
Proof.
  intros H. unfold NMC_Reconcile. apply swp_bind, swp_call; [done|]. intros x s1 [-> Hx]%(serves_get_nmc L); [|done].
  split; [done|]. destruct Hx as [(e & -> & ->)| ->]; [done|].
  apply swp_bind, swp_call; [done|]. intros x s1 [-> Hx]%(serves_get_node L); [|done].
  split; [done|]. destruct Hx as [[e ->]| ->]; [done|].
  apply swp_bind. eapply swp_mono; [|by apply SyncStatus_swp].
  intros [n err] s1 H1 Hpost. destruct err as [e|]; [by apply swp_ret|].
  destruct (Hpost eq_refl) as (Hu & Hv & Hnode & Hb). simpl in Hv.
  apply (swp_weaken _ (keeps s1)); [by intros s2; apply keeps_consistent|].
  apply reconcile_modules_swp; [apply H1|done..].
Qed.

(** ** The system *)

(** The store, and the modules loaded in the running kernel. *)
Record world := { w_store : cluster; w_loaded : gset NamespacedName }.

Inductive event :=
| EPass
| ESpec
| ENode
| EReport
| EDone (p : Pod)
| EDelete
| EGone
| EReboot.

Definition with_status p (st : PodStatus) : Pod :=
  {| pod_meta := pod_meta p; pod_spec := pod_spec p; pod_status := st |}.

Definition set_pod s (key : NamespacedName) p : cluster := set_pods s (<[key := p]> (cl_pods s)).

Lemma set_pod_lookup s key p key' q :
  cl_pods (set_pod s key p) !! key' = Some q ↔ (key = key' ∧ p = q) ∨ (key ≠ key' ∧ cl_pods s !! key' = Some q).
Proof. apply lookup_insert_Some. Qed.

(** What a successful worker does to the kernel: the loader ends with a successful modprobe of
    the module, the unloader with a successful removal ([Worker.LoadKmod_follows_script],
    [Worker.UnloadKmod_follows_script]). *)
Definition worker_effect p L : gset NamespacedName :=
  if IsUnloaderPod (Some p) then L ∖ {[pod_module p]} else L ∪ {[pod_module p]}.

Inductive step : event → world → world → Prop :=
| step_pass s L s' o :
    steps serves s (NMC_Reconcile workerCfg workerImage (nsn "" (node_name s))) s' o →
    step EPass {| w_store := s; w_loaded := L |} {| w_store := s'; w_loaded := L |}
| step_spec s L n :
    obj_key KNMC n = obj_key KNMC (cl_nmc s) → nmc_status_Modules n = nmc_status_Modules (cl_nmc s) →
    step ESpec {| w_store := s; w_loaded := L |} {| w_store := set_nmc s n; w_loaded := L |}
| step_node s L node :
    obj_key KNode node = obj_key KNode (cl_node s) → ni_BootID (node_NodeInfo node) = boot s →
    step ENode {| w_store := s; w_loaded := L |} {| w_store := set_node s node; w_loaded := L |}
| step_report s L key p st :
    cl_pods s !! key = Some p → finished p = false → pst_Phase st ≠ PodSucceeded →
    step EReport {| w_store := s; w_loaded := L |} {| w_store := set_pod s key (with_status p st); w_loaded := L |}
| step_done s L key p st :
    cl_pods s !! key = Some p → finished p = false → pst_Phase st = PodSucceeded →
    step (EDone p) {| w_store := s; w_loaded := L |}
      {| w_store := set_pod s key (with_status p st); w_loaded := worker_effect p L |}
| step_delete s L key p t s' :
    cl_pods s !! key = Some p → stores_pod s key (pod_terminating p t) s' →
    step EDelete {| w_store := s; w_loaded := L |} {| w_store := s'; w_loaded := L |}
| step_gone s L key p :
    cl_pods s !! key = Some p → om_Finalizers (pod_meta p) = [] →
    step EGone {| w_store := s; w_loaded := L |} {| w_store := set_pods s (delete key (cl_pods s)); w_loaded := L |}
| step_reboot s L node :
    obj_key KNode node = obj_key KNode (cl_node s) →
    Forall (λ st, nmst_BootId st ≠ ni_BootID (node_NodeInfo node)) (nmc_status_Modules (cl_nmc s)) →
    step EReboot {| w_store := s; w_loaded := L |} {| w_store := set_node s node; w_loaded := ∅ |}.

(** Two orders of events are left out: a worker that ends after its pod was released from the
    controller's finalizer, and a reboot before the success of a loader was recorded. *)
Definition orderly (e : event) (w : world) : Prop :=
  match e with
  | EDone p => held p
  | EReboot => ∀ k, ¬ worker_done (w_store w) false k
  | _ => True
  end.

Definition orderly_step (w w' : world) : Prop := ∃ e, orderly e w ∧ step e w w'.

(** A node the operator has not worked on. *)
Definition initial (w : world) : Prop :=
  let s := w_store w in
  obj_key KNode (cl_node s) = nsn "" (node_name s) ∧ obj_key KNMC (cl_nmc s) = nsn "" (node_name s) ∧
  nmc_status_Modules (cl_nmc s) = [] ∧ cl_pods s = ∅ ∧ w_loaded w = ∅.

Lemma initial_consistent w : initial w → consistent (w_loaded w) (w_store w).
Proof.
  intros (H1 & H2 & H3 & H4 & H5). rewrite H5.
  assert (∀ k, ¬ recorded (w_store w) k) as Hr by (intros k; unfold recorded; rewrite H3; by intros [=]).
  assert (∀ u k, ¬ worker_done (w_store w) u k) as Hd by (intros u k (p & E & _); rewrite H4 in E; by rewrite lookup_empty in E).
  assert (∀ key p, cl_pods (w_store w) !! key ≠ Some p) as Hp by (intros key p; by rewrite H4, lookup_empty).
  split; [done..|rewrite H3; constructor| | | | | |].
  - by intros key p []%Hp.
  - by intros k []%Hd.
  - by intros k []%Hd.
  - by intros k []%Hr.
  - set_solver.
  - by intros key p []%Hp.
Qed.

(** ** Every step keeps the invariant *)

(** The worker pods after one of them changed its status. *)
Lemma set_pod_done s key p st u k :
  (∀ key p, cl_pods s !! key = Some p → worker_pod (node_name s) key p) →
  cl_pods s !! key = Some p → finished p = false →
  worker_done (set_pod s key (with_status p st)) u k ↔
  if decide (k = pod_module p) then pst_Phase st = PodSucceeded ∧ IsUnloaderPod (Some p) = u
  else worker_done s u k.
Proof.
  intros Hw Hp Hf. pose proof (wk_module _ _ _ (Hw _ _ Hp)) as Hkey.
  unfold worker_done, node_name. simpl. fold (node_name s).
  destruct (decide (k = pod_module p)) as [->|Hne].
  - rewrite <-Hkey, lookup_insert_eq. split.
    + intros (q & [= <-] & ? & ?). done.
    + intros [??]. by eexists.
  - rewrite lookup_insert_ne; [done|]. rewrite Hkey. intros E%worker_key_inj. done.
Qed.

Lemma with_status_worker_pod n key p st : worker_pod n key p → worker_pod n key (with_status p st).
Proof. intros []. by split. Qed.

(** What a change of one pod's status leaves alone. *)
Lemma set_pod_pods L s key p st :
  consistent L s → cl_pods s !! key = Some p →
  let s' := set_pod s key (with_status p st) in
  (∀ key' q, cl_pods s' !! key' = Some q → worker_pod (node_name s) key' q) ∧
  ((pst_Phase st = PodSucceeded → held p) → ∀ key' q, cl_pods s' !! key' = Some q → pod_Phase q = PodSucceeded →
     ¬ held q → outcome_recorded s' q).
Proof.
  intros H Hp. cbv zeta. split.
  - intros key' q [[<- <-]|[_ E]]%set_pod_lookup; [apply with_status_worker_pod|]; by apply (co_pods _ _ H).
  - intros Hh key' q [[<- <-]|[_ E]]%set_pod_lookup Hph Hn; [by destruct Hn; apply Hh|].
    by apply (co_released _ _ H _ _ E).
Qed.

Lemma step_report_consistent L s key p st :
  consistent L s → cl_pods s !! key = Some p → finished p = false → pst_Phase st ≠ PodSucceeded →
  consistent L (set_pod s key (with_status p st)).
Proof.
  intros H Hp Hf Hst. destruct (set_pod_pods _ _ _ _ st H Hp) as [Hw Hr].
  assert (∀ u, ¬ worker_done s u (pod_module p)) as Hno.
  { intros u (q & E & Hph & _). rewrite <-(wk_module _ _ _ (co_pods _ _ H _ _ Hp)) in E.
    unfold finished in Hf. assert (q = p) as -> by congruence. by rewrite Hph in Hf. }
  assert (∀ u k, worker_done (set_pod s key (with_status p st)) u k ↔ worker_done s u k) as Hd.
  { intros u k. rewrite set_pod_done; [|apply H|done|done]. destruct (decide (k = pod_module p)) as [->|]; [|done].
    split; [by intros [??]|by intros ?%Hno]. }
  split; try apply H; try done.
  - intros k Hk%Hd. by apply H.
  - intros k Hk%Hd. by apply H.
  - intros k Hk. rewrite Hd. by apply H.
  - intros k Hk. rewrite Hd. by apply H.
  - by apply Hr.
Qed.

Lemma step_done_consistent L s key p st :
  consistent L s → cl_pods s !! key = Some p → finished p = false → pst_Phase st = PodSucceeded → held p →
  consistent (worker_effect p L) (set_pod s key (with_status p st)).
Proof.
  intros H Hp Hf Hst Hh. destruct (set_pod_pods _ _ _ _ st H Hp) as [Hw Hr].
  assert (∀ u k, worker_done (set_pod s key (with_status p st)) u k ↔
    if decide (k = pod_module p) then IsUnloaderPod (Some p) = u else worker_done s u k) as Hd.
  { intros u k. rewrite set_pod_done; [|apply H|done|done]. destruct (decide _); tauto. }
  assert (∀ k, k ∈ worker_effect p L ↔
    if decide (k = pod_module p) then IsUnloaderPod (Some p) = false else k ∈ L) as HL.
  { intros k. unfold worker_effect. destruct (IsUnloaderPod (Some p)), (decide (k = pod_module p)); set_solver. }
  pose proof (co_loaded _ _ H) as H1. pose proof (co_unloaded _ _ H) as H2.
  pose proof (co_recorded _ _ H) as H3. pose proof (co_accounted _ _ H) as H4.
  split; try apply H; try done; [..|by apply Hr].
  all: intros k; rewrite ?Hd, ?HL; destruct (decide (k = pod_module p)) as [->|]; auto.
  all: try (change (recorded (set_pod s key (with_status p st))) with (recorded s); auto).
  - congruence.
  - intros _. destruct (IsUnloaderPod (Some p)); auto.
Qed.

(** A pod that the controller released may go. *)
Lemma remove_released_consistent L s key p :
  consistent L s → cl_pods s !! key = Some p → ¬ held p →
  consistent L (set_pods s (delete key (cl_pods s))).
Proof.
  intros H Hp Hh. set (s' := set_pods _ _). pose proof (wk_module _ _ _ (co_pods _ _ H _ _ Hp)) as Hkey.
  assert (∀ u k, worker_done s u k → worker_done s' u k ∨
    (k = pod_module p ∧ if u then ¬ recorded s k else recorded s k)) as Hd.
  { intros u k (q & E & Hph & Hu). destruct (decide (worker_key (node_name s) k = key)) as [Hk|Hk].
    - right. rewrite Hk in E. assert (q = p) as -> by congruence. rewrite Hkey in Hk. apply worker_key_inj in Hk as ->.
      split; [done|]. pose proof (co_released _ _ H _ _ Hp Hph Hh) as Ho. unfold outcome_recorded in Ho. by rewrite Hu in Ho.
    - left. exists q. split; [|done]. by apply lookup_delete_Some. }
  assert (∀ u k, worker_done s' u k → worker_done s u k) as Hd'.
  { intros u k (q & E & Hq). exists q. split; [|done]. unfold s' in E. simpl in E.
    by apply lookup_delete_Some in E as [_ E]. }
  split; try apply H; unfold s'; simpl.
  - intros key' q [_ E]%lookup_delete_Some. by apply (co_pods _ _ H).
  - intros k Hk%Hd'. by apply H.
  - intros k Hk%Hd'. by apply H.
  - intros k Hk. destruct (co_recorded _ _ H k Hk) as [|Hdone]; [by left|].
    destruct (Hd _ _ Hdone) as [|[_ Hn]]; [by right|done].
  - intros k Hk. destruct (co_accounted _ _ H k Hk) as [|Hdone]; [by left|].
    destruct (Hd _ _ Hdone) as [|[_ Hn]]; [by right|by left].
  - intros key' q [_ E]%lookup_delete_Some. exact (co_released _ _ H _ _ E).
Qed.

Lemma terminating_consistent L s key p t :
  consistent L s → cl_pods s !! key = Some p → consistent L (set_pod s key (pod_terminating p t)).
Proof.
  intros H Hp.
  assert (∀ key' q, cl_pods (set_pod s key (pod_terminating p t)) !! key' = Some q →
    ∃ q0, cl_pods s !! key' = Some q0 ∧ alike q0 q ∧ (held q ↔ held q0)) as Hq.
  { intros key' q [[<- <-]|[_ E]]%set_pod_lookup; [by exists p|by exists q]. }
  assert (∀ u k, worker_done (set_pod s key (pod_terminating p t)) u k ↔ worker_done s u k) as Hd.
  { intros u k. unfold worker_done, node_name. simpl. fold (node_name s).
    destruct (decide (key = worker_key (node_name s) k)) as [<-|Hne]; [|by rewrite lookup_insert_ne].
    rewrite lookup_insert_eq, Hp. split; intros (q & [= <-] & Hq'); by eexists. }
  split; try apply H.
  - intros key' q (q0 & E & Ha & _)%Hq. pose proof (alike_module _ _ Ha) as Hm.
    change (worker_pod (node_name s) key' q). destruct (co_pods _ _ H _ _ E), Ha. split; congruence.
  - intros k Hk%Hd. by apply H.
  - intros k Hk%Hd. by apply H.
  - intros k Hk. rewrite Hd. by apply H.
  - intros k Hk. rewrite Hd. by apply H.
  - intros key' q (q0 & E & Ha & Hh)%Hq Hph Hn. rewrite Hh in Hn.
    assert (pod_Phase q0 = PodSucceeded) as Hph0 by (unfold pod_Phase in *; by rewrite <-(al_status _ _ Ha)).
    pose proof (co_released _ _ H _ _ E Hph0 Hn) as Ho. unfold outcome_recorded in *.
    by rewrite (alike_unloader _ _ Ha), (alike_module _ _ Ha).
Qed.

Lemma not_recorded_fresh s node k :
  Forall (λ st, nmst_BootId st ≠ ni_BootID (node_NodeInfo node)) (nmc_status_Modules (cl_nmc s)) →
  ¬ recorded (set_node s node) k.
Proof.
  unfold recorded, recorded_in, boot, status_map. simpl. rewrite keyed_map_lookup. intros Hf Hr.
  destruct (find_first _ _) as [st|] eqn:E; [|done]. apply find_first_Some in E as [E _].
  rewrite Forall_forall in Hf. simpl in Hr. injection Hr as Hr. by apply (Hf st).
Qed.

Lemma step_consistent e w w' :
  orderly e w → step e w w' → consistent (w_loaded w) (w_store w) → consistent (w_loaded w') (w_store w').
Proof.
  intros Ho Hs. destruct Hs; simpl in *; intros Hc.
  - by eapply swp_sound in H as [? _]; [|by apply NMC_Reconcile_swp].
  - assert (node_name (set_nmc s n) = node_name s) as Hn by exact (f_equal nsn_Name H).
    assert (∀ u k, worker_done (set_nmc s n) u k = worker_done s u k) as Hd by (intros u k; unfold worker_done; by rewrite Hn).
    assert (∀ k, recorded (set_nmc s n) k = recorded s k) as Hr by (intros k; unfold recorded; simpl; by rewrite H0).
    assert (∀ p, outcome_recorded (set_nmc s n) p = outcome_recorded s p) as Hout
      by (intros p; unfold outcome_recorded; by rewrite Hr).
    destruct Hc. split; rewrite ?Hn; simpl; try (setoid_rewrite Hd); try (setoid_rewrite Hr); try (setoid_rewrite Hout); try done; congruence.
  - assert (∀ k, recorded (set_node s node) k = recorded s k) as Hr
      by (intros k; unfold recorded, boot; simpl; by rewrite H0).
    assert (∀ p, outcome_recorded (set_node s node) p = outcome_recorded s p) as Hout
      by (intros p; unfold outcome_recorded; by rewrite Hr).
    destruct Hc. split; try (setoid_rewrite Hr); try (setoid_rewrite Hout); try done. exact (eq_trans H co_node0).
  - by eapply step_report_consistent.
  - by eapply step_done_consistent.
  - assert (consistent L (set_pod s key (pod_terminating p t))) as H1 by (by apply terminating_consistent).
    unfold stores_pod in H0. simpl in H0. destruct (om_Finalizers (pod_meta p)) eqn:Ef; [|by subst].
    destruct H0 as [->|[_ ->]]; [|done]. eapply remove_released_consistent; [done..|]. unfold held. rewrite Ef. set_solver.
  - eapply remove_released_consistent; [done..|]. unfold held. rewrite H0. set_solver.
  - pose proof (λ k, not_recorded_fresh s node k H0) as Hr.
    destruct Hc. split; try done; simpl; [exact (eq_trans H co_node0)|by intros k Hk; apply Ho in Hk|by intros k Hk%Hr|].
    intros key p E Hph Hh. unfold outcome_recorded. destruct (IsUnloaderPod (Some p)) eqn:Eu; [apply Hr|].
    exfalso. apply (Ho (pod_module p)). exists p. by rewrite <-(wk_module _ _ _ (co_pods0 _ _ E)).
Qed.

Lemma reachable_consistent w0 w : initial w0 → rtc orderly_step w0 w → consistent (w_loaded w) (w_store w).
Proof.
  intros H0%initial_consistent Hr. induction Hr as [w|w w1 w2 (e & Ho & Hs) Hr IH]; [done|].
  apply IH. exact (step_consistent _ _ _ Ho Hs H0).
Qed.

(** C2: along every orderly history of a node that starts untouched (empty status, no worker pods,
    nothing loaded), whatever calls fail, wherever a pass is cut short, however the spec changes
    and the worker pods fare: a module recorded as loaded since the last boot is loaded in the
    kernel, unless its unloader pod has succeeded and waits to be recorded; a loaded module is
    recorded so, unless its loader pod has succeeded and waits to be recorded; and a pod that
    succeeded loses the controller's finalizer only once its outcome is recorded.

    Orderly means [orderly]: no worker succeeds after its pod was released from the finalizer, and
    no reboot comes between the success of a loader and its record.  Both orders can happen, and
    the statement fails after them: [Hazards.late_load_is_forgotten] and
    [Hazards.reboot_before_record_is_missed]. *)
Theorem status_tells_the_truth w0 w :
  initial w0 → rtc orderly_step w0 w →
  let s := w_store w in
  (∀ k, recorded s k → k ∈ w_loaded w ∨ worker_done s true k) ∧
  (∀ k, k ∈ w_loaded w → recorded s k ∨ worker_done s false k) ∧
  (∀ key p, cl_pods s !! key = Some p → pod_Phase p = PodSucceeded → held p ∨ outcome_recorded s p).
Proof.
  intros H0 Hr. pose proof (reachable_consistent _ _ H0 Hr) as H.
  split_and!; [apply H|apply H|]. intros key p E Hph.
  destruct (decide (NodeModulesConfigFinalizer ∈ om_Finalizers (pod_meta p))); [by left|right].
  by apply (co_released _ _ H _ _ E).
Qed.
End rollout.
