(* ===== verification/Converge.v ===== *)
(** * A module of the spec ends up loaded

    The store answers every call ([Cluster.answers]); passes of the NodeModulesConfig
    controller alternate with the worker pod of one module running to success.  The entry of
    that module in the status and its worker pod are followed through whole passes, in which
    the controller also works on all other modules, until nothing is left to do: the module is
    recorded with the configuration of the spec and loaded. *)

From S2P Require Import Prelude Types Kube GoStrings Externals Demo Labels NmcHelper Node WorkerPod NmcReconciler NmcProps NmcLabels Cluster Rollout.

Open Scope string_scope.
Open Scope nat_scope.
Open Scope list_scope.

(** ** The view of one module *)

Section converge.
Context `{EXT : Externals} `{EXTL : !ExternalsLaws} (workerCfg : WorkerConfig) (workerImage : string).
Context (k : NamespacedName) (n0 : NodeModulesConfig) (node0 : Node).
Implicit Types (s : cluster) (p : Pod) (X : option NodeModuleStatus) (P : option Pod).

Definition own_key : NamespacedName := worker_key (nmc_Name n0) k.

(** The fixed part of the store, the module's entry in the status and its worker pod. *)
Record view X P s : Prop := {
  vi_nmc : obj_key KNMC (cl_nmc s) = obj_key KNMC n0;
  vi_spec : nmc_spec_Modules (cl_nmc s) = nmc_spec_Modules n0;
  vi_node : node_set_labels (cl_node s) ∅ = node_set_labels node0 ∅;
  vi_entry : status_map (nmc_status_Modules (cl_nmc s)) !! k = X;
  vi_pod : cl_pods s !! own_key = P;
  vi_pods key p : cl_pods s !! key = Some p → worker_pod (nmc_Name n0) key p;
}.

Notation runs p Q s := (swp answers (λ _, True) p Q s).

Lemma view_set_pods X P P' s m :
  view X P s → m !! own_key = P' →
  (∀ key p, m !! key = Some p → worker_pod (nmc_Name n0) key p) → view X P' (set_pods s m).
Proof. intros [] H1 H2. by split. Qed.

(** A pod that was only relabelled with other finalizers or a deletion time. *)
Lemma alike_worker_pod n key (p q : Pod) : alike p q → worker_pod n key p → worker_pod n key q.
Proof. intros Ha []. pose proof (alike_module _ _ Ha) as Hm. destruct Ha. split; congruence. Qed.

Lemma stores_pod_other X P s key (p q : Pod) s' :
  view X P s → key ≠ own_key → cl_pods s !! key = Some p → alike p q → stores_pod s key q s' → view X P s'.
Proof.
  intros Hv Hne Hp Ha Hs.
  assert (view X P (set_pods s (<[key := q]> (cl_pods s)))) as H1.
  { eapply view_set_pods; [exact Hv|rewrite lookup_insert_ne by done; apply Hv|].
    intros key' p' [[<- <-]|[_ E]]%lookup_insert_Some; [|by apply Hv].
    eapply alike_worker_pod; [exact Ha|]. by apply Hv. }
  assert (view X P (set_pods s (delete key (cl_pods s)))) as H2.
  { eapply view_set_pods; [exact Hv|rewrite lookup_delete_ne by done; apply Hv|].
    intros key' p' [_ E]%lookup_delete_Some. by apply Hv. }
  unfold stores_pod in Hs. destruct (om_DeletionTimestamp _); [|by subst].
  destruct (om_Finalizers _); [|by subst]. by destruct Hs as [->|[_ ->]].
Qed.

(** Removing a pod of another module. *)
Lemma DeletePod_other X P s p :
  view X P s → obj_key KPod p ≠ own_key → runs (DeletePod p) (λ _ s', view X P s') s.
Proof.
  intros Hv Hne. unfold DeletePod, patch. apply swp_bind, swp_bind, swp_call; [done|].
  intros x s1 Hx. split; [done|]. specialize (Hx eq_refl).
  destruct (cl_pods s !! obj_key KPod p) as [q|] eqn:E.
  2:{ destruct Hx as [-> ->]. by repeat (apply swp_ret; [done|]). }
  destruct Hx as [-> Hs]. apply (stores_pod_other X P s _ q) in Hs; [|done..|by split].
  apply swp_ret; [done|]. unfold deletePod. cbn -[swp].
  destruct (om_DeletionTimestamp (pod_meta q)); [by apply swp_ret|].
  apply swp_call; [done|]. intros x s2 Hx. apply swp_ret; [done|].
  simpl in Hx. destruct (cl_pods s1 !! _) as [q1|] eqn:E1; [|by destruct Hx as [-> _]].
  destruct Hx as (_ & t & Ht). eapply (stores_pod_other X P s1 _ q1 (pod_terminating q1 t) s2 Hs); [|exact E1|by split|exact Ht].
  destruct (vi_pods _ _ _ Hv _ _ E) as [Hk _ _ _]. intros Heq. apply Hne. rewrite <-Hk. exact Heq.
Qed.

(** Removing the pod of the module itself, once it has ended and only the controller holds it. *)
Lemma DeletePod_own X p s :
  view X (Some p) s → finished p = true → RemoveFinalizer (om_Finalizers (pod_meta p)) NodeModulesConfigFinalizer = [] →
  runs (DeletePod p) (λ r s', view X None s') s.
Proof.
  intros Hv Hf Hfin. pose proof (vi_pod _ _ _ Hv) as Hp. destruct (vi_pods _ _ _ Hv _ _ Hp) as [Hk _ _ _].
  assert (∀ s, view X (Some p) s → view X None (set_pods s (delete own_key (cl_pods s)))) as Hdel.
  { intros s' Hv'. eapply view_set_pods; [exact Hv'|apply lookup_delete_eq|].
    intros key q [_ E]%lookup_delete_Some. by apply Hv'. }
  unfold DeletePod, patch. rewrite Hfin. apply swp_bind, swp_bind, swp_call; [done|].
  intros x s1 Hx. split; [done|]. specialize (Hx eq_refl). rewrite Hk, Hp in Hx. destruct Hx as [-> Hs].
  apply swp_ret; [done|]. set (q := pod_set_finalizers p _) in *.
  assert (om_Finalizers (pod_meta q) = []) as Hq.
  { unfold q. simpl. unfold merge_list. by destruct (decide _). }
  unfold deletePod. cbn -[swp q]. unfold stores_pod in Hs. rewrite Hq in Hs.
  change (om_DeletionTimestamp (pod_meta q)) with (om_DeletionTimestamp (pod_meta p)) in *.
  destruct (om_DeletionTimestamp (pod_meta p)).
  { apply swp_ret; [done|]. destruct Hs as [->|[Hs _]]; [by apply Hdel|].
    change (finished q) with (finished p) in Hs. congruence. }
  subst s1. apply swp_call; [done|]. intros x s2 Hx. apply swp_ret; [done|].
  simpl in Hx. change (obj_key KPod q) with (obj_key KPod p) in Hx. rewrite Hk, lookup_insert_eq in Hx.
  destruct Hx as (_ & t & Ht). unfold stores_pod in Ht.
  change (om_Finalizers (pod_meta (pod_terminating q t))) with (om_Finalizers (pod_meta q)) in Ht. rewrite Hq in Ht.
  simpl in Ht. destruct Ht as [->|[Ht _]]; [|change (finished p = false) in Ht; congruence].
  rewrite delete_insert_eq. apply (Hdel s Hv).
Qed.

(** ** Synchronising the status *)

Lemma sync_deletes spec node pods st :
  ∃ l, sy_podsToDelete (foldl (sync_pod spec node) st pods) = sy_podsToDelete st ++ l ∧ sublist l pods.
Proof.
  revert st. induction pods as [|p pods IH]; intros st; [exists []; by rewrite app_nil_r|].
  cbn [foldl]. destruct (IH (sync_pod spec node st p)) as (l & -> & Hl).
  assert (sy_podsToDelete (sync_pod spec node st p) = sy_podsToDelete st ∨
          sy_podsToDelete (sync_pod spec node st p) = sy_podsToDelete st ++ [p]) as [-> | ->].
  { unfold sync_pod. destruct (pod_Phase p); auto; [by destruct (_ && _); auto|].
    destruct (IsUnloaderPod (Some p)); [by right|].
    destruct (yaml_UnmarshalStrict_config _ _) as [cfg [e|]]; [by left|].
    destruct (yaml_UnmarshalStrict_tolerations _ _) as [tols [e|]]; [by left|by right]. }
  - exists l. split; [done|]. by apply sublist_cons.
  - exists (p :: l). split; [by rewrite <-app_assoc|]. by apply sublist_skip.
Qed.

(** One pod that succeeded, when its annotations decode. *)
Lemma sync_pod_succeeded spec node st p :
  pod_Phase p = PodSucceeded → errors_Join (sy_errs (sync_pod spec node st p)) = None →
  p ∈ sy_podsToDelete (sync_pod spec node st p) ∧
  let after := status_map (sy_statuses (sync_pod spec node st p)) !! pod_module p in
  if IsUnloaderPod (Some p) then after = None
  else ∀ c, yaml_Marshal_config c = Ok (GetConfigAnnotation (Some p)) →
    let old := default empty_config (nmst_Config <$> status_map (sy_statuses st) !! pod_module p) in
    ∃ e, after = Some e ∧ nmst_Config e = overlay_config old c ∧ nmst_BootId e = ni_BootID (node_NodeInfo node).
Proof.
  intros Hph. unfold sync_pod. rewrite Hph. set (found := FindModuleStatus _ _ _).
  assert (found = status_map (sy_statuses st) !! pod_module p) as Hfound by apply FindModuleStatus_lookup.
  destruct (IsUnloaderPod (Some p)).
  { simpl. intros _. split; [set_solver|]. rewrite status_map_remove. apply lookup_delete_eq. }
  destruct (yaml_UnmarshalStrict_config _ _) as [cfg [e|]] eqn:Ec; [by intros [_ ?]%errors_Join_app|].
  destruct (yaml_UnmarshalStrict_tolerations _ _) as [tols [e|]]; [by intros [_ ?]%errors_Join_app|].
  intros _. cbv zeta. split; [simpl; set_solver|]. intros c Hc. rewrite (yaml_config_into _ _ _ Hc) in Ec.
  injection Ec as <-. eexists. split; [|split].
  - simpl. rewrite status_map_set.
    change (nmst_key (status_from_pod p node (status_with_tolerations (status_with_config ?x _) tols))) with (nmst_key x).
    assert (nmst_key (default (new_status (pod_Namespace p) (map_get (pod_Labels p) constants.ModuleNameLabel)) found) = pod_module p) as ->.
    { destruct found as [s0|] eqn:E; [|done]. by apply found_key in E. }
    by rewrite lookup_insert_eq.
  - simpl. rewrite <-Hfound. by destruct found.
  - done.
Qed.

(** A worker pod that has ended well and that nothing but the controller holds. *)
Definition ended p : Prop :=
  pod_Phase p = PodSucceeded ∧ RemoveFinalizer (om_Finalizers (pod_meta p)) NodeModulesConfigFinalizer = [] ∧
  (IsUnloaderPod (Some p) = false → ∃ c, yaml_Marshal_config c = Ok (GetConfigAnnotation (Some p))).

Definition idle P : Prop := match P with None => True | Some p => ended p end.

(** The entry after the outcome of the pod was recorded. *)
Definition entry_after X P X' : Prop :=
  match P with
  | None => X' = X
  | Some p =>
      if IsUnloaderPod (Some p) then X' = None
      else ∀ c, yaml_Marshal_config c = Ok (GetConfigAnnotation (Some p)) →
        ∃ e, X' = Some e ∧ nmst_Config e = overlay_config (default empty_config (nmst_Config <$> X)) c ∧
             nmst_BootId e = ni_BootID (node_NodeInfo node0)
  end.

Lemma sync_loop_view nmcObj node pods P :
  NoDup (pod_module <$> pods) → ni_BootID (node_NodeInfo node) = ni_BootID (node_NodeInfo node0) →
  (∀ p, p ∈ pods ∧ pod_module p = k ↔ P = Some p) → idle P →
  let st := sync_loop nmcObj node pods in
  errors_Join (sy_errs st) = None →
  entry_after (status_map (nmc_status_Modules nmcObj) !! k) P (status_map (sy_statuses st) !! k) ∧
  sublist (sy_podsToDelete st) pods ∧ (∀ p, P = Some p → p ∈ sy_podsToDelete st).
Proof.
  intros Hnd Hb HP Hi st Hst. set (spec := list_to_set (C := gset NamespacedName) (nms_key <$> nmc_spec_Modules nmcObj)).
  assert (sublist (sy_podsToDelete st) pods) as Hsub.
  { unfold st, sync_loop. destruct (sync_deletes spec node pods
      {| sy_statuses := nmc_status_Modules nmcObj; sy_errs := []; sy_podsToDelete := [] |}) as (l & E & Hl).
    fold spec. rewrite E. exact Hl. }
  destruct P as [p|].
  2:{ split; [|done]. simpl. unfold st, sync_loop. rewrite sync_pods_other; [done|]. apply Forall_forall. intros q Hq Hm.
      discriminate (proj1 (HP q) (conj Hq Hm)). }
  destruct (proj2 (HP p) eq_refl) as [Hin Hm]. apply list_elem_of_split in Hin as (pre & post & ->).
  rewrite fmap_app, fmap_cons in Hnd. apply NoDup_app in Hnd as (_ & Hpre & [Hpost _]%NoDup_cons).
  unfold st, sync_loop in *. fold spec in Hst, Hsub |- *. rewrite foldl_app in Hst, Hsub |- *. cbn [foldl] in Hst, Hsub |- *.
  set (st1 := foldl _ _ pre) in *.
  assert (status_map (sy_statuses st1) !! k = status_map (nmc_status_Modules nmcObj) !! k) as Hst1.
  { unfold st1. rewrite sync_pods_other; [done|]. apply Forall_forall. intros q Hq Heq.
    eapply Hpre; [by apply list_elem_of_fmap_2|]. rewrite Heq, Hm. by left. }
  destruct Hi as (Hph & _ & _). apply sync_pods_errs in Hst.
  destruct (sync_pod_succeeded spec node st1 p Hph Hst) as [Hdel Hafter]. split_and!.
  - rewrite sync_pods_other.
    2:{ apply Forall_forall. intros q Hq Heq. apply Hpost. rewrite Hm, <-Heq. by apply list_elem_of_fmap_2. }
    cbv zeta in Hafter. rewrite Hm, Hst1, Hb in Hafter. exact Hafter.
  - done.
  - intros q [= <-]. destruct (sync_deletes spec node post (sync_pod spec node st1 p)) as (l & -> & _). set_solver.
Qed.

(** A NodeModulesConfig in the memory of the controller. *)
Record agrees X (n : NodeModulesConfig) : Prop := {
  ag_key : obj_key KNMC n = obj_key KNMC n0;
  ag_spec : nmc_spec_Modules n = nmc_spec_Modules n0;
  ag_entry : status_map (nmc_status_Modules n) !! k = X;
}.

(** Names as Kubernetes accepts them: a namespace has no slash. *)
Definition named_statuses (l : list NodeModuleStatus) : Prop :=
  NoDup (nmst_key <$> l) ∧ ∀ e, e ∈ l → re_ns (mi_Namespace (nmst_item e)) = true.
Definition named_pods s : Prop := ∀ key p, cl_pods s !! key = Some p → re_ns (pod_Namespace p) = true.

Lemma synced_named s pods :
  listed s pods → named_statuses (nmc_status_Modules (cl_nmc s)) → named_pods s →
  named_statuses (nmc_status_Modules (synced (cl_nmc s) (cl_node s) pods)).
Proof.
  intros Hl [Hnd Hn] Hp. assert (NoDup (nmst_key <$> nmc_status_Modules (synced (cl_nmc s) (cl_node s) pods))) as Hnd'
    by by apply sync_NoDup.
  split; [done|]. intros e He. pose proof (in_status_map _ _ Hnd' He) as Hm.
  destruct (decide (nmst_key e ∈ pod_module <$> pods)) as [Hin|Hout].
  - apply list_elem_of_fmap in Hin as (p & Hkey & (key & E)%(listed_elem _ _ _ Hl)).
    change (mi_Namespace (nmst_item e)) with (nsn_Namespace (nmst_key e)). rewrite Hkey. by eapply Hp.
  - simpl in Hm. unfold sync_loop in Hm. rewrite sync_pods_other in Hm.
    2:{ apply Forall_forall. intros q Hq Heq. apply Hout. rewrite <-Heq. by apply list_elem_of_fmap_2. }
    simpl in Hm. unfold status_map in Hm. rewrite keyed_map_lookup in Hm. apply find_first_Some in Hm as [Hm _]. by apply Hn.
Qed.

Lemma ag_name X n : agrees X n → nmc_Name n = nmc_Name n0.
Proof. intros H. exact (f_equal nsn_Name (ag_key _ _ H)). Qed.

(** Removing the pods that the synchronisation found to have ended. *)
Lemma delete_loop_view X P s pods l :
  idle P → (∀ p, p ∈ pods ∧ pod_module p = k ↔ P = Some p) →
  (∀ p, p ∈ pods → worker_pod (nmc_Name n0) (obj_key KPod p) p) →
  NoDup (pod_module <$> pods) → sublist l pods → (∀ p, P = Some p → p ∈ l) → view X P s →
  runs (for_range l (λ p errs, err ← DeletePod p; mret (errs ++ [err])) []) (λ _ s', view X None s') s.
Proof.
  intros Hi HP Hw Hnd Hsub Hin Hv.
  eapply swp_mono; [|apply (swp_for_range _ _ _ (λ l _ s', NoDup (pod_module <$> l) ∧ l ⊆ pods ∧
    ((∃ p, P = Some p ∧ p ∈ l ∧ view X P s') ∨ ((∀ p, P = Some p → p ∉ l) ∧ view X None s'))))]; [|done|..].
  - intros errs s' _ (_ & _ & [(p & _ & Hp & _)|[_ H]]); [by apply elem_of_nil in Hp|done].
  - split_and!; [by eapply sublist_NoDup; [|apply fmap_sublist]|intros p Hp; by eapply elem_of_sublist|].
    destruct P as [p|]; [left; by eauto|right; done].
  - intros a l' errs s' _ (Hndl & Hl & Hor). rewrite fmap_cons in Hndl. apply NoDup_cons in Hndl as [Ha Hndl].
    assert (pod_module a = k → P = Some a) as Hak by (intros E; apply HP; split; [apply Hl; left|done]).
    assert (pod_module a ≠ k → obj_key KPod a ≠ own_key) as Hother.
    { intros Hne Heq. destruct (Hw a (Hl a (list_elem_of_here _ _))) as [_ Hkey _ _]. rewrite Heq in Hkey.
      by apply worker_key_inj in Hkey. }
    assert (l' ⊆ pods) as Hl' by set_solver.
    apply swp_bind. destruct Hor as [(p & -> & Hp & Hv')|[Hno Hv']].
    + apply elem_of_cons in Hp as [->|Hp].
      * destruct Hi as (Hph & Hfin & _). eapply swp_mono; [|apply DeletePod_own; [done|by unfold finished; rewrite Hph|done]].
        intros r s2 _ H2. apply swp_ret; [done|]. split_and!; [done..|]. right. split; [|done].
        intros q [= <-] Hq. apply Ha. by apply list_elem_of_fmap_2.
      * eapply swp_mono; [|apply (DeletePod_other X (Some p)); [done|]].
        -- intros r s2 _ H2. apply swp_ret; [done|]. split_and!; [done..|]. left. by exists p.
        -- apply Hother. intros E. assert (a = p) as -> by (specialize (Hak E); congruence).
           apply Ha. by apply list_elem_of_fmap_2.
    + eapply swp_mono; [|apply (DeletePod_other X None); [done|]].
      * intros r s2 _ H2. apply swp_ret; [done|]. split_and!; [done..|]. right. split; [set_solver|done].
      * apply Hother. intros E. apply (Hno a); [by apply Hak|left].
Qed.

Lemma listed_own X P s pods p :
  view X P s → listed s pods → p ∈ pods ∧ pod_module p = k ↔ P = Some p.
Proof.
  intros Hv Hl. rewrite (listed_elem _ _ _ Hl), <-(vi_pod _ _ _ Hv). split.
  - intros [(key & E) Hm]. rewrite (wk_module _ _ _ (vi_pods _ _ _ Hv _ _ E)), Hm in E. exact E.
  - intros E. split; [eauto|]. exact (pod_of_module _ _ _ (vi_pods _ _ _ Hv _ _ E)).
Qed.

Lemma view_boot X P s : view X P s → ni_BootID (node_NodeInfo (cl_node s)) = ni_BootID (node_NodeInfo node0).
Proof. intros H. exact (f_equal (λ n, ni_BootID (node_NodeInfo n)) (vi_node _ _ _ H)). Qed.

Lemma view_node_key X P s : view X P s → obj_key KNode (cl_node s) = obj_key KNode node0.
Proof. intros H. exact (f_equal (obj_key KNode) (vi_node _ _ _ H)). Qed.

Lemma view_name X P s : view X P s → nmc_Name (cl_nmc s) = nmc_Name n0.
Proof. intros H. exact (f_equal nsn_Name (vi_nmc _ _ _ H)). Qed.

(** A successful synchronisation records the outcome of the module's pod and removes it. *)
Lemma SyncStatus_view X P s :
  view X P s → idle P → named_statuses (nmc_status_Modules (cl_nmc s)) → named_pods s →
  runs (SyncStatus (cl_nmc s) (cl_node s)) (λ r s', r.2 = None →
    ∃ X', entry_after X P X' ∧ view X' None s' ∧ agrees X' r.1 ∧ named_statuses (nmc_status_Modules r.1)) s.
Proof.
  intros Hv Hi Hnd Hnp. unfold SyncStatus, ListWorkerPodsOnNode. rewrite (view_name _ _ _ Hv).
  apply swp_bind, swp_bind, swp_call; [done|]. intros x s1 [-> (pods & -> & Hl)].
  apply (listing_all (nmc_Name n0)) in Hl; [|apply Hv]. split; [done|]. apply swp_ret; [done|].
  pose proof (λ p, listed_own _ _ _ _ p Hv Hl) as HP.
  cbn -[swp sync_loop DeletePod]. destruct pods as [|p0 pods0]; [|set (pods := p0 :: pods0) in *].
  { apply swp_ret; [done|]. intros _. assert (P = None) as ->.
    { destruct P as [p|]; [|done]. destruct (proj2 (HP p) eq_refl) as [Hp _]. by apply elem_of_nil in Hp. }
    exists X. split_and!; try done. by split; apply Hv. }
  apply swp_call; [done|]. intros x s1 Hx. destruct (Hx eq_refl eq_refl) as [-> ->]. rewrite merge_list_current.
  change (nmc_set_status (cl_nmc s) (nmc_status_Modules (synced _ _ _))) with (synced (cl_nmc s) (cl_node s) pods).
  cbn -[swp sync_loop DeletePod errors_Join].
  destruct (errors_Join _) as [e|] eqn:Ej; [by apply swp_ret|]. apply errors_Join_app in Ej as [Ej _].
  destruct (sync_loop_view (cl_nmc s) (cl_node s) pods P) as (Hafter & Hsub & Hdel);
    [by eapply listed_NoDup; [apply Hv|]|by eapply view_boot|done..|].
  rewrite (vi_entry _ _ _ Hv) in Hafter. set (X' := status_map _ !! k) in Hafter. apply swp_bind.
  eapply swp_mono; [|apply (delete_loop_view X' P _ pods); try done].
  - intros errs s2 _ H2. apply swp_ret; [done|]. intros _. exists X'. split; [done|]. split; [done|].
    split; [by split; try apply Hv|]. by apply synced_named.
  - intros p (key & E)%(listed_elem _ _ _ Hl). pose proof (vi_pods _ _ _ Hv _ _ E) as Hw. by rewrite (wk_key _ _ _ Hw).
  - by eapply listed_NoDup; [apply Hv|].
  - by split; try apply Hv.
Qed.

(** ** The modules of the spec *)

Lemma template_key X n item cfg (t : Pod) :
  agrees X n → worker_pod_for n item cfg t → IsLoaderPod (Some t) = true ∨ IsUnloaderPod (Some t) = true →
  worker_pod (nmc_Name n0) (obj_key KPod t) t ∧ obj_key KPod t = worker_key (nmc_Name n0) (item_key item).
Proof.
  intros Hn Hw Ha. pose proof (ag_name _ _ Hn) as Hname.
  pose proof (template_worker_pod {| cl_node := node0; cl_nmc := n; cl_pods := ∅ |} n item cfg t eq_refl Hw Ha) as H.
  unfold node_name in H. simpl in H. rewrite Hname in H. split; [done|].
  rewrite (wk_module _ _ _ H). f_equal. unfold pod_module, item_key.
  by rewrite (wpf_namespace _ _ _ _ Hw), (wpf_module _ _ _ _ Hw).
Qed.

Lemma create_view X P s (t : Pod) :
  view X P s → worker_pod (nmc_Name n0) (obj_key KPod t) t →
  runs (create KPod t) (λ r s',
    (obj_key KPod t ≠ own_key → view X P s') ∧
    (obj_key KPod t = own_key → P = None → r = None ∧ view X (Some (pod_created t)) s')) s.
Proof.
  intros Hv Hw. apply swp_bind, swp_call; [done|]. intros x s' Hx. split; [done|]. apply swp_ret; [done|].
  simpl in Hx. destruct (cl_pods s !! obj_key KPod t) as [q|] eqn:E.
  { destruct Hx as [-> ->]. split; [done|]. intros Ht ->. rewrite Ht, (vi_pod _ _ _ Hv) in E. done. }
  destruct Hx as [-> ->].
  assert (∀ key p, <[obj_key KPod t := pod_created t]> (cl_pods s) !! key = Some p → worker_pod (nmc_Name n0) key p) as Hp.
  { intros key p [[<- <-]|[_ Ep]]%lookup_insert_Some; [|by apply Hv]. by destruct Hw. }
  split.
  - intros Hne. eapply view_set_pods; [done|rewrite lookup_insert_ne by done; apply Hv|done].
  - intros Heq ->. split; [done|]. eapply view_set_pods; [done|rewrite Heq; apply lookup_insert_eq|done].
Qed.

(** The lookup of the worker pod of a module. *)
Lemma GetWorkerPod_view X P s n item (Q : result (option Pod) → cluster → Prop) :
  view X P s → agrees X n →
  let found := cl_pods s !! worker_key (nmc_Name n0) (item_key item) in
  Q (Ok found) s → runs (GetWorkerPod (WorkerPodName (nmc_Name n) (mi_Name item)) (mi_Namespace item)) Q s.
Proof.
  intros Hv Hn found HQ. rewrite (ag_name _ _ Hn). apply swp_bind, swp_call; [done|].
  intros x s' [-> ->]. split; [done|]. apply swp_ret; [done|].
  change (nsn _ (WorkerPodName _ _)) with (worker_key (nmc_Name n0) (item_key item)).
  unfold found in HQ. by destruct (cl_pods s !! _).
Qed.

Lemma delete_found_view X P s item p :
  view X P s → item_key item ≠ k → cl_pods s !! worker_key (nmc_Name n0) (item_key item) = Some p →
  runs (DeletePod p) (λ _ s', view X P s') s.
Proof.
  intros Hv Hne E. apply DeletePod_other; [done|]. rewrite (wk_key _ _ _ (vi_pods _ _ _ Hv _ _ E)).
  by intros ?%worker_key_inj.
Qed.

Lemma CreateLoaderPod_other X P s n m' :
  view X P s → agrees X n → nms_key m' ≠ k →
  runs (CreateLoaderPod workerCfg workerImage n m') (λ _ s', view X P s') s.
Proof.
  intros Hv Hn Hne. unfold CreateLoaderPod. destruct (LoaderPodTemplate _ _ _ _) as [t|e] eqn:E; [|by apply swp_ret].
  apply loader_template_facts in E as (Hw & Hl & _). destruct (template_key X n _ _ t Hn Hw (or_introl Hl)) as [H1 H2].
  eapply swp_mono; [|by apply create_view]. intros r s' _ [H _]. apply H. rewrite H2. by intros ?%worker_key_inj.
Qed.

Lemma CreateUnloaderPod_other X P s n st :
  view X P s → agrees X n → nmst_key st ≠ k →
  runs (CreateUnloaderPod workerCfg workerImage n st) (λ _ s', view X P s') s.
Proof.
  intros Hv Hn Hne. unfold CreateUnloaderPod. destruct (UnloaderPodTemplate _ _ _ _) as [t|e] eqn:E; [|by apply swp_ret].
  apply unloader_template_facts in E as (Hw & Hu & _). destruct (template_key X n _ _ t Hn Hw (or_intror Hu)) as [H1 H2].
  eapply swp_mono; [|by apply create_view]. intros r s' _ [H _]. apply H. rewrite H2. by intros ?%worker_key_inj.
Qed.

(** Work on another module of the spec leaves the view alone. *)
Lemma ProcessModuleSpec_other X P s n m' status node :
  view X P s → agrees X n → nms_key m' ≠ k → (∀ st, status = Some st → nmst_key st ≠ k) →
  runs (ProcessModuleSpec workerCfg workerImage n m' status node) (λ _ s', view X P s') s.
Proof.
  intros Hv Hn Hne Hst. unfold ProcessModuleSpec. apply swp_bind, (GetWorkerPod_view X P); [done..|].
  destruct (cl_pods s !! _) as [p|] eqn:E.
  - repeat match goal with
    | |- context [if ?b then _ else _] => destruct b
    | |- context [match ?r with Ok _ => _ | Err _ => _ end] => destruct r
    end; try (by apply swp_ret). by eapply delete_found_view.
  - destruct status as [st|]; [|by apply CreateLoaderPod_other]. specialize (Hst st eq_refl).
    case_bool_decide; [destruct (String.eqb _ _)|destruct (IsNodeRebooted _ _)];
      first [by apply swp_ret|by apply CreateLoaderPod_other|by apply CreateUnloaderPod_other].
Qed.

(** What follows the decision of the reconciler for the module [m]. *)
Definition decided (m : NodeModuleSpec) (n : NodeModulesConfig) (node : Node) X P : Prop :=
  ∃ i, spec_intent workerCfg workerImage n m node X None i ∧
  match i with
  | Nothing => P = None
  | Load => ∃ t, LoaderPodTemplate workerCfg workerImage n m = Ok t ∧ P = Some (pod_created t)
  | Unload st => ∃ t, UnloaderPodTemplate workerCfg workerImage n st = Ok t ∧ P = Some (pod_created t)
  | Blocked | Replace _ => False
  end.

Lemma CreateLoaderPod_own X s n m node :
  view X None s → agrees X n → nms_key m = k → spec_intent workerCfg workerImage n m node X None Load →
  runs (CreateLoaderPod workerCfg workerImage n m) (λ r s', r = None → ∃ P, decided m n node X P ∧ view X P s') s.
Proof.
  intros Hv Hn Hm Hi. unfold CreateLoaderPod. destruct (LoaderPodTemplate _ _ _ _) as [t|e] eqn:E; [|by apply swp_ret].
  pose proof E as (Hw & Hl & _)%loader_template_facts. destruct (template_key X n _ _ t Hn Hw (or_introl Hl)) as [H1 H2].
  eapply swp_mono; [|by apply create_view]. intros r s' _ [_ H] _. rewrite H2 in H.
  destruct H as [_ H]; [by change (item_key _) with (nms_key m); rewrite Hm|done|].
  exists (Some (pod_created t)). split; [|done]. exists Load. split; [done|]. by exists t.
Qed.

Lemma CreateUnloaderPod_own X s n m node st :
  view X None s → agrees X n → nmst_key st = k → spec_intent workerCfg workerImage n m node X None (Unload st) →
  runs (CreateUnloaderPod workerCfg workerImage n st) (λ r s', r = None → ∃ P, decided m n node X P ∧ view X P s') s.
Proof.
  intros Hv Hn Hm Hi. unfold CreateUnloaderPod. destruct (UnloaderPodTemplate _ _ _ _) as [t|e] eqn:E; [|by apply swp_ret].
  pose proof E as (Hw & Hu & _)%unloader_template_facts. destruct (template_key X n _ _ t Hn Hw (or_intror Hu)) as [H1 H2].
  eapply swp_mono; [|by apply create_view]. intros r s' _ [_ H] _. rewrite H2 in H.
  destruct H as [_ H]; [by change (item_key _) with (nmst_key st); rewrite Hm|done|].
  exists (Some (pod_created t)). split; [|done]. exists (Unload st). split; [done|]. by exists t.
Qed.

(** Without a worker pod, the module gets the pod its state asks for. *)
Lemma ProcessModuleSpec_own X s n m node :
  view X None s → agrees X n → nms_key m = k → (∀ st, X = Some st → nmst_key st = k) →
  runs (ProcessModuleSpec workerCfg workerImage n m X node)
    (λ r s', r = None → ∃ P, decided m n node X P ∧ view X P s') s.
Proof.
  intros Hv Hn Hm HX. unfold ProcessModuleSpec. apply swp_bind, (GetWorkerPod_view X None); [done..|].
  change (item_key (nms_item m)) with (nms_key m). rewrite Hm. fold own_key. rewrite (vi_pod _ _ _ Hv).
  destruct X as [st|]; [|apply CreateLoaderPod_own; try done; by constructor]. specialize (HX st eq_refl).
  case_bool_decide as Hc.
  - destruct (String.eqb_spec (mc_KernelVersion (nms_Config m)) (mc_KernelVersion (nmst_Config st))).
    + apply CreateUnloaderPod_own; try done. by constructor.
    + apply CreateLoaderPod_own; try done. by constructor.
  - destruct (IsNodeRebooted_reflect node (nmst_BootId st)) as [Er|Er].
    + apply CreateLoaderPod_own; try done. by constructor.
    + apply swp_ret; [done|]. intros _. exists None. split; [|done]. exists Nothing. split; [by constructor|done].
Qed.

(** The key of a module in the maps of the reconciler tells modules apart. *)
Lemma slash_free_inj a b x y :
  string_forallb (λ c, negb (is_char "/" c)) a = true → string_forallb (λ c, negb (is_char "/" c)) b = true →
  a +:+ "/" +:+ x = b +:+ "/" +:+ y → a = b ∧ x = y.
Proof.
  revert b. induction a as [|c a IH]; intros [|d b]; simpl; intros Ha Hb Heq.
  - by injection Heq.
  - injection Heq as <- _. done.
  - injection Heq as -> _. done.
  - injection Heq as <- Heq. apply andb_true_iff in Ha as [_ Ha], Hb as [_ Hb]. by destruct (IH b Ha Hb Heq) as [<- <-].
Qed.

Lemma module_key_inj i j :
  re_ns (mi_Namespace i) = true → re_ns (mi_Namespace j) = true → module_key i = module_key j → item_key i = item_key j.
Proof.
  assert (∀ x, re_ns x = true → string_forallb (λ c, negb (is_char "/" c)) x = true) as Hslash.
  { intros x. unfold re_ns. rewrite andb_true_iff. intros [_ H]. eapply string_forallb_impl; [|exact H].
    by_bytes. }
  intros Hi Hj. unfold module_key, item_key. intros [-> ->]%slash_free_inj; auto.
Qed.

(** The loop over the spec, as seen by the module [m]: untouched while it is still to come, decided
    afterwards (unless an error was met, which the pass then reports). *)
Definition loop_view (m : NodeModuleSpec) (n : NodeModulesConfig) (node : Node) X (l : list NodeModuleSpec) (st : reconcile_state) s : Prop :=
  (∀ key e, rs_statusMap st !! key = Some e → e ∈ nmc_status_Modules n ∧ module_key (nmst_item e) = key) ∧
  rs_readyLabelsToRemove st = ∅ ∧ l ⊆ nmc_spec_Modules n ∧ NoDup (nms_key <$> l) ∧
  ((m ∈ l ∧ rs_statusMap st !! module_key (nms_item m) = X ∧ view X None s) ∨
   (m ∉ l ∧ rs_statusMap st !! module_key (nms_item m) = None ∧
    (errors_Join (rs_errs st) = None → ∃ P, decided m n node X P ∧ view X P s))).

Section spec_loop.
Context (m : NodeModuleSpec) (n : NodeModulesConfig) (node : Node) (X : option NodeModuleStatus).
Context (Hn : agrees X n) (Hm : nms_key m = k) (Hmin : m ∈ nmc_spec_Modules n).
Context (Hst : named_statuses (nmc_status_Modules n)) (Hspec : NoDup (nms_key <$> nmc_spec_Modules n)).
Context (Hall : Forall (λ x, re_ns (mi_Namespace (nms_item x)) = true ∧
  IsNodeSchedulable node (mi_Tolerations (nms_item x)) = true) (nmc_spec_Modules n)).

Definition spec_errs (st : reconcile_state) (err : option error) : list (option error) :=
  match err with
  | Some e => rs_errs st ++ [Some (Errorf_v "error processing Module %s: %v" e)]
  | None => rs_errs st
  end.

Lemma spec_errs_None st err : errors_Join (spec_errs st err) = None → err = None ∧ errors_Join (rs_errs st) = None.
Proof. destruct err as [e|]; [|done]. by intros [_ ?]%errors_Join_app. Qed.

Lemma statusMap_key (a : NodeModuleSpec) st e :
  (∀ key e, rs_statusMap st !! key = Some e → e ∈ nmc_status_Modules n ∧ module_key (nmst_item e) = key) →
  a ∈ nmc_spec_Modules n → rs_statusMap st !! module_key (nms_item a) = Some e → nmst_key e = nms_key a.
Proof.
  intros Hmap Ha [Hin Hk]%Hmap. rewrite Forall_forall in Hall. destruct (Hall a Ha) as [Hns _].
  apply module_key_inj in Hk; [done|by apply Hst|done].
Qed.

(** The state of the loop after the module [a]. *)
Lemma loop_view_next a l st s err :
  loop_view m n node X (a :: l) st s →
  let st' := {| rs_statusMap := delete (module_key (nms_item a)) (rs_statusMap st); rs_errs := spec_errs st err;
                rs_readyLabelsToRemove := rs_readyLabelsToRemove st |} in
  (∀ key e, rs_statusMap st' !! key = Some e → e ∈ nmc_status_Modules n ∧ module_key (nmst_item e) = key) ∧
  rs_readyLabelsToRemove st' = ∅ ∧ l ⊆ nmc_spec_Modules n ∧ NoDup (nms_key <$> l).
Proof.
  intros (Hmap & Hready & Hl & Hndl & _). rewrite fmap_cons in Hndl. apply NoDup_cons in Hndl as [_ Hndl].
  cbv zeta. cbn [rs_statusMap rs_readyLabelsToRemove].
  split_and!; [|done|set_solver|done]. intros key e [_ ?]%lookup_delete_Some. by apply Hmap.
Qed.

Lemma reconcile_spec_own a l st s :
  loop_view m n node X (a :: l) st s → a = m →
  runs (reconcile_spec workerCfg workerImage n node a st) (loop_view m n node X l) s.
Proof.
  intros Hloop ->. pose proof (λ err, loop_view_next m l st s err Hloop) as Hnext.
  destruct Hloop as (Hmap & _ & _ & Hndl & Hor). rewrite fmap_cons in Hndl. apply NoDup_cons in Hndl as [Hal _].
  destruct Hor as [(_ & HX & Hv)|(Hout & _)]; [|by destruct Hout; left].
  pose proof Hall as Hall'. rewrite Forall_forall in Hall'. destruct (Hall' m Hmin) as [_ Hs].
  unfold reconcile_spec. rewrite Hs. cbn [negb]. cbv iota. apply swp_bind.
  rewrite HX. eapply swp_mono; [|apply ProcessModuleSpec_own; try done].
  2:{ intros e HXe. rewrite <-Hm. by apply (statusMap_key m st e Hmap Hmin); rewrite HX. }
  intros err s' _ Hpost. apply swp_ret; [done|]. destruct (Hnext err) as (H1 & H2 & H3 & H4). split_and!; try done.
  right. split_and!; [|apply lookup_delete_eq|by intros [-> _]%spec_errs_None; apply Hpost].
  intros Hin. apply Hal. by apply list_elem_of_fmap_2.
Qed.

Lemma reconcile_spec_other a l st s :
  loop_view m n node X (a :: l) st s → a ≠ m →
  runs (reconcile_spec workerCfg workerImage n node a st) (loop_view m n node X l) s.
Proof.
  intros Hloop Ham. pose proof (λ err, loop_view_next a l st s err Hloop) as Hnext.
  destruct Hloop as (Hmap & _ & Hl & _ & Hor). assert (a ∈ nmc_spec_Modules n) as Ha by (apply Hl; left).
  assert (nms_key a ≠ k) as Hne by (rewrite <-Hm; intros ?%(NoDup_fmap_inj _ _ _ _ Hspec Ha Hmin); done).
  pose proof (λ e, statusMap_key a st e Hmap Ha) as He.
  pose proof Hall as Hall'. rewrite Forall_forall in Hall'. destruct (Hall' a Ha) as [Hans Hs], (Hall' m Hmin) as [Hmns _].
  assert (module_key (nms_item a) ≠ module_key (nms_item m)) as Hmk.
  { intros Heq%module_key_inj; [|done..]. apply Hne. rewrite <-Hm. exact Heq. }
  unfold reconcile_spec. rewrite Hs. cbn [negb]. cbv iota. apply swp_bind.
  assert (∀ P, view X P s → runs (ProcessModuleSpec workerCfg workerImage n a (rs_statusMap st !! module_key (nms_item a)) node)
    (λ _ s', view X P s') s) as Hother.
  { intros P Hv. apply ProcessModuleSpec_other; try done. intros e E. by rewrite (He e E). }
  destruct Hor as [(Hin & HX & Hv)|(Hout & HX & Hv)].
  - eapply swp_mono; [|by apply (Hother None)]. intros err s' _ Hv'. apply swp_ret; [done|].
    destruct (Hnext err) as (H1 & H2 & H3 & H4). split_and!; try done. left.
    split_and!; [set_solver|simpl; by rewrite lookup_delete_ne|done].
  - assert (∀ err s', (errors_Join (rs_errs st) = None → ∃ P, decided m n node X P ∧ view X P s') →
      loop_view m n node X l {| rs_statusMap := delete (module_key (nms_item a)) (rs_statusMap st);
        rs_errs := spec_errs st err; rs_readyLabelsToRemove := rs_readyLabelsToRemove st |} s') as Hpost.
    { intros err s' H. destruct (Hnext err) as (H1 & H2 & H3 & H4). split_and!; try done. right.
      split_and!; [set_solver|simpl; by rewrite lookup_delete_ne|by intros [_ ?]%spec_errs_None; apply H]. }
    destruct (errors_Join (rs_errs st)) as [e0|] eqn:Ee.
    + eapply swp_mono; [|apply swp_true]. intros err s' _ _. apply swp_ret; [done|]. by apply Hpost.
    + destruct (Hv eq_refl) as (P & Hd & Hv'). eapply swp_mono; [|by apply (Hother P)].
      intros err s' _ Hv2. apply swp_ret; [done|]. apply Hpost. intros _. by exists P.
Qed.

Lemma spec_loop_view s :
  view X None s → rs_statusMap {| rs_statusMap := build_statusMap (nmc_status_Modules n); rs_errs := [];
           rs_readyLabelsToRemove := ∅ |} !! module_key (nms_item m) = X →
  runs (for_range (nmc_spec_Modules n) (reconcile_spec workerCfg workerImage n node)
        {| rs_statusMap := build_statusMap (nmc_status_Modules n); rs_errs := [];
           rs_readyLabelsToRemove := ∅ |})
    (loop_view m n node X []) s.
Proof.
  intros Hv HX. apply swp_for_range; [done| |].
  - split_and!; try done; [by intros key e ?%build_statusMap_Some|]. by left.
  - intros a l st s' _ Hloop. destruct (decide (nms_key a = k)) as [E|E].
    + apply reconcile_spec_own; [done|]. apply (NoDup_fmap_inj _ _ _ _ Hspec); [|done|by rewrite E, Hm].
      destruct Hloop as (_ & _ & Hl & _). apply Hl. left.
    + apply reconcile_spec_other; [done|]. intros ->. done.
Qed.
End spec_loop.

Lemma build_statusMap_total l (e : NodeModuleStatus) :
  e ∈ l → is_Some (build_statusMap l !! module_key (nmst_item e)).
Proof.
  unfold build_statusMap. induction l as [|x l IH] using rev_ind; [by intros []%elem_of_nil|].
  rewrite foldl_app, elem_of_app, list_elem_of_singleton. simpl. rewrite lookup_insert_is_Some'.
  intros [He| ->]; [right; by apply IH|by left].
Qed.

Lemma build_statusMap_mem l (e : NodeModuleStatus) :
  named_statuses l → e ∈ l → build_statusMap l !! module_key (nmst_item e) = Some e.
Proof.
  intros [Hnd Hns] He. destruct (build_statusMap_total l e He) as [x Hx]. rewrite Hx.
  apply build_statusMap_Some in Hx as [Hin Heq%module_key_inj]; [|by apply Hns..]. f_equal.
  by apply (NoDup_fmap_inj nmst_key l).
Qed.

Lemma build_statusMap_own (m : NodeModuleSpec) l :
  named_statuses l → re_ns (mi_Namespace (nms_item m)) = true → nms_key m = k →
  build_statusMap l !! module_key (nms_item m) = status_map l !! k.
Proof.
  intros Hn Hm Hk. destruct (build_statusMap l !! _) as [e|] eqn:E.
  - apply build_statusMap_Some in E as [He Heq%module_key_inj]; [|by apply Hn|done]. rewrite <-Hk.
    change (nms_key m) with (item_key (nms_item m)). rewrite <-Heq. symmetry. apply in_status_map; [apply Hn|done].
  - destruct (status_map l !! k) as [e|] eqn:Es; [|done].
    unfold status_map in Es. rewrite keyed_map_lookup in Es. apply find_first_Some in Es as [He Hek%key_is_true].
    assert (module_key (nmst_item e) = module_key (nms_item m)) as Heq.
    { rewrite <-Hk in Hek. pose proof (f_equal nsn_Namespace Hek) as E1. pose proof (f_equal nsn_Name Hek) as E2.
      unfold module_key. simpl in E1, E2. by rewrite E1, E2. }
    by rewrite <-Heq, build_statusMap_mem in E.
Qed.

(** ** The rest of a pass *)

Lemma patch_other X P s p fins :
  view X P s → obj_key KPod p ≠ own_key →
  runs (patch KPod p (pod_set_finalizers p fins)) (λ r s', view X P s' ∧ obj_key KPod r.1 = obj_key KPod p) s.
Proof.
  intros Hv Hne. unfold patch. apply swp_bind, swp_call; [done|]. intros x s1 Hx. split; [done|]. apply swp_ret; [done|].
  specialize (Hx eq_refl). destruct (cl_pods s !! obj_key KPod p) as [q|] eqn:E; [|by destruct Hx as [-> ->]].
  destruct Hx as [-> Hs]. split; [|exact (wk_key _ _ _ (vi_pods _ _ _ Hv _ _ E))].
  by apply (stores_pod_other X P s _ q) in Hs; [|done..|by split].
Qed.

Lemma orphan_other X P s n st node :
  view X P s → agrees X n → nmst_key st ≠ k →
  runs (ProcessUnconfiguredModuleStatus workerCfg workerImage n st node) (λ r s', view X P s' ∧ agrees X r.1) s.
Proof.
  intros Hv Hn Hne. unfold ProcessUnconfiguredModuleStatus. destruct (IsNodeRebooted _ _).
  - set (new := nmc_set_status _ _).
    assert (status_map (nmc_status_Modules new) !! k = X) as Hnew.
    { unfold new. simpl. rewrite status_map_remove, lookup_delete_ne; [apply Hn|]. exact Hne. }
    apply swp_bind, swp_call; [done|]. intros x s1 Hx. destruct (Hx eq_refl) as [-> ->].
    { by rewrite (ag_key _ _ Hn), (vi_nmc _ _ _ Hv). }
    split; [done|]. apply swp_ret; [done|]. set (l := merge_list _ _ _).
    assert (status_map l !! k = X) as Hl. { unfold l, merge_list. destruct (decide _); [apply Hv|done]. }
    by split; split; try apply Hv.
  - apply swp_bind, (GetWorkerPod_view X P); [done..|]. change (item_key (nmst_item st)) with (nmst_key st).
    apply swp_bind. eapply swp_mono with (Q := λ _ s', view X P s').
    { intros err s' _ Hv'. by apply swp_ret. }
    destruct (cl_pods s !! _) as [p|] eqn:E; [|by apply CreateUnloaderPod_other].
    repeat match goal with
    | |- context [if ?b then _ else _] => destruct b
    | |- context [match ?r with Ok _ => _ | Err _ => _ end] => destruct r
    end; try (by apply swp_ret); by eapply delete_found_view.
Qed.

Lemma orphans_view X P s n errs node l :
  view X P s → agrees X n → (∀ kx, kx ∈ l → nmst_key kx.2 ≠ k) →
  runs (for_range l (reconcile_orphan workerCfg workerImage node) (n, errs))
    (λ r s', view X P s' ∧ agrees X r.1) s.
Proof.
  intros Hv Hn Hl. eapply swp_mono; [|apply (swp_for_range _ _ _ (λ l r s', view X P s' ∧ agrees X r.1 ∧
    (∀ kx, kx ∈ l → nmst_key kx.2 ≠ k))); [done..|]].
  - naive_solver.
  - intros [key e] l' [n' errs'] s' _ (Hv' & Hn' & Hl'). unfold reconcile_orphan. apply swp_bind.
    eapply swp_mono; [|apply (orphan_other X P); [done|done|apply (Hl' (key, e)); left]].
    intros [n2 err] s2 _ [Hv2 Hn2]. apply swp_ret; [done|]. split_and!; [done..|].
    intros kx Hkx. apply Hl'. by right.
Qed.

Lemma UpdateLabels_view X P s node a r :
  view X P s → obj_key KNode node = obj_key KNode node0 → runs (UpdateLabels node a r) (λ _ s', view X P s') s.
Proof.
  intros Hv Hnode. unfold UpdateLabels. rewrite removeLabels_labels, addLabels_labels, node_set_labels_twice.
  change (node_Labels (node_set_labels node ?l)) with l. case_bool_decide; [by apply swp_ret|].
  apply swp_bind, swp_bind, swp_call; [done|]. intros x s1 Hx.
  assert (obj_key KNode (cl_node s) = obj_key KNode node0) as Hk
    by exact (f_equal (obj_key KNode) (vi_node _ _ _ Hv)).
  destruct (Hx eq_refl) as [-> ->]; [by rewrite Hnode, Hk|]. split; [done|].
  do 2 (apply swp_ret; [done|]). by destruct Hv.
Qed.

Lemma GarbageCollectInUseLabels_view X P s n :
  view X P s → agrees X n → runs (GarbageCollectInUseLabels n) (λ r s', view X P s' ∧ agrees X r.1) s.
Proof.
  intros Hv Hn. unfold GarbageCollectInUseLabels, ListWorkerPodsOnNode. apply swp_bind, swp_bind, swp_call; [done|].
  intros x s1 [-> (pods & -> & _)]. split; [done|]. apply swp_ret; [done|]. cbn -[swp]. case_bool_decide; [by apply swp_ret|].
  apply swp_call; [done|]. intros x s1 Hx. destruct (Hx eq_refl) as [-> ->].
  { by rewrite (ag_key _ _ Hn), (vi_nmc _ _ _ Hv). }
  apply swp_ret; [done|]. by split; split; try apply Hv.
Qed.

(** The name of the module is among those the collection of worker pods spares. *)
Definition spared (n : NodeModulesConfig) : Prop :=
  nsn_Name k ∈ (list_to_set ((λ x, mi_Name (nms_item x)) <$> nmc_spec_Modules n) ∪
                list_to_set ((λ x, mi_Name (nmst_item x)) <$> nmc_status_Modules n) : gset string).

Lemma GarbageCollectWorkerPods_view X P s n :
  view X P s → agrees X n → P = None ∨ spared n →
  runs (GarbageCollectWorkerPods n) (λ _ s', view X P s') s.
Proof.
  intros Hv Hn Hsp. unfold GarbageCollectWorkerPods, ListWorkerPodsOnNode. rewrite (ag_name _ _ Hn).
  apply swp_bind, swp_bind, swp_call; [done|]. intros x s1 [-> (pods & -> & Hl)].
  apply (listing_all (nmc_Name n0)) in Hl; [|apply Hv]. split; [done|]. apply swp_ret; [done|].
  cbn -[swp for_range DeletePod patch]. apply swp_bind.
  eapply swp_mono with (Q := λ _ s', view X P s'); [by intros; apply swp_ret|].
  eapply swp_mono; [|apply (swp_for_range _ _ _ (λ l _ s', l ⊆ pods ∧ view X P s')); [done..|]].
  { by intros errs s' _ [_ ?]. }
  intros p l errs s' _ [Hsub Hv']. assert (l ⊆ pods) as Hsub' by set_solver.
  case_bool_decide as Hname; [by apply swp_ret|].
  assert (obj_key KPod p ≠ own_key) as Hne.
  { assert (p ∈ pods) as (key & E)%(listed_elem _ _ _ Hl) by (apply Hsub; left).
    pose proof (vi_pods _ _ _ Hv _ _ E) as [Hkey Hmod _ _]. rewrite Hkey. intros Heq.
    destruct Hsp as [HP|Hsp]; [rewrite Heq, (vi_pod _ _ _ Hv) in E; congruence|].
    rewrite Hmod in Heq. apply worker_key_inj in Heq. apply Hname. unfold spared in Hsp. by rewrite <-Heq in Hsp. }
  apply swp_bind. eapply swp_mono with (Q := λ r s2, view X P s2 ∧ obj_key KPod r.1 = obj_key KPod p).
  - intros [q errs2] s2 _ [Hv2 Hq]. simpl in Hq. apply swp_bind.
    eapply swp_mono; [|apply (DeletePod_other X P); [done|by rewrite Hq]]. intros err s3 _ Hv3. by apply swp_ret.
  - destruct (RemoveFinalizer_updated _ _); [|by apply swp_ret]. apply swp_bind.
    eapply swp_mono; [|by apply (patch_other X P)]. intros [q err] s2 _ H2. by apply swp_ret.
Qed.

Lemma RecordEvents_view X P s node loaded unloaded :
  view X P s → runs (RecordEvents node loaded unloaded) (λ _ s', view X P s') s.
Proof.
  intros Hv. apply (swp_weaken _ (view X P)); [done|].
  eapply swp_mono; [|apply (swp_only_calls answers (view X P)
    (λ c, match c with RecordEvent _ _ _ => True | _ => False end)); [| |exact Hv]]; [done| |].
  - intros c x s1 s2 Hc Hv1 Hx. destruct c; try done. simpl in Hx. by subst.
  - unfold RecordEvents, record_event. only_calls; done.
Qed.

Lemma reconcile_finish_view X P s n node errs :
  view X P s → agrees X n → obj_key KNode node = obj_key KNode node0 →
  (P = None ∨ ∀ n', agrees X n' → spared n') →
  runs (reconcile_finish n node errs) (λ _ s', view X P s') s.
Proof.
  intros Hv Hn Hnode Hsp. unfold reconcile_finish. apply swp_bind.
  eapply swp_mono; [|by apply (GarbageCollectInUseLabels_view X P)]. intros [n1 err1] s1 _ [Hv1 Hn1]. simpl in Hn1.
  apply swp_bind. eapply swp_mono; [|apply (GarbageCollectWorkerPods_view X P); [done|done|naive_solver]].
  intros err2 s2 _ Hv2.
  unfold UpdateNodeLabels. apply swp_bind, swp_bind.
  eapply swp_mono; [|by apply (UpdateLabels_view X P)]. intros [node' err3] s3 _ Hv3. apply swp_ret; [done|].
  destruct err3 as [e|]; [by apply swp_ret|].
  apply swp_bind. eapply swp_mono; [|by apply (RecordEvents_view X P)]. intros [] s4 _ Hv4. by apply swp_ret.
Qed.

Lemma spared_spec X n (m : NodeModuleSpec) : agrees X n → m ∈ nmc_spec_Modules n0 → nms_key m = k → spared n.
Proof.
  intros Hn Hm Hk. apply elem_of_union_l, elem_of_list_to_set. rewrite (ag_spec _ _ Hn). apply list_elem_of_fmap.
  exists m. split; [|done]. by rewrite <-Hk.
Qed.

(** A pass that reports no error met none on its way. *)
Lemma finish_reports n node errs :
  wp (reconcile_finish n node errs) (λ _ r, r = None → errors_Join errs = None).
Proof.
  unfold reconcile_finish. apply wp_bind, wp_all. intros tr1 [n1 err1]. apply wp_bind, wp_all. intros tr2 err2.
  set (errs2 := match err2 with Some _ => _ | None => _ end).
  assert (errors_Join errs2 = None → errors_Join errs = None) as He.
  { unfold errs2. destruct err1, err2; rewrite ?errors_Join_app; tauto. }
  apply wp_bind, wp_all. intros tr3 [node' [[loaded unloaded]|e]].
  - apply wp_bind, wp_all. intros tr4 []. by apply wp_ret.
  - apply wp_ret. rewrite errors_Join_app. tauto.
Qed.

Lemma orphans_report l node n errs :
  wp (for_range l (reconcile_orphan workerCfg workerImage node) (n, errs))
    (λ _ r, errors_Join r.2 = None → errors_Join errs = None).
Proof.
  apply (wp_for_range _ (λ _ _ r, errors_Join r.2 = None → errors_Join errs = None)); [done|].
  intros [key e] l' tr [n' errs'] H. unfold reconcile_orphan. apply wp_bind, wp_all. intros tr' [n2 err].
  apply wp_ret. destruct err; [|done]. by intros [_ ?]%errors_Join_app.
Qed.

Lemma reconcile_modules_view X s n node (m : NodeModuleSpec) :
  view X None s → agrees X n → named_statuses (nmc_status_Modules n) →
  obj_key KNode node = obj_key KNode node0 → m ∈ nmc_spec_Modules n0 → nms_key m = k →
  NoDup (nms_key <$> nmc_spec_Modules n0) →
  Forall (λ x, re_ns (mi_Namespace (nms_item x)) = true ∧ IsNodeSchedulable node (mi_Tolerations (nms_item x)) = true)
    (nmc_spec_Modules n0) →
  runs (reconcile_modules workerCfg workerImage n node)
    (λ r s', r = None → ∃ P, decided m n node X P ∧ view X P s') s.
Proof.
  intros Hv Hn Hst Hnode Hm Hk Hnd Hall. pose proof (ag_spec _ _ Hn) as Hspec. rewrite <-Hspec in Hnd, Hall, Hm.
  assert (re_ns (mi_Namespace (nms_item m)) = true) as Hmns by (rewrite Forall_forall in Hall; by apply Hall).
  unfold reconcile_modules. apply swp_bind. eapply swp_mono; [|apply (spec_loop_view m n node X); try done].
  2:{ simpl. rewrite (build_statusMap_own m); [apply Hn|done..]. }
  intros st s1 _ (Hmap & Hready & _ & _ & Hor).
  destruct Hor as [(Hin & _)|(_ & HXm & Hpost)]; [by apply elem_of_nil in Hin|]. apply swp_bind.
  rewrite Hspec in Hm. destruct (errors_Join (rs_errs st)) as [e|] eqn:Ee.
  - eapply swp_mono; [|apply swp_wp; [apply orphans_report|apply swp_true]]. intros [n1 errs] s2 _ [He _].
    rewrite bool_decide_false by naive_solver.
    eapply swp_mono; [|apply swp_wp; [apply finish_reports|apply swp_true]]. intros r s3 _ [Hr _] ->.
    rewrite Ee in He. by specialize (He (Hr eq_refl)).
  - destruct (Hpost eq_refl) as (P & Hd & Hv1). eapply swp_mono; [|apply (orphans_view X P); [done|done|]].
    + intros [n1 errs] s2 _ [Hv2 Hn1]. rewrite bool_decide_false by naive_solver.
      eapply swp_mono; [|apply (reconcile_finish_view X P); [done..|]]; [intros r s3 _ Hv3 _; by exists P|].
      right. intros n' Hn'. by eapply spared_spec.
    + intros [key e] Hin%elem_of_range_map Hek. simpl in *. destruct (Hmap _ _ Hin) as [He Heq].
      rewrite <-Hk in Hek. pose proof (f_equal nsn_Namespace Hek) as E1. pose proof (f_equal nsn_Name Hek) as E2.
      simpl in E1, E2. unfold module_key in Heq, HXm. rewrite E1, E2 in Heq. congruence.
Qed.

(** A pass: once the outcome of the module's pod is recorded, the modules are processed. *)
Lemma pass_frame X P s (Q : cluster → Prop) :
  view X P s → idle P → named_statuses (nmc_status_Modules (cl_nmc s)) → named_pods s →
  obj_key KNMC n0 = nsn "" (nmc_Name n0) → obj_key KNode node0 = nsn "" (nmc_Name n0) →
  (∀ X' n s', entry_after X P X' → view X' None s' → agrees X' n → named_statuses (nmc_status_Modules n) →
     runs (reconcile_modules workerCfg workerImage n (cl_node s)) (λ r s2, r = None → Q s2) s') →
  runs (NMC_Reconcile workerCfg workerImage (nsn "" (nmc_Name n0))) (λ r s', r = None → Q s') s.
Proof.
  intros Hv Hi Hst Hp Hkn Hknode HQ. unfold NMC_Reconcile.
  apply swp_bind, swp_call; [done|]. intros x s1 [-> ->]. split; [done|].
  rewrite decide_True by (by rewrite (vi_nmc _ _ _ Hv)). rewrite (view_name _ _ _ Hv).
  apply swp_bind, swp_call; [done|]. intros x s1 [-> ->]. split; [done|].
  rewrite decide_True by (by rewrite (view_node_key _ _ _ Hv)). apply swp_bind.
  eapply swp_mono; [|by apply (SyncStatus_view X P)]. intros [n err] s1 _ Hpost.
  destruct err as [e|]; [by apply swp_ret|]. destruct (Hpost eq_refl) as (X' & Hafter & Hv1 & Hn & Hst1). by apply (HQ X').
Qed.

(** A pass that reports no error records what the worker pod of the module achieved and starts
    the pod the module needs next. *)
Lemma pass_view X P s (m : NodeModuleSpec) :
  view X P s → idle P → named_statuses (nmc_status_Modules (cl_nmc s)) → named_pods s →
  obj_key KNMC n0 = nsn "" (nmc_Name n0) → obj_key KNode node0 = nsn "" (nmc_Name n0) →
  m ∈ nmc_spec_Modules n0 → nms_key m = k → NoDup (nms_key <$> nmc_spec_Modules n0) →
  Forall (λ x, re_ns (mi_Namespace (nms_item x)) = true ∧ IsNodeSchedulable (cl_node s) (mi_Tolerations (nms_item x)) = true)
    (nmc_spec_Modules n0) →
  runs (NMC_Reconcile workerCfg workerImage (nsn "" (nmc_Name n0)))
    (λ r s', r = None → ∃ X' P' n, entry_after X P X' ∧ decided m n (cl_node s) X' P' ∧ view X' P' s') s.
Proof.
  intros Hv Hi Hst Hp Hkn Hknode Hm Hk Hnd Hall.
  apply (pass_frame X P s (λ s', ∃ X' P' n, entry_after X P X' ∧ decided m n (cl_node s) X' P' ∧ view X' P' s')); [done..|].
  intros X' n s1 Ha Hv1 Hn Hst1. eapply swp_mono; [|apply (reconcile_modules_view X' _ _ _ m); try done; by eapply view_node_key].
  intros r s2 _ H Hr. destruct (H Hr) as (P' & Hd & Hv2). by exists X', P', n.
Qed.
End converge.

(** ** Between the passes *)

Section rounds.
Context `{EXT : Externals} `{EXTL : !ExternalsLaws} (workerCfg : WorkerConfig) (workerImage : string).
Implicit Types (s : cluster) (p q : Pod) (X : option NodeModuleStatus) (P : option Pod).

(** The worker pods live their life: they start, restart, end, and go away when released. *)
Definition worker_event (e : event) : bool :=
  match e with EReport | EDone _ | EDelete | EGone => true | _ => false end.
Definition worker_step (w w' : world) : Prop :=
  ∃ e, worker_event e = true ∧ orderly e w ∧ step workerCfg workerImage e w w'.

(** What the kubelet leaves alone in a pod. *)
Record same_pod p q : Prop := {
  sp_meta : pod_Labels q = pod_Labels p ∧ pod_Annotations q = pod_Annotations p ∧
            om_Finalizers (pod_meta q) = om_Finalizers (pod_meta p);
  sp_spec : pod_spec q = pod_spec p;
}.

Definition lives_on P P' : Prop :=
  match P with None => P' = None | Some p => ∃ q, P' = Some q ∧ same_pod p q end.

Lemma lives_on_refl P : lives_on P P.
Proof. destruct P as [p|]; simpl; [|done]. exists p. by repeat split. Qed.

#[local] Instance lives_on_preorder : PreOrder lives_on.
Proof.
  split; [exact lives_on_refl|]. intros [p|] P2 P3; simpl; [|by intros -> H].
  intros (q & -> & [(?&?&?) ?]) (r & -> & [(?&?&?) ?]). exists r. split; [done|]. split; [split_and!|]; congruence.
Qed.

Lemma set_pod_view k n0 node0 X P s key p q :
  view k n0 node0 X P s → cl_pods s !! key = Some p → obj_key KPod q = obj_key KPod p → same_pod p q →
  ∃ P', view k n0 node0 X P' (set_pod s key q) ∧ lives_on P P'.
Proof.
  intros Hv Hp Hkey Hs.
  assert (∀ key' p', <[key := q]> (cl_pods s) !! key' = Some p' → worker_pod (nmc_Name n0) key' p') as Hw.
  { intros key' p' [[<- <-]|[_ E]]%lookup_insert_Some; [|by apply (vi_pods _ _ _ _ _ _ Hv)].
    destruct (vi_pods _ _ _ _ _ _ Hv _ _ Hp) as [H1 H2 H3 H4], Hs as [(Hl & _ & _) Hsp].
    assert (pod_module q = pod_module p) as Hm
      by (unfold pod_module; rewrite Hl; f_equal; exact (f_equal nsn_Namespace Hkey)).
    split; congruence. }
  destruct (decide (key = own_key k n0)) as [->|Hne].
  - exists (Some q). split; [by eapply view_set_pods; [|apply lookup_insert_eq|]|].
    rewrite <-(vi_pod _ _ _ _ _ _ Hv), Hp. by exists q.
  - exists P. split; [|done]. eapply view_set_pods; [done|rewrite lookup_insert_ne by done; apply Hv|done].
Qed.

Lemma drop_pod_view k n0 node0 X P s key p :
  view k n0 node0 X P s → cl_pods s !! key = Some p → om_Finalizers (pod_meta p) = [] →
  (∀ p, P = Some p → om_Finalizers (pod_meta p) ≠ []) → view k n0 node0 X P (set_pods s (delete key (cl_pods s))).
Proof.
  intros Hv Hp Hf HP. eapply view_set_pods; [done| |].
  - rewrite lookup_delete_ne; [apply Hv|]. intros ->. rewrite (vi_pod _ _ _ _ _ _ Hv) in Hp. by apply HP in Hp.
  - intros key' p' [_ E]%lookup_delete_Some. by apply (vi_pods _ _ _ _ _ _ Hv).
Qed.

Lemma worker_step_view k n0 node0 X P w w' :
  worker_step w w' → view k n0 node0 X P (w_store w) → (∀ p, P = Some p → om_Finalizers (pod_meta p) ≠ []) →
  ∃ P', view k n0 node0 X P' (w_store w') ∧ lives_on P P'.
Proof.
  intros (e & He & _ & Hs) Hv HP. destruct Hs as [| | |s L key p st Hp _ _|s L key p st Hp _ _|s L key p t s' Hp Hst|s L key p Hp Hf|];
    try done; simpl in *.
  - by eapply set_pod_view; [|exact Hp|..].
  - by eapply set_pod_view; [|exact Hp|..].
  - unfold stores_pod in Hst. simpl in Hst. destruct (om_Finalizers (pod_meta p)) eqn:Ef.
    + destruct Hst as [->|[_ ->]]; [exists P; split; [|done]; by eapply drop_pod_view|].
      by eapply (set_pod_view _ _ _ _ _ _ _ p (pod_terminating p t)).
    + subst s'. by eapply (set_pod_view _ _ _ _ _ _ _ p (pod_terminating p t)).
  - exists P. split; [|done]. by eapply drop_pod_view.
Qed.

Lemma lives_on_held P P' :
  lives_on P P' → (∀ p, P = Some p → om_Finalizers (pod_meta p) ≠ []) → (∀ p, P' = Some p → om_Finalizers (pod_meta p) ≠ []).
Proof.
  destruct P as [p|]; simpl; [|by intros ->]. intros (q & -> & [(_ & _ & Hf) _]) H r [= <-]. rewrite Hf. by apply H.
Qed.

Lemma worker_steps_view k n0 node0 X P w w' :
  rtc worker_step w w' → view k n0 node0 X P (w_store w) → (∀ p, P = Some p → om_Finalizers (pod_meta p) ≠ []) →
  ∃ P', view k n0 node0 X P' (w_store w') ∧ lives_on P P'.
Proof.
  intros Hr. revert P. induction Hr as [w|w w1 w2 Hs Hr IH]; intros P Hv HP; [by exists P|].
  destruct (worker_step_view _ _ _ _ _ _ _ Hs Hv HP) as (P1 & Hv1 & H1).
  destruct (IH P1 Hv1 (lives_on_held _ _ H1 HP)) as (P2 & Hv2 & H2). exists P2. split; [done|]. by etrans.
Qed.

(** ** Rounds *)

(** Namespaces in the store are DNS labels, as the API server demands. *)
Definition valid_names s : Prop :=
  (∀ e, e ∈ nmc_status_Modules (cl_nmc s) → re_ns (mi_Namespace (nmst_item e)) = true) ∧ named_pods s.

(** A pass that reports no error; then worker pods live on, until that of the module, if it
    has one, has succeeded. *)
Definition round (k : NamespacedName) (w w' : world) : Prop :=
  valid_names (w_store w) ∧
  ∃ s1, steps answers (w_store w) (NMC_Reconcile workerCfg workerImage (nsn "" (node_name (w_store w)))) s1 (Some None) ∧
  rtc worker_step {| w_store := s1; w_loaded := w_loaded w |} w' ∧
  (∀ p, cl_pods (w_store w') !! worker_key (node_name (w_store w')) k = Some p → pod_Phase p = PodSucceeded).

Lemma steps_answers_serves {R} s (p : prog R) s' o : steps answers s p s' o → steps serves s p s' o.
Proof. induction 1; [constructor..|]. econstructor; [by left|done]. Qed.

Lemma round_consistent k w w' : round k w w' → consistent (w_loaded w) (w_store w) → consistent (w_loaded w') (w_store w').
Proof.
  intros (_ & s1 & Hp & Hr & _) Hc.
  assert (consistent (w_loaded w) s1) as H1.
  { apply (step_consistent workerCfg workerImage EPass w {| w_store := s1; w_loaded := w_loaded w |}); [done| |done].
    destruct w. eapply step_pass. by apply steps_answers_serves. }
  clear Hp Hc. change (consistent (w_loaded {| w_store := s1; w_loaded := w_loaded w |})
    (w_store {| w_store := s1; w_loaded := w_loaded w |})) in H1.
  revert Hr H1. generalize {| w_store := s1; w_loaded := w_loaded w |}. intros w1 Hr. clear s1.
  induction Hr as [w1|w1 w2 w3 (e & _ & Ho & Hs) Hr IH]; [done|]. intros H. apply IH. by eapply step_consistent.
Qed.

Section module.
Context (m : NodeModuleSpec) (n0 : NodeModulesConfig) (node0 : Node).
Context (Hcfg : config_stored (nms_Config m) = true).
Context (Hready : ∃ c, c ∈ node_Conditions node0 ∧ nc_Type c = NodeReady ∧ nc_Status c = ConditionTrue).

Notation loads q := (IsUnloaderPod (Some q) = false ∧ yaml_Marshal_config (nms_Config m) = Ok (GetConfigAnnotation (Some q))).

(** How far the module is: at rest, loading, unloading an outdated version, loading over the
    record of another kernel. *)
Definition stage (i : nat) X P : Prop :=
  match i with
  | 0 => P = None ∧ ∃ e, X = Some e ∧ nmst_Config e = nms_Config m ∧ nmst_BootId e = ni_BootID (node_NodeInfo node0)
  | 1 => ∃ q, P = Some q ∧ loads q ∧ (∀ e, X = Some e → overlay_config (nmst_Config e) (nms_Config m) = nms_Config m)
  | 2 => ∃ q, P = Some q ∧ IsUnloaderPod (Some q) = true
  | _ => ∃ q, P = Some q ∧ loads q
  end.

Lemma overlay_config_same c : overlay_config c c = c.
Proof.
  destruct c as [? ? ? ? ? ? []]. unfold overlay_config, overlay_modprobe. simpl.
  assert (∀ x, overlay_str x x = x) as Hs by (intros x; unfold overlay_str; by destruct (String.eqb x "")).
  assert (∀ A (l : list A), overlay_list l l = l) as Hl by (by intros A []).
  assert (∀ a, overlay_args a a = a) as Ha by (intros [[]|]; simpl; [by rewrite !Hl|done]).
  by rewrite !Hs, !overlay_olist_same, Hl, !Ha.
Qed.

Lemma rebooted_iff node e :
  node_set_labels node ∅ = node_set_labels node0 ∅ →
  ¬ rebooted node (nmst_BootId e) ↔ nmst_BootId e = ni_BootID (node_NodeInfo node0).
Proof.
  intros Hn. pose proof (f_equal (λ n, ni_BootID (node_NodeInfo n)) Hn) as Hb.
  pose proof (f_equal node_Conditions Hn) as Hc. simpl in Hb, Hc. unfold rebooted.
  rewrite Hb, Hc. split; [|naive_solver].
  intros H. destruct (decide (nmst_BootId e = ni_BootID (node_NodeInfo node0))); [done|]. by destruct H.
Qed.

(** What the decision of a pass leads to, once the new pod has succeeded. *)
Lemma decided_stage n node X P P' :
  node_set_labels node ∅ = node_set_labels node0 ∅ →
  decided workerCfg workerImage m n node X P → lives_on P P' →
  match X with
  | None => stage 1 X P'
  | Some e =>
      if decide (nmst_Config e = nms_Config m) then
        if decide (nmst_BootId e = ni_BootID (node_NodeInfo node0)) then stage 0 X P' else stage 1 X P'
      else if decide (mc_KernelVersion (nmst_Config e) = mc_KernelVersion (nms_Config m)) then stage 2 X P'
      else stage 3 X P'
  end.
Proof.
  intros Hnode (i & Hi & Hd) Hl.
  assert (∀ t, LoaderPodTemplate workerCfg workerImage n m = Ok t → P = Some (pod_created t) → ∃ q, P' = Some q ∧ loads q) as Hload.
  { intros t (Hw & _ & Hu & _)%loader_template_facts ->. destruct Hl as (q & -> & [(Hlab & Han & _) _]). exists q. split; [done|].
    simpl. unfold GetConfigAnnotation. rewrite Hlab, Han. split; [exact Hu|exact (wpf_config _ _ _ _ Hw)]. }
  inversion Hi as [| st Hne Hkv| st Hkv| st Heq Hr| st Heq Hr|status p Hb|status p i' Hlo Ht]; subst; try done.
  - destruct Hd as (t & Ht & HP). destruct (Hload t Ht HP) as (q & -> & Hq). by exists q.
  - destruct (decide _); [done|]. rewrite decide_True by done.
    destruct Hd as (t & (_ & Hu & _)%unloader_template_facts & ->). destruct Hl as (q & -> & [(Hlab & _) _]).
    exists q. split; [done|]. simpl. by rewrite Hlab.
  - destruct (decide (nmst_Config st = nms_Config m)) as [E|_]; [by rewrite E in Hkv|]. rewrite decide_False by done.
    destruct Hd as (t & Ht & HP). exact (Hload t Ht HP).
  - rewrite decide_True by done. rewrite decide_False by (by rewrite <-(rebooted_iff node st Hnode); intros []).
    destruct Hd as (t & Ht & HP). destruct (Hload t Ht HP) as (q & -> & Hq). exists q. split_and!; [done|apply Hq..|].
    intros e [= <-]. by rewrite <-Heq, overlay_config_same.
  - rewrite decide_True by done. rewrite decide_True by (by apply (rebooted_iff node st Hnode)).
    subst P. simpl in Hl. split; [done|]. exists st. split_and!; [done..|]. by apply (rebooted_iff node st Hnode).
Qed.

(** One round brings the module one stage further. *)
Lemma stage_next i n node X P X1 P1 P' :
  node_set_labels node ∅ = node_set_labels node0 ∅ → stage i X P → entry_after node0 X P X1 →
  decided workerCfg workerImage m n node X1 P1 → lives_on P1 P' → ∃ j, j ≤ pred i ∧ stage j X1 P'.
Proof.
  intros Hnode Hst Ha Hd Hl. pose proof (decided_stage n node X1 P1 P' Hnode Hd Hl) as H.
  assert (∀ q, P = Some q → loads q → ∃ e, X1 = Some e ∧
    nmst_Config e = overlay_config (default empty_config (nmst_Config <$> X)) (nms_Config m) ∧
    nmst_BootId e = ni_BootID (node_NodeInfo node0)) as Hload.
  { intros q -> [Hu Hc]. simpl in Ha. simpl in Hu. rewrite Hu in Ha. by apply Ha. }
  destruct i as [|[|[|i]]]; simpl in Hst.
  - destruct Hst as [-> (e & -> & Hce & Hbe)]. simpl in Ha. subst X1. rewrite !decide_True in H by done. by exists 0.
  - destruct Hst as (q & -> & Hq & HX). destruct (Hload q eq_refl Hq) as (e & -> & Hce & Hbe).
    assert (nmst_Config e = nms_Config m) as E.
    { rewrite Hce. destruct X as [e0|]; simpl; [by apply HX|by apply overlay_empty_config]. }
    rewrite !decide_True in H by done. by exists 0.
  - destruct Hst as (q & -> & Hu). simpl in Ha, Hu. rewrite Hu in Ha. subst X1. by exists 1.
  - destruct Hst as (q & -> & Hq). destruct (Hload q eq_refl Hq) as (e & -> & Hce & Hbe).
    destruct (decide (nmst_Config e = nms_Config m)).
    + rewrite decide_True in H by done. exists 0. split; [lia|done].
    + rewrite decide_True in H by (by rewrite Hce). exists 2. split; [simpl; lia|done].
Qed.

(** The pod a decision leads to is one the next pass can deal with. *)
Lemma decided_idle n node X P P' :
  decided workerCfg workerImage m n node X P → lives_on P P' → (∀ p, P' = Some p → pod_Phase p = PodSucceeded) →
  (∀ p, P = Some p → om_Finalizers (pod_meta p) ≠ []) ∧ idle P'.
Proof.
  intros (i & _ & Hd) Hl Hph.
  assert (∀ item cfg t, worker_pod_for n item cfg t → P = Some (pod_created t) →
    (∀ p, P = Some p → om_Finalizers (pod_meta p) ≠ []) ∧ idle P') as Hw.
  { intros item cfg t Hw ->. pose proof (wpf_finalizer _ _ _ _ Hw) as Hf. split.
    { intros p [= <-]. simpl. by rewrite Hf. }
    destruct Hl as (q & -> & [(_ & Han & Hfq) _]). split_and!; [by apply Hph| |].
    - rewrite Hfq. simpl. rewrite Hf, RemoveFinalizer_spec. by rewrite filter_cons_False by (intros []; done).
    - intros _. exists cfg. unfold GetConfigAnnotation. rewrite Han. exact (wpf_config _ _ _ _ Hw). }
  destruct i as [| | |st|p]; [| done| | |].
  - subst P. simpl in Hl. by subst P'.
  - destruct Hd as (t & (H & _)%loader_template_facts & HP). by eapply Hw.
  - destruct Hd as (t & (H & _)%unloader_template_facts & HP). by eapply Hw.
  - done.
Qed.

Context (Hkn : obj_key KNMC n0 = nsn "" (nmc_Name n0)) (Hknode : obj_key KNode node0 = nsn "" (nmc_Name n0)).
Context (Hm : m ∈ nmc_spec_Modules n0) (Hspec : NoDup (nms_key <$> nmc_spec_Modules n0)).
Context (Hall : Forall (λ x, re_ns (mi_Namespace (nms_item x)) = true ∧
  IsNodeSchedulable node0 (mi_Tolerations (nms_item x)) = true) (nmc_spec_Modules n0)).
Notation V := (view (nms_key m) n0 node0).

Lemma round_view w w' X P :
  round (nms_key m) w w' → consistent (w_loaded w) (w_store w) → V X P (w_store w) → idle P →
  ∃ X1 n node P1 P', node_set_labels node ∅ = node_set_labels node0 ∅ ∧ entry_after node0 X P X1 ∧
    decided workerCfg workerImage m n node X1 P1 ∧ lives_on P1 P' ∧ V X1 P' (w_store w') ∧ idle P'.
Proof.
  intros ([Hns Hnp] & s1 & Hp & Hr & Hend) Hc Hv Hi. pose proof (vi_node _ _ _ _ _ _ Hv) as Hnode.
  assert (Forall (λ x, re_ns (mi_Namespace (nms_item x)) = true ∧
    IsNodeSchedulable (cl_node (w_store w)) (mi_Tolerations (nms_item x)) = true) (nmc_spec_Modules n0)) as Hall'.
  { eapply Forall_impl; [exact Hall|]. intros x [? Hs]. split; [done|]. unfold IsNodeSchedulable in *.
    pose proof (f_equal node_Taints Hnode) as Ht. simpl in Ht. by rewrite Ht. }
  change (node_name (w_store w)) with (nmc_Name (cl_nmc (w_store w))) in Hp. rewrite (view_name _ _ _ _ _ _ Hv) in Hp.
  assert (named_statuses (nmc_status_Modules (cl_nmc (w_store w)))) as Hst by (split; [apply Hc|done]).
  pose proof (pass_view workerCfg workerImage (nms_key m) n0 node0 X P _ m Hv Hi Hst Hnp Hkn Hknode Hm eq_refl Hspec Hall') as Hpass.
  destruct (swp_sound _ _ _ _ _ _ _ Hpass Hp) as [_ Hpost].
  destruct (Hpost None eq_refl eq_refl) as (X1 & P1 & n & Ha & Hd & Hv1).
  assert (∀ p, P1 = Some p → om_Finalizers (pod_meta p) ≠ []) as Hheld.
  { destruct Hd as ([| | |st|p] & _ & Hd); [by subst P1|done| | |done].
    - destruct Hd as (t & (H & _)%loader_template_facts & ->). intros p [= <-]. simpl. by rewrite (wpf_finalizer _ _ _ _ H).
    - destruct Hd as (t & (H & _)%unloader_template_facts & ->). intros p [= <-]. simpl. by rewrite (wpf_finalizer _ _ _ _ H). }
  destruct (worker_steps_view _ _ _ _ _ _ _ Hr Hv1 Hheld) as (P' & Hv' & Hl).
  exists X1, n, (cl_node (w_store w)), P1, P'. split_and!; try done.
  eapply (decided_idle n _ X1 P1 P' Hd Hl). intros p HP'. apply Hend. change (node_name (w_store w')) with (nmc_Name (cl_nmc (w_store w'))).
  rewrite (view_name _ _ _ _ _ _ Hv'). rewrite <-HP'. apply Hv'.
Qed.

Lemma rounds_stage j i w w' X P :
  nsteps (round (nms_key m)) j w w' → consistent (w_loaded w) (w_store w) → V X P (w_store w) → idle P → stage i X P →
  ∃ X' P' i', V X' P' (w_store w') ∧ consistent (w_loaded w') (w_store w') ∧ i' ≤ i - j ∧ stage i' X' P'.
Proof.
  intros Hn. revert i X P. induction Hn as [w|j w w1 w2 Hr Hn IH]; intros i X P Hc Hv Hi Hst.
  { exists X, P, i. split_and!; [done|done|lia|done]. }
  destruct (round_view _ _ _ _ Hr Hc Hv Hi) as (X1 & n & node & P1 & P' & Hnode & Ha & Hd & Hl & Hv1 & Hi1).
  destruct (stage_next i n node X P X1 P1 P' Hnode Hst Ha Hd Hl) as (i1 & Hi1' & Hst1).
  destruct (IH i1 X1 P' (round_consistent _ _ _ Hr Hc) Hv1 Hi1 Hst1) as (X2 & P2 & i2 & Hv2 & Hc2 & Hi2 & Hst2).
  exists X2, P2, i2. split_and!; [done|done|lia|done].
Qed.

(** The module needs nothing more: it is recorded with the configuration of the spec and the
    current boot, has no worker pod, and is loaded. *)
Definition at_rest (w : world) : Prop :=
  let s := w_store w in
  (∃ e, status_map (nmc_status_Modules (cl_nmc s)) !! nms_key m = Some e ∧ nmst_Config e = nms_Config m ∧
        nmst_BootId e = boot s) ∧
  cl_pods s !! worker_key (node_name s) (nms_key m) = None ∧ nms_key m ∈ w_loaded w.

Lemma stage_at_rest w X P : consistent (w_loaded w) (w_store w) → V X P (w_store w) → stage 0 X P → at_rest w.
Proof.
  intros Hc Hv [-> (e & -> & Hce & Hbe)]. pose proof (vi_pod _ _ _ _ _ _ Hv) as Hp. unfold own_key in Hp.
  rewrite <-(view_name _ _ _ _ _ _ Hv) in Hp. pose proof (vi_entry _ _ _ _ _ _ Hv) as He.
  assert (boot (w_store w) = ni_BootID (node_NodeInfo node0)) as Hb by (by eapply view_boot).
  split; [exists e; rewrite Hb; done|]. split; [exact Hp|].
  destruct (co_recorded _ _ Hc (nms_key m)) as [|(p & E & _)]; [|done|].
  - unfold recorded, recorded_in. by rewrite He, Hb, <-Hbe.
  - change (node_name (w_store w)) with (nmc_Name (cl_nmc (w_store w))) in E. congruence.
Qed.
End module.

Lemma rounds_converge w w' (m : NodeModuleSpec) j :
  consistent (w_loaded w) (w_store w) →
  let s := w_store w in
  m ∈ nmc_spec_Modules (cl_nmc s) → NoDup (nms_key <$> nmc_spec_Modules (cl_nmc s)) →
  Forall (λ x, re_ns (mi_Namespace (nms_item x)) = true ∧
    IsNodeSchedulable (cl_node s) (mi_Tolerations (nms_item x)) = true) (nmc_spec_Modules (cl_nmc s)) →
  (∃ c, c ∈ node_Conditions (cl_node s) ∧ nc_Type c = NodeReady ∧ nc_Status c = ConditionTrue) →
  config_stored (nms_Config m) = true →
  (∀ p, cl_pods s !! worker_key (node_name s) (nms_key m) = Some p → ended p) →
  4 ≤ j → nsteps (round (nms_key m)) j w w' → at_rest m w'.
Proof.
  intros Hc s Hm Hnd Hall Hready Hcfg Hidle Hj Hn. change (consistent (w_loaded w) s) in Hc.
  set (X := status_map (nmc_status_Modules (cl_nmc s)) !! nms_key m).
  set (P := cl_pods s !! worker_key (node_name s) (nms_key m)).
  assert (view (nms_key m) (cl_nmc s) (cl_node s) X P s) as Hv by (by split; try done; apply Hc).
  assert (idle P) as Hi by (unfold idle; destruct P eqn:E; [by apply Hidle|done]).
  destruct j as [|j]; [lia|]. inversion Hn as [|? ? w1 ? Hr1 Hn1]; subst.
  destruct (round_view m (cl_nmc s) (cl_node s) (co_nmc _ _ Hc) (co_node _ _ Hc) Hm Hnd Hall w w1 X P Hr1 Hc Hv Hi)
    as (X1 & n & node & P1 & P' & Hnode & Ha & Hd & Hl & Hv1 & Hi1).
  assert (∃ i, i ≤ 3 ∧ stage m (cl_node s) i X1 P') as (i & Hi3 & Hst).
  { pose proof (decided_stage m (cl_node s) Hready n node X1 P1 P' Hnode Hd Hl) as H. destruct X1 as [e|]; [|exists 1; split; [lia|done]].
    destruct (decide _); [destruct (decide _)|destruct (decide _)]; [exists 0|exists 1|exists 2|exists 3]; (split; [lia|done]). }
  destruct (rounds_stage m (cl_nmc s) (cl_node s) Hcfg Hready (co_nmc _ _ Hc) (co_node _ _ Hc) Hm Hnd Hall j i w1 w' X1 P' Hn1
    (round_consistent _ _ _ Hr1 Hc) Hv1 Hi1 Hst) as (X2 & P2 & i2 & Hv2 & Hc2 & Hi2 & Hst2).
  replace i2 with 0 in Hst2 by lia. by eapply stage_at_rest.
Qed.
(** C4: a module of the spec ends up loaded.  Assume the node's history is orderly (as in
    [status_tells_the_truth]); the spec has one entry per module, each with a valid namespace and
    schedulable on the node; the node is Ready; the module's configuration survives being stored
    as an annotation; and the module's worker pod is absent or has succeeded.  Then after four
    rounds (each a pass of the controller that reports no error, followed by the success of the
    module's worker pod if it has one; nothing else changes spec or node), and in every round from
    then on, the module is recorded with exactly the configuration of the spec and the current
    boot, has no worker pod left, and is loaded in the kernel; whatever the status said before,
    other modules and their pods notwithstanding. *)
Theorem rollout_converges w0 w w' (m : NodeModuleSpec) j :
  initial w0 → rtc (orderly_step workerCfg workerImage) w0 w →
  let s := w_store w in
  m ∈ nmc_spec_Modules (cl_nmc s) → NoDup (nms_key <$> nmc_spec_Modules (cl_nmc s)) →
  Forall (λ x, re_ns (mi_Namespace (nms_item x)) = true ∧
    IsNodeSchedulable (cl_node s) (mi_Tolerations (nms_item x)) = true) (nmc_spec_Modules (cl_nmc s)) →
  (∃ c, c ∈ node_Conditions (cl_node s) ∧ nc_Type c = NodeReady ∧ nc_Status c = ConditionTrue) →
  config_stored (nms_Config m) = true →
  (∀ p, cl_pods s !! worker_key (node_name s) (nms_key m) = Some p → ended p) →
  4 ≤ j → nsteps (round (nms_key m)) j w w' → at_rest m w'.
Proof. intros H0 Hr. apply rounds_converge. by eapply reachable_consistent. Qed.
End rounds.

(** ** Example: a module is loaded on an idle node *)

Definition demo_store : cluster :=
  {| cl_node := demo_node "node-a" ∅; cl_nmc := demo_nmc "node-a" [demo_spec]; cl_pods := ∅ |}.
Definition demo_world : world := {| w_store := demo_store; w_loaded := ∅ |}.

(** The controller's pass against the executable server. *)
Definition demo_pass (prompt : bool) (s : cluster) : list obs * option error * cluster :=
  run (serve prompt) (NMC_Reconcile (EXT := demo_externals) demo_worker_cfg "worker:v1" (nsn "" "node-a")) s.

Definition demo_key : NamespacedName := worker_key "node-a" (nms_key demo_spec).
Definition demo_started : cluster := Eval vm_compute in (demo_pass true demo_store).2.
Definition demo_running : Pod := Eval vm_compute in default demo_pod (cl_pods demo_started !! demo_key).
Definition demo_succeeded_status : PodStatus :=
  {| pst_Phase := PodSucceeded; pst_ContainerStatuses := []; pst_Ready := false |}.
Definition demo_ended : cluster := Eval vm_compute in set_pod demo_started demo_key (with_status demo_running demo_succeeded_status).
Definition demo_rested : cluster := Eval vm_compute in (demo_pass true demo_ended).2.

Lemma demo_pass_steps prompt s s' :
  (demo_pass prompt s).1.2 = None → (demo_pass prompt s).2 = s' →
  steps answers s (NMC_Reconcile (EXT := demo_externals) demo_worker_cfg "worker:v1" (nsn "" "node-a")) s' (Some None).
Proof. intros <- <-. apply run_steps. Qed.

Lemma valid_names_check s :
  forallb (λ e, re_ns (mi_Namespace (nmst_item e))) (nmc_status_Modules (cl_nmc s)) = true →
  forallb (λ kp, re_ns (pod_Namespace kp.2)) (map_to_list (cl_pods s)) = true → valid_names s.
Proof.
  rewrite !forallb_forall. intros H1 H2. split.
  - intros e He. by apply H1, list_elem_of_In.
  - intros key p Hp. apply (H2 (key, p)), list_elem_of_In. by apply elem_of_map_to_list.
Qed.

Notation demo_round := (round (EXT := demo_externals) demo_worker_cfg "worker:v1" (nms_key demo_spec)).

(** A round with a worker pod that succeeds, and one without. *)
Lemma demo_round_worker s L s1 p :
  valid_names s → node_name s = "node-a" → (demo_pass true s).1.2 = None → (demo_pass true s).2 = s1 →
  node_name s1 = "node-a" → cl_pods s1 !! demo_key = Some p → finished p = false → held p →
  demo_round {| w_store := s; w_loaded := L |}
    {| w_store := set_pod s1 demo_key (with_status p demo_succeeded_status); w_loaded := worker_effect p L |}.
Proof.
  intros Hn Hname H1 H2 Hname1 Hp Hf Hh. split; [done|]. exists s1. cbn [w_store w_loaded]. rewrite Hname. split_and!.
  - by apply (demo_pass_steps true).
  - apply rtc_once. exists (EDone p). split; [done|]. split; [done|]. by apply step_done.
  - change (node_name (set_pod s1 demo_key (with_status p demo_succeeded_status))) with (node_name s1). rewrite Hname1.
    intros q [[_ <-]|[[] _]]%set_pod_lookup; done.
Qed.

Lemma demo_round_quiet s L s1 :
  valid_names s → node_name s = "node-a" → (demo_pass true s).1.2 = None → (demo_pass true s).2 = s1 →
  node_name s1 = "node-a" → cl_pods s1 !! demo_key = None →
  demo_round {| w_store := s; w_loaded := L |} {| w_store := s1; w_loaded := L |}.
Proof.
  intros Hn Hname H1 H2 Hname1 Hp. split; [done|]. exists s1. cbn [w_store w_loaded]. rewrite Hname, Hname1. split_and!.
  - by apply (demo_pass_steps true).
  - apply rtc_refl.
  - intros p E. exfalso. change (cl_pods s1 !! demo_key = Some p) in E. congruence.
Qed.

Lemma demo_round_load : demo_round demo_world {| w_store := demo_ended; w_loaded := {[nms_key demo_spec]} |}.
Proof.
  replace {[nms_key demo_spec]} with (worker_effect demo_running ∅) by (vm_compute; reflexivity).
  apply (demo_round_worker _ _ demo_started demo_running); [apply valid_names_check; reflexivity|vm_compute; reflexivity..|].
  vm_compute. left.
Qed.

Lemma rollout_converges_witness :
  at_rest demo_spec {| w_store := demo_rested; w_loaded := {[nms_key demo_spec]} |}.
Proof.
  apply (rollout_converges (EXT := demo_externals) demo_worker_cfg "worker:v1" demo_world demo_world _ demo_spec 4).
  - by repeat split.
  - apply rtc_refl.
  - left.
  - apply NoDup_singleton.
  - repeat constructor.
  - eexists. split; [left|done].
  - reflexivity.
  - intros p E. vm_compute in E. discriminate.
  - lia.
  - eapply nsteps_l; [exact demo_round_load|].
    do 3 (eapply nsteps_l; [apply (demo_round_quiet _ _ demo_rested); [apply valid_names_check; reflexivity|vm_compute; reflexivity..]|]).
    apply nsteps_O.
Defined.

Lemma demo_reachable :
  rtc (orderly_step (EXT := demo_externals) demo_worker_cfg "worker:v1") demo_world
    {| w_store := demo_ended; w_loaded := {[nms_key demo_spec]} |}.
Proof.
  destruct demo_round_load as (_ & s1 & Hp & Hr & _). eapply rtc_l.
  - exists EPass. split; [done|]. apply step_pass with (o := Some None). apply steps_answers_serves. exact Hp.
  - eapply rtc_subrel; [|exact Hr]. intros w1 w2 (e & _ & Ho & Hs). by exists e.
Qed.

Lemma status_tells_the_truth_witness :
  recorded demo_ended (nms_key demo_spec) ∨ worker_done demo_ended false (nms_key demo_spec).
Proof.
  destruct (status_tells_the_truth (EXT := demo_externals) demo_worker_cfg "worker:v1" demo_world
    {| w_store := demo_ended; w_loaded := {[nms_key demo_spec]} |}) as (_ & H & _).
  - by repeat split.
  - exact demo_reachable.
  - apply H. cbn [w_loaded]. set_solver.
Defined.
