(* ===== verification/Hazards.v ===== *)
(** * Orders of events that the bookkeeping of the node misses

    The two kinds of events the invariant of [Rollout] leaves out, and what they lead to: a
    reboot between the success of a loader pod and the pass that records it, and a worker that
    finishes after the controller has released its pod. *)

From S2P Require Import Prelude Types Kube GoStrings Externals Demo Labels NmcHelper Node WorkerPod NmcReconciler NmcProps NmcLabels Cluster Rollout Converge.

Open Scope string_scope.
Open Scope nat_scope.
Open Scope list_scope.

Section hazards.
Context `{EXT : Externals} `{EXTL : !ExternalsLaws} (workerCfg : WorkerConfig) (workerImage : string).

(** A reboot between the success of a loader pod and the pass that records it is missed: the
    boot id that pass stores is the one the node has by then.  The status then says that the
    module is loaded since the last boot, its pod is gone, nothing is loaded in the kernel, and
    whatever a later pass sees, it has nothing to do for the module. *)
Theorem reboot_before_record_is_missed w0 w (m : NodeModuleSpec) p node' s1 :
  initial w0 → rtc (orderly_step workerCfg workerImage) w0 w →
  let s := w_store w in
  let key := worker_key (node_name s) (nms_key m) in
  m ∈ nmc_spec_Modules (cl_nmc s) → NoDup (nms_key <$> nmc_spec_Modules (cl_nmc s)) →
  Forall (λ x, re_ns (mi_Namespace (nms_item x)) = true ∧
    IsNodeSchedulable node' (mi_Tolerations (nms_item x)) = true) (nmc_spec_Modules (cl_nmc s)) →
  (∃ c, c ∈ node_Conditions node' ∧ nc_Type c = NodeReady ∧ nc_Status c = ConditionTrue) →
  config_stored (nms_Config m) = true → valid_names s →
  cl_pods s !! key = Some p → ended p → IsUnloaderPod (Some p) = false →
  yaml_Marshal_config (nms_Config m) = Ok (GetConfigAnnotation (Some p)) →
  status_map (nmc_status_Modules (cl_nmc s)) !! nms_key m = None →
  obj_key KNode node' = obj_key KNode (cl_node s) →
  Forall (λ st, nmst_BootId st ≠ ni_BootID (node_NodeInfo node')) (nmc_status_Modules (cl_nmc s)) →
  steps answers (set_node s node') (NMC_Reconcile workerCfg workerImage (nsn "" (node_name s))) s1 (Some None) →
  step workerCfg workerImage EReboot w {| w_store := set_node s node'; w_loaded := ∅ |} ∧
  recorded s1 (nms_key m) ∧ cl_pods s1 !! key = None ∧
  (∀ n P, decided workerCfg workerImage m n (cl_node s1) (status_map (nmc_status_Modules (cl_nmc s1)) !! nms_key m) P → P = None).
Proof.
  intros H0 Hr s key Hm Hnd Hall Hready Hcfg [Hns Hnp] Hp He Hu Hann Hnone Hkn Hfresh Hsteps.
  pose proof (reachable_consistent _ _ _ _ H0 Hr : consistent (w_loaded w) s) as Hc.
  assert (view (nms_key m) (cl_nmc s) node' None (Some p) (set_node s node')) as Hv by (by split; try done; apply Hc).
  assert (named_statuses (nmc_status_Modules (cl_nmc (set_node s node')))) as Hst by (split; [apply Hc|done]).
  assert (obj_key KNode node' = nsn "" (nmc_Name (cl_nmc s))) as Hkn' by (rewrite Hkn; apply Hc).
  pose proof (pass_view workerCfg workerImage (nms_key m) (cl_nmc s) node' None (Some p) _ m Hv He Hst Hnp
    (co_nmc _ _ Hc) Hkn' Hm eq_refl Hnd Hall) as Hpass.
  destruct (swp_sound _ _ _ _ _ _ _ Hpass Hsteps) as [_ Hpost].
  destruct (Hpost None eq_refl eq_refl) as (X1 & P1 & n & Ha & Hd & Hv1).
  simpl in Ha, Hu. rewrite Hu in Ha. destruct (Ha _ Hann) as (e & -> & Hce & Hbe). simpl in Hce.
  rewrite overlay_empty_config in Hce by done.
  assert (∀ n node P, node_set_labels node ∅ = node_set_labels node' ∅ →
    decided workerCfg workerImage m n node (Some e) P → P = None) as Hrest.
  { intros n' node P Hnode Hd'.
    pose proof (decided_stage workerCfg workerImage m node' Hready n' node (Some e) P P Hnode Hd' (lives_on_refl P)) as H.
    cbv beta iota in H. rewrite !decide_True in H by done. by destruct H as [-> _]. }
  assert (P1 = None) as -> by (by eapply Hrest). split_and!.
  - destruct w. by apply step_reboot.
  - unfold recorded, recorded_in. rewrite (vi_entry _ _ _ _ _ _ Hv1). simpl. f_equal. rewrite Hbe.
    symmetry. by eapply view_boot.
  - exact (vi_pod _ _ _ _ _ _ Hv1).
  - intros n' P. rewrite (vi_entry _ _ _ _ _ _ Hv1). apply Hrest. apply Hv1.
Qed.

(** A module that neither spec nor status knows gets no worker pod. *)
Lemma unknown_module_gets_no_pod n node k :
  k ∉ nms_key <$> nmc_spec_Modules n → k ∉ nmst_key <$> nmc_status_Modules n →
  only_calls (λ c, match c with Create KPod q => pod_module q ≠ k | _ => True end)
    (reconcile_modules workerCfg workerImage n node).
Proof.
  intros Hs Ht. eapply only_calls_mono; [|apply reconcile_scope]. intros c Hc. destruct c as [| |kd q| | | | | | | | | | | |]; try done.
  destruct kd; try done. simpl in Hc.
  assert (∀ n' item cfg, worker_pod_for n' item cfg q → pod_module q = item_key item) as Hmod.
  { intros n' item cfg Hw. unfold pod_module, item_key. by rewrite (wpf_namespace _ _ _ _ Hw), (wpf_module _ _ _ _ Hw). }
  destruct Hc as [m Hm _ (Hw & _)%loader_template_facts|m st _ _ Hst _ _ (Hw & _)%unloader_template_facts|n' st Hst _ _ (Hw & _)%unloader_template_facts].
  - rewrite (Hmod _ _ _ Hw). intros <-. apply Hs. by apply (list_elem_of_fmap_2 nms_key).
  - rewrite (Hmod _ _ _ Hw). intros <-. apply Ht. by apply (list_elem_of_fmap_2 nmst_key).
  - rewrite (Hmod _ _ _ Hw). intros <-. apply Ht. by apply (list_elem_of_fmap_2 nmst_key).
Qed.
End hazards.


(** ** A history in which a loaded module is forgotten *)

(** The loader pod has started; then the module is removed from the spec. *)
Definition demo_status_running : PodStatus :=
  {| pst_Phase := PodRunning; pst_ContainerStatuses := []; pst_Ready := true |}.
Definition demo_loading : cluster := set_pod demo_started demo_key (with_status demo_running demo_status_running).
Definition demo_removed : cluster := set_nmc demo_loading (nmc_set_spec (cl_nmc demo_loading) []).
(** The next pass releases and deletes the pod; its worker still has time to end. *)
Definition demo_released : cluster := Eval vm_compute in (demo_pass false demo_removed).2.
Definition demo_late : Pod := Eval vm_compute in default demo_pod (cl_pods demo_released !! demo_key).
Definition demo_late_done : cluster := set_pod demo_released demo_key (with_status demo_late demo_succeeded_status).
Definition demo_forgotten : cluster := set_pods demo_late_done (delete demo_key (cl_pods demo_late_done)).

Definition demo_step (w w' : world) : Prop := ∃ e, step (EXT := demo_externals) demo_worker_cfg "worker:v1" e w w'.

Lemma demo_pass_step prompt s s' L :
  node_name s = "node-a" → (demo_pass prompt s).1.2 = None → (demo_pass prompt s).2 = s' →
  demo_step {| w_store := s; w_loaded := L |} {| w_store := s'; w_loaded := L |}.
Proof.
  intros Hn H1 H2. exists EPass. apply step_pass with (o := Some None). rewrite Hn.
  apply steps_answers_serves. by apply (demo_pass_steps prompt).
Qed.

(** A worker that loads its module while its pod is being removed leaves a module that nothing
    remembers.  A loader pod runs, its module is taken out of the spec, and the next pass
    releases and deletes the pod without noting that it may have loaded the module.  When the
    worker still ends well, the module is loaded, there is no spec, no status and no pod for
    it, and the next pass reports no error and changes nothing: it is never unloaded. *)
Theorem late_load_is_forgotten :
  let w := {| w_store := demo_forgotten; w_loaded := {[nms_key demo_spec]} |} in
  rtc demo_step demo_world w ∧
  nms_key demo_spec ∈ w_loaded w ∧ nmc_spec_Modules (cl_nmc (w_store w)) = [] ∧
  nmc_status_Modules (cl_nmc (w_store w)) = [] ∧ cl_pods (w_store w) = ∅ ∧
  (demo_pass true demo_forgotten).1.2 = None ∧ (demo_pass true demo_forgotten).2 = demo_forgotten.
Proof.
  cbv zeta. split_and!; [|set_solver|vm_compute; reflexivity..].
  eapply rtc_l; [apply (demo_pass_step true _ demo_started); vm_compute; reflexivity|].
  eapply rtc_l; [exists EReport; apply (step_report _ _ _ _ demo_key demo_running demo_status_running); try (vm_compute; reflexivity); discriminate|].
  eapply rtc_l; [exists ESpec; apply (step_spec _ _ demo_loading _ (nmc_set_spec (cl_nmc demo_loading) [])); vm_compute; reflexivity|].
  eapply rtc_l; [apply (demo_pass_step false _ demo_released); vm_compute; reflexivity|].
  eapply rtc_l; [exists (EDone demo_late); apply (step_done _ _ _ _ demo_key demo_late demo_succeeded_status); vm_compute; reflexivity|].
  change (worker_effect demo_late ∅) with ({[nms_key demo_spec]} : gset NamespacedName).
  eapply rtc_l; [exists EGone; eapply (step_gone _ _ _ _ demo_key); vm_compute; reflexivity|]. apply rtc_refl.
Qed.

Definition demo_node_rebooted : Node :=
  {| node_meta := node_meta (demo_node "node-a" ∅); node_Taints := []; node_SpecOther := "";
     node_Conditions := [{| nc_Type := NodeReady; nc_Status := ConditionTrue |}];
     node_NodeInfo := {| ni_BootID := "boot-2"; ni_KernelVersion := "6.1.0"; ni_Other := "" |} |}.
Definition demo_missed : cluster := Eval vm_compute in (demo_pass true (set_node demo_ended demo_node_rebooted)).2.

Lemma reboot_before_record_is_missed_witness :
  recorded demo_missed (nms_key demo_spec) ∧ cl_pods demo_missed !! demo_key = None.
Proof.
  destruct (reboot_before_record_is_missed (EXT := demo_externals) demo_worker_cfg "worker:v1" demo_world
    {| w_store := demo_ended; w_loaded := {[nms_key demo_spec]} |} demo_spec
    (with_status demo_running demo_succeeded_status) demo_node_rebooted demo_missed) as (_ & H1 & H2 & _).
  - by repeat split.
  - exact demo_reachable.
  - left.
  - apply NoDup_singleton.
  - repeat constructor.
  - eexists. split; [left|done].
  - reflexivity.
  - apply valid_names_check; reflexivity.
  - vm_compute. reflexivity.
  - split; [reflexivity|]. split; [vm_compute; reflexivity|]. intros _. exists (nms_Config demo_spec). vm_compute. reflexivity.
  - vm_compute. reflexivity.
  - vm_compute. reflexivity.
  - vm_compute. reflexivity.
  - reflexivity.
  - constructor.
  - apply (demo_pass_steps true); vm_compute; reflexivity.
  - by split.
Defined.
