(* ===== verification/InUse.v ===== *)
(** * The in-use label of a NodeModulesConfig

    The Module controller gives up the finalizer of a deleted Module once no NodeModulesConfig has
    the module's in-use label.  In the histories of [Rollout], this label is a sound sign: a module
    that is configured, recorded or loaded on the node has it. *)

From S2P Require Import Prelude Types Kube GoStrings Externals Demo Labels NmcHelper Node WorkerPod NmcReconciler NmcProps NmcLabels Cluster Rollout Converge.

Open Scope string_scope.
Open Scope nat_scope.
Open Scope list_scope.

Section in_use.
Context `{EXT : Externals} `{EXTL : !ExternalsLaws} (workerCfg : WorkerConfig) (workerImage : string).
Implicit Types (s : cluster) (k : NamespacedName) (p : Pod) (L : gset NamespacedName).

Definition in_use s k : Prop := nmc_Labels (cl_nmc s) !! in_use_label k = Some "".
Definition in_spec s k : Prop := k ∈ nms_key <$> nmc_spec_Modules (cl_nmc s).

(** The modules the node has to do with. *)
Definition claimed s k : Prop := in_spec s k ∨ recorded s k.

(** The invariant: they have the label, and so have those whose loader succeeded. *)
Definition labelled s : Prop := ∀ k, claimed s k ∨ worker_done s false k → in_use s k.

(** ** Calls that do not take a label in use away *)

Record spares s s' : Prop := {
  sp_keeps : keeps s s';
  sp_spec : nmc_spec_Modules (cl_nmc s') = nmc_spec_Modules (cl_nmc s);
  sp_label k : claimed s k → in_use s k → in_use s' k;
}.

Lemma spares_claimed s s' k : spares s s' → claimed s' k ↔ claimed s k.
Proof. intros [Hk Hs _]. unfold claimed, in_spec. by rewrite Hs, (ke_recorded _ _ Hk). Qed.

#[local] Instance spares_preorder : PreOrder spares.
Proof.
  split.
  - intros s. by split.
  - intros s1 s2 s3 H12 H23. pose proof (λ k, spares_claimed _ _ k H12) as Hc. destruct H12 as [H1 H2 H3], H23 as [H4 H5 H6].
    split; [by etrans|by rewrite H5|]. intros k Hk Hu. by apply H6, H3; [apply Hc|..].
Qed.

Lemma spares_labelled L s s' : consistent L s → up_to_date s → labelled s → spares s s' → labelled s'.
Proof.
  intros H Hu Hl Hs k Hk. assert (claimed s k) as Hc.
  { destruct Hk as [Hk|(p & E & Hph & Hun)%(keeps_done _ _ _ _ (sp_keeps _ _ Hs))]; [by apply (spares_claimed _ _ _ Hs)|].
    right. specialize (Hu _ _ E Hph). unfold outcome_recorded in Hu. rewrite Hun in Hu.
    by rewrite (pod_of_module _ _ _ (co_pods _ _ H _ _ E)) in Hu. }
  apply (sp_label _ _ Hs); [done|]. apply Hl. by left.
Qed.

Definition label_call s (c : call) : Prop :=
  match c with
  | Patch KNMC base new _ => ∀ k, claimed s k → nmc_Labels new !! in_use_label k = nmc_Labels base !! in_use_label k
  | _ => True
  end.
Definition spare_call s (c : call) : Prop := safe_call s c ∧ label_call s c.

Lemma stores_pod_nmc s key p s' : stores_pod s key p s' → cl_nmc s' = cl_nmc s.
Proof.
  unfold stores_pod. destruct (om_DeletionTimestamp _); [|by intros ->]. destruct (om_Finalizers _); [|by intros ->].
  by intros [->|[_ ->]].
Qed.

Lemma safe_answer_nmc s c x s' :
  safe_call s c → answers s c x s' →
  cl_nmc s' = cl_nmc s ∨
  ∃ base new b, c = Patch KNMC base new b ∧
    cl_nmc s' = nmc_set_labels (cl_nmc s) (merge_map (nmc_Labels base) (nmc_Labels new) (nmc_Labels (cl_nmc s))).
Proof.
  destruct c as [k key|k opts|k o|k o|k base new b| | | | | | | | | |]; try done; [..|by intros _ ->; left].
  1-4: destruct k; try done; simpl; intros Hc Ha; left.
  1-4: by destruct Ha as [-> _].
  - destruct (cl_pods s !! _); [by destruct Ha as [-> _]|by destruct Ha as [_ ->]].
  - destruct (cl_pods s !! _); [|by destruct Ha as [-> _]]. destruct Ha as (_ & t & Ha). by eapply stores_pod_nmc.
  - destruct k; try done; simpl; intros Hc Ha.
    + destruct Hc as [H1 H2]. destruct (Ha H1 H2) as [_ ->]. by left.
    + specialize (Ha Hc). left. destruct (cl_pods s !! _); [|by destruct Ha as [-> _]]. destruct Ha as [_ Ha]. by eapply stores_pod_nmc.
    + destruct Hc as [H1 H2]. destruct (Ha H1 H2) as [_ ->]. right. by exists base, new, b.
Qed.

Lemma spare_answer s c x s' : spare_call s c → answers s c x s' → spares s s'.
Proof.
  intros [Hsafe Hlab] Ha. pose proof (safe_answer_keeps _ _ _ _ Hsafe Ha) as Hk.
  destruct (safe_answer_nmc _ _ _ _ Hsafe Ha) as [E|(base & new & b & -> & E)].
  - split; [done|by rewrite E|]. intros k _. unfold in_use. by rewrite E.
  - split; [done|by rewrite E|]. intros k Hc. unfold in_use. rewrite E. unfold nmc_Labels at 2. simpl.
    rewrite merge_map_lookup. by rewrite decide_True by (symmetry; by apply Hlab).
Qed.

Lemma spare_call_serves s c x s' : spare_call s c → serves s c x s' → spares s s'.
Proof. intros Hc [H|[_ [->|[x' H]]]]; [|done|]; by eapply spare_answer. Qed.

Lemma spare_call_stable s s' c : spares s s' → spare_call s c → spare_call s' c.
Proof.
  intros H [H1 H2]. split; [by eapply safe_call_stable; [apply H|]|].
  destruct c as [k ?|k ?|k ?|k ?|k ? ? ?| | | | | | | | | |]; try done; destruct k; try done; simpl in *.
  intros k Hk%(spares_claimed _ _ _ H). by apply H2.
Qed.

Lemma swp_spare {R} s0 s (p : prog R) :
  spares s0 s → only_calls (spare_call s0) p → swp serves (spares s0) p (λ _ s', spares s0 s') s.
Proof.
  intros Hs Hp. eapply swp_mono; [|eapply swp_only_calls; [|exact Hp|exact Hs]]; [done|].
  intros c x s1 s2 Hc H1 Hx. etrans; [exact H1|]. eapply spare_call_serves; [|exact Hx]. by eapply spare_call_stable.
Qed.

(** Programs that patch no label of the NodeModulesConfig. *)
Definition no_label_patch (c : call) : Prop := match c with Patch KNMC _ _ _ => False | _ => True end.

Lemma quiet_spare {R} s (p : prog R) :
  only_calls (safe_call s) p → only_calls no_label_patch p → only_calls (spare_call s) p.
Proof.
  intros H1 H2. eapply wp_mono; [|exact (wp_and _ _ _ H1 H2)]. intros tr r [H3 H4]. apply Forall_forall. intros o Ho.
  rewrite Forall_forall in H3, H4. split; [by apply H3|]. specialize (H4 _ Ho).
  destruct (obs_call o) as [k ?|k ?|k ?|k ?|k ? ? ?| | | | | | | | | |]; try done. by destruct k.
Qed.

Lemma DeletePod_quiet p : only_calls no_label_patch (DeletePod p).
Proof.
  eapply wp_DeletePod. intros tr r H. by apply (replaces_calls no_label_patch p tr r H).
Qed.

Lemma DeletePod_spare s p : only_calls (spare_call s) (DeletePod p).
Proof.
  apply quiet_spare; [apply DeletePod_safe|apply DeletePod_quiet].
Qed.

#[local] Hint Resolve DeletePod_spare DeletePod_quiet : calls.

Lemma ProcessModuleSpec_spare s n spec status node :
  obj_key KNMC n = obj_key KNMC (cl_nmc s) →
  only_calls (spare_call s) (ProcessModuleSpec workerCfg workerImage n spec status node).
Proof.
  intros Hn. apply quiet_spare; [by apply ProcessModuleSpec_safe|].
  unfold ProcessModuleSpec, GetWorkerPod, CreateLoaderPod, CreateUnloaderPod. only_calls; try done.
Qed.

(** ** The pass after the status was synchronised *)

(** The controller's copy has the stored spec, and records what the stored status records. *)
Definition own_view s (n : NodeModulesConfig) : Prop :=
  local_view s n ∧ nmc_spec_Modules n = nmc_spec_Modules (cl_nmc s).

(** The collector takes no label of a claimed module away. *)
Lemma kept_claimed s n pods k :
  own_view s n → claimed s k → kept_labels n pods !! in_use_label k = nmc_Labels n !! in_use_label k.
Proof.
  intros [Hn Hs] Hk. unfold kept_labels. apply option_eq. intros v. rewrite map_lookup_filter_Some. simpl.
  assert (¬ collectable n pods (in_use_label k)) as Hc; [|naive_solver].
  intros (_ & H1 & H2 & _). destruct Hk as [Hk|Hk].
  - apply H1, list_elem_of_fmap_2. unfold in_spec in Hk. by rewrite Hs.
  - apply H2, list_elem_of_fmap_2. apply (lv_recorded _ _ Hn) in Hk. unfold recorded_in, status_map in Hk.
    rewrite keyed_map_lookup in Hk. destruct (find_first _ _) as [e|] eqn:E; [|done].
    apply find_first_Some in E as [Hin <-%key_is_true]. by apply list_elem_of_fmap_2.
Qed.

Lemma collector_spare s n : own_view s n → only_calls (spare_call s) (GarbageCollectInUseLabels n).
Proof.
  intros Hn. eapply wp_mono; [|apply GarbageCollectInUseLabels_exact]. intros tr r (a & rest & -> & H).
  constructor; [done|]. destruct a as [pods|e]; [|by destruct H as [-> _]]. apply Forall_obs_call. rewrite H.
  case_decide; repeat constructor; [simpl; apply Hn|]. intros k Hk. by apply (kept_claimed s).
Qed.

Lemma finish_spare s n node errs :
  own_view s n → obj_key KNode node = obj_key KNode (cl_node s) → only_calls (spare_call s) (reconcile_finish n node errs).
Proof.
  intros Hn Hnode. unfold reconcile_finish. apply only_calls_bind; [by apply collector_spare|].
  intros [n' err]. apply only_calls_bind.
  { unfold GarbageCollectWorkerPods, ListWorkerPodsOnNode, list_all, patch, perform. only_calls; done. }
  intros err'. apply only_calls_bind.
  { unfold UpdateNodeLabels. apply only_calls_bind; [|intros []; apply only_calls_ret].
    eapply wp_mono; [|apply UpdateLabels_wp]. cbv zeta. intros tr r [Htr _]. apply Forall_obs_call. rewrite Htr.
    case_decide; repeat constructor; done. }
  intros [node' [[loaded unloaded]|e]]; [|apply only_calls_ret].
  unfold RecordEvents, record_event. only_calls; done.
Qed.

(** A patch of the status leaves spec and labels. *)
Lemma status_patch_nmc s base new (x : result NodeModulesConfig) s' :
  obj_key KNMC base = obj_key KNMC (cl_nmc s) → new = nmc_set_status base (nmc_status_Modules new) →
  serves s (StatusPatch KNMC base new) x s' →
  nmc_spec_Modules (cl_nmc s') = nmc_spec_Modules (cl_nmc s) ∧ nmc_Labels (cl_nmc s') = nmc_Labels (cl_nmc s) ∧
  (∀ n', x = Ok n' → nmc_spec_Modules n' = nmc_spec_Modules (cl_nmc s)).
Proof.
  intros Hk Hnew [Ha|[(e & -> & _) [->|[y Ha]]]]; [| |]; try (destruct (Ha Hnew Hk) as [Hy ->]).
  - split_and!; [done|done|]. rewrite Hy. by intros n' [= <-].
  - by split_and!.
  - by split_and!.
Qed.

Lemma orphan_spare s0 s n st node :
  NoDup (nmst_key <$> nmc_status_Modules (cl_nmc s0)) → spares s0 s → own_view s0 n →
  (IsNodeRebooted node (nmst_BootId st) = true → ¬ recorded s0 (nmst_key st)) →
  swp serves (spares s0) (ProcessUnconfiguredModuleStatus workerCfg workerImage n st node) (λ r _, own_view s0 r.1) s.
Proof.
  intros Hnd Hs [Hn Hsp] Hst. pose proof Hs as [Hk Hs2 Hs3]. destruct (IsNodeRebooted node (nmst_BootId st)) eqn:Er.
  - unfold ProcessUnconfiguredModuleStatus. rewrite Er. pose proof (remove_unrecorded s0 n st Hn (Hst eq_refl)) as Hnew.
    apply swp_bind, swp_call; [done|]. intros x s' Hx.
    assert (obj_key KNMC n = obj_key KNMC (cl_nmc s)) as Hkey by (rewrite (ke_nmc _ _ Hk); apply Hn).
    destruct (status_patch_nmc _ _ _ _ _ Hkey eq_refl Hx) as (H1 & H2 & H3).
    apply (status_patch_keeps s0) in Hx as [Hs' Hv]; [|done..].
    assert (spares s0 s') as Hsp'.
    { split; [done|by rewrite H1|]. intros k Hc Hu. unfold in_use. rewrite H2. by apply Hs3. }
    split; [done|]. destruct x as [n'|e]; cbn; (split; [done|]); split; auto. simpl. rewrite (H3 _ eq_refl). by rewrite Hs2.
  - destruct (orphan_safe workerCfg workerImage s0 n st node (lv_key _ _ Hn) Er) as [Hc Hr].
    eapply swp_mono; [|apply (swp_wp _ _ _ (λ r, r.1 = n)); [exact Hr|apply swp_spare; [done|]]].
    + intros r s' _ [-> _]. by split.
    + apply quiet_spare; [done|]. unfold ProcessUnconfiguredModuleStatus. rewrite Er.
      unfold GetWorkerPod, CreateUnloaderPod. only_calls; done.
Qed.

Lemma reconcile_modules_spare s n node :
  NoDup (nmst_key <$> nmc_status_Modules (cl_nmc s)) → own_view s n →
  obj_key KNode node = obj_key KNode (cl_node s) → ni_BootID (node_NodeInfo node) = boot s →
  swp serves (spares s) (reconcile_modules workerCfg workerImage n node) (λ _ _, True) s.
Proof.
  intros Hnd Hv Hnode Hboot. pose proof Hv as [Hn _]. unfold reconcile_modules. apply swp_bind.
  eapply swp_mono; [|apply (swp_wp _ _ _ (λ st, ∀ key x, rs_statusMap st !! key = Some x → x ∈ nmc_status_Modules n))].
  - intros st s1 H1 [Hst _]. apply swp_bind.
    eapply swp_mono; [|apply (swp_for_range _ _ _ (λ l acc _, own_view s acc.1 ∧
      ∀ kx, kx ∈ l → kx.2 ∈ nmc_status_Modules n)); [done| |]].
    + intros [n' errs] s2 H2 [Hn' _]. simpl in Hn'.
      eapply swp_mono; [|apply (swp_spare s s2); [done|]]; [done|].
      case_bool_decide; [|by apply finish_spare].
      apply only_calls_bind; [|intros []; apply only_calls_ret].
      eapply wp_mono; [|apply UpdateLabels_wp]. cbv zeta. intros tr r [Htr _]. apply Forall_obs_call. rewrite Htr.
      case_decide; repeat constructor; done.
    + split; [done|]. intros [key x] Hx%elem_of_range_map. by eapply Hst.
    + intros [key x] l [n' errs] s2 H2 [Hn' Hl]. unfold reconcile_orphan. apply swp_bind.
      eapply swp_mono; [|apply (orphan_spare s); [done..|]].
      * intros [n2 err] s3 H3 Hn2. apply swp_ret; [done|]. split; [done|]. intros kx Hkx. apply Hl. by right.
      * intros Hr. apply (rebooted_unrecorded s n node); [done..|]. apply (Hl (key, x)). left.
  - eapply wp_mono; [|apply spec_loop]. intros tr st [_ ->] key x [Hx _]%map_lookup_filter_Some.
    by apply build_statusMap_Some in Hx as [? _].
  - apply swp_spare; [reflexivity|]. apply only_calls_for_range. intros m st _. unfold reconcile_spec.
    destruct (negb _); [apply only_calls_ret|].
    apply only_calls_bind; [by apply ProcessModuleSpec_spare; apply Hn|intros; apply only_calls_ret].
Qed.

(** ** The whole pass *)

Lemma saved_labelled L s pods : consistent L s → listed s pods → labelled s → labelled (saved s pods).
Proof.
  intros H Hl Hlab k Hk. apply (Hlab k). destruct Hk as [[Hk|Hk]|Hk]; [by left; left| |by right].
  destruct (cl_pods s !! worker_key (node_name s) k) as [p|] eqn:E.
  - pose proof (sync_changed _ _ _ _ _ H Hl E) as Hc. case_bool_decide; [|by left; right; apply Hc].
    destruct (IsUnloaderPod (Some p)) eqn:Eu; [done|]. right. by exists p.
  - left. right. by apply (sync_unchanged _ _ _ _ H Hl E).
Qed.

Lemma SyncStatus_labelled L s :
  consistent L s → labelled s →
  swp serves labelled (SyncStatus (cl_nmc s) (cl_node s)) (λ r s',
    r.2 = None → nmc_spec_Modules r.1 = nmc_spec_Modules (cl_nmc s')) s.
Proof.
  intros H Hlab. unfold SyncStatus, ListWorkerPodsOnNode. apply swp_bind, swp_bind, swp_call; [done|].
  intros x s1 [-> Hl]%(serves_listing L _ _ _ H). split; [done|]. apply swp_ret; [done|].
  destruct x as [pods|e]; cbn -[sync_loop swp DeletePod]; [|by apply swp_ret]. specialize (Hl pods eq_refl).
  destruct pods as [|p0 pods0]; [by apply swp_ret|set (pods := p0 :: pods0) in *].
  pose proof (saved_consistent _ _ _ H Hl) as Hc. pose proof (saved_labelled _ _ _ H Hl Hlab) as Hlab1.
  apply swp_call; [done|]. intros x s1 Hx.
  apply (serves_status_patch s (synced (cl_nmc s) (cl_node s) pods)) in Hx as [Hs1 Hx]; [|done].
  assert (labelled s1) as H1 by (by destruct Hs1 as [->| ->]).
  destruct x as [n'|e]; cbn -[sync_loop swp errors_Join DeletePod].
  2:{ destruct (errors_Join _) as [e'|] eqn:Ej; [by apply swp_ret|]. by apply errors_Join_app in Ej as [_ Ej]. }
  destruct (Hx n' eq_refl) as [-> ->].
  destruct (errors_Join _) as [e'|] eqn:Ej; [by apply swp_ret|]. apply errors_Join_app in Ej as [Ej _].
  pose proof (saved_up_to_date _ _ _ H Hl Ej) as Hu.
  apply (swp_weaken _ (spares (saved s pods))); [by intros s2; apply (spares_labelled L)|].
  apply swp_bind. eapply swp_mono; [|apply swp_spare; [reflexivity|only_calls]].
  intros errs s2 _ H2. apply swp_ret; [done|]. intros _. by rewrite (sp_spec _ _ H2).
Qed.

Lemma NMC_Reconcile_labelled L s :
  consistent L s → labelled s →
  swp serves (λ s, consistent L s ∧ labelled s) (NMC_Reconcile workerCfg workerImage (nsn "" (node_name s))) (λ _ _, True) s.
Proof.
  intros H Hlab. unfold NMC_Reconcile. apply swp_bind, swp_call; [done|]. intros x s1 [-> Hx]%(serves_get_nmc L); [|done].
  split; [done|]. destruct Hx as [(e & -> & ->)| ->]; [done|].
  apply swp_bind, swp_call; [done|]. intros x s1 [-> Hx]%(serves_get_node L); [|done].
  split; [done|]. destruct Hx as [[e ->]| ->]; [done|]. apply swp_bind.
  eapply swp_mono; [|apply swp_and; [by apply SyncStatus_swp|by eapply SyncStatus_labelled]].
  intros [n err] s1 [H1 Hlab1] [Hpost Hspec]. destruct err as [e|]; [by apply swp_ret|].
  destruct (Hpost eq_refl) as (Hu & Hv & Hnode & Hb).
  apply (swp_weaken _ (spares s1)).
  - intros s2 Hs. split; [by eapply keeps_consistent; [..|apply Hs]|by eapply spares_labelled].
  - apply reconcile_modules_spare; [apply H1|by split; [|apply Hspec]|done..].
Qed.

(** ** The histories of a node *)

(** What the Module controller does to a NodeModulesConfig: it takes no in-use label away, and adds
    a module together with its label. *)
Definition writes_labels (n n' : NodeModulesConfig) : Prop :=
  (∀ k, nmc_Labels n !! in_use_label k = Some "" → nmc_Labels n' !! in_use_label k = Some "") ∧
  (∀ k, k ∈ nms_key <$> nmc_spec_Modules n' →
     k ∈ nms_key <$> nmc_spec_Modules n ∨ nmc_Labels n' !! in_use_label k = Some "").

(** The steps of [Rollout] with the spec written so, and no loader that ends well after its
    module's label was taken away. *)
Definition labelled_step (w w' : world) : Prop :=
  ∃ e, orderly e w ∧ step workerCfg workerImage e w w' ∧
  match e with
  | ESpec => writes_labels (cl_nmc (w_store w)) (cl_nmc (w_store w'))
  | EDone p => IsUnloaderPod (Some p) = false → in_use (w_store w) (pod_module p)
  | _ => True
  end.

Lemma labelled_orderly w w' : labelled_step w w' → orderly_step workerCfg workerImage w w'.
Proof. intros (e & Ho & Hs & _). by exists e. Qed.

(** A change that leaves the NodeModulesConfig and the boot, and no new success. *)
Lemma labelled_same s s' :
  cl_nmc s' = cl_nmc s → boot s' = boot s → (∀ k, worker_done s' false k → worker_done s false k) → labelled s → labelled s'.
Proof.
  intros Hn Hb Hd Hl k Hk. unfold in_use. rewrite Hn. apply (Hl k).
  destruct Hk as [[Hk|Hk]|Hk]; [left; left|left; right|right; by apply Hd].
  - unfold in_spec in *. by rewrite <-Hn.
  - unfold recorded in *. by rewrite <-Hn, <-Hb.
Qed.

Lemma labelled_step_keeps w w' :
  labelled_step w w' → consistent (w_loaded w) (w_store w) → labelled (w_store w) → labelled (w_store w').
Proof.
  intros (e & Ho & Hs & Hx) Hc Hl. destruct Hs as [s L s' o Hs|s L n Hk Hst|s L node Hk Hb|s L key p st Hp Hf Hst|s L key p st Hp Hf Hst|s L key p t s' Hp Hs|s L key p Hp Hf|s L node Hk Hb]; simpl in *.
  - by destruct (swp_sound _ _ _ _ _ _ _ (NMC_Reconcile_labelled L s Hc Hl) Hs) as [[_ ?] _].
  - destruct Hx as [H1 H2]. assert (node_name (set_nmc s n) = node_name s) as Hn by exact (f_equal nsn_Name Hk).
    intros k Hk'. unfold in_use. simpl. destruct Hk' as [[Hk'|Hr]|Hd].
    + destruct (H2 _ Hk') as [Ho'|]; [|done]. apply H1, Hl. by left; left.
    + apply H1, Hl. left. right. unfold recorded in *. simpl in Hr. by rewrite Hst in Hr.
    + apply H1, Hl. right. unfold worker_done in *. by rewrite Hn in Hd.
  - by apply (labelled_same s); [done|exact Hb|..].
  - apply (labelled_same s); [done..| |done]. intros k Hk. apply (set_pod_done s) in Hk; [|apply Hc|done..].
    destruct (decide _) as [->|]; [|done]. by destruct Hk.
  - intros k Hk. change (in_use s k). destruct Hk as [Hk|Hk]; [apply Hl; by left|].
    apply (set_pod_done s) in Hk; [|apply Hc|done..]. destruct (decide _) as [->|]; [|apply Hl; by right].
    apply Hx. by destruct Hk.
  - assert (keeps s s') as Hks by (eapply stores_pod_keeps; [exact Hp| |exact Hs]; by split).
    apply (labelled_same s); [by eapply stores_pod_nmc|apply Hks|by intros k; apply keeps_done|done].
  - assert (keeps s (set_pods s (delete key (cl_pods s)))) as Hks.
    { apply set_pods_keeps. intros key' q [_ ?]%lookup_delete_Some. left. by exists q. }
    apply (labelled_same s); [done..|by intros k; apply keeps_done|done].
  - intros k Hcl. change (in_use s k). destruct Hcl as [[Hcl|Hcl]|Hcl]; [apply Hl; by left; left| |by destruct (Ho k)].
    by apply not_recorded_fresh in Hcl.
Qed.

Lemma labelled_reachable w0 w :
  initial w0 → labelled (w_store w0) → rtc labelled_step w0 w → consistent (w_loaded w) (w_store w) ∧ labelled (w_store w).
Proof.
  intros H0 Hl Hr. apply initial_consistent in H0. induction Hr as [w|w w1 w2 Hs Hr IH]; [done|]. apply IH.
  - destruct (labelled_orderly _ _ Hs) as (e & Ho & He). by eapply step_consistent.
  - by eapply labelled_step_keeps.
Qed.

(** C7: the in-use label is a sound sign.  Along every labelled history of a node that starts
    untouched with the in-use labels of its spec, whatever calls fail and wherever a pass is cut
    short: a module that is in the spec, is recorded as loaded since the last boot, or is loaded
    in the kernel has its in-use label on the NodeModulesConfig.

    A history is labelled ([labelled_step]) if it is orderly (no worker succeeds after its pod was
    released, no reboot comes between the success of a loader and its record), spec writes are
    those of the Module controller (they take no in-use label away and add a module with
    its label), and no loader succeeds while its module lacks the label.  The last
    can happen: [Release.finalizer_given_up_while_loading]. *)
Theorem in_use_label_sound w0 w k :
  initial w0 → labelled (w_store w0) → rtc labelled_step w0 w →
  in_spec (w_store w) k ∨ recorded (w_store w) k ∨ k ∈ w_loaded w → in_use (w_store w) k.
Proof.
  intros H0 Hl0 Hr Hk. destruct (labelled_reachable _ _ H0 Hl0 Hr) as [Hc Hl]. apply Hl.
  destruct Hk as [Hk|[Hk|[Hk|Hk]%(co_accounted _ _ Hc)]]; [by left; left|by left; right|by left; right|by right].
Qed.
End in_use.
