(* ===== verification/Removal.v ===== *)
(** * A module removed from the spec ends up unloaded

    The counterpart of [Converge]: passes of the NodeModulesConfig controller and the worker
    pod of a module that is no longer in the spec, until nothing of it is left in the status,
    among the pods and in the kernel. *)

From S2P Require Import Prelude Types Kube GoStrings Externals Demo Labels NmcHelper Node WorkerPod NmcReconciler NmcProps NmcLabels Cluster Rollout Converge.

Open Scope string_scope.
Open Scope nat_scope.
Open Scope list_scope.

Section removal.
Context `{EXT : Externals} `{EXTL : !ExternalsLaws} (workerCfg : WorkerConfig) (workerImage : string).
Context (k : NamespacedName) (n0 : NodeModulesConfig) (node0 : Node).
Context (Hk : k ∉ nms_key <$> nmc_spec_Modules n0).
Implicit Types (s : cluster) (p : Pod) (X : option NodeModuleStatus) (P : option Pod).

Notation V := (view k n0 node0).
Notation A := (agrees k n0).
Notation runs p Q s := (swp answers (λ _, True) p Q s).

(** ** The modules of the spec are other modules *)

Lemma spec_loop_removed X n node s :
  V X None s → A X n → named_statuses (nmc_status_Modules n) →
  Forall (λ x, re_ns (mi_Namespace (nms_item x)) = true ∧ IsNodeSchedulable node (mi_Tolerations (nms_item x)) = true)
    (nmc_spec_Modules n) →
  runs (for_range (nmc_spec_Modules n) (reconcile_spec workerCfg workerImage n node)
        {| rs_statusMap := build_statusMap (nmc_status_Modules n); rs_errs := [];
           rs_readyLabelsToRemove := ∅ |})
    (λ st s', rs_statusMap st = filter (λ ks, ks.1 ∉ spec_keys n) (build_statusMap (nmc_status_Modules n)) ∧
       rs_readyLabelsToRemove st = ∅ ∧ V X None s') s.
Proof.
  intros Hv Hn [Hnd Hns] Hall. apply swp_wp; [eapply wp_mono; [|apply spec_loop]; by intros tr st [_ ?]|].
  set (J := λ (l : list NodeModuleSpec) (st : reconcile_state) s',
    (∀ key e, rs_statusMap st !! key = Some e → e ∈ nmc_status_Modules n ∧ module_key (nmst_item e) = key) ∧
    l ⊆ nmc_spec_Modules n ∧ rs_readyLabelsToRemove st = ∅ ∧ V X None s').
  eapply swp_mono; [|apply (swp_for_range _ _ _ J); [done| |]].
  - by intros st s' _ (_ & _ & ? & ?).
  - split_and!; try done. by intros key e ?%build_statusMap_Some.
  - intros a l st s' _ (Hmap & Hl & Hr & Hv'). assert (a ∈ nmc_spec_Modules n) as Ha by (apply Hl; left).
    rewrite Forall_forall in Hall. destruct (Hall a Ha) as [Hans Hs].
    assert (nms_key a ≠ k) as Hne.
    { intros Heq. apply Hk. rewrite <-(ag_spec _ _ _ _ Hn), <-Heq. by apply list_elem_of_fmap_2. }
    unfold reconcile_spec. rewrite Hs. cbn [negb]. cbv iota. apply swp_bind.
    eapply swp_mono; [|apply (ProcessModuleSpec_other _ _ k n0 node0 X None); try done].
    + intros err s2 _ Hv2. apply swp_ret; [done|]. split_and!; [|set_solver|done|done].
      simpl. intros key e [_ ?]%lookup_delete_Some. by apply Hmap.
    + intros e [He Heq]%Hmap Hek. apply module_key_inj in Heq; [|by apply Hns|done]. apply Hne. rewrite <-Hek. done.
Qed.

(** ** The entry without a module *)

(** What a pass does with the entry [X] of a module that is not in the spec. *)
Definition dropped (node : Node) X X' P : Prop :=
  match X with
  | None => X' = None ∧ P = None
  | Some e =>
      if IsNodeRebooted node (nmst_BootId e) then X' = None ∧ P = None
      else X' = X ∧ ∃ n t, UnloaderPodTemplate workerCfg workerImage n e = Ok t ∧ P = Some (pod_created t)
  end.

Lemma orphan_own s n node e :
  V (Some e) None s → A (Some e) n → nmst_key e = k →
  runs (ProcessUnconfiguredModuleStatus workerCfg workerImage n e node) (λ r s', r.2 = None →
    ∃ X' P, dropped node (Some e) X' P ∧ V X' P s' ∧ A X' r.1) s.
Proof.
  intros Hv Hn He. unfold ProcessUnconfiguredModuleStatus, dropped. destruct (IsNodeRebooted _ _).
  - set (new := nmc_set_status _ _).
    assert (status_map (nmc_status_Modules new) !! k = None) as Hnew.
    { unfold new. simpl. rewrite status_map_remove, <-He. apply lookup_delete_eq. }
    apply swp_bind, swp_call; [done|]. intros x s1 Hx. destruct (Hx eq_refl) as [-> ->].
    { by rewrite (ag_key _ _ _ _ Hn), (vi_nmc _ _ _ _ _ _ Hv). }
    split; [done|]. apply swp_ret; [done|]. intros _. exists None, None. set (l := merge_list _ _ _).
    assert (status_map l !! k = None) as Hl.
    { unfold l, merge_list. destruct (decide _) as [E|]; [|done]. pose proof (ag_entry _ _ _ _ Hn) as H. rewrite E, Hnew in H. done. }
    split; [done|]. by split; split; try apply Hv.
  - apply swp_bind, (GetWorkerPod_view k n0 node0 (Some e) None); [done..|]. change (item_key (nmst_item e)) with (nmst_key e).
    rewrite He. fold (own_key k n0). rewrite (vi_pod _ _ _ _ _ _ Hv). apply swp_bind. unfold CreateUnloaderPod.
    destruct (UnloaderPodTemplate _ _ _ _) as [t|er] eqn:E; [|by apply swp_ret].
    pose proof E as (Hw & Hu & _)%unloader_template_facts.
    destruct (template_key k n0 node0 (Some e) n _ _ t Hn Hw (or_intror Hu)) as [H1 H2].
    eapply swp_mono; [|by apply (create_view k n0 node0 (Some e) None)]. intros r s' _ [_ H]. apply swp_ret; [done|]. intros _.
    rewrite H2 in H. destruct H as [_ H]; [by change (item_key _) with (nmst_key e); rewrite He|done|].
    exists (Some e), (Some (pod_created t)). split_and!; [done|by exists n, t|done|done].
Qed.

(** The loop over the entries without a module: the entry of the module is still to come, or was
    dealt with (unless an error was met, which the pass then reports). *)
Definition orphan_view (node : Node) X (l : list (string * NodeModuleStatus)) (r : NodeModulesConfig * list (option error)) s : Prop :=
  NoDup (l.*1) ∧ (∀ key e, (key, e) ∈ l → key = module_key (nmst_item e) ∧ (nmst_key e = k → X = Some e)) ∧
  (((∃ key e, X = Some e ∧ nmst_key e = k ∧ (key, e) ∈ l) ∧ V X None s ∧ A X r.1) ∨
   ((∀ key e, (key, e) ∈ l → nmst_key e ≠ k) ∧
    (errors_Join r.2 = None → ∃ X' P, dropped node X X' P ∧ V X' P s ∧ A X' r.1))).

Lemma orphan_errs errs err :
  errors_Join (match err with
    | Some e => errs ++ [Some (Errorf_v "error processing orphan status for Module %s: %v" e)]
    | None => errs end) = None → err = None ∧ errors_Join errs = None.
Proof. destruct err; [|done]. by intros [_ ?]%errors_Join_app. Qed.

Lemma orphan_step node X key e l n errs s :
  orphan_view node X ((key, e) :: l) (n, errs) s →
  runs (reconcile_orphan workerCfg workerImage node (key, e) (n, errs)) (orphan_view node X l) s.
Proof.
  intros (Hnd & Hl & Hor). rewrite fmap_cons in Hnd. apply NoDup_cons in Hnd as [Hkey Hnd].
  destruct (Hl key e (list_elem_of_here _ _)) as [Hek HeX].
  assert (∀ key' e', (key', e') ∈ l → key' = module_key (nmst_item e') ∧ (nmst_key e' = k → X = Some e')) as Hl'
    by (intros; apply Hl; by right).
  unfold reconcile_orphan. cbn [fst snd]. apply swp_bind. destruct (decide (nmst_key e = k)) as [He|He].
  - specialize (HeX He). subst X. destruct Hor as [[_ [Hv Hn]]|[Hno _]]; [|by destruct (Hno key e (list_elem_of_here _ _))].
    eapply swp_mono; [|by apply orphan_own]. intros [n' err] s' _ Hpost. apply swp_ret; [done|]. split_and!; [done..|].
    right. split; [|by intros [-> _]%orphan_errs; apply Hpost].
    intros key' e' Hin He'. destruct (Hl' key' e' Hin) as [Hk' HX']. specialize (HX' He'). injection HX' as <-.
    apply Hkey. simpl. rewrite Hek, <-Hk'. by apply (list_elem_of_fmap_2 fst _ (key', e)).
  - destruct Hor as [[(key' & e' & HX & He' & Hin) [Hv Hn]]|[Hno Hpost]].
    + eapply swp_mono; [|by apply (orphan_other _ _ k n0 node0 X None)]. intros [n' err] s' _ [Hv' Hn']. apply swp_ret; [done|].
      split_and!; [done..|]. left. split; [|done]. exists key', e'. split_and!; [done..|].
      apply elem_of_cons in Hin as [[= -> ->]|Hin]; [|done]. by destruct He.
    + assert (∀ key' e', (key', e') ∈ l → nmst_key e' ≠ k) as Hno' by (intros key' e' Hin; apply (Hno key'); by right).
      destruct (errors_Join errs) as [e0|] eqn:Ee.
      * eapply swp_mono; [|apply swp_true]. intros [n' err] s' _ _. apply swp_ret; [done|]. split_and!; [done..|].
        right. split; [done|]. intros [_ E]%orphan_errs. congruence.
      * destruct (Hpost Ee) as (X' & P & Hd & Hv & Hn). eapply swp_mono; [|by apply (orphan_other _ _ k n0 node0 X' P)].
        intros [n' err] s' _ [Hv' Hn']. apply swp_ret; [done|]. split_and!; [done..|].
        right. split; [done|]. intros _. by exists X', P.
Qed.

Lemma orphans_removed X s n node errs l :
  V X None s → A X n → NoDup (l.*1) →
  (∀ key e, (key, e) ∈ l → key = module_key (nmst_item e) ∧ (nmst_key e = k → X = Some e)) →
  (∀ e, X = Some e → nmst_key e = k ∧ ∃ key, (key, e) ∈ l) →
  runs (for_range l (reconcile_orphan workerCfg workerImage node) (n, errs)) (λ r s', errors_Join r.2 = None →
    ∃ X' P, dropped node X X' P ∧ V X' P s' ∧ A X' r.1) s.
Proof.
  intros Hv Hn Hnd Hl HX. eapply swp_mono; [|apply (swp_for_range _ _ _ (orphan_view node X)); [done| |]].
  - intros r s' _ (_ & _ & [[(key & e & _ & _ & H) _]|[_ H]]); [by apply elem_of_nil in H|done].
  - split_and!; [done..|]. destruct X as [e|].
    + left. destruct (HX e eq_refl) as (He & key & Hin). split; [by exists key, e|done].
    + right. split; [intros key e Hin He; by destruct (Hl key e Hin) as [_ ?%(λ f, f He)]|]. intros _. by exists None, None.
  - intros [key e] l' [n' errs'] s' _ Hj. by apply orphan_step.
Qed.

(** ** A pass *)

Lemma spared_status X n e : A X n → X = Some e → spared k n.
Proof.
  intros Hn ->. pose proof (ag_entry _ _ _ _ Hn) as He. unfold status_map in He. rewrite keyed_map_lookup in He.
  apply find_first_Some in He as [Hin Hkey%key_is_true]. apply elem_of_union_r, elem_of_list_to_set, list_elem_of_fmap.
  exists e. split; [|done]. by rewrite <-Hkey.
Qed.

Lemma reconcile_modules_removed X s n node :
  V X None s → A X n → named_statuses (nmc_status_Modules n) → re_ns (nsn_Namespace k) = true →
  obj_key KNode node = obj_key KNode node0 →
  Forall (λ x, re_ns (mi_Namespace (nms_item x)) = true ∧ IsNodeSchedulable node (mi_Tolerations (nms_item x)) = true)
    (nmc_spec_Modules n0) →
  runs (reconcile_modules workerCfg workerImage n node)
    (λ r s', r = None → ∃ X' P, dropped node X X' P ∧ V X' P s') s.
Proof.
  intros Hv Hn Hst Hkns Hnode Hall. pose proof (ag_spec _ _ _ _ Hn) as Hspec. rewrite <-Hspec in Hall.
  unfold reconcile_modules. apply swp_bind. eapply swp_mono; [|by apply (spec_loop_removed X n node)].
  intros st s1 _ (Hmap & Hready & Hv1). rewrite Hmap. apply swp_bind.
  eapply swp_mono; [|apply swp_wp; [apply orphans_report|apply (orphans_removed X); [done|done|apply NoDup_range_map|..]]].
  - intros [n1 errs] s2 _ [_ Hpost]. rewrite bool_decide_false by naive_solver.
    destruct (errors_Join errs) as [e|] eqn:Ee.
    { eapply swp_mono; [|apply swp_wp; [apply finish_reports|apply swp_true]]. intros r s3 _ [Hr _] ->. specialize (Hr eq_refl). congruence. }
    destruct (Hpost Ee) as (X' & P & Hd & Hv2 & Hn2).
    eapply swp_mono; [|apply (reconcile_finish_view k n0 node0 X' P); [done..|]]; [intros r s3 _ Hv3 _; by exists X', P|].
    unfold dropped in Hd. destruct X as [e|]; [|by left; destruct Hd]. destruct (IsNodeRebooted _ _); [by left; destruct Hd|].
    destruct Hd as [-> _]. right. intros n' Hn'. by eapply spared_status.
  - intros key e [Hin _]%elem_of_range_map%map_lookup_filter_Some. apply build_statusMap_Some in Hin as [Hin <-].
    split; [done|]. intros He. rewrite <-(ag_entry _ _ _ _ Hn), <-He. by apply in_status_map; [apply Hst|].
  - intros e HXe. rewrite <-(ag_entry _ _ _ _ Hn) in HXe. unfold status_map in HXe. rewrite keyed_map_lookup in HXe.
    apply find_first_Some in HXe as [Hin Hkey%key_is_true]. split; [done|]. exists (module_key (nmst_item e)).
    apply elem_of_range_map, map_lookup_filter_Some. split; [by apply build_statusMap_mem|].
    simpl. intros (m & Heq & Hm)%list_elem_of_fmap. rewrite Forall_forall in Hall.
    apply module_key_inj in Heq; [|by apply Hst|by apply Hall]. apply Hk. rewrite <-Hspec.
    apply list_elem_of_fmap. exists m. split; [|done]. rewrite <-Hkey. exact Heq.
Qed.

(** A pass that reports no error records what the worker pod of the module achieved; then it
    drops what is left of the module, or starts to unload it. *)
Lemma pass_removed X P s :
  V X P s → idle P → named_statuses (nmc_status_Modules (cl_nmc s)) → named_pods s → re_ns (nsn_Namespace k) = true →
  obj_key KNMC n0 = nsn "" (nmc_Name n0) → obj_key KNode node0 = nsn "" (nmc_Name n0) →
  Forall (λ x, re_ns (mi_Namespace (nms_item x)) = true ∧ IsNodeSchedulable (cl_node s) (mi_Tolerations (nms_item x)) = true)
    (nmc_spec_Modules n0) →
  runs (NMC_Reconcile workerCfg workerImage (nsn "" (nmc_Name n0)))
    (λ r s', r = None → ∃ X1 X' P', entry_after node0 X P X1 ∧ dropped (cl_node s) X1 X' P' ∧ V X' P' s') s.
Proof.
  intros Hv Hi Hst Hp Hkns Hkn Hknode Hall.
  apply (pass_frame _ _ k n0 node0 X P s (λ s', ∃ X1 X' P', entry_after node0 X P X1 ∧ dropped (cl_node s) X1 X' P' ∧ V X' P' s')); [done..|].
  intros X1 n s1 Ha Hv1 Hn Hst1.
  eapply swp_mono; [|apply (reconcile_modules_removed X1); try done; by eapply view_node_key].
  intros r s2 _ H Hr. destruct (H Hr) as (X' & P' & Hd & Hv2). by exists X1, X', P'.
Qed.
End removal.

(** ** Rounds *)

Section rounds.
Context `{EXT : Externals} `{EXTL : !ExternalsLaws} (workerCfg : WorkerConfig) (workerImage : string).
Context (k : NamespacedName) (n0 : NodeModulesConfig) (node0 : Node).
Context (Hk : k ∉ nms_key <$> nmc_spec_Modules n0) (Hkns : re_ns (nsn_Namespace k) = true).
Context (Hkn : obj_key KNMC n0 = nsn "" (nmc_Name n0)) (Hknode : obj_key KNode node0 = nsn "" (nmc_Name n0)).
Context (Hall : Forall (λ x, re_ns (mi_Namespace (nms_item x)) = true ∧
  IsNodeSchedulable node0 (mi_Tolerations (nms_item x)) = true) (nmc_spec_Modules n0)).
Implicit Types (X : option NodeModuleStatus) (P : option Pod).
Notation V := (view k n0 node0).

(** Nothing is left, or the unloader has succeeded. *)
Definition leaving (i : nat) X P : Prop :=
  match i with
  | 0 => X = None ∧ P = None
  | _ => ∃ q, P = Some q ∧ IsUnloaderPod (Some q) = true
  end.

Lemma dropped_held node X X' P p :
  dropped workerCfg workerImage node X X' P → P = Some p → om_Finalizers (pod_meta p) ≠ [].
Proof.
  unfold dropped. destruct X as [e|]; [|by intros [_ ->]]. destruct (IsNodeRebooted _ _); [by intros [_ ->]|].
  intros [_ (n & t & (Hw & _)%unloader_template_facts & ->)] [= <-]. simpl. by rewrite (wpf_finalizer _ _ _ _ Hw).
Qed.

Lemma dropped_leaving node X X' P P' :
  dropped workerCfg workerImage node X X' P → lives_on P P' → (∀ p, P' = Some p → pod_Phase p = PodSucceeded) →
  idle P' ∧ ∃ i, i ≤ 1 ∧ leaving i X' P' ∧ (X = None → i = 0).
Proof.
  unfold dropped. intros Hd Hl Hph.
  assert (X' = None ∧ P = None → idle P' ∧ ∃ i, i ≤ 1 ∧ leaving i X' P' ∧ (X = None → i = 0)) as Hgone.
  { intros [-> ->]. simpl in Hl. subst P'. split; [done|]. exists 0. split_and!; [lia|done|done]. }
  destruct X as [e|]; [|by apply Hgone]. destruct (IsNodeRebooted _ _); [by apply Hgone|]. clear Hgone.
  destruct Hd as [-> (n & t & (Hw & Hu & _)%unloader_template_facts & ->)].
  destruct Hl as (q & -> & [(Hlab & Han & Hfq) _]). simpl in Hu.
  assert (IsUnloaderPod (Some q) = true) as Huq by (simpl; by rewrite Hlab).
  split; [|exists 1; split_and!; [lia|by exists q|done]]. split_and!; [by apply Hph| |by rewrite Huq].
  rewrite Hfq. simpl. rewrite (wpf_finalizer _ _ _ _ Hw), RemoveFinalizer_spec. by rewrite filter_cons_False by (intros []; done).
Qed.

Lemma round_removed w w' X P :
  round workerCfg workerImage k w w' → consistent (w_loaded w) (w_store w) → V X P (w_store w) → idle P →
  ∃ X1 X' P' i, entry_after node0 X P X1 ∧ V X' P' (w_store w') ∧ idle P' ∧ i ≤ 1 ∧ leaving i X' P' ∧ (X1 = None → i = 0).
Proof.
  intros ([Hns Hnp] & s1 & Hp & Hr & Hend) Hc Hv Hi. pose proof (vi_node _ _ _ _ _ _ Hv) as Hnode.
  assert (Forall (λ x, re_ns (mi_Namespace (nms_item x)) = true ∧
    IsNodeSchedulable (cl_node (w_store w)) (mi_Tolerations (nms_item x)) = true) (nmc_spec_Modules n0)) as Hall'.
  { eapply Forall_impl; [exact Hall|]. intros x [? Hs]. split; [done|]. unfold IsNodeSchedulable in *.
    pose proof (f_equal node_Taints Hnode) as Ht. simpl in Ht. by rewrite Ht. }
  change (node_name (w_store w)) with (nmc_Name (cl_nmc (w_store w))) in Hp. rewrite (view_name _ _ _ _ _ _ Hv) in Hp.
  assert (named_statuses (nmc_status_Modules (cl_nmc (w_store w)))) as Hst by (split; [apply Hc|done]).
  pose proof (pass_removed workerCfg workerImage k n0 node0 Hk X P _ Hv Hi Hst Hnp Hkns Hkn Hknode Hall') as Hpass.
  destruct (swp_sound _ _ _ _ _ _ _ Hpass Hp) as [_ Hpost].
  destruct (Hpost None eq_refl eq_refl) as (X1 & X' & P1 & Ha & Hd & Hv1).
  destruct (worker_steps_view _ _ _ _ _ _ _ _ _ Hr Hv1 (λ p, dropped_held _ _ _ _ p Hd)) as (P' & Hv' & Hl).
  destruct (dropped_leaving _ _ _ _ _ Hd Hl) as (Hi' & i & H1 & Hlv & H0); [|by exists X1, X', P', i].
  intros p HP'. apply Hend. change (node_name (w_store w')) with (nmc_Name (cl_nmc (w_store w'))).
  rewrite (view_name _ _ _ _ _ _ Hv'). rewrite <-HP'. apply Hv'.
Qed.

(** From either stage the next round leaves nothing. *)
Lemma leaving_next i X P X1 : leaving i X P → entry_after node0 X P X1 → X1 = None.
Proof.
  destruct i as [|i]; simpl.
  - by intros [-> ->].
  - intros (q & -> & Hu). simpl in Hu |- *. by rewrite Hu.
Qed.

Lemma rounds_removed j i w w' X P :
  nsteps (round workerCfg workerImage k) j w w' → consistent (w_loaded w) (w_store w) → V X P (w_store w) → idle P →
  i ≤ 1 → leaving i X P →
  ∃ X' P' i', V X' P' (w_store w') ∧ consistent (w_loaded w') (w_store w') ∧ i' ≤ i - j ∧ leaving i' X' P'.
Proof.
  intros Hn. revert i X P. induction Hn as [w|j w w1 w2 Hr Hn IH]; intros i X P Hc Hv Hi Hle Hst.
  { exists X, P, i. split_and!; [done|done|lia|done]. }
  destruct (round_removed _ _ _ _ Hr Hc Hv Hi) as (X1 & X' & P' & i1 & Ha & Hv1 & Hi1 & Hle1 & Hlv & H0).
  specialize (H0 (leaving_next _ _ _ _ Hst Ha)). subst i1.
  destruct (IH 0 X' P' (round_consistent _ _ _ _ _ Hr Hc) Hv1 Hi1 Hle1 Hlv) as (X2 & P2 & i2 & Hv2 & Hc2 & Hi2 & Hst2).
  exists X2, P2, i2. split_and!; [done|done|lia|done].
Qed.
End rounds.

(** Nothing of the module is left on the node. *)
Definition all_gone (k : NamespacedName) (w : world) : Prop :=
  let s := w_store w in
  status_map (nmc_status_Modules (cl_nmc s)) !! k = None ∧
  cl_pods s !! worker_key (node_name s) k = None ∧ k ∉ w_loaded w.

Section theorem.
Context `{EXT : Externals} `{EXTL : !ExternalsLaws} (workerCfg : WorkerConfig) (workerImage : string).

Lemma rounds_remove w w' k j :
  consistent (w_loaded w) (w_store w) →
  let s := w_store w in
  k ∉ nms_key <$> nmc_spec_Modules (cl_nmc s) → re_ns (nsn_Namespace k) = true →
  Forall (λ x, re_ns (mi_Namespace (nms_item x)) = true ∧
    IsNodeSchedulable (cl_node s) (mi_Tolerations (nms_item x)) = true) (nmc_spec_Modules (cl_nmc s)) →
  (∀ p, cl_pods s !! worker_key (node_name s) k = Some p → ended p) →
  2 ≤ j → nsteps (round workerCfg workerImage k) j w w' → all_gone k w'.
Proof.
  intros Hc s Hk Hkns Hall Hidle Hj Hn. change (consistent (w_loaded w) s) in Hc.
  set (X := status_map (nmc_status_Modules (cl_nmc s)) !! k). set (P := cl_pods s !! worker_key (node_name s) k).
  assert (view k (cl_nmc s) (cl_node s) X P s) as Hv by (by split; try done; apply Hc).
  assert (idle P) as Hi by (unfold idle; destruct P eqn:E; [by apply Hidle|done]).
  destruct j as [|j]; [lia|]. inversion Hn as [|? ? w1 ? Hr1 Hn1]; subst.
  destruct (round_removed workerCfg workerImage k (cl_nmc s) (cl_node s) Hk Hkns (co_nmc _ _ Hc) (co_node _ _ Hc) Hall
    w w1 X P Hr1 Hc Hv Hi) as (X1 & X' & P' & i & _ & Hv1 & Hi1 & Hle & Hlv & _).
  destruct (rounds_removed workerCfg workerImage k (cl_nmc s) (cl_node s) Hk Hkns (co_nmc _ _ Hc) (co_node _ _ Hc) Hall
    j i w1 w' X' P' Hn1 (round_consistent _ _ _ _ _ Hr1 Hc) Hv1 Hi1 Hle Hlv) as (X2 & P2 & i2 & Hv2 & Hc2 & Hi2 & Hst2).
  replace i2 with 0 in Hst2 by lia. destruct Hst2 as [-> ->].
  pose proof (vi_pod _ _ _ _ _ _ Hv2) as Hp. unfold own_key in Hp. rewrite <-(view_name _ _ _ _ _ _ Hv2) in Hp.
  pose proof (vi_entry _ _ _ _ _ _ Hv2) as He. split_and!; [done|exact Hp|].
  intros [Hrec|(p & E & _)]%(co_accounted _ _ Hc2).
  - unfold recorded, recorded_in in Hrec. by rewrite He in Hrec.
  - change (node_name (w_store w')) with (nmc_Name (cl_nmc (w_store w'))) in E. congruence.
Qed.

(** A module removed from the spec ends up unloaded.  From any state the node can reach, while
    the spec and the node stay as they are: after two rounds (each a pass of the controller that
    reports no error, followed by the success of the module's worker pod if it has one), and in
    every round from then on, the status has no entry for the module, it has no worker pod, and
    it is not loaded in the kernel. *)
Theorem removal_converges w0 w w' k j :
  initial w0 → rtc (orderly_step workerCfg workerImage) w0 w →
  let s := w_store w in
  k ∉ nms_key <$> nmc_spec_Modules (cl_nmc s) → re_ns (nsn_Namespace k) = true →
  Forall (λ x, re_ns (mi_Namespace (nms_item x)) = true ∧
    IsNodeSchedulable (cl_node s) (mi_Tolerations (nms_item x)) = true) (nmc_spec_Modules (cl_nmc s)) →
  (∀ p, cl_pods s !! worker_key (node_name s) k = Some p → ended p) →
  2 ≤ j → nsteps (round workerCfg workerImage k) j w w' → all_gone k w'.
Proof. intros H0 Hr. apply rounds_remove. by eapply reachable_consistent. Qed.
End theorem.

(** ** Example

    The module of [demo_spec] was loaded, and is taken out of the spec. *)

Definition demo_taken_out : cluster := Eval vm_compute in set_nmc demo_ended (nmc_set_spec (cl_nmc demo_ended) []).
Definition demo_unloading : cluster := Eval vm_compute in (demo_pass true demo_taken_out).2.
Definition demo_unloader : Pod := Eval vm_compute in default demo_pod (cl_pods demo_unloading !! demo_key).
Definition demo_unloaded : cluster :=
  Eval vm_compute in set_pod demo_unloading demo_key (with_status demo_unloader demo_succeeded_status).
Definition demo_removed : cluster := Eval vm_compute in (demo_pass true demo_unloaded).2.

Notation demo_round := (round (EXT := demo_externals) demo_worker_cfg "worker:v1" (nms_key demo_spec)).

Lemma demo_round_unload :
  demo_round {| w_store := demo_taken_out; w_loaded := {[nms_key demo_spec]} |} {| w_store := demo_unloaded; w_loaded := ∅ |}.
Proof.
  replace (∅ : gset NamespacedName) with (worker_effect demo_unloader {[nms_key demo_spec]}) by (vm_compute; reflexivity).
  apply (demo_round_worker _ _ demo_unloading demo_unloader); [apply valid_names_check; reflexivity|vm_compute; reflexivity..|].
  vm_compute. left.
Qed.

Lemma removal_converges_witness : all_gone (nms_key demo_spec) {| w_store := demo_removed; w_loaded := ∅ |}.
Proof.
  apply (removal_converges (EXT := demo_externals) demo_worker_cfg "worker:v1" demo_world
    {| w_store := demo_taken_out; w_loaded := {[nms_key demo_spec]} |} _ (nms_key demo_spec) 2).
  - by repeat split.
  - eapply rtc_r; [exact demo_reachable|]. exists ESpec. split; [done|].
    apply (step_spec _ _ demo_ended _ (nmc_set_spec (cl_nmc demo_ended) [])); vm_compute; reflexivity.
  - apply not_elem_of_nil.
  - reflexivity.
  - constructor.
  - intros p E. vm_compute in E. injection E as <-. split; [reflexivity|]. split; [vm_compute; reflexivity|].
    intros _. exists (nms_Config demo_spec). vm_compute. reflexivity.
  - lia.
  - eapply nsteps_l; [exact demo_round_unload|]. eapply nsteps_l; [|apply nsteps_O].
    apply (demo_round_quiet _ _ demo_removed); [apply valid_names_check; reflexivity|vm_compute; reflexivity..].
Defined.
