(* ===== verification/Mic.v ===== *)
(** * Module images ([internal/mic/mic.go], [internal/mbsc/mbsc.go],
    [internal/pod/imagepuller.go])

    The ModuleImagesConfig of a module lists the images its kernels need and the state of
    each; the ModuleBuildSignConfig lists the images to build or sign.  Both are slices keyed
    by image name.  Pull pods check whether an image exists. *)

From S2P Require Import Prelude Types Kube GoStrings Externals Demo Labels NmcHelper WorkerPod.

Open Scope string_scope.
Open Scope nat_scope.
Open Scope list_scope.

(** ** [internal/mic/mic.go] *)

Fixpoint filter_duplicates (imagesSet : gset string) (images : list ModuleImageSpec) : list ModuleImageSpec :=
  match images with
  | [] => []
  | image :: images =>
      if bool_decide (mis_Image image ∈ imagesSet) then filter_duplicates imagesSet images
      else image :: filter_duplicates ({[mis_Image image]} ∪ imagesSet) images
  end.

Definition filterDuplicateImages (images : list ModuleImageSpec) : list ModuleImageSpec :=
  filter_duplicates ∅ images.

Definition empty_mic (ns name : string) : ModuleImagesConfig :=
  {| mic_meta := empty_meta ns name;
     mic_spec := {| mics_Images := []; mics_ImageRepoSecret := None; mics_ImagePullPolicy := "";
                    mics_PushBuiltImage := false; mics_ImageRebuildTriggerGeneration := None;
                    mics_Tolerations := [] |};
     mic_status := {| micst_ImagesStates := []; micst_ImageRebuildTriggerGeneration := None |} |}.

Section mic.
Context `{EXT : Externals}.

(** The mutate function: the spec is replaced and the owner set. *)
Definition mic_mutate (ownerKind : string) (owner : ObjectMeta) (spec : ModuleImagesConfigSpec) (m : ModuleImagesConfig) : result ModuleImagesConfig :=
  let m := mic_set_spec m spec in
  om ← SetControllerReference ownerKind owner (mic_meta m);
  Ok {| mic_meta := om; mic_spec := mic_spec m; mic_status := mic_status m |}.

Definition mic_CreateOrPatch (name ns : string) (images : list ModuleImageSpec) (imageRepoSecret : option LocalObjectReference) (pullPolicy : string) (pushBuiltImage : bool) (imageRebuildTriggerGeneration : option Z) (tolerations : list Toleration) (ownerKind : string) (owner : ObjectMeta) : prog (option error) :=
  let spec := {| mics_Images := filterDuplicateImages images;
                 mics_ImageRepoSecret := imageRepoSecret;
                 mics_ImagePullPolicy := pullPolicy;
                 mics_PushBuiltImage := pushBuiltImage;
                 mics_ImageRebuildTriggerGeneration := imageRebuildTriggerGeneration;
                 mics_Tolerations := tolerations |} in
  r ← (perform (CreateOrPatch KMIC (empty_mic ns name) (mic_mutate ownerKind owner spec)) : prog (result ModuleImagesConfig));
  mret (wrap_err "failed to create or patch %s/%s: %v" (err_of r)).
End mic.

(** The error is wrapped with [%v]: a caller cannot see that the object does not exist. *)
Definition mic_Get (name ns : string) : prog (result ModuleImagesConfig) :=
  r ← get KMIC (nsn ns name);
  mret (wrap_v "could not get ModuleImagesConfig %s: %v" r).

Definition GetModuleImageSpec (micObj : ModuleImagesConfig) (image : string) : option ModuleImageSpec :=
  find_first (λ s, String.eqb (mis_Image s) image) (mics_Images (mic_spec micObj)).

Definition mic_states (m : ModuleImagesConfig) : list ModuleImageState := micst_ImagesStates (mic_status m).

Definition mic_set_states (m : ModuleImagesConfig) (l : list ModuleImageState) : ModuleImagesConfig :=
  mic_set_status m {| micst_ImagesStates := l;
                      micst_ImageRebuildTriggerGeneration := micst_ImageRebuildTriggerGeneration (mic_status m) |}.

Definition SetImageStatus (micObj : ModuleImagesConfig) (image : string) (status : ImageState) : ModuleImagesConfig :=
  mic_set_states micObj
    (upsert (λ s, String.eqb (mist_Image s) image) {| mist_Image := image; mist_Status := status |} (mic_states micObj)).

Definition GetImageState (micObj : ModuleImagesConfig) (image : string) : ImageState :=
  match find_first (λ s, String.eqb (mist_Image s) image) (mic_states micObj) with
  | Some s => mist_Status s
  | None => ImageStateUnset
  end.

Definition DoAllImagesExist (micObj : ModuleImagesConfig) : bool :=
  let imagesStates := foldl (λ m s, <[mist_Image s := mist_Status s]> m) (∅ : gmap string ImageState) (mic_states micObj) in
  forallb (λ img, bool_decide (default ImageStateUnset (imagesStates !! mis_Image img) = ImageExists))
    (mics_Images (mic_spec micObj)).

(** ** [internal/mbsc/mbsc.go] *)

Definition mbsc_Get (name namespace : string) : prog (result (option ModuleBuildSignConfig)) :=
  r ← get KMBSC (nsn namespace name);
  mret (match r with
        | Ok m => Ok (Some m)
        | Err e => if IsNotFound e then Ok None
                   else Err (Errorf_v "failed to get ModuleBuildSignConfig object %s/%s: %v" e)
        end).

Definition empty_mbsc (ns name : string) : ModuleBuildSignConfig :=
  {| mbsc_meta := empty_meta ns name;
     mbsc_spec := {| mbscs_Images := []; mbscs_ImageRepoSecret := None; mbscs_PushBuiltImage := false;
                     mbscs_Tolerations := [] |};
     mbsc_status_Images := [] |}.

Definition mbsc_Delete (name namespace : string) : prog (option error) :=
  err ← delete_obj KMBSC (empty_mbsc namespace name);
  mret (match IgnoreNotFound err with
        | Some e => Some (Errorf_v "failed to delete ModuleBuildSignConfig object %s/%s: %v" e)
        | None => None
        end).

Definition mbs_Image (s : ModuleBuildSignSpec) : string := mis_Image (mbs_spec s).

Definition setModuleImageSpec (l : list ModuleBuildSignSpec) (spec : ModuleImageSpec) (action : BuildOrSignAction) : list ModuleBuildSignSpec :=
  upsert (λ s, String.eqb (mbs_Image s) (mis_Image spec)) {| mbs_spec := spec; mbs_Action := action |} l.

Section mbsc.
Context `{EXT : Externals}.

Definition mbsc_mutate (micObj : ModuleImagesConfig) (spec : ModuleImageSpec) (action : BuildOrSignAction) (m : ModuleBuildSignConfig) : result ModuleBuildSignConfig :=
  om ← SetControllerReference "ModuleImagesConfig" (mic_meta micObj) (mbsc_meta m);
  Ok {| mbsc_meta := om;
        mbsc_spec := {| mbscs_Images := setModuleImageSpec (mbscs_Images (mbsc_spec m)) spec action;
                        mbscs_ImageRepoSecret := mics_ImageRepoSecret (mic_spec micObj);
                        mbscs_PushBuiltImage := mics_PushBuiltImage (mic_spec micObj);
                        mbscs_Tolerations := mics_Tolerations (mic_spec micObj) |};
        mbsc_status_Images := mbsc_status_Images m |}.

Definition mbsc_CreateOrPatch (micObj : ModuleImagesConfig) (moduleImageSpec : ModuleImageSpec) (action : BuildOrSignAction) : prog (option error) :=
  r ← (perform (CreateOrPatch KMBSC (empty_mbsc (mic_Namespace micObj) (mic_Name micObj))
                  (mbsc_mutate micObj moduleImageSpec action)) : prog (result ModuleBuildSignConfig));
  mret (err_of r).
End mbsc.

Definition GetImageSpec (m : ModuleBuildSignConfig) (image : string) : option ModuleBuildSignSpec :=
  find_first (λ s, String.eqb (mbs_Image s) image) (mbscs_Images (mbsc_spec m)).

Definition mbsc_SetImageStatus (m : ModuleBuildSignConfig) (image : string) (action : BuildOrSignAction) (status : BuildOrSignStatus) : ModuleBuildSignConfig :=
  mbsc_set_status m
    (upsert (λ s, String.eqb (bsi_Image s) image)
       {| bsi_Image := image; bsi_Status := status; bsi_Action := action |} (mbsc_status_Images m)).

Definition mbsc_GetImageStatus (m : ModuleBuildSignConfig) (image : string) (action : BuildOrSignAction) : BuildOrSignStatus :=
  match find_first (λ s, String.eqb (bsi_Image s) image && bool_decide (bsi_Action s = action)) (mbsc_status_Images m) with
  | Some s => bsi_Status s
  | None => ActionUnset
  end.

(** ** [internal/pod/imagepuller.go] *)

Inductive PullPodStatus := PullImageFailed | PullImageSuccess | PullImageInProcess | PullImageUnexpectedErr.

#[export] Instance PullPodStatus_eq_dec : EqDecision PullPodStatus.
Proof. solve_decision. Defined.

Definition imagePullBackOffReason := "ImagePullBackOff".
Definition errImagePullReason := "ErrImagePull".
Definition imageOwnerLabelKey := "kmm.node.kubernetes.io/image-owner".
Definition pullPodTypeLabelKey := "kmm.node.kubernetes.io/pull-pod-type".
Definition pullerContainerName := "puller".
Definition pullPodTypeOneTime := "one-time-pull".
Definition pullPodUntilSuccess := "until-success".

Section puller.
Context `{EXT : Externals}.

Definition pull_pod (name namespace imageToPull : string) (oneTimePod : bool) (imageRepoSecret : option LocalObjectReference) (pullPolicy : string) (tolerations : list Toleration) : Pod :=
  {| pod_meta :=
       {| om_Name := ""; om_GenerateName := name +:+ "-pull-pod-"; om_Namespace := namespace; om_UID := ""; om_Generation := 0%Z; om_CreationTimestamp := "";
          om_Labels := {[ imageOwnerLabelKey := name;
                          pullPodTypeLabelKey := if oneTimePod then pullPodTypeOneTime else pullPodUntilSuccess ]};
          om_Annotations := ∅; om_Finalizers := []; om_OwnerReferences := []; om_DeletionTimestamp := None |};
     pod_spec :=
       {| ps_InitContainers := [];
          ps_Containers :=
            [{| ct_Name := pullerContainerName; ct_Image := imageToPull; ct_ImagePullPolicy := pullPolicy;
                ct_Command := ["/bin/sh"; "-c"; "exit 0"]; ct_Args := []; ct_Env := []; ct_Resources := "";
                ct_SecurityContext := None; ct_VolumeMounts := []; ct_LivenessProbe := None;
                ct_StartupProbe := None |}];
          ps_NodeName := ""; ps_NodeSelector := ∅; ps_RestartPolicy := "Never"; ps_ServiceAccountName := "";
          ps_ImagePullSecrets := match imageRepoSecret with Some s => [s] | None => [] end;
          ps_Volumes := []; ps_Tolerations := tolerations; ps_PriorityClassName := "";
          ps_AutomountServiceAccountToken := None; ps_HostNetwork := false |};
     pod_status := {| pst_Phase := PodPhaseUnset; pst_ContainerStatuses := []; pst_Ready := false |} |}.

Definition CreatePullPod (name namespace imageToPull : string) (oneTimePod : bool) (imageRepoSecret : option LocalObjectReference) (pullPolicy : string) (tolerations : list Toleration) (ownerKind : string) (owner : ObjectMeta) : prog (option error) :=
  let pullPod := pull_pod name namespace imageToPull oneTimePod imageRepoSecret pullPolicy tolerations in
  match SetControllerReference ownerKind owner (pod_meta pullPod) with
  | Err e => mret (Some (Errorf_v "failed to set owner for pullPod for image %s: %v" e))
  | Ok m => create KPod (pod_set_meta pullPod m)
  end.
End puller.

Definition ListPullPods (name namespace : string) : prog (result (list Pod)) :=
  r ← list_all KPod [InNamespace namespace; HasLabels [pullPodTypeLabelKey]; MatchingLabels {[ imageOwnerLabelKey := name ]}];
  mret (wrap_v "could not list module image pods for module %s: %v" r).

(** [pod.Spec.Containers[0].Image]; every pod has a container. *)
Definition GetPullPodImage (p : Pod) : string :=
  default "" (ct_Image <$> head (ps_Containers (pod_spec p))).

Definition GetPullPodForImage (pods : list Pod) (image : string) : option Pod :=
  find_first (λ p, String.eqb image (GetPullPodImage p)) pods.

Definition GetPullPodStatus (p : Pod) : PullPodStatus :=
  match pod_Phase p with
  | PodSucceeded => PullImageSuccess
  | PodFailed | PodUnknown => PullImageUnexpectedErr
  | PodRunning => PullImageInProcess
  | PodPending =>
      match pst_ContainerStatuses (pod_status p) with
      | [] => PullImageInProcess
      | cs :: _ =>
          match cs_WaitingReason cs with
          | None => PullImageInProcess
          | Some waitingReason =>
              if String.eqb (map_get (pod_Labels p) pullPodTypeLabelKey) pullPodUntilSuccess then PullImageInProcess
              else if String.eqb waitingReason imagePullBackOffReason || String.eqb waitingReason errImagePullReason
              then PullImageFailed
              else PullImageUnexpectedErr
          end
      end
  | PodPhaseUnset => PullImageUnexpectedErr
  end.

(** ** Images are keyed by name *)

Definition one_state_per_image (m : ModuleImagesConfig) : Prop := NoDup (mist_Image <$> mic_states m).

Lemma eqb_key_is {A} (key : A → string) k a : String.eqb (key a) k = key_is key k a.
Proof. unfold key_is. destruct (String.eqb_spec (key a) k); by case_bool_decide. Qed.

Lemma upsert_ext {A} (p q : A → bool) x l : (∀ a, p a = q a) → upsert p x l = upsert q x l.
Proof. intros H. induction l as [|a l IH]; simpl; [done|]. by rewrite H, IH. Qed.

Lemma SetImageStatus_states m image st :
  mic_states (SetImageStatus m image st) =
  upsert (key_is mist_Image image) {| mist_Image := image; mist_Status := st |} (mic_states m).
Proof. apply upsert_ext. intros a. apply eqb_key_is. Qed.

Lemma GetImageState_lookup m image :
  GetImageState m image =
  default ImageStateUnset (mist_Status <$> keyed_map mist_Image (mic_states m) !! image).
Proof.
  unfold GetImageState. rewrite keyed_map_lookup.
  rewrite (find_first_ext _ (key_is mist_Image image)) by (intros; apply eqb_key_is).
  by destruct (find_first _ _).
Qed.

Lemma GetImageState_set m image st k :
  GetImageState (SetImageStatus m image st) k = if decide (k = image) then st else GetImageState m k.
Proof.
  rewrite !GetImageState_lookup, SetImageStatus_states.
  rewrite (keyed_map_upsert mist_Image _ {| mist_Image := image; mist_Status := st |}). simpl.
  case_decide as E; [subst; by rewrite lookup_insert_eq|]. by rewrite lookup_insert_ne.
Qed.

Lemma SetImageStatus_NoDup m image st :
  one_state_per_image m → one_state_per_image (SetImageStatus m image st).
Proof.
  unfold one_state_per_image. rewrite SetImageStatus_states. intros H.
  apply (upsert_NoDup_keys mist_Image {| mist_Image := image; mist_Status := st |}). done.
Qed.

(** The loop that fills the map of states keeps the last state of an image; with one state per
    image that is also the first. *)
Lemma states_map_lookup l k :
  NoDup (mist_Image <$> l) →
  foldl (λ m s, <[mist_Image s := mist_Status s]> m) (∅ : gmap string ImageState) l !! k =
  mist_Status <$> find_first (key_is mist_Image k) l.
Proof.
  induction l as [|s l IH] using rev_ind; [done|]. rewrite fmap_app, NoDup_app.
  intros (Hl & Hd & _). rewrite foldl_app. simpl. rewrite find_first_app.
  destruct (decide (mist_Image s = k)) as [<-|Hne].
  - rewrite lookup_insert_eq. destruct (find_first _ l) as [a|] eqn:E; simpl.
    + apply find_first_Some in E as [Ha Hk]. unfold key_is in Hk. apply bool_decide_eq_true in Hk.
      exfalso. apply (Hd (mist_Image s)); [rewrite <-Hk; by apply list_elem_of_fmap_2|by left].
    + unfold key_is. by rewrite bool_decide_true.
  - rewrite lookup_insert_ne, IH by done. destruct (find_first _ l); [done|]. simpl.
    unfold key_is. by rewrite bool_decide_false.
Qed.

(** The states of a ModuleImagesConfig behave as a map from images to states: setting a
    state changes that image only and keeps one state per image, and all images exist
    exactly when the state of every image of the spec is ImageExists. *)
Theorem mic_states_map m image st :
  one_state_per_image m →
  one_state_per_image (SetImageStatus m image st) ∧
  (∀ k, GetImageState (SetImageStatus m image st) k = if decide (k = image) then st else GetImageState m k) ∧
  (DoAllImagesExist m = true ↔
   ∀ s, s ∈ mics_Images (mic_spec m) → GetImageState m (mis_Image s) = ImageExists).
Proof.
  intros Hnd. split_and!.
  - by apply SetImageStatus_NoDup.
  - intros k. apply GetImageState_set.
  - unfold DoAllImagesExist. rewrite forallb_forall. setoid_rewrite <-list_elem_of_In.
    split; intros H s Hs; specialize (H s Hs).
    + apply bool_decide_eq_true in H. rewrite states_map_lookup in H by done.
      by rewrite GetImageState_lookup, keyed_map_lookup.
    + apply bool_decide_eq_true. rewrite states_map_lookup by done.
      by rewrite GetImageState_lookup, keyed_map_lookup in H.
Qed.

Lemma mic_states_map_witness :
  one_state_per_image (SetImageStatus (empty_mic "ns" "mod") "registry/mod:v1" ImageExists).
Proof.
  apply (mic_states_map (empty_mic "ns" "mod") "registry/mod:v1" ImageExists).
  unfold one_state_per_image. constructor.
Defined.

Lemma filter_duplicates_elem X images s :
  s ∈ filter_duplicates X images → s ∈ images ∧ mis_Image s ∉ X.
Proof.
  revert X. induction images as [|i l IH]; intros X; simpl; [by intros H%elem_of_nil|].
  case_bool_decide as E.
  - intros [? ?]%IH. split; [by right|done].
  - rewrite !elem_of_cons. intros [->|[? ?]%IH]; [auto|]. split; [by right|set_solver].
Qed.

Lemma filter_duplicates_NoDup X images : NoDup (mis_Image <$> filter_duplicates X images).
Proof.
  revert X. induction images as [|i l IH]; intros X; simpl; [constructor|].
  case_bool_decide; [apply IH|]. rewrite fmap_cons. apply NoDup_cons. split; [|apply IH].
  rewrite list_elem_of_fmap. intros (s & Hs & [_ Hin]%filter_duplicates_elem). set_solver.
Qed.

Lemma filter_duplicates_first X images k :
  k ∉ X →
  find_first (key_is mis_Image k) (filter_duplicates X images) = find_first (key_is mis_Image k) images.
Proof.
  revert X. induction images as [|i l IH]; intros X Hk; simpl; [done|].
  unfold key_is in *. case_bool_decide as E; simpl.
  - rewrite (bool_decide_false (mis_Image i = k)) by congruence. by apply IH.
  - case_bool_decide as E'; [done|]. apply IH. set_solver.
Qed.

(** The images sent to the cluster have no duplicates, every image of the module is among
    them, and each keeps the first specification given for it. *)
Theorem filterDuplicateImages_spec images :
  NoDup (mis_Image <$> filterDuplicateImages images) ∧
  (∀ s, s ∈ filterDuplicateImages images → s ∈ images) ∧
  (∀ k, find_first (key_is mis_Image k) (filterDuplicateImages images) =
        find_first (key_is mis_Image k) images).
Proof.
  unfold filterDuplicateImages. split_and!.
  - apply filter_duplicates_NoDup.
  - by intros s [? _]%filter_duplicates_elem.
  - intros k. apply filter_duplicates_first. set_solver.
Qed.
