(* ===== verification/MicReconciler.v ===== *)
(** * The ModuleImagesConfig reconciler ([internal/controllers/mic_reconciler.go])

    Drives the state of each image of a module: unknown images get a pull pod, the outcome of
    pull pods, builds and signings moves the state, and images that need it are handed to the
    ModuleBuildSignConfig. *)

From S2P Require Import Prelude Types Kube GoStrings Externals Demo Labels NmcHelper WorkerPod Mic.

Open Scope string_scope.
Open Scope nat_scope.
Open Scope list_scope.

Section mic_reconciler.
Context `{EXT : Externals}.

Definition set_trigger (m : ModuleImagesConfig) (t : option Z) : ModuleImagesConfig :=
  mic_set_status m {| micst_ImagesStates := []; micst_ImageRebuildTriggerGeneration := t |}.

Definition handleImageRebuildTriggerGeneration (micObj : ModuleImagesConfig) : prog (ModuleImagesConfig * result bool) :=
  let specTrigger := mics_ImageRebuildTriggerGeneration (mic_spec micObj) in
  let statusTrigger := micst_ImageRebuildTriggerGeneration (mic_status micObj) in
  if bool_decide (specTrigger = statusTrigger) then mret (micObj, Ok false)
  else
    err ← mbsc_Delete (mic_Name micObj) (mic_Namespace micObj);
    match err with
    | Some e => mret (micObj, Err (Errorf_v "failed to delete MBSC after ImageRebuildTriggerGeneration change: %v" e))
    | None =>
        '(m, err) ← status_patch KMIC micObj (set_trigger micObj specTrigger);
        mret (m, match err with
                 | Some e => Err (Errorf_v "failed to patch MIC status after ImageRebuildTriggerGeneration change: %v" e)
                 | None => Ok true
                 end)
    end.

(** The state a failed pull leads to, if any. *)
Definition failed_pull_state (imageSpec : ModuleImageSpec) : option ImageState :=
  if bool_decide (is_Some (mis_Build imageSpec)) then Some ImageNeedsBuilding
  else if bool_decide (is_Some (mis_Sign imageSpec)) then Some ImageNeedsSigning
  else if mis_SkipWaitMissingImage imageSpec then Some ImageDoesNotExist
  else None.

(** The body of the loop over the pull pods: the object and the pods to delete. *)
Definition pull_pod_step (st : ModuleImagesConfig * list Pod) (p : Pod) : ModuleImagesConfig * list Pod :=
  let '(micObj, podsToDelete) := st in
  let image := GetPullPodImage p in
  match GetModuleImageSpec micObj image with
  | None => (micObj, podsToDelete ++ [p])
  | Some imageSpec =>
      match GetPullPodStatus p with
      | PullImageFailed =>
          (match failed_pull_state imageSpec with
           | Some s => SetImageStatus micObj image s
           | None => micObj
           end, podsToDelete ++ [p])
      | PullImageSuccess => (SetImageStatus micObj image ImageExists, podsToDelete ++ [p])
      | _ => (micObj, podsToDelete)
      end
  end.

Definition updateStatusByPullPods (micObj : ModuleImagesConfig) (pods : list Pod) : prog (ModuleImagesConfig * option error) :=
  match pods with
  | [] => mret (micObj, None)
  | _ =>
      let '(new, podsToDelete) := foldl pull_pod_step (micObj, []) pods in
      '(m, err) ← status_patch KMIC micObj new;
      match err with
      | Some e => mret (m, Some (Errorf_v "failed to patch the status of mic %s: %v" e))
      | None =>
          errs ← for_range podsToDelete (λ p errs, err ← deletePod p; mret (errs ++ [err])) [];
          mret (m, errors_Join errs)
      end
  end.

(** The state a finished build or signing leads to. *)
Definition mbsc_outcome (s : BuildSignImageState) (spec : ModuleImageSpec) : option ImageState :=
  match bsi_Status s, bsi_Action s with
  | ActionFailure, _ => Some ImageDoesNotExist
  | ActionSuccess, SignImage => Some ImageExists
  | ActionSuccess, BuildImage =>
      if bool_decide (is_Some (mis_Sign spec)) then Some ImageNeedsSigning else Some ImageExists
  | ActionUnset, _ => None
  end.

Definition mbsc_state_step (micObj : ModuleImagesConfig) (s : BuildSignImageState) : ModuleImagesConfig :=
  match GetModuleImageSpec micObj (bsi_Image s) with
  | None => micObj
  | Some spec =>
      match mbsc_outcome s spec with
      | Some state => SetImageStatus micObj (bsi_Image s) state
      | None => micObj
      end
  end.

Definition updateStatusByMBSC (micObj : ModuleImagesConfig) : prog (ModuleImagesConfig * option error) :=
  r ← mbsc_Get (mic_Name micObj) (mic_Namespace micObj);
  match r with
  | Err e => mret (micObj, Some (Errorf_v "failed to get ModuleBuildSignConfig object %s/%s: %v" e))
  | Ok None => mret (micObj, None)
  | Ok (Some mbsc) => status_patch KMIC micObj (foldl mbsc_state_step micObj (mbsc_status_Images mbsc))
  end.

(** One iteration of the loop over the images of the spec; [errs] starts with as many [nil]s
    as there are images. *)
Definition process_image (micObj : ModuleImagesConfig) (pullPods : list Pod) (imageSpec : ModuleImageSpec) (errs : list (option error)) : prog (list (option error)) :=
  match GetImageState micObj (mis_Image imageSpec) with
  | ImageStateUnset =>
      match GetPullPodForImage pullPods (mis_Image imageSpec) with
      | Some _ => mret (errs ++ [None])
      | None =>
          let oneTimePod := bool_decide (is_Some (mis_Build imageSpec)) || bool_decide (is_Some (mis_Sign imageSpec))
                            || mis_SkipWaitMissingImage imageSpec in
          err ← CreatePullPod (mic_Name micObj) (mic_Namespace micObj) (mis_Image imageSpec) oneTimePod
                  (mics_ImageRepoSecret (mic_spec micObj)) (mics_ImagePullPolicy (mic_spec micObj))
                  (mics_Tolerations (mic_spec micObj)) "ModuleImagesConfig" (mic_meta micObj);
          mret (errs ++ [err; None])
      end
  | ImageDoesNotExist =>
      if bool_decide (mis_Build imageSpec = None) && bool_decide (mis_Sign imageSpec = None) then mret (errs ++ [None])
      else err ← mbsc_CreateOrPatch micObj imageSpec BuildImage; mret (errs ++ [err])
  | ImageNeedsBuilding => err ← mbsc_CreateOrPatch micObj imageSpec BuildImage; mret (errs ++ [err])
  | ImageNeedsSigning => err ← mbsc_CreateOrPatch micObj imageSpec SignImage; mret (errs ++ [err])
  | ImageExists => mret (errs ++ [None])
  end.

Definition mic_processImagesSpecs (micObj : ModuleImagesConfig) (pullPods : list Pod) : prog (option error) :=
  errs ← for_range (mics_Images (mic_spec micObj)) (process_image micObj pullPods)
           (repeat None (length (mics_Images (mic_spec micObj))));
  mret (errors_Join errs).

(** The result is whether to requeue, and the error. *)
Definition MIC_Reconcile (micObj : ModuleImagesConfig) : prog (bool * option error) :=
  match om_DeletionTimestamp (mic_meta micObj) with
  | Some _ => mret (false, None)
  | None =>
      '(micObj, r) ← handleImageRebuildTriggerGeneration micObj;
      match r with
      | Err e => mret (false, Some (Errorf_v "failed to handle ImageRebuildTriggerGeneration for MIC %s: %v" e))
      | Ok true => mret (true, None)
      | Ok false =>
          r ← ListPullPods (mic_Name micObj) (mic_Namespace micObj);
          match r with
          | Err e => mret (false, Some (Errorf_v "failed to get the image pods for mic %s: %v" e))
          | Ok pods =>
              '(micObj, err) ← updateStatusByPullPods micObj pods;
              match err with
              | Some e => mret (false, Some (Errorf_v "failed tp update the status for MIC %s based on pull pods: %v" e))
              | None =>
                  '(micObj, err) ← updateStatusByMBSC micObj;
                  match err with
                  | Some e => mret (false, Some (Errorf_v "failed tp update the status for MIC %s based on builds: %v" e))
                  | None =>
                      err ← mic_processImagesSpecs micObj pods;
                      mret (false, wrap_err "failed to process images spec: %v" err)
                  end
              end
          end
      end
  end.

(** ** The image state machine

    What a pull pod or a build result says about an image, read off the objects, and how it
    moves the state of the image. *)
Inductive image_event := PullSucceeded | PullFailed | Built | Signed | MakingFailed.

Inductive image_step (spec : ModuleImageSpec) : image_event → ImageState → ImageState → Prop :=
| pulled s : image_step spec PullSucceeded s ImageExists
| absent_to_build b s : mis_Build spec = Some b → image_step spec PullFailed s ImageNeedsBuilding
| absent_to_sign g s : mis_Build spec = None → mis_Sign spec = Some g → image_step spec PullFailed s ImageNeedsSigning
| absent_given_up s :
    mis_Build spec = None → mis_Sign spec = None → mis_SkipWaitMissingImage spec = true →
    image_step spec PullFailed s ImageDoesNotExist
| absent_awaited s :
    mis_Build spec = None → mis_Sign spec = None → mis_SkipWaitMissingImage spec = false → image_step spec PullFailed s s
| built_to_sign g s : mis_Sign spec = Some g → image_step spec Built s ImageNeedsSigning
| built s : mis_Sign spec = None → image_step spec Built s ImageExists
| signed s : image_step spec Signed s ImageExists
| not_made s : image_step spec MakingFailed s ImageDoesNotExist.

(** The image a pull pod pulls. *)
Definition pulled_image (p : Pod) : string := default "" (ct_Image <$> head (ps_Containers (pod_spec p))).

(** A pod that pulls once and cannot: it waits, for a pull error.  A pod that pulls until it
    succeeds never fails. *)
Definition pull_refused (p : Pod) : Prop :=
  pod_Phase p = PodPending ∧ map_get (pod_Labels p) pullPodTypeLabelKey ≠ pullPodUntilSuccess ∧
  ∃ cs l, pst_ContainerStatuses (pod_status p) = cs :: l ∧
    (cs_WaitingReason cs = Some "ImagePullBackOff" ∨ cs_WaitingReason cs = Some "ErrImagePull").

Inductive pod_says (p : Pod) : option image_event → Prop :=
| says_pulled : pod_Phase p = PodSucceeded → pod_says p (Some PullSucceeded)
| says_refused : pull_refused p → pod_says p (Some PullFailed)
| says_nothing : pod_Phase p ≠ PodSucceeded → ¬ pull_refused p → pod_says p None.

Inductive result_says (b : BuildSignImageState) : option image_event → Prop :=
| says_built : bsi_Status b = ActionSuccess → bsi_Action b = BuildImage → result_says b (Some Built)
| says_signed : bsi_Status b = ActionSuccess → bsi_Action b = SignImage → result_says b (Some Signed)
| says_failed : bsi_Status b = ActionFailure → result_says b (Some MakingFailed)
| says_unset : bsi_Status b = ActionUnset → result_says b None.

Section runs.
Context {A : Type} (image_of : A → string) (says : A → option image_event → Prop) (spec : ModuleImageSpec) (image : string).

Inductive item_step (a : A) : ImageState → ImageState → Prop :=
| item_other s : image_of a ≠ image → item_step a s s
| item_silent s : image_of a = image → says a None → item_step a s s
| item_event e s s' : image_of a = image → says a (Some e) → image_step spec e s s' → item_step a s s'.

(** The state of the image after the items of a list, in order. *)
Inductive image_run : list A → ImageState → ImageState → Prop :=
| run_nil s : image_run [] s s
| run_cons a l s s1 s' : item_step a s s1 → image_run l s1 s' → image_run (a :: l) s s'.
End runs.

Lemma GetModuleImageSpec_SetImageStatus m image st k :
  GetModuleImageSpec (SetImageStatus m image st) k = GetModuleImageSpec m k.
Proof. done. Qed.

(** Writing the state of the item's own image, or of another one. *)
Lemma set_item {A} (image_of : A → string) says spec image a e m st :
  (image_of a = image → says a (Some e) ∧ ∀ s, image_step spec e s st) →
  item_step image_of says spec image a (GetImageState m image) (GetImageState (SetImageStatus m (image_of a) st) image).
Proof.
  intros H. rewrite GetImageState_set. case_decide as E; [|by apply item_other].
  destruct (H (eq_sym E)) as [He Hs]. by eapply item_event.
Qed.

(** The outcome of a pull pod, and the status the puller reads off it. *)
Lemma pod_says_status p :
  pod_says p (match GetPullPodStatus p with
              | PullImageSuccess => Some PullSucceeded
              | PullImageFailed => Some PullFailed
              | _ => None
              end).
Proof.
  unfold GetPullPodStatus. destruct (pod_Phase p) eqn:E;
    try (apply says_nothing; [congruence|intros (? & _); congruence]); [|by apply says_pulled].
  assert (¬ pull_refused p → pod_says p None) as Hno by (intros; apply says_nothing; [congruence|done]).
  destruct (pst_ContainerStatuses (pod_status p)) as [|cs l] eqn:Ec; [apply Hno; intros (_ & _ & ? & ? & ? & _); congruence|].
  destruct (cs_WaitingReason cs) as [r|] eqn:Er; [|apply Hno; intros (_ & _ & ? & ? & ? & [?|?]); congruence].
  destruct (String.eqb_spec (map_get (pod_Labels p) pullPodTypeLabelKey) pullPodUntilSuccess) as [Et|Et];
    [apply Hno; by intros (_ & ? & _)|].
  destruct (String.eqb_spec r imagePullBackOffReason) as [->|H1]; [apply says_refused; split_and!; eauto|].
  destruct (String.eqb_spec r errImagePullReason) as [->|H2]; [apply says_refused; split_and!; eauto|].
  unfold imagePullBackOffReason, errImagePullReason in *. apply Hno. intros (_ & _ & ? & ? & ? & [?|?]); simplify_eq; congruence.
Qed.

Lemma pull_pod_step_spec st p : mic_spec (pull_pod_step st p).1 = mic_spec st.1.
Proof.
  destruct st as [m l]. unfold pull_pod_step.
  destruct (GetModuleImageSpec m _) as [spec|]; [|done].
  destruct (GetPullPodStatus p); try done. by destruct (failed_pull_state spec).
Qed.

Lemma silent_pod m p image spec :
  pod_says p None → item_step pulled_image pod_says spec image p (GetImageState m image) (GetImageState m image).
Proof. intros H. destruct (decide (pulled_image p = image)); [by apply item_silent|by apply item_other]. Qed.

Lemma pull_pod_step_state st p image spec :
  GetModuleImageSpec st.1 image = Some spec →
  item_step pulled_image pod_says spec image p (GetImageState st.1 image) (GetImageState (pull_pod_step st p).1 image).
Proof.
  destruct st as [m l]. intros Hspec. unfold pull_pod_step. change (GetPullPodImage p) with (pulled_image p).
  destruct (GetModuleImageSpec m (pulled_image p)) as [spec'|] eqn:Es; [|apply item_other; simpl in Hspec; congruence].
  assert (pulled_image p = image → spec' = spec) as Hsame by (simpl in Hspec; congruence).
  pose proof (pod_says_status p) as Hp. destruct (GetPullPodStatus p); simpl; try by apply silent_pod.
  - unfold failed_pull_state. case_bool_decide as Eb; [|apply eq_None_not_Some in Eb; case_bool_decide as Eg; [|apply eq_None_not_Some in Eg; destruct (mis_SkipWaitMissingImage spec') eqn:Ek]].
    + apply (set_item _ _ _ _ _ PullFailed). intros <-%Hsame. destruct Eb as [b Eb]. split; [done|]. intros ?. by eapply absent_to_build.
    + apply (set_item _ _ _ _ _ PullFailed). intros <-%Hsame. destruct Eg as [g Eg]. split; [done|]. intros ?. by eapply absent_to_sign.
    + apply (set_item _ _ _ _ _ PullFailed). intros <-%Hsame. split; [done|]. intros ?. by apply absent_given_up.
    + destruct (decide (pulled_image p = image)) as [E|]; [|by apply item_other].
      rewrite <-(Hsame E). eapply item_event; [done..|]. by apply absent_awaited.
  - apply (set_item _ _ _ _ _ PullSucceeded). intros _. split; [done|constructor].
Qed.

Lemma pull_loop_state m dels pods image spec :
  GetModuleImageSpec m image = Some spec →
  image_run pulled_image pod_says spec image pods (GetImageState m image) (GetImageState (foldl pull_pod_step (m, dels) pods).1 image).
Proof.
  revert m dels. induction pods as [|p pods IH]; intros m dels Hspec; [constructor|].
  cbn [foldl]. pose proof (pull_pod_step_state (m, dels) p image spec Hspec) as Hstep.
  pose proof (pull_pod_step_spec (m, dels) p) as Hkeep. destruct (pull_pod_step (m, dels) p) as [m' dels'].
  econstructor; [exact Hstep|]. apply IH. unfold GetModuleImageSpec in *. simpl in *. by rewrite Hkeep.
Qed.

Lemma mbsc_state_step_state m b image spec :
  GetModuleImageSpec m image = Some spec →
  item_step bsi_Image result_says spec image b (GetImageState m image) (GetImageState (mbsc_state_step m b) image).
Proof.
  intros Hspec. unfold mbsc_state_step, mbsc_outcome.
  destruct (GetModuleImageSpec m (bsi_Image b)) as [spec'|] eqn:Es; [|apply item_other; congruence].
  assert (bsi_Image b = image → spec' = spec) as Hsame by (intros E; congruence).
  destruct (bsi_Status b) eqn:Et.
  - destruct (decide (bsi_Image b = image)); [by apply item_silent; [|apply says_unset]|by apply item_other].
  - destruct (bsi_Action b) eqn:Ea.
    + case_bool_decide as Eg; [|apply eq_None_not_Some in Eg]; apply (set_item _ _ _ _ _ Built); intros <-%Hsame.
      * destruct Eg as [g Eg]. split; [by apply says_built|]. intros ?. by eapply built_to_sign.
      * split; [by apply says_built|]. intros ?. by apply built.
    + apply (set_item _ _ _ _ _ Signed). intros _. split; [by apply says_signed|constructor].
  - apply (set_item _ _ _ _ _ MakingFailed). intros _. split; [by apply says_failed|constructor].
Qed.

Lemma mbsc_state_step_spec m s : mic_spec (mbsc_state_step m s) = mic_spec m.
Proof.
  unfold mbsc_state_step. destruct (GetModuleImageSpec m _) as [spec|]; [|done].
  by destruct (mbsc_outcome s spec).
Qed.

Lemma build_loop_state m l image spec :
  GetModuleImageSpec m image = Some spec →
  image_run bsi_Image result_says spec image l (GetImageState m image) (GetImageState (foldl mbsc_state_step m l) image).
Proof.
  revert m. induction l as [|b l IH]; intros m Hspec; [constructor|].
  cbn [foldl]. econstructor; [by apply mbsc_state_step_state|]. apply IH.
  unfold GetModuleImageSpec in *. by rewrite mbsc_state_step_spec.
Qed.

(** The pull pods whose outcome is known, or whose image is no longer wanted. *)
Definition pull_pod_done (m : ModuleImagesConfig) (p : Pod) : Prop :=
  pulled_image p ∉ mis_Image <$> mics_Images (mic_spec m) ∨ pod_Phase p = PodSucceeded ∨ pull_refused p.

Lemma GetModuleImageSpec_None m image :
  GetModuleImageSpec m image = None ↔ image ∉ mis_Image <$> mics_Images (mic_spec m).
Proof.
  unfold GetModuleImageSpec. rewrite find_first_None. rewrite list_elem_of_fmap. split.
  - intros H (s & -> & Hs). specialize (H s Hs). by rewrite String.eqb_refl in H.
  - intros H s Hs. apply String.eqb_neq. intros <-. eauto.
Qed.

(** The first entry of the spec for an image. *)
Lemma GetModuleImageSpec_first m pre s post :
  mics_Images (mic_spec m) = pre ++ s :: post → mis_Image s ∉ mis_Image <$> pre →
  GetModuleImageSpec m (mis_Image s) = Some s.
Proof.
  intros Hl Hpre. unfold GetModuleImageSpec. rewrite Hl, find_first_app.
  assert (find_first (λ s', String.eqb (mis_Image s') (mis_Image s)) pre = None) as ->.
  { apply find_first_None. intros s' Hs'. apply String.eqb_neq. intros E. apply Hpre. rewrite <-E. by apply list_elem_of_fmap_2. }
  simpl. by rewrite String.eqb_refl.
Qed.

Lemma pull_loop_deletes m pods p :
  p ∈ (foldl pull_pod_step (m, []) pods).2 ↔ p ∈ pods ∧ pull_pod_done m p.
Proof.
  enough (mic_spec (foldl pull_pod_step (m, []) pods).1 = mic_spec m ∧
          (p ∈ (foldl pull_pod_step (m, []) pods).2 ↔ p ∈ pods ∧ pull_pod_done m p)) as [_ H] by done.
  induction pods as [|q pods [IH1 IH2]] using rev_ind; [split; [done|]; simpl; rewrite !elem_of_nil; naive_solver|].
  rewrite foldl_app. simpl. rewrite pull_pod_step_spec. split; [done|].
  rewrite elem_of_app, list_elem_of_singleton. destruct (foldl pull_pod_step (m, []) pods) as [m' l]. simpl in *.
  assert (∀ x, (x = true ↔ pull_pod_done m q) → p ∈ (if x then l ++ [q] else l) ↔ (p ∈ pods ∨ p = q) ∧ pull_pod_done m p) as Hnew.
  { intros [|] Hx; [rewrite elem_of_app, list_elem_of_singleton|]; rewrite IH2; naive_solver. }
  unfold GetPullPodImage. fold (pulled_image q). pose proof (pod_says_status q) as Hq. unfold pull_pod_done in *.
  pose proof (GetModuleImageSpec_None m (pulled_image q)) as Hn. unfold GetModuleImageSpec in *. rewrite IH1.
  destruct (find_first _ _); [|apply (Hnew true); naive_solver].
  destruct (GetPullPodStatus q); simpl; first [apply (Hnew true)|apply (Hnew false)]; inversion Hq; naive_solver.
Qed.

(** The deletions: one for each pod of the list that is not already being deleted. *)
Lemma delete_pull_pods_calls (l : list Pod) errs :
  wp (for_range l (λ p errs, err ← deletePod p; mret (errs ++ [err])) errs) (λ tr _,
    obs_call <$> tr = Delete KPod <$> filter (λ p, om_DeletionTimestamp (pod_meta p) = None) l).
Proof.
  revert errs. induction l as [|p l IH]; intros errs; cbn [for_range]; [done|].
  assert (wp (deletePod p) (λ tr _, obs_call <$> tr = Delete KPod <$> filter (λ p, om_DeletionTimestamp (pod_meta p) = None) [p])) as Hp.
  { unfold deletePod. rewrite filter_cons. destruct (om_DeletionTimestamp (pod_meta p)); [by rewrite decide_False|].
    rewrite decide_True by done. by intros []. }
  apply wp_bind, wp_bind. eapply wp_mono; [|exact Hp]. intros tr r Htr. apply wp_ret. eapply wp_mono; [|apply IH].
  intros tr' r' Htr'. rewrite app_nil_r, fmap_app, Htr, Htr', <-fmap_app, <-filter_app. done.
Qed.

(** C13: the two status updates run the image state machine.  For every image of the spec, the
    state saved after reading the pull pods is the one reached by a success, or a refusal, of
    each pod that pulls it; the state saved after reading the build results is the one reached
    by each finished build or signing of it.  A pulled image exists; one that cannot be pulled
    is to be built, else signed, else is given up if it need not be waited for; a built image
    exists or is to be signed; a signed one exists; one that could not be made does not.
    After the state was saved, exactly the pull pods that have an outcome or whose image is
    not wanted any more are deleted, less those already being deleted; if it could not be
    saved, none is. *)
Theorem image_states_follow_machine micObj pods pre spec post :
  mics_Images (mic_spec micObj) = pre ++ spec :: post → mis_Image spec ∉ mis_Image <$> pre →
  wp (updateStatusByPullPods micObj pods) (λ tr _,
    (pods = [] ∧ tr = []) ∨
    ∃ new x rest, tr = Obs (StatusPatch KMIC micObj new) x :: rest ∧
      image_run pulled_image pod_says spec (mis_Image spec) pods
        (GetImageState micObj (mis_Image spec)) (GetImageState new (mis_Image spec)) ∧
      if is_ok x
      then ∃ dels, (∀ p, p ∈ dels ↔ p ∈ pods ∧ pull_pod_done micObj p) ∧
             obs_call <$> rest = Delete KPod <$> filter (λ p, om_DeletionTimestamp (pod_meta p) = None) dels
      else rest = []) ∧
  wp (updateStatusByMBSC micObj) (λ tr _, ∃ a rest,
    tr = Obs (Get KMBSC (nsn (mic_Namespace micObj) (mic_Name micObj))) a :: rest ∧
    match a with
    | Err _ => rest = []
    | Ok mbsc => ∃ new x, rest = [Obs (StatusPatch KMIC micObj new) x] ∧
        image_run bsi_Image result_says spec (mis_Image spec) (mbsc_status_Images mbsc)
          (GetImageState micObj (mis_Image spec)) (GetImageState new (mis_Image spec))
    end).
Proof.
  intros Hl Hpre. pose proof (GetModuleImageSpec_first _ _ _ _ Hl Hpre) as Hspec. split.
  - unfold updateStatusByPullPods. destruct pods as [|p pods]; [by left|].
    pose proof (pull_loop_state micObj [] (p :: pods) _ spec Hspec) as Hst.
    pose proof (pull_loop_deletes micObj (p :: pods)) as Hdel.
    destruct (foldl pull_pod_step (micObj, []) (p :: pods)) as [new dels]. simpl in Hdel. cbn [fst] in Hst.
    intros x. simpl in x. destruct x as [o|e]; simpl.
    + apply wp_bind. eapply wp_mono; [|apply delete_pull_pods_calls]. intros tr errs Htr. simpl. right.
      eexists _, _, _. split; [done|]. rewrite app_nil_r. split; [done|]. simpl. eauto.
    + right. eexists _, _, _. split; [done|]. by split.
  - unfold updateStatusByMBSC. intros a. simpl in a. destruct a as [mbsc|e]; simpl.
    + intros x. eexists _, _. split; [done|]. simpl. eexists _, x. split; [by destruct x|].
      by apply build_loop_state.
    + destruct (IsNotFound e); eexists (Err e), _; (split; [done|done]).
Qed.

(** A result that is evidence that the image exists. *)
Definition build_evidence (spec : ModuleImageSpec) (image : string) (s : BuildSignImageState) : Prop :=
  bsi_Image s = image ∧ bsi_Status s = ActionSuccess ∧ (bsi_Action s = SignImage ∨ mis_Sign spec = None).

Lemma machine_exists_evidence spec image l st st' :
  image_run bsi_Image result_says spec image l st st' → st' = ImageExists →
  st = ImageExists ∨ Exists (build_evidence spec image) l.
Proof.
  induction 1 as [|b l s s1 s' Hstep _ IH]; [by left|]. intros E. specialize (IH E). rewrite Exists_cons.
  destruct IH as [->|]; [|auto]. inversion Hstep as [| |e ? ? Hi Hsays Hs]; [by left..|].
  right. left. unfold build_evidence. inversion Hsays; subst; inversion Hs; auto.
Qed.

(** An image becomes ready only on evidence: if reading the build results turns an image
    into an existing one, some result for that image is a success, and it is the success of a
    signing when the image has to be signed. *)
Theorem exists_only_with_evidence micObj image spec :
  GetModuleImageSpec micObj image = Some spec →
  GetImageState micObj image ≠ ImageExists →
  wp (updateStatusByMBSC micObj) (λ tr _,
    (∃ e, tr = [Obs (Get KMBSC (nsn (mic_Namespace micObj) (mic_Name micObj))) (Err e)]) ∨
    ∃ mbsc new x,
      tr = [Obs (Get KMBSC (nsn (mic_Namespace micObj) (mic_Name micObj))) (Ok mbsc);
            Obs (StatusPatch KMIC micObj new) x] ∧
      (GetImageState new image = ImageExists →
       Exists (build_evidence spec image) (mbsc_status_Images mbsc))).
Proof.
  intros Hspec Hold. unfold updateStatusByMBSC. intros r. simpl in r. destruct r as [mbsc|e]; simpl.
  - intros x. right. eexists mbsc, _, x. split; [by destruct x|].
    intros He. by destruct (machine_exists_evidence _ _ _ _ _ (build_loop_state _ _ _ spec Hspec) He).
  - destruct (IsNotFound e); left; by exists e.
Qed.

(** ** Requests for the images *)

(** The calls [processImagesSpecs] makes for an image: nothing for an image that exists, is
    being pulled, or cannot be produced; a pull pod for an image of unknown state; a build or
    signing request otherwise. *)
Definition image_calls (micObj : ModuleImagesConfig) (pullPods : list Pod) (s : ModuleImageSpec) : list call :=
  let request action := [CreateOrPatch KMBSC (empty_mbsc (mic_Namespace micObj) (mic_Name micObj)) (mbsc_mutate micObj s action)] in
  match GetImageState micObj (mis_Image s) with
  | ImageExists => []
  | ImageStateUnset =>
      if existsb (λ p, String.eqb (mis_Image s) (GetPullPodImage p)) pullPods then []
      else
        let p := pull_pod (mic_Name micObj) (mic_Namespace micObj) (mis_Image s)
                   (bool_decide (is_Some (mis_Build s)) || bool_decide (is_Some (mis_Sign s)) || mis_SkipWaitMissingImage s)
                   (mics_ImageRepoSecret (mic_spec micObj)) (mics_ImagePullPolicy (mic_spec micObj))
                   (mics_Tolerations (mic_spec micObj)) in
        match SetControllerReference "ModuleImagesConfig" (mic_meta micObj) (pod_meta p) with
        | Ok m => [Create KPod (pod_set_meta p m)]
        | Err _ => []
        end
  | ImageNeedsBuilding => request BuildImage
  | ImageNeedsSigning => request SignImage
  | ImageDoesNotExist =>
      if bool_decide (is_Some (mis_Build s)) || bool_decide (is_Some (mis_Sign s)) then request BuildImage else []
  end.

Lemma find_first_existsb {A} (p : A → bool) l : existsb p l = bool_decide (is_Some (find_first p l)).
Proof. induction l as [|a l IH]; simpl; [done|]. destruct (p a); simpl; [done|apply IH]. Qed.

Lemma process_image_calls micObj pullPods s errs :
  wp (process_image micObj pullPods s errs) (λ tr _, obs_call <$> tr = image_calls micObj pullPods s).
Proof.
  unfold process_image, image_calls. rewrite find_first_existsb. fold (GetPullPodForImage pullPods (mis_Image s)).
  destruct (GetImageState micObj (mis_Image s)); simpl.
  - unfold GetPullPodForImage. destruct (find_first _ pullPods); simpl; [done|].
    unfold CreatePullPod. destruct (SetControllerReference _ _ _); simpl; [|done]. done.
  - done.
  - destruct (mis_Build s), (mis_Sign s); simpl; done.
  - done.
  - done.
Qed.

(** One pass over the images makes exactly the requests their states call for, in order
    and whatever the server answers: a failed request does not stop the later ones. *)
Theorem processImagesSpecs_requests micObj pullPods :
  wp (mic_processImagesSpecs micObj pullPods) (λ tr _,
    obs_call <$> tr = mics_Images (mic_spec micObj) ≫= image_calls micObj pullPods).
Proof.
  unfold mic_processImagesSpecs. apply wp_bind.
  apply (wp_mono _ (λ tr _, (obs_call <$> tr) ++ ([] ≫= image_calls micObj pullPods) =
                            mics_Images (mic_spec micObj) ≫= image_calls micObj pullPods)).
  { intros tr errs. simpl. by rewrite !app_nil_r. }
  apply (wp_for_range _ (λ l tr _, (obs_call <$> tr) ++ (l ≫= image_calls micObj pullPods) =
                                   mics_Images (mic_spec micObj) ≫= image_calls micObj pullPods)); [done|].
  intros s l tr errs HI. eapply wp_mono; [|apply process_image_calls]. simpl. intros tr' _ Htr'.
  by rewrite fmap_app, Htr', <-app_assoc.
Qed.

(** A changed rebuild trigger forgets the previous images exactly once: the build requests
    are deleted first, and only then the states are cleared and the new trigger saved; until
    both succeeded the pass reports an error and the next one starts over.  With the saved
    status a further pass does nothing, and every image is of unknown state again. *)
Theorem rebuild_trigger_resets micObj :
  let spec_t := mics_ImageRebuildTriggerGeneration (mic_spec micObj) in
  let del := Delete KMBSC (empty_mbsc (mic_Namespace micObj) (mic_Name micObj)) in
  let upd := StatusPatch KMIC micObj (set_trigger micObj spec_t) in
  wp (handleImageRebuildTriggerGeneration micObj) (λ tr r,
    if bool_decide (spec_t = micst_ImageRebuildTriggerGeneration (mic_status micObj)) then tr = [] ∧ r.2 = Ok false
    else (∃ e, tr = [Obs del (Err e)] ∧ IsNotFound e = false ∧ is_ok r.2 = false) ∨
         (∃ a x, tr = [Obs del a; Obs upd x] ∧ IgnoreNotFound (err_of a) = None ∧
                 (r.2 = Ok true ↔ is_ok x = true) ∧ (is_ok r.2 = is_ok x))) ∧
  handleImageRebuildTriggerGeneration (set_trigger micObj spec_t) = mret (set_trigger micObj spec_t, Ok false) ∧
  (∀ image, GetImageState (set_trigger micObj spec_t) image = ImageStateUnset).
Proof.
  simpl. split_and!.
  - unfold handleImageRebuildTriggerGeneration. case_bool_decide as E; [done|].
    intros a. simpl in a. destruct a as [u|e]; simpl.
    + intros x. destruct x; simpl; right; eexists (Ok u), _; (split; [done|done]).
    + destruct (IsNotFound e) eqn:En; simpl.
      * intros x. destruct x; simpl; right; eexists (Err e), _; (split; [done|]); simpl; by rewrite En.
      * left. eauto.
  - unfold handleImageRebuildTriggerGeneration. simpl. by rewrite bool_decide_true.
  - done.
Qed.

(** A signing that failed on an image without a build section is requested again as a build:
    the case of [ImageDoesNotExist] falls through to the one of [ImageNeedsBuilding]. *)
Theorem failed_sign_only_image_is_built micObj pullPods s :
  GetImageState micObj (mis_Image s) = ImageDoesNotExist →
  mis_Build s = None → is_Some (mis_Sign s) →
  image_calls micObj pullPods s =
  [CreateOrPatch KMBSC (empty_mbsc (mic_Namespace micObj) (mic_Name micObj)) (mbsc_mutate micObj s BuildImage)].
Proof. unfold image_calls. intros -> -> [x ->]. done. Qed.

(** A pull pod that ended unexpectedly (evicted, for instance: phase [Failed]) is neither an
    outcome nor deleted, and its presence prevents the creation of a new one: the state of its
    image stays unknown. *)
Theorem unexpected_pull_pod_blocks_image micObj p pods s dels :
  GetPullPodStatus p = PullImageUnexpectedErr →
  GetModuleImageSpec micObj (GetPullPodImage p) = Some s →
  p ∈ pods → GetImageState micObj (mis_Image s) = ImageStateUnset → mis_Image s = GetPullPodImage p →
  pull_pod_step (micObj, dels) p = (micObj, dels) ∧ image_calls micObj pods s = [].
Proof.
  intros Hp Hs Hin Hst Himg. unfold pull_pod_step, image_calls. rewrite Hs, Hp, Hst.
  replace (existsb _ pods) with true; [done|]. symmetry. apply existsb_exists. exists p.
  split; [by apply list_elem_of_In|]. by rewrite <-Himg, String.eqb_refl.
Qed.
End mic_reconciler.

(** ** Witnesses *)

Definition demo_image_spec : ModuleImageSpec :=
  {| mis_Image := "registry/mod:v1"; mis_KernelVersion := "5.14.0"; mis_Build := None; mis_Sign := None;
     mis_SkipWaitMissingImage := true; mis_RegistryTLS := None; mis_DirName := "" |}.

Definition demo_mic : ModuleImagesConfig :=
  mic_set_spec (empty_mic "ns" "mod")
    {| mics_Images := [demo_image_spec]; mics_ImageRepoSecret := None; mics_ImagePullPolicy := "Always";
       mics_PushBuiltImage := true; mics_ImageRebuildTriggerGeneration := None; mics_Tolerations := [] |}.

Definition demo_pull_pod (phase : PodPhase) : Pod :=
  {| pod_meta := pod_meta (pull_pod "mod" "ns" "registry/mod:v1" true None "Always" []);
     pod_spec := pod_spec (pull_pod "mod" "ns" "registry/mod:v1" true None "Always" []);
     pod_status := {| pst_Phase := phase; pst_ContainerStatuses := []; pst_Ready := false |} |}.

Definition demo_sign : Sign :=
  {| sign_UnsignedImage := "registry/mod:unsigned";
     sign_UnsignedImageRegistryTLS := {| tls_Insecure := false; tls_InsecureSkipTLSVerify := false |};
     sign_KeySecret := Some "key"; sign_CertSecret := Some "cert"; sign_FilesToSign := ["/opt/mod.ko"] |}.

Lemma image_states_follow_machine_witness :
  wp (updateStatusByPullPods demo_mic [demo_pull_pod PodSucceeded]) (λ tr _,
    [demo_pull_pod PodSucceeded] = [] ∧ tr = [] ∨
    ∃ new x rest, tr = Obs (StatusPatch KMIC demo_mic new) x :: rest ∧
      image_run pulled_image pod_says demo_image_spec "registry/mod:v1" [demo_pull_pod PodSucceeded]
        ImageStateUnset (GetImageState new "registry/mod:v1") ∧
      if is_ok x
      then ∃ dels, (∀ p, p ∈ dels ↔ p ∈ [demo_pull_pod PodSucceeded] ∧ pull_pod_done demo_mic p) ∧
             obs_call <$> rest = Delete KPod <$> filter (λ p, om_DeletionTimestamp (pod_meta p) = None) dels
      else rest = []).
Proof.
  refine (proj1 (image_states_follow_machine demo_mic [demo_pull_pod PodSucceeded] [] demo_image_spec [] eq_refl _)).
  apply not_elem_of_nil.
Defined.

Lemma exists_only_with_evidence_witness :
  GetImageState demo_mic "registry/mod:v1" ≠ ImageExists ∧
  wp (updateStatusByMBSC demo_mic) (λ tr _,
    (∃ e, tr = [Obs (Get KMBSC (nsn "ns" "mod")) (Err e)]) ∨
    ∃ mbsc new x,
      tr = [Obs (Get KMBSC (nsn "ns" "mod")) (Ok mbsc); Obs (StatusPatch KMIC demo_mic new) x] ∧
      (GetImageState new "registry/mod:v1" = ImageExists →
       Exists (build_evidence demo_image_spec "registry/mod:v1") (mbsc_status_Images mbsc))).
Proof.
  split; [by vm_compute|].
  apply (exists_only_with_evidence demo_mic "registry/mod:v1" demo_image_spec); [reflexivity|by vm_compute].
Defined.

Lemma failed_sign_only_image_is_built_witness :
  let s := {| mis_Image := "registry/mod:v1"; mis_KernelVersion := "5.14.0"; mis_Build := None;
              mis_Sign := Some demo_sign; mis_SkipWaitMissingImage := false; mis_RegistryTLS := None; mis_DirName := "" |} in
  length (image_calls (EXT := demo_externals) (SetImageStatus demo_mic "registry/mod:v1" ImageDoesNotExist) [] s) = 1.
Proof.
  intros s. rewrite (failed_sign_only_image_is_built (EXT := demo_externals) _ [] s); [reflexivity|reflexivity|reflexivity|by eexists].
Defined.

Lemma unexpected_pull_pod_blocks_image_witness :
  image_calls (EXT := demo_externals) demo_mic [demo_pull_pod PodFailed] demo_image_spec = [].
Proof.
  apply (unexpected_pull_pod_blocks_image (EXT := demo_externals) demo_mic (demo_pull_pod PodFailed) _ demo_image_spec []);
    [reflexivity|reflexivity|by left|reflexivity|reflexivity].
Defined.
