(* ===== verification/ModuleReconciler.v ===== *)
(** * The Module reconciler ([internal/controllers/module_reconciler.go])

    For every node a module targets: computes the module's configuration for the node's
    kernel, keeps the ModuleImagesConfig of the module up to date, and adds the module to or
    removes it from the NodeModulesConfig of the node.  A finalizer on the Module and a label
    on its namespace bracket its life. *)

From S2P Require Import Prelude Types Kube GoStrings Externals Demo Labels NmcHelper Node KernelMapper WorkerPod Mic.

Open Scope string_scope.
Open Scope nat_scope.
Open Scope list_scope.

Inductive sched_action := actionNone | actionAdd | actionDelete.

#[export] Instance sched_action_eq_dec : EqDecision sched_action.
Proof. solve_decision. Defined.

Record schedulingData := {
  sd_action : sched_action;
  sd_mld : option ModuleLoaderData;
  sd_node : option Node;
}.

Definition sd_nothing : schedulingData := {| sd_action := actionNone; sd_mld := None; sd_node := None |}.
Definition sd_delete : schedulingData := {| sd_action := actionDelete; sd_mld := None; sd_node := None |}.
Definition sd_add (mld : ModuleLoaderData) (node : Node) : schedulingData :=
  {| sd_action := actionAdd; sd_mld := Some mld; sd_node := Some node |}.

Definition prepareNodeSchedulingData (node : Node) (mld : option ModuleLoaderData) (currentNMCs : gset string) : schedulingData :=
  match mld with
  | None => if bool_decide (node_Name node ∈ currentNMCs) then sd_delete else sd_nothing
  | Some m =>
      let '(versionLabel, present) := GetNodeWorkerPodVersionLabel (node_Labels node) (mld_Namespace m) (mld_Name m) in
      if String.eqb (mld_ModuleVersion m) "" then sd_add m node
      else if present && String.eqb versionLabel (mld_ModuleVersion m) then sd_add m node
      else if present && negb (String.eqb versionLabel (mld_ModuleVersion m)) then sd_nothing
      else if negb present && negb (String.eqb (mld_ModuleVersion m) "") then sd_delete
      else sd_nothing
  end.

Definition empty_nmc (name : string) : NodeModulesConfig :=
  {| nmc_meta := empty_meta "" name; nmc_spec_Modules := []; nmc_status_Modules := [] |}.

Definition nmc_set_meta (n : NodeModulesConfig) (m : ObjectMeta) : NodeModulesConfig :=
  {| nmc_meta := m; nmc_spec_Modules := nmc_spec_Modules n; nmc_status_Modules := nmc_status_Modules n |}.

Definition node_kernel (n : Node) : string := TrimSuffix (ni_KernelVersion (node_NodeInfo n)) "+".

Definition empty_ds_status : DaemonSetStatus :=
  {| dss_NodesMatchingSelectorNumber := 0; dss_DesiredNumber := 0; dss_AvailableNumber := 0 |}.

Definition mod_set_loader_status (m : Module_) (s : DaemonSetStatus) : Module_ :=
  mod_set_status m
    {| mst_DevicePlugin := mst_DevicePlugin (mod_status m); mst_DRA := mst_DRA (mod_status m);
       mst_ModuleLoader := s;
       mst_ImageRebuildTriggerGeneration := mst_ImageRebuildTriggerGeneration (mod_status m) |}.

Definition mod_set_trigger_status (m : Module_) (t : option Z) : Module_ :=
  mod_set_status m
    {| mst_DevicePlugin := mst_DevicePlugin (mod_status m); mst_DRA := mst_DRA (mod_status m);
       mst_ModuleLoader := mst_ModuleLoader (mod_status m); mst_ImageRebuildTriggerGeneration := t |}.

Section module_reconciler.
Context `{EXT : Externals}.

(** ** The namespace label *)

Definition setLabel (name : string) : prog (option error) :=
  r ← get KNamespace (nsn "" name);
  match r with
  | Err e => mret (Some (Errorf_v "could not get namespace %s: %v" e))
  | Ok ns =>
      if HasLabel (ns_meta ns) constants.NamespaceLabelKey then mret None
      else
        '(_, err) ← patch KNamespace ns {| ns_meta := SetLabel (ns_meta ns) constants.NamespaceLabelKey "" |};
        mret err
  end.

Definition live_modules (l : list Module_) : list Module_ :=
  filter (λ m, om_DeletionTimestamp (mod_meta m) = None) l.

Definition tryRemovingLabel (name moduleName : string) : prog (option error) :=
  r ← list_all KModule [InNamespace name];
  match r with
  | Err e => mret (Some (Errorf_v "could not list modules in namespace %s: %v" e))
  | Ok mods =>
      match live_modules mods with
      | _ :: _ => mret None
      | [] =>
          r ← get KNamespace (nsn "" name);
          match r with
          | Err e => mret (Some (Errorf_v "could not get namespace %s: %v" e))
          | Ok ns =>
              '(_, err) ← patch KNamespace ns {| ns_meta := RemoveLabel (ns_meta ns) constants.NamespaceLabelKey |};
              mret err
          end
      end
  end.

(** ** NodeModulesConfig entries *)

Definition remove_mutate (modNamespace modName : string) (n : NodeModulesConfig) : result NodeModulesConfig :=
  let n := RemoveModuleConfig n modNamespace modName in
  Ok (nmc_set_meta n (RemoveLabel (nmc_meta n) (ModuleConfiguredLabel modNamespace modName))).

Definition removeModuleFromNMC (nmcObj : NodeModulesConfig) (modNamespace modName : string) : prog (option error) :=
  r ← (perform (CreateOrPatch KNMC nmcObj (remove_mutate modNamespace modName)) : prog (result NodeModulesConfig));
  mret (wrap_err "failed to disable module %s/%s in NMC %s: %v" (err_of r)).

Definition disableModuleOnNode (modNamespace modName nodeName : string) : prog (option error) :=
  removeModuleFromNMC (empty_nmc nodeName) modNamespace modName.

(** The configuration written to the NodeModulesConfig. *)
Definition module_config (mld : ModuleLoaderData) : ModuleConfig :=
  {| mc_KernelVersion := mld_KernelVersion mld;
     mc_ContainerImage := mld_ContainerImage mld;
     mc_ImagePullPolicy := mld_ImagePullPolicy mld;
     mc_InsecurePull := match mld_RegistryTLS mld with
                        | Some tls => tls_Insecure tls || tls_InsecureSkipTLSVerify tls
                        | None => false
                        end;
     mc_InTreeModulesToRemove := mld_InTreeModulesToRemove mld;
     mc_InTreeModuleToRemove := "";
     mc_Modprobe := mld_Modprobe mld |}.

Definition enable_mutate (mld : ModuleLoaderData) (node : Node) (n : NodeModulesConfig) : result NodeModulesConfig :=
  let n := SetModuleConfig n mld (module_config mld) in
  let m := SetLabel (nmc_meta n) (ModuleConfiguredLabel (mld_Namespace mld) (mld_Name mld)) "" in
  let m := SetLabel m (ModuleInUseLabel (mld_Namespace mld) (mld_Name mld)) "" in
  m ← SetOwnerReference "Node" (node_meta node) m;
  Ok (nmc_set_meta n m).

Definition enableModuleOnNode (mld : ModuleLoaderData) (node : Node) : prog (option error) :=
  r ← mic_Get (mld_Name mld) (mld_Namespace mld);
  match r with
  | Err e => mret (Some (Errorf_v "failed to get moduleImagesConfig %s: %v" e))
  | Ok micObj =>
      if bool_decide (GetImageState micObj (mld_ContainerImage mld) ≠ ImageExists) then mret None
      else
        r ← (perform (CreateOrPatch KNMC (empty_nmc (node_Name node)) (enable_mutate mld node)) : prog (result NodeModulesConfig));
        mret (wrap_err "failed to enable module %s/%s in NMC %s: %v" (err_of r))
  end.

Definition getNMCsForModule (mod_ : Module_) : prog (result (list NodeModulesConfig)) :=
  r ← list_all KNMC [MatchingLabels {[ ModuleConfiguredLabel (mod_Namespace mod_) (mod_Name mod_) := "" ]}];
  mret (wrap_v "could not list NMCs: %v" r).

Definition getNMCsByModuleSet (mod_ : Module_) : prog (result (gset string)) :=
  r ← getNMCsForModule mod_;
  mret (match r with
        | Err e => Err (Errorf_v "failed to get list of %s/%s module's NMC for map: %v" e)
        | Ok nmcList => Ok (foldl (λ X n, {[nmc_Name n]} ∪ X) ∅ nmcList)
        end).

(** ** Finalizer *)

Definition mod_add_finalizer (m : Module_) : Module_ :=
  mod_set_meta m (meta_set_finalizers (mod_meta m) (AddFinalizer (om_Finalizers (mod_meta m)) constants.ModuleFinalizer)).
Definition mod_remove_finalizer (m : Module_) : Module_ :=
  mod_set_meta m (meta_set_finalizers (mod_meta m) (RemoveFinalizer (om_Finalizers (mod_meta m)) constants.ModuleFinalizer)).

Definition setFinalizerAndStatus (mod_ : Module_) : prog (Module_ * option error) :=
  if ContainsFinalizer (om_Finalizers (mod_meta mod_)) constants.ModuleFinalizer then mret (mod_, None)
  else
    '(m, err) ← patch_lock KModule mod_ (mod_add_finalizer mod_);
    match err with
    | Some e => mret (m, Some (Errorf_v "failed to set finalizer for module %s/%s: %v" e))
    | None =>
        r ← (perform (StatusUpdate KModule m) : prog (result Module_));
        mret (match r with Ok m' => (m', None) | Err e => (m, Some e) end)
    end.

Definition finalizeModule (mod_ : Module_) : prog (option error) :=
  r ← list_all KNMC [MatchingLabels {[ ModuleConfiguredLabel (mod_Namespace mod_) (mod_Name mod_) := "" ]}];
  match r with
  | Err e => mret (Some (Errorf_v "failed to list NMCs with %s configured in the cluster: %v" e))
  | Ok nmcs =>
      errs ← for_range nmcs (λ n errs, err ← removeModuleFromNMC n (mod_Namespace mod_) (mod_Name mod_); mret (errs ++ [err])) [];
      match errors_Join errs with
      | Some e => mret (Some (Errorf_v "failed to remove %s module from some of NMCs: %v" e))
      | None =>
          r ← list_all KNMC [MatchingLabels {[ ModuleInUseLabel (mod_Namespace mod_) (mod_Name mod_) := "" ]}];
          match r with
          | Err e => mret (Some (Errorf_v "failed to list NMCs with %s loaded in the cluster: %v" e))
          | Ok (_ :: _) => mret None
          | Ok [] => '(_, err) ← patch_lock KModule mod_ (mod_remove_finalizer mod_); mret err
          end
      end
  end.

(** ** Scheduling data *)

(** One iteration over the targeted nodes: the map, the errors and the remaining NMCs. *)
Definition sched_step (mod_ : Module_) (st : gmap string schedulingData * list (option error) * gset string) (node : Node) : gmap string schedulingData * list (option error) * gset string :=
  let '(result, errs, currentNMCs) := st in
  match GetModuleLoaderDataForKernel mod_ (node_kernel node) with
  | Err e =>
      if negb (errors_Is e ErrNoMatchingKernelMapping) then
        (result, errs ++ [Some e], currentNMCs ∖ {[node_Name node]})
      else
        (<[node_Name node := prepareNodeSchedulingData node None currentNMCs]> result, errs,
         currentNMCs ∖ {[node_Name node]})
  | Ok mld =>
      (<[node_Name node := prepareNodeSchedulingData node (Some mld) currentNMCs]> result, errs,
       currentNMCs ∖ {[node_Name node]})
  end.

Definition prepareSchedulingData (mod_ : Module_) (targetedNodes : list Node) (currentNMCs : gset string) : gmap string schedulingData * list (option error) :=
  let '(result, errs, currentNMCs) := foldl (sched_step mod_) (∅, [], currentNMCs) targetedNodes in
  (foldl (λ m nmcName, <[nmcName := sd_delete]> m) result (range_set currentNMCs), errs).

(** ** ModuleImagesConfig *)

Definition mic_image (mld : ModuleLoaderData) : ModuleImageSpec :=
  {| mis_Image := mld_ContainerImage mld; mis_KernelVersion := mld_KernelVersion mld;
     mis_Build := mld_Build mld; mis_Sign := mld_Sign mld; mis_SkipWaitMissingImage := false;
     mis_RegistryTLS := mld_RegistryTLS mld; mis_DirName := mp_DirName (mld_Modprobe mld) |}.

Definition mic_step (mod_ : Module_) (st : list ModuleImageSpec * list (option error)) (node : Node) : list ModuleImageSpec * list (option error) :=
  let '(images, errs) := st in
  match GetModuleLoaderDataForKernel mod_ (node_kernel node) with
  | Err e =>
      if negb (errors_Is e ErrNoMatchingKernelMapping) then
        (images, errs ++ [Some (Errorf_v "failed to get moduleLoaderData for kernel %s: %v" e)])
      else (images, errs)
  | Ok mld => (images ++ [mic_image mld], errs)
  end.

Definition handleMIC (mod_ : Module_) (targetedNodes : list Node) : prog (option error) :=
  let '(images, errs) := foldl (mic_step mod_) ([], []) targetedNodes in
  match ms_ModuleLoader (mod_spec mod_) with
  | None => mret (Some (ErrPanic "nil ModuleLoader"))
  | Some ml =>
      err ← mic_CreateOrPatch (mod_Name mod_) (mod_Namespace mod_) images (ms_ImageRepoSecret (mod_spec mod_))
              (mlc_ImagePullPolicy (ml_Container ml)) true (ms_ImageRebuildTriggerGeneration (mod_spec mod_))
              (ms_Tolerations (mod_spec mod_)) "Module" (mod_meta mod_);
      mret (errors_Join (match err with
                         | Some e => errs ++ [Some (Errorf_v "failed to apply %s/%s MIC: %v" e)]
                         | None => errs
                         end))
  end.

(** ** Status *)

Definition nmc_available (ns name : string) (n : NodeModulesConfig) : bool :=
  match GetModuleSpecEntry n ns name with
  | None => false
  | Some (modSpec, _) =>
      match GetModuleStatusEntry n ns name with
      | Some modStatus => bool_decide (nms_Config modSpec = nmst_Config modStatus)
      | None => false
      end
  end.

Definition loader_status (mod_ : Module_) (nmcs : list NodeModulesConfig) (targetedNodes : list Node) : DaemonSetStatus :=
  let numAvailable := length (filter (λ n, nmc_available (mod_Namespace mod_) (mod_Name mod_) n = true) nmcs) in
  {| dss_NodesMatchingSelectorNumber := int32 (Z.of_nat (length targetedNodes));
     dss_DesiredNumber := int32 (Z.of_nat (length nmcs));
     dss_AvailableNumber := int32 (Z.of_nat numAvailable) |}.

Definition updateModuleLoaderStatus (mod_ : Module_) (targetedNodes : list Node) : prog (Module_ * option error) :=
  r ← getNMCsForModule mod_;
  mret (match r with
        | Err e => (mod_, Some (Errorf_v "failed to get configured NMCs for module %s/%s: %v" e))
        | Ok nmcs => (mod_set_loader_status mod_ (loader_status mod_ nmcs targetedNodes), None)
        end).

Definition updateImageRebuildTriggerGenerationStatus (mod_ : Module_) : prog (Module_ * option error) :=
  r ← mic_Get (mod_Name mod_) (mod_Namespace mod_);
  mret (match r with
        | Err e => if IsNotFound e then (mod_, None)
                   else (mod_, Some (Errorf_v "failed to get MIC %s/%s: %v" e))
        | Ok micObj => (mod_set_trigger_status mod_ (micst_ImageRebuildTriggerGeneration (mic_status micObj)), None)
        end).

Definition updateModuleStatus (mod_ : Module_) (targetedNodes : list Node) : prog (option error) :=
  '(m, err1) ← updateModuleLoaderStatus mod_ targetedNodes;
  '(m, err2) ← updateImageRebuildTriggerGenerationStatus m;
  '(_, err3) ← status_patch KModule mod_ m;
  mret (errors_Join
          [wrap_err "failed to update module loader status for module %s/%s: %v" err1;
           wrap_err "failed to update ImageRebuildTriggerGeneration status for module %s/%s: %v" err2;
           wrap_err "failed to patch module status for module %s/%s: %v" err3]).

Definition clearModuleLoaderStatus (mod_ : Module_) : prog (option error) :=
  if bool_decide (mst_ModuleLoader (mod_status mod_) = empty_ds_status) then mret None
  else
    '(_, err) ← status_patch KModule mod_ (mod_set_loader_status mod_ empty_ds_status);
    mret err.

(** ** The reconciliation *)

(** One iteration over the scheduling data; [err] keeps its value when there is no action. *)
Definition sched_node (mod_ : Module_) (entry : string * schedulingData) (st : option error * list (option error)) : prog (option error * list (option error)) :=
  let '(nodeName, sd) := entry in
  let '(err, errs) := st in
  err ← match sd_action sd with
        | actionAdd =>
            match sd_mld sd, sd_node sd with
            | Some mld, Some node => enableModuleOnNode mld node
            | _, _ => mret (Some (ErrPanic "nil scheduling data"))
            end
        | actionDelete => disableModuleOnNode (mod_Namespace mod_) (mod_Name mod_) nodeName
        | actionNone => mret err
        end;
  mret (err, errs ++ [err]).

Definition reconcile_nodes (mod_ : Module_) (targetedNodes : list Node) (currentNMCs : gset string) : prog (option error) :=
  let '(sdMap, prepareErrs) := prepareSchedulingData mod_ targetedNodes currentNMCs in
  '(_, errs) ← for_range (range_map sdMap) (sched_node mod_) (None, prepareErrs);
  err ← updateModuleStatus mod_ targetedNodes;
  mret (wrap_err "failed to reconcile module %s/%s config: %v" (errors_Join (errs ++ [err]))).

Definition Module_Reconcile (mod_ : Module_) : prog (option error) :=
  match om_DeletionTimestamp (mod_meta mod_) with
  | Some _ =>
      err ← tryRemovingLabel (mod_Namespace mod_) (mod_Name mod_);
      match err with
      | Some e => mret (Some (Errorf_v "error while trying to remove the label on namespace %s: %v" e))
      | None =>
          err ← finalizeModule mod_;
          mret (wrap_err "failed to finalize Module %s/%s: %v" err)
      end
  | None =>
      err ← setLabel (mod_Namespace mod_);
      match err with
      | Some e => mret (Some (Errorf_v "could not set label %q on namespace %s: %v" e))
      | None =>
          '(mod_, err) ← setFinalizerAndStatus mod_;
          match err with
          | Some e => mret (Some (Errorf_v "failed to set finalizer on Module %s/%s: %v" e))
          | None =>
              match ms_ModuleLoader (mod_spec mod_) with
              | None => clearModuleLoaderStatus mod_
              | Some _ =>
                  r ← GetSchedulableNodesBySelector (ms_Selector (mod_spec mod_)) (ms_Tolerations (mod_spec mod_));
                  match r with
                  | Err e => mret (Some (Errorf_v "failed to get list of nodes by selector: %v" e))
                  | Ok targetedNodes =>
                      err ← handleMIC mod_ targetedNodes;
                      match err with
                      | Some e => mret (Some (Errorf_v "failed to handle MIC: %v" e))
                      | None =>
                          r ← getNMCsByModuleSet mod_;
                          match r with
                          | Err e => mret (Some (Errorf_v "failed to get NMCs for Module %s/%s: %v" e))
                          | Ok currentNMCs => reconcile_nodes mod_ targetedNodes currentNMCs
                          end
                      end
                  end
              end
          end
      end
  end.
End module_reconciler.
