(* ===== verification/ModuleProps.v ===== *)
(** * Properties of the Module reconciler

    What each pass decides per node, what it writes to NodeModulesConfigs, and in which order
    the finalizer, the namespace label and the NodeModulesConfigs change. *)

From S2P Require Import Prelude Types Kube GoStrings Externals Demo Labels NmcHelper Node KernelMapper WorkerPod Mic ModuleReconciler.

Open Scope string_scope.
Open Scope nat_scope.
Open Scope list_scope.

Section module_props.
Context `{EXT : Externals} `{EXTL : !ExternalsLaws}.

(** ** Scheduling decisions *)

(** What the pass decides for one targeted node, given the nodes the module is configured on;
    [None] when the node is skipped because of an error. *)
Definition sched_decision (mod_ : Module_) (currentNMCs : gset string) (node : Node) : option schedulingData :=
  match GetModuleLoaderDataForKernel mod_ (node_kernel node) with
  | Ok mld => Some (prepareNodeSchedulingData node (Some mld) currentNMCs)
  | Err e => if errors_Is e ErrNoMatchingKernelMapping
             then Some (prepareNodeSchedulingData node None currentNMCs) else None
  end.

Definition sched_errors (mod_ : Module_) (nodes : list Node) : list (option error) :=
  omap (λ n, match GetModuleLoaderDataForKernel mod_ (node_kernel n) with
             | Err e => if errors_Is e ErrNoMatchingKernelMapping then None else Some (Some e)
             | Ok _ => None
             end) nodes.

Lemma sched_errors_None mod_ nodes : Forall (λ e, e = None) (sched_errors mod_ nodes) ↔ sched_errors mod_ nodes = [].
Proof.
  split; [|by intros ->]. intros H. destruct (sched_errors mod_ nodes) as [|e l] eqn:E; [done|].
  assert (e ∈ sched_errors mod_ nodes) as Hin by (rewrite E; left).
  apply list_elem_of_omap in Hin as (n & _ & Hn). inversion H as [|? ? He ?]. subst.
  destruct (GetModuleLoaderDataForKernel _ _) as [|e']; [done|]. by destruct (errors_Is e' _).
Qed.

Definition node_is (name : string) : Node → bool := key_is node_Name name.

Lemma prepareNodeSchedulingData_ext node mld X Y :
  (node_Name node ∈ X ↔ node_Name node ∈ Y) →
  prepareNodeSchedulingData node mld X = prepareNodeSchedulingData node mld Y.
Proof.
  intros H. destruct mld; [done|]. unfold prepareNodeSchedulingData.
  by rewrite (bool_decide_ext _ _ H).
Qed.

Lemma sched_decision_ext mod_ X Y node :
  (node_Name node ∈ X ↔ node_Name node ∈ Y) → sched_decision mod_ X node = sched_decision mod_ Y node.
Proof.
  intros H. unfold sched_decision. destruct (GetModuleLoaderDataForKernel _ _); [done|].
  by rewrite (prepareNodeSchedulingData_ext _ _ X Y).
Qed.

Lemma sched_step_eq mod_ result errs Y n :
  sched_step mod_ (result, errs, Y) n =
  (match sched_decision mod_ Y n with Some d => <[node_Name n := d]> result | None => result end,
   errs ++ sched_errors mod_ [n], Y ∖ {[node_Name n]}).
Proof.
  unfold sched_step, sched_decision, sched_errors. simpl.
  destruct (GetModuleLoaderDataForKernel mod_ (node_kernel n)) as [mld|e]; [by rewrite app_nil_r|].
  destruct (errors_Is e ErrNoMatchingKernelMapping); simpl; by rewrite ?app_nil_r.
Qed.

Lemma find_node_snoc nodes n name :
  node_Name n ∉ node_Name <$> nodes →
  find_first (node_is name) (nodes ++ [n]) =
  if decide (name = node_Name n) then Some n else find_first (node_is name) nodes.
Proof.
  intros Hnew. rewrite find_first_app. simpl. unfold node_is at 2, key_is. case_decide as E.
  - subst name. rewrite bool_decide_true by done.
    replace (find_first (node_is (node_Name n)) nodes) with (@None Node); [done|]. symmetry.
    apply find_first_None. intros m Hm. apply bool_decide_eq_false. intros E. apply Hnew.
    rewrite <-E. by apply list_elem_of_fmap_2.
  - rewrite bool_decide_false by done. by destruct (find_first _ nodes).
Qed.

(** The state of the loop after some nodes. *)
Lemma sched_loop_spec mod_ nodes X :
  NoDup (node_Name <$> nodes) →
  ∃ result,
    foldl (sched_step mod_) (∅, [], X) nodes =
      (result, sched_errors mod_ nodes, X ∖ list_to_set (node_Name <$> nodes)) ∧
    ∀ name, result !! name = find_first (node_is name) nodes ≫= sched_decision mod_ X.
Proof.
  induction nodes as [|n nodes IH] using rev_ind; intros Hnd.
  { exists ∅. split; [|intros; by rewrite lookup_empty]. simpl. f_equal. set_solver. }
  rewrite fmap_app, NoDup_app in Hnd. destruct Hnd as (Hnd & Hn & _).
  destruct (IH Hnd) as (result & Hloop & Hres).
  assert (node_Name n ∉ node_Name <$> nodes) as Hnew by (intros H; apply (Hn _ H); by left).
  rewrite foldl_app, Hloop. cbn [foldl]. rewrite sched_step_eq.
  rewrite (sched_decision_ext _ _ X) by (rewrite elem_of_difference, elem_of_list_to_set; tauto).
  eexists. split.
  - f_equal; [f_equal|].
    + unfold sched_errors. by rewrite omap_app.
    + rewrite fmap_app, list_to_set_app_L. simpl. set_solver.
  - intros name. rewrite find_node_snoc by done. case_decide as E.
    + subst name. destruct (sched_decision mod_ X n) eqn:Ed; simpl; rewrite ?Ed; [by rewrite lookup_insert_eq|].
      rewrite Hres. replace (find_first _ nodes) with (@None Node); [done|]. symmetry.
      apply find_first_None. intros m Hm. apply bool_decide_eq_false. intros E. apply Hnew.
      rewrite <-E. by apply list_elem_of_fmap_2.
    + rewrite <-Hres. destruct (sched_decision mod_ X n); [|done]. by rewrite lookup_insert_ne.
Qed.

Lemma insert_all_lookup (l : list string) (m : gmap string schedulingData) name :
  foldl (λ m k, <[k := sd_delete]> m) m l !! name = if decide (name ∈ l) then Some sd_delete else m !! name.
Proof.
  induction l as [|k l IH] using rev_ind; [done|]. rewrite foldl_app. simpl.
  destruct (decide (name = k)) as [->|Hne].
  - rewrite lookup_insert_eq. rewrite decide_True by set_solver. done.
  - rewrite lookup_insert_ne, IH by done. apply decide_ext. set_solver.
Qed.

Lemma prepareSchedulingData_lookup mod_ nodes X :
  NoDup (node_Name <$> nodes) →
  (∀ name, (prepareSchedulingData mod_ nodes X).1 !! name =
     match find_first (node_is name) nodes with
     | Some n => sched_decision mod_ X n
     | None => if decide (name ∈ X) then Some sd_delete else None
     end) ∧
  (prepareSchedulingData mod_ nodes X).2 = sched_errors mod_ nodes.
Proof.
  intros Hnd. unfold prepareSchedulingData. destruct (sched_loop_spec mod_ nodes X Hnd) as (result & -> & Hres).
  simpl. split; [|done]. intros name. rewrite insert_all_lookup, Hres.
  destruct (find_first (node_is name) nodes) as [n|] eqn:E; simpl.
  - apply find_first_Some in E as [Hin Hk]. apply bool_decide_eq_true in Hk. subst name.
    rewrite decide_False; [done|]. rewrite elem_of_range_set. pose proof (list_elem_of_fmap_2 node_Name _ _ Hin). set_solver.
  - rewrite find_first_None in E. apply decide_ext. rewrite elem_of_range_set, elem_of_difference, elem_of_list_to_set.
    split; [tauto|]. intros HX. split; [done|]. rewrite list_elem_of_fmap. intros (n & -> & Hn).
    specialize (E n Hn). unfold node_is, key_is in E. by rewrite bool_decide_true in E.
Qed.

Lemma find_node nodes n :
  NoDup (node_Name <$> nodes) → n ∈ nodes → find_first (node_is (node_Name n)) nodes = Some n.
Proof.
  induction nodes as [|a nodes IH]; intros Hnd Hn; [inversion Hn|]. simpl.
  rewrite fmap_cons, NoDup_cons in Hnd. destruct Hnd as [Ha Hnd].
  unfold node_is at 1, key_is. apply elem_of_cons in Hn as [->|Hn].
  - by rewrite bool_decide_true.
  - rewrite bool_decide_false; [auto|]. intros E. apply Ha. rewrite E. by apply list_elem_of_fmap_2.
Qed.

(** The label through which the user admits worker pods of a version on the node. *)
Definition admitted_version (mld : ModuleLoaderData) (n : Node) : option string :=
  node_Labels n !! GetWorkerPodVersionLabelName (mld_Namespace mld) (mld_Name mld).

Definition may_run (mld : ModuleLoaderData) (n : Node) : Prop :=
  mld_ModuleVersion mld = "" ∨ admitted_version mld n = Some (mld_ModuleVersion mld).

Definition no_mapping (mod_ : Module_) (n : Node) : Prop :=
  ∃ e, GetModuleLoaderDataForKernel mod_ (node_kernel n) = Err e ∧ errors_Is e ErrNoMatchingKernelMapping = true.

Lemma prepare_cases mld n X :
  (may_run mld n ∧ prepareNodeSchedulingData n (Some mld) X = sd_add mld n) ∨
  (mld_ModuleVersion mld ≠ "" ∧ admitted_version mld n = None ∧ prepareNodeSchedulingData n (Some mld) X = sd_delete) ∨
  (mld_ModuleVersion mld ≠ "" ∧ (∃ v, admitted_version mld n = Some v ∧ v ≠ mld_ModuleVersion mld) ∧
   prepareNodeSchedulingData n (Some mld) X = sd_nothing).
Proof.
  unfold prepareNodeSchedulingData, GetNodeWorkerPodVersionLabel, may_run, admitted_version.
  destruct (String.eqb_spec (mld_ModuleVersion mld) "") as [E|E].
  - left. split; [by left|]. by destruct (node_Labels n !! _).
  - destruct (node_Labels n !! _) as [v|]; simpl; [|by right; left].
    destruct (String.eqb_spec v (mld_ModuleVersion mld)) as [->|Hv]; simpl; [left|right; right]; eauto.
Qed.

Section decisions.
Context (mod_ : Module_) (nodes : list Node) (X : gset string) (Hnd : NoDup (node_Name <$> nodes)).
Local Notation m := (prepareSchedulingData mod_ nodes X).1.

Lemma decision_targeted n : n ∈ nodes → m !! node_Name n = sched_decision mod_ X n.
Proof using EXTL Hnd.
  intros Hn. destruct (prepareSchedulingData_lookup mod_ nodes X Hnd) as [Hm _]. by rewrite Hm, find_node.
Qed.

Lemma decision_not_targeted name :
  (∀ n, n ∈ nodes → node_Name n ≠ name) → m !! name = if decide (name ∈ X) then Some sd_delete else None.
Proof using EXTL Hnd.
  intros H. destruct (prepareSchedulingData_lookup mod_ nodes X Hnd) as [Hm _]. rewrite Hm.
  replace (find_first _ nodes) with (@None Node); [done|].
  symmetry. apply find_first_None. intros n Hn. apply bool_decide_eq_false. auto.
Qed.

Lemma targeted_cases name :
  (∃ n, n ∈ nodes ∧ node_Name n = name) ∨ (∀ n, n ∈ nodes → node_Name n ≠ name).
Proof using.
  destruct (decide (name ∈ node_Name <$> nodes)) as [H|H]; rewrite list_elem_of_fmap in H; naive_solver.
Qed.

Lemma targeted_unique n n' : n ∈ nodes → n' ∈ nodes → node_Name n = node_Name n' → n = n'.
Proof using Hnd.
  intros Hn Hn' E. pose proof (find_node nodes n Hnd Hn) as H1. pose proof (find_node nodes n' Hnd Hn') as H2.
  rewrite E in H1. congruence.
Qed.

Lemma decision_add name sd :
  m !! name = Some sd ∧ sd_action sd = actionAdd ↔
  ∃ n mld, n ∈ nodes ∧ node_Name n = name ∧ GetModuleLoaderDataForKernel mod_ (node_kernel n) = Ok mld ∧
           may_run mld n ∧ sd = sd_add mld n.
Proof using EXTL Hnd.
  split.
  - intros [Hm Ha]. destruct (targeted_cases name) as [(n & Hn & <-)|Hno].
    + rewrite decision_targeted in Hm by done. exists n. unfold sched_decision in Hm.
      destruct (GetModuleLoaderDataForKernel mod_ (node_kernel n)) as [mld|e].
      * simplify_eq. exists mld. split_and!; [done|done|done| |];
          destruct (prepare_cases mld n X) as [[? E]|[(? & ? & E)|(? & ? & E)]]; rewrite ?E in Ha; try done.
      * destruct (errors_Is _ _); simplify_eq. simpl in Ha. by destruct (bool_decide _).
    + rewrite decision_not_targeted in Hm by done. case_decide; by simplify_eq.
  - intros (n & mld & Hn & <- & Hmld & Hrun & ->). split; [|done].
    rewrite decision_targeted by done. unfold sched_decision. rewrite Hmld. f_equal.
    destruct (prepare_cases mld n X) as [[_ E]|[(Hv & Ha & _)|(Hv & (v & Ha & Hne) & _)]]; [done| |];
      unfold may_run in Hrun; rewrite Ha in Hrun; naive_solver.
Qed.

Lemma decision_delete name :
  m !! name = Some sd_delete ↔
  (name ∈ X ∧ ∀ n, n ∈ nodes → node_Name n = name → no_mapping mod_ n) ∨
  (∃ n mld, n ∈ nodes ∧ node_Name n = name ∧ GetModuleLoaderDataForKernel mod_ (node_kernel n) = Ok mld ∧
            mld_ModuleVersion mld ≠ "" ∧ admitted_version mld n = None).
Proof using EXTL Hnd.
  destruct (targeted_cases name) as [(n & Hn & <-)|Hno].
  - rewrite decision_targeted by done. unfold sched_decision, no_mapping.
    assert (∀ P : Node → Prop, (∀ n', n' ∈ nodes → node_Name n' = node_Name n → P n') ↔ P n) as Hall.
    { intros P. split; [auto|]. intros HP n' Hn' E. by rewrite (targeted_unique n' n). }
    rewrite (Hall (λ n, ∃ e, GetModuleLoaderDataForKernel mod_ (node_kernel n) = Err e ∧ errors_Is e ErrNoMatchingKernelMapping = true)).
    destruct (GetModuleLoaderDataForKernel mod_ (node_kernel n)) as [mld|e] eqn:Emld.
    + transitivity (mld_ModuleVersion mld ≠ "" ∧ admitted_version mld n = None).
      * destruct (prepare_cases mld n X) as [[[?|?] E]|[(? & ? & E)|(? & (v & ? & ?) & E)]]; rewrite E; naive_solver.
      * split.
        -- intros [? ?]. right. by exists n, mld.
        -- intros [[_ ?]|(n' & mld' & Hn' & E & Hm' & ? & ?)]; [naive_solver|].
           assert (n' = n) as -> by (by apply targeted_unique). rewrite Emld in Hm'. by simplify_eq.
    + split.
      * destruct (errors_Is e _) eqn:Ee; [|done]. simpl. case_bool_decide; [|done]. left. eauto.
      * intros [[HX (e' & ? & He')]|(n' & mld' & Hn' & E & Hm' & _)].
        -- simplify_eq. rewrite He'. simpl. by rewrite bool_decide_true.
        -- assert (n' = n) as -> by (by apply targeted_unique). congruence.
  - rewrite decision_not_targeted by done. split.
    + case_decide; [|done]. intros _. left. split; [done|]. intros n Hn E. by destruct (Hno n Hn).
    + intros [[HX _]|(n & mld & Hn & E & _)]; [by rewrite decide_True|]. by destruct (Hno n Hn).
Qed.
End decisions.

(** C9: the decisions of a pass.  A module is added to a node exactly when the node is
    targeted, a kernel mapping matches its kernel, and the module has no version or the node
    admits that version.  It is removed from a node exactly when it is configured there and
    the node is not targeted any more or has no mapping, or when the module has a version and
    the node admits none.  A node whose configuration could not be computed is left alone,
    and the error is reported. *)
Theorem scheduling_decisions mod_ nodes X :
  NoDup (node_Name <$> nodes) →
  let m := (prepareSchedulingData mod_ nodes X).1 in
  (∀ name sd, m !! name = Some sd ∧ sd_action sd = actionAdd ↔
     ∃ n mld, n ∈ nodes ∧ node_Name n = name ∧ GetModuleLoaderDataForKernel mod_ (node_kernel n) = Ok mld ∧
              may_run mld n ∧ sd = sd_add mld n) ∧
  (∀ name, m !! name = Some sd_delete ↔
     (name ∈ X ∧ ∀ n, n ∈ nodes → node_Name n = name → no_mapping mod_ n) ∨
     (∃ n mld, n ∈ nodes ∧ node_Name n = name ∧ GetModuleLoaderDataForKernel mod_ (node_kernel n) = Ok mld ∧
               mld_ModuleVersion mld ≠ "" ∧ admitted_version mld n = None)) ∧
  (∀ n e, n ∈ nodes → GetModuleLoaderDataForKernel mod_ (node_kernel n) = Err e → ¬ no_mapping mod_ n →
     m !! node_Name n = None ∧ Some e ∈ (prepareSchedulingData mod_ nodes X).2).
Proof.
  intros Hnd m. split_and!; [by apply decision_add|by apply decision_delete|].
  intros n e Hn He Hno. destruct (prepareSchedulingData_lookup mod_ nodes X Hnd) as [_ ->].
  assert (errors_Is e ErrNoMatchingKernelMapping = false) as Ee.
  { destruct (errors_Is _ _) eqn:Ee; [|done]. destruct Hno. by exists e. }
  split.
  - unfold m. rewrite decision_targeted by done. unfold sched_decision. by rewrite He, Ee.
  - unfold sched_errors. apply list_elem_of_omap. exists n. split; [done|]. by rewrite He, Ee.
Qed.

(** ** What is written to a NodeModulesConfig *)

(** The configured label of a module is there exactly when the module has an entry. *)
Definition labels_follow_spec (n : NodeModulesConfig) : Prop :=
  ∀ ns name, re_ns ns = true →
  is_Some (nmc_Labels n !! ModuleConfiguredLabel ns name) ↔ is_Some (spec_map n !! nsn ns name).

Lemma enable_mutate_Ok mld node n n' :
  enable_mutate mld node n = Ok n' →
  spec_map n' = <[nsn (mld_Namespace mld) (mld_Name mld) := desired_entry mld (module_config mld)]> (spec_map n) ∧
  nmc_status_Modules n' = nmc_status_Modules n ∧
  nmc_Labels n' = <[ModuleInUseLabel (mld_Namespace mld) (mld_Name mld) := ""]>
                    (<[ModuleConfiguredLabel (mld_Namespace mld) (mld_Name mld) := ""]> (nmc_Labels n)) ∧
  (nmc_wf n → nmc_wf n').
Proof.
  unfold enable_mutate. destruct (SetModuleConfig_keeps n mld (module_config mld)) as [Hmeta Hst].
  intros (m & Hm & [= <-])%result_bind_Ok. apply SetOwnerReference_spec in Hm. split_and!.
  - unfold spec_map. simpl. apply spec_map_set.
  - done.
  - unfold nmc_Labels. simpl. rewrite Hm. simpl. by rewrite Hmeta.
  - intros Hwf. apply SetModuleConfig_wf with (mld := mld) (cfg := module_config mld) in Hwf. done.
Qed.

Lemma remove_mutate_Ok ns name n n' :
  nmc_wf n → remove_mutate ns name n = Ok n' →
  spec_map n' = delete (nsn ns name) (spec_map n) ∧
  nmc_status_Modules n' = nmc_status_Modules n ∧
  nmc_Labels n' = delete (ModuleConfiguredLabel ns name) (nmc_Labels n) ∧ nmc_wf n'.
Proof.
  intros Hwf. unfold remove_mutate. destruct (RemoveModuleConfig_keeps n ns name) as [Hmeta Hst].
  intros [= <-]. split_and!.
  - unfold spec_map. simpl. by apply spec_map_remove.
  - done.
  - unfold nmc_Labels. simpl. by rewrite Hmeta.
  - by apply (RemoveModuleConfig_wf n ns name) in Hwf.
Qed.

(** C15: writing a module to a NodeModulesConfig and removing it are the insertion and the
    deletion of its entry: other modules' entries and every status stay, one entry per module
    is kept, the in-use label is set on insertion and survives the removal (it is the sign
    that the module may still be loaded), and the configured labels, through which the
    reconciler finds the nodes of a module, keep matching the entries. *)
Theorem nmc_module_updates n mld node ns name :
  nmc_wf n → labels_follow_spec n → re_ns ns = true → re_ns (mld_Namespace mld) = true →
  (∀ n', enable_mutate mld node n = Ok n' →
     nmc_wf n' ∧ labels_follow_spec n' ∧ nmc_status_Modules n' = nmc_status_Modules n ∧
     spec_map n' = <[nsn (mld_Namespace mld) (mld_Name mld) := desired_entry mld (module_config mld)]> (spec_map n) ∧
     nmc_Labels n' !! ModuleInUseLabel (mld_Namespace mld) (mld_Name mld) = Some "") ∧
  (∃ n', remove_mutate ns name n = Ok n' ∧
     nmc_wf n' ∧ labels_follow_spec n' ∧ nmc_status_Modules n' = nmc_status_Modules n ∧
     spec_map n' = delete (nsn ns name) (spec_map n) ∧
     ∀ ns' name', nmc_Labels n' !! ModuleInUseLabel ns' name' = nmc_Labels n !! ModuleInUseLabel ns' name').
Proof.
  intros Hwf Hl Hns Hns'. split.
  - intros n' (Hspec & Hst & Hlab & Hw)%enable_mutate_Ok.
    split_and!; [auto| |done|done|by rewrite Hlab, lookup_insert_eq].
    intros a b Ha. rewrite Hlab, Hspec, lookup_insert_ne by (intros E; by eapply configured_not_in_use).
    destruct (decide (nsn (mld_Namespace mld) (mld_Name mld) = nsn a b)) as [E|E].
    + injection E as -> ->. by rewrite !lookup_insert_eq.
    + rewrite (lookup_insert_ne (spec_map n)) by done. rewrite lookup_insert_ne; [by apply Hl|].
      intros [E1 E2]%ModuleConfiguredLabel_inj; [|done..]. apply E. by rewrite E1, E2.
  - eexists. split; [reflexivity|]. edestruct remove_mutate_Ok as (Hspec & Hst & Hlab & Hw); [exact Hwf|reflexivity|].
    split_and!; [done| |done|done|].
    + intros a b Ha. rewrite Hlab, Hspec. destruct (decide (nsn ns name = nsn a b)) as [E|E].
      * injection E as -> ->. by rewrite !lookup_delete_eq.
      * rewrite !lookup_delete_ne; [by apply Hl|done|]. intros [E1 E2]%ModuleConfiguredLabel_inj; [|done..].
        apply E. by rewrite E1, E2.
    + intros a b. rewrite Hlab, lookup_delete_ne; [done|]. apply configured_not_in_use.
Qed.

(** ** Finalizer *)

Definition configured_list (mod_ : Module_) : call :=
  ListAll KNMC [MatchingLabels {[ ModuleConfiguredLabel (mod_Namespace mod_) (mod_Name mod_) := "" ]}].
Definition in_use_list (mod_ : Module_) : call :=
  ListAll KNMC [MatchingLabels {[ ModuleInUseLabel (mod_Namespace mod_) (mod_Name mod_) := "" ]}].
Definition nmc_removal (mod_ : Module_) (n : NodeModulesConfig) : call :=
  CreateOrPatch KNMC n (remove_mutate (mod_Namespace mod_) (mod_Name mod_)).

Definition changes_module (c : call) : bool := match c with Patch KModule _ _ _ => true | _ => false end.

Lemma remove_all_calls mod_ nmcs :
  wp (for_range nmcs (λ n errs, err ← removeModuleFromNMC n (mod_Namespace mod_) (mod_Name mod_); mret (errs ++ [err])) [])
     (λ tr errs, obs_call <$> tr = nmc_removal mod_ <$> nmcs ∧
                 (errors_Join errs = None ↔ Forall (λ o, succeeded o = true) tr)).
Proof.
  apply (wp_mono _ (λ tr errs, (obs_call <$> tr) ++ (nmc_removal mod_ <$> []) = nmc_removal mod_ <$> nmcs ∧
                 (errors_Join errs = None ↔ Forall (λ o, succeeded o = true) tr))).
  { intros tr errs [H ?]. by rewrite app_nil_r in H. }
  apply (wp_for_range _ (λ l tr errs, (obs_call <$> tr) ++ (nmc_removal mod_ <$> l) = nmc_removal mod_ <$> nmcs ∧
                 (errors_Join errs = None ↔ Forall (λ o, succeeded o = true) tr))); [done|].
  intros n l tr errs [Hc He] x. cbn. rewrite fmap_app, <-app_assoc. split; [exact Hc|].
  rewrite errors_Join_app, He, Forall_app. destruct x; simpl.
  - split; intros [? _]; repeat constructor; done.
  - rewrite Forall_singleton. simpl. split; intros [_ H]; done.
Qed.

(** The finalizer of a deleted module is removed last and only when it is safe: every
    NodeModulesConfig listed as configured had the module removed without an error, and
    afterwards no NodeModulesConfig was listed as still using it. *)
Theorem finalizer_removed_last mod_ :
  wp (finalizeModule mod_) (λ tr _,
    Exists (λ o, changes_module (obs_call o) = true) tr →
    ∃ nmcs removals x,
      tr = Obs (configured_list mod_) (Ok nmcs) :: removals ++
           [Obs (in_use_list mod_) (Ok []); Obs (Patch KModule mod_ (mod_remove_finalizer mod_) true) x] ∧
      obs_call <$> removals = nmc_removal mod_ <$> nmcs ∧ Forall (λ o, succeeded o = true) removals).
Proof.
  unfold finalizeModule. intros r. cbn in r. destruct r as [nmcs|e]; cbn.
  - apply wp_bind. eapply wp_mono; [|apply remove_all_calls]. simpl. intros tr errs [Hc He].
    assert (∀ o tr', Exists (λ o, changes_module (obs_call o) = true) (o :: tr ++ tr') →
              changes_module (obs_call o) = false →
              Exists (λ o, changes_module (obs_call o) = true) tr') as Hskip.
    { intros o tr' Hex Ho. inversion Hex as [? ? H|? ? H]; subst; [congruence|].
      apply Exists_app in H as [H|H]; [|done]. exfalso. apply Exists_exists in H as (o' & Hin & Ho').
      pose proof (list_elem_of_fmap_2 obs_call _ _ Hin) as Hin'. rewrite Hc in Hin'.
      apply list_elem_of_fmap in Hin' as (n & E & _). by rewrite E in Ho'. }
    destruct (errors_Join errs); simpl.
    { intros Hex. apply Hskip in Hex; [|done]. inversion Hex. }
    intros r. cbn in r. destruct r as [[|n l]|e]; simpl.
    + intros x. destruct x; intros _; (eexists nmcs, tr, _; split; [reflexivity|]; split; [done|]; by apply He).
    + intros Hex. apply Hskip in Hex; [|done]. inversion Hex as [? ? H|? ? H]; [done|inversion H].
    + intros Hex. apply Hskip in Hex; [|done]. inversion Hex as [? ? H|? ? H]; [done|inversion H].
  - intros H. inversion H as [? ? H'|? ? H']; [done|inversion H'].
Qed.

(** ** The loop over the nodes *)

Definition mic_read (mld : ModuleLoaderData) : call := Get KMIC (nsn (mld_Namespace mld) (mld_Name mld)).

(** The calls one entry of the scheduling data leads to: nothing; the removal of the module
    from the node's NodeModulesConfig; or a look at the module's images and, only if the image
    for the node's kernel exists, the addition of the module. *)
Definition entry_run (mod_ : Module_) (entry : string * schedulingData) (tr : list obs) : Prop :=
  match sd_action entry.2 with
  | actionNone => tr = []
  | actionDelete => ∃ x, tr = [Obs (nmc_removal mod_ (empty_nmc entry.1)) x]
  | actionAdd => ∃ mld node, entry.2 = sd_add mld node ∧
      ((∃ e, tr = [Obs (mic_read mld) (Err e)]) ∨
       (∃ mic, tr = [Obs (mic_read mld) (Ok mic)] ∧ GetImageState mic (mld_ContainerImage mld) ≠ ImageExists) ∨
       (∃ mic x, GetImageState mic (mld_ContainerImage mld) = ImageExists ∧
          tr = [Obs (mic_read mld) (Ok mic);
                Obs (CreateOrPatch KNMC (empty_nmc (node_Name node)) (enable_mutate mld node)) x]))
  end.

Definition all_succeeded (tr : list obs) : Prop := Forall (λ o, succeeded o = true) tr.

Lemma errors_Join_snoc errs err : errors_Join (errs ++ [err]) = None ↔ errors_Join errs = None ∧ err = None.
Proof. rewrite errors_Join_app. destruct err; naive_solver. Qed.

(** One iteration: the run of the entry; the new error is the one of the run, or the previous
    one when the entry asks for nothing. *)
Lemma sched_node_wp mod_ name sd err errs :
  (sd_action sd = actionAdd → ∃ mld node, sd = sd_add mld node) →
  wp (sched_node mod_ (name, sd) (err, errs)) (λ tr st,
    entry_run mod_ (name, sd) tr ∧ st.2 = errs ++ [st.1] ∧
    (if decide (sd_action sd = actionNone) then st.1 = err else (st.1 = None ↔ all_succeeded tr))).
Proof.
  intros Hadd. unfold sched_node, entry_run, all_succeeded. simpl.
  destruct (sd_action sd) eqn:Ea; simpl.
  - done.
  - destruct (Hadd eq_refl) as (mld & node & ->). simpl. unfold enableModuleOnNode. simpl.
    intros a. destruct a as [mic|e]; simpl.
    + case_bool_decide as Hs; simpl.
      * split_and!; [|done|split; [by repeat constructor|done]].
        exists mld, node. split; [done|]. right; left. eauto.
      * intros x. split_and!; [|done|].
        -- exists mld, node. split; [done|]. right; right. by exists mic, x.
        -- destruct x; simpl; split; [by repeat constructor|done|done|]. intros H. inversion H as [|? ? ? H']. by inversion H'.
    + split_and!; [|done|split; [done|intros H; by inversion H]]. exists mld, node. split; [done|]. left. eauto.
  - intros x. split_and!; [by exists x|done|]. destruct x; simpl; split; [by repeat constructor|done|done|]. intros H. by inversion H.
Qed.

Lemma sched_loop_wp mod_ order errs0 :
  (∀ name sd, (name, sd) ∈ order → sd_action sd = actionAdd → ∃ mld node, sd = sd_add mld node) →
  wp (for_range order (sched_node mod_) (None, errs0)) (λ tr st,
    ∃ runs, tr = concat runs ∧ Forall2 (entry_run mod_) order runs ∧
            (errors_Join st.2 = None ↔ errors_Join errs0 = None ∧ all_succeeded tr)).
Proof.
  intros Hadd.
  set (I := λ (l : list (string * schedulingData)) tr (st : option error * list (option error)),
    ∃ done_ runs, order = done_ ++ l ∧ tr = concat runs ∧ Forall2 (entry_run mod_) done_ runs ∧
      (errors_Join st.2 = None ↔ errors_Join errs0 = None ∧ all_succeeded tr) ∧
      (errors_Join st.2 = None → st.1 = None)).
  apply (wp_mono _ (λ tr st, I [] tr st)).
  { intros tr st (d & runs & Hd & ? & ? & ? & _). rewrite app_nil_r in Hd. subst d. eauto. }
  apply wp_for_range.
  { exists [], []. unfold all_succeeded. split_and!; [done|done|constructor| |done]. naive_solver. }
  intros [name sd] l tr [err errs] (d & runs & Hd & -> & Hf & He & Hst).
  eapply wp_mono; [|apply sched_node_wp].
  - intros tr' [err' errs'] (Hrun & Hl & Herr). simpl in *. subst errs'.
    exists (d ++ [(name, sd)]), (runs ++ [tr']). rewrite concat_app. simpl. rewrite app_nil_r, <-app_assoc.
    split_and!; [done|done|by apply Forall2_app; [|constructor]| |by intros [_ ?]%errors_Join_snoc].
    rewrite errors_Join_snoc. unfold all_succeeded in *. rewrite Forall_app, He.
    destruct (decide _) as [Ea|Ea]; [|tauto].
    unfold entry_run in Hrun. simpl in Hrun. rewrite Ea in Hrun. subst tr' err'.
    split; [intros [[? ?] ?]; by repeat split|]. intros [? [? _]]. split; [done|]. apply Hst, He. done.
  - apply (Hadd name). rewrite Hd. set_solver.
Qed.

Definition reads_or_status (mod_ : Module_) (c : call) : Prop :=
  mutates c = false ∨ ∃ new, c = StatusPatch KModule mod_ new.

Lemma updateModuleStatus_calls mod_ nodes :
  only_calls (reads_or_status mod_) (updateModuleStatus mod_ nodes).
Proof.
  unfold updateModuleStatus, updateModuleLoaderStatus, updateImageRebuildTriggerGenerationStatus, getNMCsForModule, mic_Get.
  unfold reads_or_status. only_calls; try (by left); right; eauto.
Qed.

(** C12: what a pass does to the nodes: each entry of the scheduling data is carried out, in
    some order and whatever happened to the others, and a module is added to a node only if
    its image was just seen to exist.  The pass ends without an error only if every node's
    configuration could be computed and every call for the nodes succeeded. *)
Theorem reconcile_nodes_runs mod_ nodes X :
  NoDup (node_Name <$> nodes) →
  let '(m, prepareErrs) := prepareSchedulingData mod_ nodes X in
  wp (reconcile_nodes mod_ nodes X) (λ tr err,
    ∃ order runs status,
      order ≡ₚ map_to_list m ∧ Forall2 (entry_run mod_) order runs ∧
      tr = concat runs ++ status ∧ Forall (λ o, reads_or_status mod_ (obs_call o)) status ∧
      (err = None → prepareErrs = [] ∧ all_succeeded (concat runs))).
Proof.
  intros Hnd. destruct (prepareSchedulingData mod_ nodes X) as [m prepareErrs] eqn:E.
  unfold reconcile_nodes. rewrite E. apply wp_bind. eapply wp_mono; [|apply sched_loop_wp].
  - intros tr [err errs] (runs & -> & Hf & He). simpl in He. cbv beta iota. apply wp_bind.
    eapply wp_mono; [|apply updateModuleStatus_calls]. intros st err' Hst. simpl. rewrite app_nil_r.
    eexists (range_map m), runs, st. split_and!; [apply range_map_perm|done|done|done|].
    intros Hnone%fmap_None. apply errors_Join_snoc in Hnone as [Hnone _]. apply He in Hnone as [Hp ?].
    split; [|done]. pose proof (prepareSchedulingData_lookup mod_ nodes X Hnd) as [_ Herr].
    rewrite E in Herr. simpl in Herr. rewrite errors_Join_None in Hp. subst prepareErrs.
    by apply sched_errors_None.
  - intros name sd Hin Ha. apply elem_of_range_map in Hin.
    assert ((prepareSchedulingData mod_ nodes X).1 !! name = Some sd) as Hm by by rewrite E.
    destruct (proj1 (decision_add mod_ nodes X Hnd name sd) (conj Hm Ha)) as (n & mld & _ & _ & _ & _ & ->). eauto.
Qed.

(** ** Order of the changes *)

(** Calls that configure nodes or images. *)
Definition configures (c : call) : bool :=
  match c with CreateOrPatch KNMC _ _ | CreateOrPatch KMIC _ _ => true | _ => false end.

Lemma setLabel_calls name : only_calls (λ c, configures c = false) (setLabel name).
Proof. unfold setLabel, patch. only_calls; done. Qed.

Lemma setFinalizer_wp mod_ :
  wp (setFinalizerAndStatus mod_) (λ tr r,
    Forall (λ o, configures (obs_call o) = false) tr ∧
    (r.2 = None → constants.ModuleFinalizer ∈ om_Finalizers (mod_meta mod_) ∨
                  ∃ x, Obs (Patch KModule mod_ (mod_add_finalizer mod_) true) (Ok x) ∈ tr)).
Proof.
  unfold setFinalizerAndStatus. rewrite ContainsFinalizer_spec. case_bool_decide; [by split; [constructor|left]|].
  intros a. simpl in a. destruct a as [m|e]; simpl; [|by split; [repeat constructor|]].
  intros x. destruct x; simpl; (split; [by repeat constructor|]); [|done].
  intros _. right. exists m. by left.
Qed.

(** The changes a deleted module may still cause: its removal from NodeModulesConfigs. *)
Definition only_removes (mod_ : Module_) (c : call) : Prop :=
  match c with
  | CreateOrPatch KNMC _ f => f = remove_mutate (mod_Namespace mod_) (mod_Name mod_)
  | CreateOrPatch _ _ _ | Create _ _ | Delete _ _ => False
  | _ => True
  end.

Lemma deleted_module_calls mod_ t :
  om_DeletionTimestamp (mod_meta mod_) = Some t → only_calls (only_removes mod_) (Module_Reconcile mod_).
Proof.
  intros Hd. unfold Module_Reconcile. rewrite Hd.
  unfold tryRemovingLabel, finalizeModule, removeModuleFromNMC, patch, patch_lock, list_all, get. only_calls; done.
Qed.

(** The finalizer protects everything the module causes: a pass over a module that is not
    being deleted creates or changes a ModuleImagesConfig or NodeModulesConfig only after the
    module was seen with the finalizer or the finalizer was saved; a pass over a deleted module
    only removes it from NodeModulesConfigs. *)
Theorem finalizer_before_configuration mod_ :
  match om_DeletionTimestamp (mod_meta mod_) with
  | None =>
      wp (Module_Reconcile mod_) (λ tr _,
        Forall (λ o, configures (obs_call o) = false) tr ∨
        ∃ pre post, tr = pre ++ post ∧ Forall (λ o, configures (obs_call o) = false) pre ∧
          (constants.ModuleFinalizer ∈ om_Finalizers (mod_meta mod_) ∨
           ∃ x, Obs (Patch KModule mod_ (mod_add_finalizer mod_) true) (Ok x) ∈ pre))
  | Some _ => only_calls (only_removes mod_) (Module_Reconcile mod_)
  end.
Proof.
  destruct (om_DeletionTimestamp (mod_meta mod_)) as [t|] eqn:Hd; [by eapply deleted_module_calls|].
  unfold Module_Reconcile. rewrite Hd. apply wp_bind. eapply wp_mono; [|apply setLabel_calls].
  intros tr1 [e|] H1; [left; by rewrite app_nil_r|]. apply wp_bind.
  eapply wp_mono; [|apply setFinalizer_wp]. intros tr2 [m [e|]] [H2 Hfin]; cbv beta iota.
  - left. rewrite app_nil_r. by apply Forall_app.
  - apply wp_all. intros tr3 r. right. exists (tr1 ++ tr2), tr3.
    split_and!; [by rewrite app_assoc|by apply Forall_app|].
    destruct (Hfin eq_refl) as [?|[x ?]]; [by left|]. right. exists x. set_solver.
Qed.

(** ** Namespace label *)

(** The namespace of a module carries the operator's label as long as a module lives in it:
    a successful pass over a live module saw the label or set it, and a deleted module removes
    it exactly when the namespace lists no module that is not being deleted. *)
Theorem namespace_label_bracket ns moduleName :
  wp (setLabel ns) (λ tr err, err = None →
    ∃ n, (tr = [Obs (Get KNamespace (nsn "" ns)) (Ok n)] ∧ HasLabel (ns_meta n) constants.NamespaceLabelKey = true) ∨
         ∃ x, tr = [Obs (Get KNamespace (nsn "" ns)) (Ok n);
                    Obs (Patch KNamespace n {| ns_meta := SetLabel (ns_meta n) constants.NamespaceLabelKey "" |} false) (Ok x)]) ∧
  wp (tryRemovingLabel ns moduleName) (λ tr err, err = None →
    ∃ mods rest, tr = Obs (ListAll KModule [InNamespace ns]) (Ok mods) :: rest ∧
      if decide (Exists (λ m, om_DeletionTimestamp (mod_meta m) = None) mods) then rest = []
      else ∃ n x, rest = [Obs (Get KNamespace (nsn "" ns)) (Ok n);
                          Obs (Patch KNamespace n {| ns_meta := RemoveLabel (ns_meta n) constants.NamespaceLabelKey |} false) (Ok x)]).
Proof.
  split.
  - intros a. simpl in a. destruct a as [n|e]; simpl; [|done].
    destruct (HasLabel _ _) eqn:E; simpl; [intros _; exists n; by left|].
    intros x. destruct x; simpl; [|done]. intros _. exists n. right. eauto.
  - intros a. simpl in a. destruct a as [mods|e]; simpl; [|done].
    assert (live_modules mods = [] ↔ ¬ Exists (λ m, om_DeletionTimestamp (mod_meta m) = None) mods) as Hlive.
    { unfold live_modules. rewrite Exists_exists. split.
      - intros E (m & Hm & Hd). assert (m ∈ filter (λ m, om_DeletionTimestamp (mod_meta m) = None) mods) as H.
        { by apply list_elem_of_filter. } rewrite E in H. inversion H.
      - intros H. destruct (filter _ mods) as [|m l] eqn:E; [done|]. exfalso. apply H. exists m.
        apply and_comm, (list_elem_of_filter (λ m, om_DeletionTimestamp (mod_meta m) = None)).
        rewrite E. left. }
    destruct (live_modules mods) as [|m l] eqn:E.
    + intros b. simpl in b. destruct b as [n|e]; simpl; [|done]. intros x. destruct x; simpl; [|done].
      intros _. eexists mods, _. split; [reflexivity|]. rewrite decide_False by by apply Hlive. eauto.
    + simpl. intros _. eexists mods, _. split; [reflexivity|]. rewrite decide_True; [done|].
      destruct (decide (Exists (λ m, om_DeletionTimestamp (mod_meta m) = None) mods)); [done|].
      by apply Hlive in n.
Qed.

(** ** Images and status *)

Definition node_images (mod_ : Module_) (nodes : list Node) : list ModuleImageSpec :=
  omap (λ n, match GetModuleLoaderDataForKernel mod_ (node_kernel n) with
             | Ok mld => Some (mic_image mld) | Err _ => None end) nodes.

Lemma mic_loop_spec mod_ nodes :
  foldl (mic_step mod_) ([], []) nodes =
  (node_images mod_ nodes,
   map (wrap_err "failed to get moduleLoaderData for kernel %s: %v") (sched_errors mod_ nodes)).
Proof.
  induction nodes as [|n nodes IH] using rev_ind; [done|].
  rewrite foldl_app, IH. unfold sched_errors, node_images. rewrite !omap_app, map_app. simpl.
  destruct (GetModuleLoaderDataForKernel mod_ (node_kernel n)) as [mld|e]; simpl; [by rewrite app_nil_r|].
  destruct (errors_Is e ErrNoMatchingKernelMapping); simpl; by rewrite !app_nil_r.
Qed.

(** The images requested for a module: one write of its ModuleImagesConfig, whose images
    have distinct names and are exactly the images of the targeted nodes that have a kernel
    mapping; it is made even if the configuration of some node cannot be computed. *)
Theorem handleMIC_images mod_ ml nodes :
  ms_ModuleLoader (mod_spec mod_) = Some ml →
  wp (handleMIC mod_ nodes) (λ tr err, ∃ spec x,
    tr = [Obs (CreateOrPatch KMIC (empty_mic (mod_Namespace mod_) (mod_Name mod_)) (mic_mutate "Module" (mod_meta mod_) spec)) x] ∧
    NoDup (mis_Image <$> mics_Images spec) ∧
    (∀ image, image ∈ mis_Image <$> mics_Images spec ↔
       ∃ n mld, n ∈ nodes ∧ GetModuleLoaderDataForKernel mod_ (node_kernel n) = Ok mld ∧ mld_ContainerImage mld = image) ∧
    (∀ s, s ∈ mics_Images spec →
       ∃ n mld, n ∈ nodes ∧ GetModuleLoaderDataForKernel mod_ (node_kernel n) = Ok mld ∧ s = mic_image mld) ∧
    (err = None ↔ is_ok x = true ∧ sched_errors mod_ nodes = [])).
Proof.
  intros Hml. unfold handleMIC. rewrite mic_loop_spec, Hml. intros x. eexists _, x. split; [reflexivity|].
  set (images := node_images mod_ nodes). simpl.
  assert (∀ s, s ∈ images ↔ ∃ n mld, n ∈ nodes ∧ GetModuleLoaderDataForKernel mod_ (node_kernel n) = Ok mld ∧ s = mic_image mld) as Himg.
  { intros s. unfold images, node_images. rewrite list_elem_of_omap. split.
    - intros (n & Hn & Hs). exists n. destruct (GetModuleLoaderDataForKernel _ _) as [mld|]; naive_solver.
    - intros (n & mld & Hn & E & ->). exists n. by rewrite E. }
  split_and!.
  - apply filter_duplicates_NoDup.
  - intros image. rewrite list_elem_of_fmap. split.
    + intros (s & -> & [Hs _]%filter_duplicates_elem). apply Himg in Hs as (n & mld & ? & ? & ->). eauto.
    + intros (n & mld & Hn & E & <-).
      destruct (find_first (key_is mis_Image (mld_ContainerImage mld)) (filterDuplicateImages images)) as [s|] eqn:F.
      * apply find_first_Some in F as [Hs Hk]. apply bool_decide_eq_true in Hk. eauto.
      * unfold filterDuplicateImages in F. rewrite filter_duplicates_first, find_first_None in F by set_solver.
        assert (mic_image mld ∈ images) as Hin by (apply Himg; eauto).
        specialize (F _ Hin). unfold key_is in F. by rewrite bool_decide_true in F.
  - intros s [Hs _]%filter_duplicates_elem. by apply Himg.
  - rewrite <-(sched_errors_None mod_ nodes). destruct x; simpl.
    + rewrite !errors_Join_None, Forall_map. split; [intros H; split; [done|]|intros [_ H]];
        (eapply Forall_impl; [exact H|]; intros []; done).
    + rewrite errors_Join_snoc. naive_solver.
Qed.

(** The counters of the module's status: available nodes are configured nodes whose
    NodeModulesConfig reports the very configuration it asks for, so they never outnumber the
    desired ones; the counters are exact while the cluster has fewer than 2^31 nodes. *)
Theorem loader_status_counts mod_ nmcs nodes :
  let s := loader_status mod_ nmcs nodes in
  let available n := ∃ sp st, spec_map n !! nsn (mod_Namespace mod_) (mod_Name mod_) = Some sp ∧
       status_map (nmc_status_Modules n) !! nsn (mod_Namespace mod_) (mod_Name mod_) = Some st ∧
       nms_Config sp = nmst_Config st in
  (∀ n, nmc_available (mod_Namespace mod_) (mod_Name mod_) n = true ↔ available n) ∧
  ((Z.of_nat (length nmcs) < 2 ^ 31)%Z → (Z.of_nat (length nodes) < 2 ^ 31)%Z →
   dss_NodesMatchingSelectorNumber s = Z.of_nat (length nodes) ∧
   dss_DesiredNumber s = Z.of_nat (length nmcs) ∧
   (0 ≤ dss_AvailableNumber s ≤ dss_DesiredNumber s)%Z ∧
   (dss_AvailableNumber s = dss_DesiredNumber s ↔ ∀ n, n ∈ nmcs → available n)).
Proof.
  intros s available.
  assert (∀ n, nmc_available (mod_Namespace mod_) (mod_Name mod_) n = true ↔ available n) as Hav.
  { intros n. unfold nmc_available, available. rewrite <-GetModuleSpecEntry_lookup.
    fold (GetModuleStatusEntry n (mod_Namespace mod_) (mod_Name mod_)).
    rewrite <-FindModuleStatus_lookup. unfold GetModuleStatusEntry, FindModuleStatus.
    destruct (GetModuleSpecEntry n _ _) as [[sp i]|]; simpl; [|naive_solver].
    destruct (find_first _ _) as [st|]; simpl; [|naive_solver]. rewrite bool_decide_eq_true. naive_solver. }
  split; [done|]. intros H1 H2. unfold s, loader_status. simpl.
  pose proof (length_filter (λ n, nmc_available (mod_Namespace mod_) (mod_Name mod_) n = true) nmcs) as Hle.
  rewrite !int32_id by lia. split_and!; [done|done|lia|lia|].
  rewrite Nat2Z.inj_iff. setoid_rewrite <-Hav. split.
  - intros E n Hn. destruct (decide (nmc_available (mod_Namespace mod_) (mod_Name mod_) n = true)) as [|Hno]; [done|].
    exfalso. pose proof (length_filter_lt (λ n, nmc_available (mod_Namespace mod_) (mod_Name mod_) n = true) nmcs n Hn Hno). lia.
  - intros H. f_equal. apply filter_all. by rewrite Forall_forall.
Qed.

(** A ModuleImagesConfig that does not exist is reported as an error: the code means to skip
    it, but the wrapping of the error hides the reason. *)
Theorem missing_mic_is_an_error mod_ :
  wp (updateImageRebuildTriggerGenerationStatus mod_) (λ tr r, ∃ a,
    tr = [Obs (Get KMIC (nsn (mod_Namespace mod_) (mod_Name mod_))) a] ∧
    (is_ok a = false → is_Some r.2)).
Proof.
  intros a. exists a. split; [by destruct a|]. destruct a; [done|]. intros _. simpl. eauto.
Qed.
End module_props.

(** ** Witnesses *)

Lemma scheduling_decisions_witness :
  NoDup (node_Name <$> [demo_node "node-a" ∅]) ∧
  (prepareSchedulingData (EXT := demo_externals) demo_module [demo_node "node-a" ∅] {["node-z"]}).1 !! "node-z" = Some sd_delete.
Proof.
  assert (NoDup (node_Name <$> [demo_node "node-a" ∅])) as H by (vm_compute; repeat constructor; set_solver).
  split; [exact H|].
  apply (proj1 (proj2 (scheduling_decisions (EXT := demo_externals) demo_module [demo_node "node-a" ∅] {["node-z"]} H))).
  left. split; [set_solver|]. intros n Hn E. apply list_elem_of_singleton in Hn. subst n. vm_compute in E. discriminate E.
Defined.

Lemma nmc_module_updates_witness :
  nmc_wf (empty_nmc "node-a") ∧ labels_follow_spec (empty_nmc "node-a") ∧
  ∃ n', remove_mutate "ns" "mod" (empty_nmc "node-a") = Ok n' ∧ nmc_wf n'.
Proof.
  assert (nmc_wf (empty_nmc "node-a")) as H1 by (vm_compute; repeat constructor).
  assert (labels_follow_spec (empty_nmc "node-a")) as H2.
  { intros ns name _. unfold spec_map, nmc_Labels. simpl. split; intros [x Hx]; vm_compute in Hx; discriminate Hx. }
  split; [exact H1|]. split; [exact H2|].
  destruct (proj2 (nmc_module_updates (EXT := demo_externals) (empty_nmc "node-a") demo_mld (demo_node "node-a" ∅) "ns" "mod" H1 H2
              eq_refl eq_refl)) as (n' & E & Hw & _).
  exists n'. split; [exact E|exact Hw].
Defined.

Lemma reconcile_nodes_runs_witness :
  NoDup (node_Name <$> [demo_node "node-a" ∅]) ∧
  wp (reconcile_nodes (EXT := demo_externals) demo_module [demo_node "node-a" ∅] ∅) (λ tr err,
    err = None → ∃ runs status, tr = concat runs ++ status ∧ all_succeeded (concat runs)).
Proof.
  assert (NoDup (node_Name <$> [demo_node "node-a" ∅])) as H by (vm_compute; repeat constructor; set_solver).
  split; [exact H|].
  pose proof (reconcile_nodes_runs (EXT := demo_externals) demo_module [demo_node "node-a" ∅] ∅ H) as R.
  destruct (prepareSchedulingData (EXT := demo_externals) demo_module [demo_node "node-a" ∅] ∅) as [m errs].
  eapply wp_mono; [|exact R]. intros tr err (o & runs & st & _ & _ & Htr & _ & He) Hnone.
  exists runs, st. split; [exact Htr|]. apply He, Hnone.
Defined.

Lemma handleMIC_images_witness :
  wp (handleMIC (EXT := demo_externals) demo_module [demo_node "node-a" ∅]) (λ tr err, length tr = 1).
Proof.
  eapply wp_mono; [|exact (handleMIC_images (EXT := demo_externals) demo_module demo_ml [demo_node "node-a" ∅] eq_refl)].
  intros tr err (spec & x & -> & _). reflexivity.
Defined.

(** The demonstration module is not being deleted and carries no finalizer. *)
Lemma finalizer_before_configuration_witness :
  om_DeletionTimestamp (mod_meta demo_module) = None ∧
  wp (Module_Reconcile (EXT := demo_externals) demo_module) (λ tr _,
    Forall (λ o, configures (obs_call o) = false) tr ∨
    ∃ pre post, tr = pre ++ post ∧ Forall (λ o, configures (obs_call o) = false) pre ∧
      ∃ x, Obs (Patch KModule demo_module (mod_add_finalizer (EXT := demo_externals) demo_module) true) (Ok x) ∈ pre).
Proof.
  split; [reflexivity|].
  eapply wp_mono; [|exact (finalizer_before_configuration (EXT := demo_externals) demo_module)].
  intros tr err [H|(pre & post & Htr & Hpre & Hf)]; [left; exact H|right].
  exists pre, post. split; [exact Htr|]. split; [exact Hpre|].
  destruct Hf as [Hf|Hf]; [vm_compute in Hf; inversion Hf|exact Hf].
Defined.
