(* ===== verification/Deploy.v ===== *)
(** * From a Module to the kernel of a node

    The Module controller writes the NodeModulesConfig that the controller of [Converge] and
    [Removal] carries out.  Here a pass of the Module controller runs against the objects it
    shares with one node, and the two controllers are composed: a targeted node ends up with
    the module loaded, a node that is no longer targeted, or whose Module is deleted, ends up
    without it. *)

From S2P Require Import Prelude Types Kube GoStrings Externals Demo Labels NmcHelper Node KernelMapper WorkerPod NmcReconciler NmcLabels Mic ModuleReconciler ModuleProps Cluster Rollout Converge Removal.

Open Scope string_scope.
Open Scope nat_scope.
Open Scope list_scope.

(** ** What the Module controller shares with one node

    The objects of the node, and the ModuleImagesConfig of the module. *)
Record control := { ct_store : cluster; ct_mic : ModuleImagesConfig }.

Definition with_nmc (st : control) (n : NodeModulesConfig) : control :=
  {| ct_store := set_nmc (ct_store st) n; ct_mic := ct_mic st |}.
Definition with_mic (st : control) (m : ModuleImagesConfig) : control :=
  {| ct_store := ct_store st; ct_mic := m |}.

Definition selects (opts : list ListOption) (l : labels_t) : Prop :=
  Forall (λ o, match o with MatchingLabels m => m ⊆ l | _ => True end) opts.

#[export] Instance selects_dec opts l : Decision (selects opts l).
Proof. apply Forall_dec. intros []; apply _. Defined.

(** A list of nodes, and one of NodeModulesConfigs, as far as one object of it is concerned: it is
    there exactly if the options select it, and no other has its name. *)
Definition lists_one {A} (name : A → string) (labels : A → labels_t) (a : A) (opts : list ListOption) (l : list A) : Prop :=
  NoDup (name <$> l) ∧ (∀ b, b ∈ l → name b = name a → b = a) ∧ (a ∈ l ↔ selects opts (labels a)).

(** [CreateOrPatch] of controller-runtime on an existing object: the object as it is now is
    changed and written back, unless the change fails. *)
Definition mutated {A} (f : A → result A) (cur : A) (x : result A) (cur' : A) : Prop :=
  x = f cur ∧ cur' = match f cur with Ok a => a | Err _ => cur end.

(** What the API server answers to the Module controller.  Objects of other nodes and modules
    can be anything. *)
Definition manages (st : control) (c : call) : resp c → control → Prop :=
  match c as c return resp c → control → Prop with
  | Get k key =>
      match k as k return result (obj k) → control → Prop with
      | KMIC => λ x st', st' = st ∧ (key = obj_key KMIC (ct_mic st) → x = Ok (ct_mic st))
      | _ => λ _ st', st' = st
      end
  | ListAll k opts =>
      match k as k return result (list (obj k)) → control → Prop with
      | KNode => λ x st', st' = st ∧ ∃ l, x = Ok l ∧ lists_one node_Name node_Labels (cl_node (ct_store st)) opts l
      | KNMC => λ x st', st' = st ∧ ∃ l, x = Ok l ∧ lists_one nmc_Name nmc_Labels (cl_nmc (ct_store st)) opts l
      | _ => λ _ st', st' = st
      end
  | CreateOrPatch k o f =>
      match k as k return obj k → (obj k → result (obj k)) → result (obj k) → control → Prop with
      | KNMC => λ o f x st',
          if decide (obj_key KNMC o = obj_key KNMC (cl_nmc (ct_store st)))
          then ∃ n, mutated f (cl_nmc (ct_store st)) x n ∧ st' = with_nmc st n
          else st' = st
      | KMIC => λ o f x st',
          if decide (obj_key KMIC o = obj_key KMIC (ct_mic st))
          then ∃ m, mutated f (ct_mic st) x m ∧ st' = with_mic st m
          else st' = st
      | _ => λ _ _ _ st', st' = st
      end o f
  | Patch k base new _ =>
      match k as k return obj k → result (obj k) → control → Prop with
      | KModule => λ new x st', st' = st ∧ x = Ok new
      | _ => λ _ _ st', st' = st
      end new
  | StatusUpdate k o =>
      match k as k return obj k → result (obj k) → control → Prop with
      | KModule => λ o x st', st' = st ∧ x = Ok o
      | _ => λ _ _ st', st' = st
      end o
  | _ => λ _ st', st' = st
  end.

(** Calls without effect on what is shared. *)
Definition harmless (c : call) : Prop :=
  match c with CreateOrPatch KNMC _ _ | CreateOrPatch KMIC _ _ => False | _ => True end.

Lemma harmless_keeps st c x st' : harmless c → manages st c x st' → st' = st.
Proof.
  destruct c as [k ?|k ?|k o|k o|k base new ?|k base new|k o|k o f|on reason args|k o f| | | | |oc]; simpl; try done;
    destruct k; simpl; try done; by intros _ [? _].
Qed.

Notation passes p Q st := (swp manages (λ _, True) p Q st).

Lemma harmless_swp {R} (p : prog R) st : only_calls harmless p → passes p (λ _ st', st' = st) st.
Proof.
  intros Hp. apply (swp_weaken _ (λ st', st' = st)); [done|].
  eapply swp_mono; [|apply (swp_only_calls _ _ harmless); [|done|done]]; [by intros|].
  intros c x s s' Hc -> H. by apply harmless_keeps in H.
Qed.

Section deploy.
Context `{EXT : Externals} `{EXTL : !ExternalsLaws}.
Implicit Types (st : control) (n : NodeModulesConfig).

Definition module_nsn (mod_ : Module_) : NamespacedName := nsn (mod_Namespace mod_) (mod_Name mod_).

(** ** What a pass does to the NodeModulesConfig of the node *)

(** The decision for the node: [targeted] by selector and taints, [configured] by its label. *)
Definition targeted (mod_ : Module_) (node : Node) : Prop :=
  ms_Selector (mod_spec mod_) ⊆ node_Labels node ∧ IsNodeSchedulable node (ms_Tolerations (mod_spec mod_)) = true.

#[export] Instance targeted_dec mod_ node : Decision (targeted mod_ node).
Proof. unfold targeted. apply _. Defined.

Definition configured (mod_ : Module_) n : Prop :=
  {[ModuleConfiguredLabel (mod_Namespace mod_) (mod_Name mod_) := ""]} ⊆ nmc_Labels n.

#[export] Instance configured_dec mod_ n : Decision (configured mod_ n).
Proof. unfold configured. apply _. Defined.

(** What the pass decides for the node. *)
Definition node_decision (mod_ : Module_) (node : Node) n : option schedulingData :=
  let current := if decide (configured mod_ n) then {[nmc_Name n]} else ∅ in
  if decide (targeted mod_ node) then sched_decision mod_ current node
  else if decide (configured mod_ n) then Some sd_delete else None.

(** The outcome of a decision: the NodeModulesConfig [n] becomes [n']. *)
Definition carried_out (mod_ : Module_) (mic : ModuleImagesConfig) (d : option schedulingData) n n' : Prop :=
  match d with
  | None => n' = n
  | Some sd =>
      match sd_action sd with
      | actionNone => n' = n
      | actionDelete => remove_mutate (mod_Namespace mod_) (mod_Name mod_) n = Ok n'
      | actionAdd => ∀ mld node, sd = sd_add mld node →
          if decide (GetImageState mic (mld_ContainerImage mld) = ImageExists)
          then enable_mutate mld node n = Ok n' else n' = n
      end
  end.

Lemma nmc_key_own n name : obj_key KNMC n = nsn "" (nmc_Name n) → obj_key KNMC (empty_nmc name) = obj_key KNMC n ↔ name = nmc_Name n.
Proof. intros ->. split; [by intros [=]|by intros ->]. Qed.

Lemma enable_key mld node n n' : enable_mutate mld node n = Ok n' → obj_key KNMC n' = obj_key KNMC n.
Proof.
  unfold enable_mutate. destruct (SetModuleConfig_keeps n mld (module_config mld)) as [Hmeta _].
  intros (m & Hm%SetOwnerReference_spec & [= <-])%result_bind_Ok. unfold obj_key. simpl. rewrite Hm, <-Hmeta. done.
Qed.

Lemma remove_key ns name n n' : remove_mutate ns name n = Ok n' → obj_key KNMC n' = obj_key KNMC n.
Proof.
  unfold remove_mutate. destruct (RemoveModuleConfig_keeps n ns name) as [Hmeta _]. intros [= <-].
  unfold obj_key. simpl. by rewrite <-Hmeta.
Qed.

(** A change of the NodeModulesConfig of this node, or of another one. *)
Lemma mutate_own {R} st (o : NodeModulesConfig) f (k : result NodeModulesConfig → prog R) Q :
  obj_key KNMC o = obj_key KNMC (cl_nmc (ct_store st)) →
  passes (k (f (cl_nmc (ct_store st)))) Q (with_nmc st (match f (cl_nmc (ct_store st)) with Ok n => n | Err _ => cl_nmc (ct_store st) end)) →
  passes (Call (CreateOrPatch KNMC o f) k) Q st.
Proof. intros Ho H. apply swp_call; [done|]. intros x st' Hx. simpl in Hx. rewrite decide_True in Hx by done. destruct Hx as (n & [-> ->] & ->). done. Qed.

Lemma mutate_other {R} st (o : NodeModulesConfig) f (k : result NodeModulesConfig → prog R) Q :
  obj_key KNMC o ≠ obj_key KNMC (cl_nmc (ct_store st)) →
  (∀ x, passes (k x) Q st) → passes (Call (CreateOrPatch KNMC o f) k) Q st.
Proof. intros Ho H. apply swp_call; [done|]. intros x st' Hx. simpl in Hx. rewrite decide_False in Hx by done. subst st'. apply H. Qed.

Lemma with_nmc_same st : with_nmc st (cl_nmc (ct_store st)) = st.
Proof. by destruct st as [[] ?]. Qed.

Lemma updateModuleStatus_harmless mod_ nodes : only_calls harmless (updateModuleStatus mod_ nodes).
Proof.
  eapply only_calls_mono; [|apply updateModuleStatus_calls]. intros c [Hc|[new Hc]].
  - by destruct c as [| | | | | | |[] ? ?| |[] ? ?| | | | |].
  - by subst c.
Qed.

Section pass.
Context (mod_ : Module_) (st0 : control).
Notation n0 := (cl_nmc (ct_store st0)).
Context (Hkey : obj_key KNMC n0 = nsn "" (nmc_Name n0)) (Hmic : obj_key KMIC (ct_mic st0) = module_nsn mod_).

(** The entry of the node itself. *)
Lemma sched_node_own sd err errs :
  (sd_action sd = actionAdd → ∃ mld node, sd = sd_add mld node ∧ node_Name node = nmc_Name n0 ∧
     nsn (mld_Namespace mld) (mld_Name mld) = module_nsn mod_) →
  passes (sched_node mod_ (nmc_Name n0, sd) (err, errs)) (λ r st, ∃ n', st = with_nmc st0 n' ∧
    obj_key KNMC n' = obj_key KNMC n0 ∧
    (errors_Join r.2 = None → errors_Join errs = None ∧ carried_out mod_ (ct_mic st0) (Some sd) n0 n')) st0.
Proof.
  intros Hadd. unfold sched_node, carried_out. destruct (sd_action sd) eqn:Ea.
  - apply swp_ret; [done|]. exists n0. rewrite with_nmc_same. do 2 (split; [done|]). simpl. by intros [? _]%errors_Join_snoc.
  - destruct (Hadd eq_refl) as (mld & node & -> & Hn & Hid). cbn [sd_mld sd_node sd_add]. apply swp_bind.
    unfold enableModuleOnNode, mic_Get, get. apply swp_bind, swp_bind, swp_call; [done|]. intros x st' [-> Hx].
    rewrite Hmic in Hx. specialize (Hx Hid). subst x. apply swp_ret; [done|]. apply swp_ret; [done|]. cbn [wrap_v].
    destruct (decide (GetImageState (ct_mic st0) (mld_ContainerImage mld) = ImageExists)) as [Hi|Hi].
    + rewrite bool_decide_false by naive_solver. apply swp_bind, mutate_own; [by apply nmc_key_own|].
      do 3 (apply swp_ret; [done|]). eexists. split; [done|].
      split; [destruct (enable_mutate mld node n0) eqn:E; [by eapply enable_key|done]|]. simpl. intros [He1 He]%errors_Join_snoc. split; [done|]. intros ? ? [= <- <-]. rewrite decide_True by done.
      by destruct (enable_mutate mld node n0).
    + rewrite bool_decide_true by done. apply swp_ret; [done|]. apply swp_ret; [done|]. exists n0. rewrite with_nmc_same.
      do 2 (split; [done|]). simpl. intros [? _]%errors_Join_snoc. split; [done|]. intros ? ? [= <- <-]. by rewrite decide_False.
  - apply swp_bind, swp_bind. apply mutate_own; [by apply nmc_key_own|].
    do 3 (apply swp_ret; [done|]). eexists. split; [done|]. split; [by eapply remove_key|].
    simpl. by intros [? _]%errors_Join_snoc.
Qed.

(** The entry of another node. *)
Lemma sched_node_other name sd err errs st :
  obj_key KNMC (cl_nmc (ct_store st)) = nsn "" (nmc_Name n0) → ct_mic st = ct_mic st0 → name ≠ nmc_Name n0 →
  (sd_action sd = actionAdd → ∃ mld node, sd = sd_add mld node ∧ node_Name node = name) →
  passes (sched_node mod_ (name, sd) (err, errs)) (λ r st', st' = st ∧ (errors_Join r.2 = None → errors_Join errs = None)) st.
Proof.
  intros Hk Hm Hne Hadd. unfold sched_node.
  assert (∀ m, m ≠ nmc_Name n0 → obj_key KNMC (empty_nmc m) ≠ obj_key KNMC (cl_nmc (ct_store st))) as Hother
    by (intros m Hm'; rewrite Hk; by intros [=]).
  assert (∀ e, errors_Join (errs ++ [e]) = None → errors_Join errs = None) as Hj by (by intros e [? _]%errors_Join_snoc).
  destruct (sd_action sd) eqn:Ea.
  - apply swp_ret; [done|]. split; [done|apply Hj].
  - destruct (Hadd eq_refl) as (mld & node & -> & Hn). cbn [sd_mld sd_node sd_add]. apply swp_bind.
    unfold enableModuleOnNode, mic_Get, get. apply swp_bind, swp_bind, swp_call; [done|]. intros x st' [-> _].
    apply swp_ret; [done|]. apply swp_ret; [done|]. destruct x as [mic|e]; cbn [wrap_v]; [|by apply swp_ret; [done|]; apply swp_ret; [done|]; split; [|apply Hj]].
    destruct (bool_decide _); [by apply swp_ret; [done|]; apply swp_ret; [done|]; split; [|apply Hj]|].
    apply swp_bind, mutate_other; [apply Hother; congruence|]. intros x. do 3 (apply swp_ret; [done|]). by split; [|apply Hj].
  - apply swp_bind, swp_bind. apply mutate_other; [by apply Hother|]. intros x. do 3 (apply swp_ret; [done|]). by split; [|apply Hj].
Qed.

Definition own_decision (m : gmap string schedulingData) : option schedulingData := m !! nmc_Name n0.

Definition loop_state (m : gmap string schedulingData) (errs0 : list (option error)) (l : list (string * schedulingData)) (r : option error * list (option error)) st : Prop :=
  NoDup (l.*1) ∧ (∀ e, e ∈ l → m !! e.1 = Some e.2) ∧
  ∃ n', st = with_nmc st0 n' ∧ obj_key KNMC n' = obj_key KNMC n0 ∧ (errors_Join r.2 = None → errors_Join errs0 = None) ∧
  ((nmc_Name n0 ∈ l.*1 ∧ n' = n0) ∨
   (nmc_Name n0 ∉ l.*1 ∧ (errors_Join r.2 = None → carried_out mod_ (ct_mic st0) (own_decision m) n0 n'))).

Lemma sched_loop_own m errs0 :
  (∀ name sd, m !! name = Some sd → sd_action sd = actionAdd → ∃ mld node, sd = sd_add mld node ∧ node_Name node = name ∧
     nsn (mld_Namespace mld) (mld_Name mld) = module_nsn mod_) →
  passes (for_range (range_map m) (sched_node mod_) (None, errs0)) (λ r st, ∃ n', st = with_nmc st0 n' ∧
    obj_key KNMC n' = obj_key KNMC n0 ∧
    (errors_Join r.2 = None → errors_Join errs0 = None ∧ carried_out mod_ (ct_mic st0) (own_decision m) n0 n')) st0.
Proof.
  intros Hadd. eapply swp_mono; [|apply (swp_for_range _ _ _ (loop_state m errs0)); [done| |]].
  - intros r st _ (_ & _ & n' & -> & Hk & He & [[H _]|[_ H]]); [by apply elem_of_nil in H|]. exists n'. auto.
  - split; [apply NoDup_range_map|]. split; [by intros [] ?%elem_of_range_map|]. exists n0. rewrite with_nmc_same.
    split_and!; [done..|]. destruct (m !! nmc_Name n0) as [sd|] eqn:E.
    + left. split; [|done]. apply (list_elem_of_fmap_2 fst _ (nmc_Name n0, sd)). by apply elem_of_range_map.
    + right. split; [|by unfold own_decision; rewrite E]. intros ([name sd] & Hn & Hin%elem_of_range_map)%list_elem_of_fmap.
      simpl in Hn. subst name. congruence.
  - intros [name sd] l [err errs] st _ (Hnd & Hm & n' & -> & Hk & He & Hor).
    rewrite fmap_cons in Hnd. apply NoDup_cons in Hnd as [Hnew Hnd]. pose proof (Hm _ (list_elem_of_here _ _)) as Hsd. simpl in Hsd, Hnew.
    assert (∀ e, e ∈ l → m !! e.1 = Some e.2) as Hm' by (intros e ?; apply Hm; by right).
    rewrite fmap_cons in Hor. simpl in Hor. destruct (decide (name = nmc_Name n0)) as [->|Hne].
    + destruct Hor as [[_ ->]|[Hno _]]; [|set_solver]. rewrite with_nmc_same.
      eapply swp_mono; [|apply sched_node_own; by apply Hadd]. intros r st _ (n' & -> & Hk' & Hc).
      do 2 (split; [done|]). exists n'. split_and!; [done|done|by intros [? _]%Hc; apply He|].
      right. split; [done|]. intros [_ H]%Hc. unfold own_decision. by rewrite Hsd.
    + eapply swp_mono; [|apply sched_node_other; try done; [simpl; by rewrite Hk|]].
      2:{ intros Ha. destruct (Hadd _ _ Hsd Ha) as (mld & node & ? & ? & _). eauto. }
      intros r st _ [-> Hj]. do 2 (split; [done|]). exists n'. split_and!; [done|done|by intros ?%Hj; apply He|].
      destruct Hor as [[Hin ->]|[Hno Hc]]; [left|right]; (split; [set_solver|]); auto.
Qed.

Lemma reconcile_nodes_own nodes X :
  NoDup (node_Name <$> nodes) →
  passes (reconcile_nodes mod_ nodes X) (λ r st, ∃ n', st = with_nmc st0 n' ∧
    (r = None → carried_out mod_ (ct_mic st0) (own_decision (prepareSchedulingData mod_ nodes X).1) n0 n')) st0.
Proof.
  intros Hnd. unfold reconcile_nodes. destruct (prepareSchedulingData mod_ nodes X) as [m errs] eqn:E. apply swp_bind.
  eapply swp_mono; [|apply (sched_loop_own m errs)].
  - intros [err errs'] st _ (n' & -> & _ & Hc). apply swp_bind.
    eapply swp_mono; [|apply harmless_swp, (updateModuleStatus_harmless mod_ nodes)].
    intros e st _ ->. apply swp_ret; [done|]. exists n'. split; [done|]. intros [Hj _]%fmap_None%errors_Join_snoc.
    by apply Hc.
  - intros name sd Hm Ha. assert ((prepareSchedulingData mod_ nodes X).1 !! name = Some sd) as Hm' by by rewrite E.
    destruct (proj1 (decision_add mod_ nodes X Hnd name sd) (conj Hm' Ha)) as (node & mld & _ & Hn & Hg & _ & ->).
    apply GetModuleLoaderDataForKernel_identity in Hg as (H1 & H2 & _). exists mld, node. unfold module_nsn. by rewrite H1, H2.
Qed.
(** ** The pass for a Module that is being deleted *)

Definition own_removed st : Prop :=
  (¬ configured mod_ n0 ∧ st = st0) ∨
  ∃ n', st = with_nmc st0 n' ∧ remove_mutate (mod_Namespace mod_) (mod_Name mod_) n0 = Ok n'.

Lemma own_removed_key st : own_removed st → obj_key KNMC (cl_nmc (ct_store st)) = obj_key KNMC n0.
Proof. intros [[_ ->]|(n' & -> & H)]; [done|]. by eapply remove_key. Qed.

Definition drop_state (l : list NodeModulesConfig) (errs : list (option error)) st : Prop :=
  NoDup (nmc_Name <$> l) ∧ (∀ n, n ∈ l → nmc_Name n = nmc_Name n0 → n = n0) ∧
  ((n0 ∈ l ∧ st = st0) ∨ (n0 ∉ l ∧ own_removed st)).

Lemma drop_loop nmcs st :
  drop_state nmcs [] st →
  passes (for_range nmcs (λ n errs, err ← removeModuleFromNMC n (mod_Namespace mod_) (mod_Name mod_); mret (errs ++ [err])) [])
    (drop_state []) st.
Proof.
  intros H0. apply (swp_for_range _ _ _ drop_state); [done|done|]. clear. intros n l errs st _ (Hnd & Hl & Hor).
  rewrite fmap_cons in Hnd. apply NoDup_cons in Hnd as [Hnew Hnd].
  assert (∀ a, a ∈ l → nmc_Name a = nmc_Name n0 → a = n0) as Hl' by (intros a ?; apply Hl; by right).
  apply swp_bind, swp_bind. destruct (decide (nmc_Name n = nmc_Name n0)) as [Hn|Hn].
  - pose proof (Hl n (list_elem_of_here _ _) Hn) as Heq. subst n. destruct Hor as [[_ ->]|[Hno _]]; [|by destruct Hno; left].
    apply mutate_own; [done|]. do 3 (apply swp_ret; [done|]). do 2 (split; [done|]). right. split.
    + intros Hin. apply Hnew. by apply list_elem_of_fmap_2.
    + right. eexists. split; reflexivity.
  - assert (obj_key KNMC (cl_nmc (ct_store st)) = obj_key KNMC n0) as Hk
      by (destruct Hor as [[_ ->]|[_ ?%own_removed_key]]; done).
    apply mutate_other; [rewrite Hk; intros E; apply Hn; exact (f_equal nsn_Name E)|].
    intros x. do 3 (apply swp_ret; [done|]). do 2 (split; [done|]). destruct Hor as [[Hin ->]|[Hno H]]; [left|right].
    + split; [|done]. apply elem_of_cons in Hin as [Heq|]; [|done]. by subst n.
    + split; [|done]. intros ?. apply Hno. by right.
Qed.

Lemma tryRemovingLabel_harmless name moduleName : only_calls harmless (tryRemovingLabel name moduleName).
Proof. unfold tryRemovingLabel, patch, list_all, get. only_calls; done. Qed.

(** After the pass the node's configuration does not list the module. *)
Lemma deleted_pass t :
  om_DeletionTimestamp (mod_meta mod_) = Some t →
  passes (Module_Reconcile mod_) (λ r st, r = None → own_removed st) st0.
Proof.
  intros Hd. unfold Module_Reconcile. rewrite Hd. apply swp_bind.
  eapply swp_mono; [|apply harmless_swp, tryRemovingLabel_harmless]. intros [e|] st _ ->; [by apply swp_ret|].
  apply swp_bind. unfold finalizeModule, list_all. apply swp_bind, swp_call; [done|].
  intros x st (-> & nmcs & -> & Hnd & Hl & Hsel). apply swp_ret; [done|].
  unfold selects in Hsel. rewrite Forall_singleton in Hsel. fold (configured mod_ n0) in Hsel.
  apply swp_bind. eapply swp_mono; [|apply (drop_loop nmcs st0); do 2 (split; [done|])].
  - intros errs st _ (_ & _ & [[H _]|[_ H]]); [by apply elem_of_nil in H|].
    eapply swp_mono; [|apply harmless_swp; unfold patch_lock, list_all; only_calls; done].
    intros r st' _ ->. by apply swp_ret.
  - destruct (decide (configured mod_ n0)); [left; split; [tauto|done]|right; split; [tauto|by left]].
Qed.
End pass.

(** ** The pass for a Module that is not being deleted *)

(** Writing the finalizer changes nothing the decisions depend on. *)
Lemma mld_with_finalizer mod_ k :
  GetModuleLoaderDataForKernel (mod_add_finalizer mod_) k = GetModuleLoaderDataForKernel mod_ k.
Proof. done. Qed.

Lemma setLabel_harmless name : only_calls harmless (setLabel name).
Proof. unfold setLabel, patch, get. only_calls; done. Qed.

Lemma setFinalizer_own mod_ st :
  passes (setFinalizerAndStatus mod_) (λ r st', st' = st ∧ (r.1 = mod_ ∨ r.1 = mod_add_finalizer mod_)) st.
Proof.
  unfold setFinalizerAndStatus, patch_lock. destruct (ContainsFinalizer _ _); [apply swp_ret; auto|].
  apply swp_bind, swp_bind, swp_call; [done|]. intros x st1 [-> ->]. apply swp_ret; [done|]. apply swp_ret; [done|].
  apply swp_bind, swp_call; [done|]. intros x st2 [-> ->]. apply swp_ret; [done|]. apply swp_ret; [done|]. auto.
Qed.

(** The images are requested, and their states stay as they are. *)
Lemma handleMIC_own mod_ nodes st :
  obj_key KMIC (ct_mic st) = module_nsn mod_ →
  passes (handleMIC mod_ nodes) (λ r st', r = None → ∃ mic, st' = with_mic st mic ∧
    obj_key KMIC mic = obj_key KMIC (ct_mic st) ∧ mic_status mic = mic_status (ct_mic st)) st.
Proof.
  intros Hmic. unfold handleMIC. destruct (foldl _ _ _) as [images errs]. destruct (ms_ModuleLoader _) as [ml|]; [|by apply swp_ret].
  apply swp_bind. unfold mic_CreateOrPatch. apply swp_bind, swp_call; [done|]. intros x st' Hx. simpl in Hx.
  rewrite decide_True in Hx by (by rewrite Hmic). destruct Hx as (mic & [-> ->] & ->).
  do 3 (apply swp_ret; [done|]). intros _. eexists. split; [done|]. unfold mic_mutate. simpl.
  destruct (SetControllerReference _ _ _) as [om|e] eqn:E; [|done]. simpl. apply SetControllerReference_spec in E.
  unfold obj_key. simpl. rewrite E. done.
Qed.

Lemma carried_out_status mod_ mic mic' d n n' :
  mic_status mic' = mic_status mic → carried_out mod_ mic' d n n' → carried_out mod_ mic d n n'.
Proof.
  intros Hs. unfold carried_out. destruct d as [sd|]; [|done]. destruct (sd_action sd); [done| |done].
  intros H mld node E. specialize (H mld node E). unfold GetImageState, mic_states in *. by rewrite Hs in H.
Qed.

Lemma elem_of_foldl_names (nmcs : list NodeModulesConfig) (X : gset string) name :
  name ∈ foldl (λ X n, {[nmc_Name n]} ∪ X) X nmcs ↔ name ∈ X ∨ ∃ n, n ∈ nmcs ∧ nmc_Name n = name.
Proof.
  revert X. induction nmcs as [|n nmcs IH]; intros X; simpl; [split; [auto|intros [|(? & []%elem_of_nil & _)]; done]|].
  rewrite IH, elem_of_union, elem_of_singleton. setoid_rewrite elem_of_cons. naive_solver.
Qed.

(** The decision computed from the listed nodes and NodeModulesConfigs is the node's own. *)
Lemma listed_decision mod_ (s : cluster) nodes nmcs :
  node_Name (cl_node s) = nmc_Name (cl_nmc s) →
  lists_one node_Name node_Labels (cl_node s) [MatchingLabels (ms_Selector (mod_spec mod_))] nodes →
  lists_one nmc_Name nmc_Labels (cl_nmc s)
    [MatchingLabels {[ModuleConfiguredLabel (mod_Namespace mod_) (mod_Name mod_) := ""]}] nmcs →
  let nodes := filter (λ n : Node, IsNodeSchedulable n (ms_Tolerations (mod_spec mod_)) = true) nodes in
  let X : gset string := foldl (λ X n, {[nmc_Name n]} ∪ X) ∅ nmcs in
  NoDup (node_Name <$> nodes) ∧
  (prepareSchedulingData mod_ nodes X).1 !! nmc_Name (cl_nmc s) = node_decision mod_ (cl_node s) (cl_nmc s).
Proof.
  intros Hname (Hnd & Hn & Hin) (_ & Hm & Hconf) nodes' X. unfold selects in Hin, Hconf. rewrite Forall_singleton in Hin, Hconf.
  fold (configured mod_ (cl_nmc s)) in Hconf.
  assert (NoDup (node_Name <$> nodes')) as Hnd'.
  { eapply sublist_NoDup; [exact Hnd|]. apply fmap_sublist, sublist_filter. }
  split; [done|]. destruct (prepareSchedulingData_lookup mod_ nodes' X Hnd') as [Hl _]. rewrite Hl.
  assert (nmc_Name (cl_nmc s) ∈ X ↔ configured mod_ (cl_nmc s)) as HX.
  { rewrite <-Hconf. unfold X. rewrite elem_of_foldl_names. split; [|eauto]. intros [[]%elem_of_empty|(n & Hn' & E)]. by rewrite <-(Hm n Hn' E). }
  unfold node_decision. destruct (decide (targeted mod_ (cl_node s))) as [[Ht1 Ht2]|Ht].
  - rewrite <-Hname, find_node; [|done|]. 2:{ apply list_elem_of_filter. split; [done|]. by apply Hin. }
    apply sched_decision_ext. rewrite Hname, HX. destruct (decide _); set_solver.
  - replace (find_first _ nodes') with (@None Node); [by apply decide_ext|].
    symmetry. apply find_first_None. intros n [Hs Hn']%list_elem_of_filter. apply bool_decide_eq_false. intros E.
    rewrite <-Hname in E. pose proof (Hn n Hn' E) as ->. apply Ht. split; [by apply Hin|done].
Qed.

Lemma live_pass mod_ st :
  let s := ct_store st in
  obj_key KNMC (cl_nmc s) = nsn "" (nmc_Name (cl_nmc s)) → node_Name (cl_node s) = nmc_Name (cl_nmc s) →
  obj_key KMIC (ct_mic st) = module_nsn mod_ →
  om_DeletionTimestamp (mod_meta mod_) = None → ms_ModuleLoader (mod_spec mod_) ≠ None →
  passes (Module_Reconcile mod_) (λ r st', r = None → ∃ n', ct_store st' = set_nmc s n' ∧
    carried_out mod_ (ct_mic st) (node_decision mod_ (cl_node s) (cl_nmc s)) (cl_nmc s) n') st.
Proof.
  intros s Hkey Hname Hmic Hd Hml. unfold Module_Reconcile. rewrite Hd. apply swp_bind.
  eapply swp_mono; [|apply harmless_swp, setLabel_harmless]. intros [e|] st1 _ ->; [by apply swp_ret|].
  apply swp_bind. eapply swp_mono; [|apply setFinalizer_own]. intros [mod' [e|]] st1 _ [-> Hmod]; [by apply swp_ret|].
  destruct (ms_ModuleLoader (mod_spec mod')) as [ml|] eqn:Eml; [|by destruct Hml; destruct Hmod; simpl in *; subst].
  apply swp_bind. unfold GetSchedulableNodesBySelector, GetAllNodesBySelector, list_all.
  apply swp_bind, swp_bind, swp_call; [done|]. intros x st1 (-> & nodes & -> & Hnodes). do 3 (apply swp_ret; [done|]).
  cbn [wrap_v]. cbv beta iota. apply swp_bind. eapply swp_mono; [|apply handleMIC_own; by destruct Hmod; simpl in *; subst].
  intros [e|] st1 _ H; [by apply swp_ret|]. destruct (H eq_refl) as (mic & -> & Hmic' & Hst). clear H.
  apply swp_bind. unfold getNMCsByModuleSet, getNMCsForModule, list_all.
  apply swp_bind, swp_bind, swp_call; [done|]. intros x st1 (-> & nmcs & -> & Hnmcs). do 3 (apply swp_ret; [done|]).
  cbn [wrap_v]. cbv beta iota.
  destruct (listed_decision mod' s nodes nmcs Hname) as [Hnd Hdec]; [by destruct Hmod; simpl in *; subst..|].
  eapply swp_mono; [|apply (reconcile_nodes_own mod' (with_mic st mic)); [done|by rewrite Hmic in Hmic'; destruct Hmod; simpl in *; subst|exact Hnd]].
  intros r st1 _ (n' & -> & Hc) Hr. exists n'. split; [done|]. specialize (Hc Hr). unfold own_decision in Hc. simpl in Hc.
  change (cl_nmc (ct_store st)) with (cl_nmc s) in Hc. rewrite Hdec in Hc.
  eapply carried_out_status; [exact Hst|]. by destruct Hmod as [Hmod|Hmod]; simpl in Hmod; subst mod'.
Qed.
End deploy.

(** ** The two controllers together *)

Lemma schedulable_more `{EXT : Externals} node ts ts' :
  IsNodeSchedulable node ts = true → IsNodeSchedulable node (ts ++ ts') = true.
Proof.
  unfold IsNodeSchedulable. induction (node_Taints node) as [|t l IH]; [done|]. simpl.
  assert (taint_blocks (ts ++ InternalTolerations) t = false → taint_blocks ((ts ++ ts') ++ InternalTolerations) t = false) as H.
  { unfold taint_blocks. rewrite !existsb_app, !andb_false_iff, !negb_false_iff, !orb_true_iff. tauto. }
  destruct (taint_blocks (ts ++ _) t); [done|]. by rewrite H.
Qed.

Section composed.
Context `{EXT : Externals} `{EXTL : !ExternalsLaws} (workerCfg : WorkerConfig) (workerImage : string).
Implicit Types (w : world) (st : control).

(** The modules of the spec have names, and run on the node. *)
Definition spec_runs (s : cluster) : Prop :=
  Forall (λ x, re_ns (mi_Namespace (nms_item x)) = true ∧
    IsNodeSchedulable (cl_node s) (mi_Tolerations (nms_item x)) = true) (nmc_spec_Modules (cl_nmc s)).

(** A write of the spec is a step of the node's history. *)
Lemma written_consistent w n :
  consistent (w_loaded w) (w_store w) → obj_key KNMC n = obj_key KNMC (cl_nmc (w_store w)) →
  nmc_status_Modules n = nmc_status_Modules (cl_nmc (w_store w)) →
  consistent (w_loaded w) (set_nmc (w_store w) n).
Proof.
  intros Hc Hk Hst. apply (step_consistent workerCfg workerImage ESpec w {| w_store := set_nmc (w_store w) n; w_loaded := w_loaded w |}); try done.
  destruct w. by apply step_spec.
Qed.

(** What adding the module makes of the spec. *)
Lemma enabled_spec mod_ mld node n n' :
  nmc_wf n → GetModuleLoaderDataForKernel mod_ (node_kernel node) = Ok mld → enable_mutate mld node n = Ok n' →
  nmc_wf n' ∧ desired_entry mld (module_config mld) ∈ nmc_spec_Modules n' ∧
  ∀ x, x ∈ nmc_spec_Modules n' → x = desired_entry mld (module_config mld) ∨ x ∈ nmc_spec_Modules n.
Proof.
  intros Hwf Hg (Hsp & _ & _ & Hwf')%enable_mutate_Ok. specialize (Hwf' Hwf). split; [done|].
  assert (∀ x, x ∈ nmc_spec_Modules n' ↔ spec_map n' !! nms_key x = Some x) as Hel by (intros x; apply keyed_map_elem, Hwf').
  split; [apply Hel; rewrite Hsp; apply lookup_insert_eq|]. intros x Hx%Hel. rewrite Hsp in Hx.
  apply lookup_insert_Some in Hx as [[_ ->]|[_ Hx]]; [by left|]. right. by apply (keyed_map_elem nms_key); [apply Hwf|].
Qed.

Lemma desired_runs mod_ mld (node : Node) :
  re_ns (mod_Namespace mod_) = true → targeted mod_ node → GetModuleLoaderDataForKernel mod_ (node_kernel node) = Ok mld →
  let x := desired_entry mld (module_config mld) in
  re_ns (mi_Namespace (nms_item x)) = true ∧ IsNodeSchedulable node (mi_Tolerations (nms_item x)) = true.
Proof.
  intros Hns [_ Ht] Hg.
  apply GetModuleLoaderDataForKernel_inv in Hg as (ml & m & mld0 & img & _ & _ & [sign ->]%prepareModuleLoaderData_Ok & ->).
  split; [done|]. by apply schedulable_more.
Qed.

Lemma decision_enables mod_ mic mld node n n' :
  targeted mod_ node → GetModuleLoaderDataForKernel mod_ (node_kernel node) = Ok mld → may_run mld node →
  GetImageState mic (mld_ContainerImage mld) = ImageExists →
  carried_out mod_ mic (node_decision mod_ node n) n n' → enable_mutate mld node n = Ok n'.
Proof.
  intros Ht Hg Hmay Hi. unfold node_decision. rewrite decide_True by done. unfold sched_decision. rewrite Hg.
  destruct (prepare_cases mld node (if decide (configured mod_ n) then {[nmc_Name n]} else ∅))
    as [[_ ->]|[(Hv & Ha & _)|(Hv & (v & Ha & Hne) & _)]].
  - intros H. specialize (H _ _ eq_refl). by rewrite decide_True in H.
  - destruct Hmay as [|Hmay]; [done|congruence].
  - destruct Hmay as [|Hmay]; [done|congruence].
Qed.

(** C3: a Module ends up loaded on a node it targets.  Assume the node's history is orderly (as in
    [status_tells_the_truth]); its NodeModulesConfig has one entry per module, each with a valid
    namespace and schedulable on the node; the node is Ready; and the module's worker pod is absent
    or has succeeded.  When a pass of the Module controller for a Module that is not being
    deleted ends without an error, the node matches the Module's selector and tolerations, its
    kernel has a mapping whose configuration survives being stored as an annotation, its version
    label admits the module, and the image of the mapping exists in the Module's
    ModuleImagesConfig, then four or more rounds (an error-free pass of the node's controller, then
    the success of the module's worker pod if it has one; nothing else changes spec or node)
    leave the module loaded in the kernel, without a worker pod, and recorded with the current boot
    and the configuration the mapping gives for the node's kernel. *)
Theorem module_reaches_kernel w0 w w' st st' mod_ mld j :
  initial w0 → rtc (orderly_step workerCfg workerImage) w0 w → ct_store st = w_store w →
  let s := w_store w in
  nmc_wf (cl_nmc s) → spec_runs s → re_ns (mod_Namespace mod_) = true →
  obj_key KMIC (ct_mic st) = module_nsn mod_ → om_DeletionTimestamp (mod_meta mod_) = None →
  targeted mod_ (cl_node s) → GetModuleLoaderDataForKernel mod_ (node_kernel (cl_node s)) = Ok mld →
  may_run mld (cl_node s) → GetImageState (ct_mic st) (mld_ContainerImage mld) = ImageExists →
  config_stored (module_config mld) = true →
  (∃ c, c ∈ node_Conditions (cl_node s) ∧ nc_Type c = NodeReady ∧ nc_Status c = ConditionTrue) →
  (∀ p, cl_pods s !! worker_key (node_name s) (module_nsn mod_) = Some p → ended p) →
  steps manages st (Module_Reconcile mod_) st' (Some None) →
  4 ≤ j → nsteps (round workerCfg workerImage (module_nsn mod_)) j {| w_store := ct_store st'; w_loaded := w_loaded w |} w' →
  at_rest (desired_entry mld (module_config mld)) w'.
Proof.
  intros H0 Hr Hst s Hwf Hruns Hns Hmic Hd Ht Hg Hmay Himg Hcfg Hready Hend Hp Hj Hn.
  assert (consistent (w_loaded w) s) as Hc by (by eapply reachable_consistent).
  pose proof (GetModuleLoaderDataForKernel_identity _ _ _ Hg) as (Hid1 & Hid2 & _).
  pose proof (desired_runs _ _ _ Hns Ht Hg) as Hrun.
  assert (nms_key (desired_entry mld (module_config mld)) = module_nsn mod_) as Hk
    by (unfold module_nsn; by rewrite <-Hid1, <-Hid2).
  assert (ms_ModuleLoader (mod_spec mod_) ≠ None) as Hml
    by (destruct (GetModuleLoaderDataForKernel_inv _ _ _ Hg) as (ml & ? & ? & ? & -> & _); done).
  assert (node_Name (cl_node s) = nmc_Name (cl_nmc s)) as Hname by exact (f_equal nsn_Name (co_node _ _ Hc)).
  pose proof (live_pass mod_ st) as Hpass. rewrite Hst in Hpass. fold s in Hpass.
  specialize (Hpass (co_nmc _ _ Hc) Hname Hmic Hd Hml). destruct (swp_sound _ _ _ _ _ _ _ Hpass Hp) as [_ Hpost].
  destruct (Hpost None eq_refl eq_refl) as (n' & Hs' & Hout).
  assert (enable_mutate mld (cl_node s) (cl_nmc s) = Ok n') as Hen by (by eapply decision_enables).
  destruct (enabled_spec mod_ mld (cl_node s) (cl_nmc s) n' Hwf Hg Hen) as (Hwf' & Hin & Hall).
  pose proof Hen as (_ & Hstn & _)%enable_mutate_Ok. pose proof (enable_key _ _ _ _ Hen) as Hkn.
  rewrite Hs' in Hn. rewrite <-Hk in Hn, Hend.
  eapply (rounds_converge workerCfg workerImage {| w_store := set_nmc s n'; w_loaded := w_loaded w |}); [..|exact Hn]; try done.
  - by apply (written_consistent w n').
  - apply Hwf'.
  - apply Forall_forall. intros x [->|Hx]%Hall; [done|]. unfold spec_runs in Hruns. rewrite Forall_forall in Hruns. by apply Hruns.
  - intros p Ep. apply Hend. change (node_name s) with (nsn_Name (obj_key KNMC (cl_nmc s))). by rewrite <-Hkn.
Qed.

(** The spec does not list the module, and lists only what it did before. *)
Definition unlisted (k : NamespacedName) (n n' : NodeModulesConfig) : Prop :=
  obj_key KNMC n' = obj_key KNMC n ∧ nmc_status_Modules n' = nmc_status_Modules n ∧
  k ∉ nms_key <$> nmc_spec_Modules n' ∧ nmc_spec_Modules n' ⊆ nmc_spec_Modules n.

Lemma removed_unlisted ns name n n' : nmc_wf n → remove_mutate ns name n = Ok n' → unlisted (nsn ns name) n n'.
Proof.
  intros Hwf H. split; [by eapply remove_key|]. apply remove_mutate_Ok in H as (Hsp & Hst & _ & Hwf'); [|done].
  assert (∀ x, x ∈ nmc_spec_Modules n' ↔ delete (nsn ns name) (spec_map n) !! nms_key x = Some x) as Hel.
  { intros x. rewrite <-Hsp. apply keyed_map_elem, Hwf'. }
  split_and!; [done| |].
  - intros (x & Hx & Hin%Hel)%list_elem_of_fmap. by rewrite <-Hx, lookup_delete_eq in Hin.
  - intros x [_ Hx]%Hel%lookup_delete_Some. by apply (keyed_map_elem nms_key); [apply Hwf|].
Qed.

Lemma unlabelled_unlisted mod_ n :
  nmc_wf n → (is_Some (spec_map n !! module_nsn mod_) → configured mod_ n) → ¬ configured mod_ n → unlisted (module_nsn mod_) n n.
Proof.
  intros Hwf Hlab Hno. split_and!; [done|done| |done]. intros (x & Hx & Hin)%list_elem_of_fmap. apply Hno, Hlab.
  exists x. rewrite Hx. by apply keyed_map_elem; [apply Hwf|].
Qed.

(** A pass that has the module off the node leaves a NodeModulesConfig without it. *)
Lemma leaving_pass mod_ st st' :
  let s := ct_store st in
  obj_key KNMC (cl_nmc s) = nsn "" (nmc_Name (cl_nmc s)) → node_Name (cl_node s) = nmc_Name (cl_nmc s) →
  nmc_wf (cl_nmc s) → (is_Some (spec_map (cl_nmc s) !! module_nsn mod_) → configured mod_ (cl_nmc s)) →
  (om_DeletionTimestamp (mod_meta mod_) ≠ None ∨
   obj_key KMIC (ct_mic st) = module_nsn mod_ ∧ ms_ModuleLoader (mod_spec mod_) ≠ None ∧ ¬ targeted mod_ (cl_node s)) →
  steps manages st (Module_Reconcile mod_) st' (Some None) →
  ∃ n', ct_store st' = set_nmc s n' ∧ unlisted (module_nsn mod_) (cl_nmc s) n'.
Proof.
  intros s Hkn Hname Hwf Hlab Hwhy Hp. destruct (om_DeletionTimestamp (mod_meta mod_)) as [t|] eqn:Hd.
  - destruct (swp_sound _ _ _ _ _ _ _ (deleted_pass mod_ st t Hd) Hp) as [_ Hpost].
    destruct (Hpost None eq_refl eq_refl) as [[Hno ->]|(n' & -> & Hr)].
    + exists (cl_nmc s). split; [by unfold s; destruct (ct_store st)|]. by apply unlabelled_unlisted.
    + exists n'. split; [done|]. by apply removed_unlisted.
  - destruct Hwhy as [|(Hmic & Hml & Ht)]; [done|].
    destruct (swp_sound _ _ _ _ _ _ _ (live_pass mod_ st Hkn Hname Hmic Hd Hml) Hp) as [_ Hpost].
    destruct (Hpost None eq_refl eq_refl) as (n' & -> & Hout). exists n'. split; [done|].
    unfold node_decision in Hout. rewrite decide_False in Hout by done.
    destruct (decide (configured mod_ (cl_nmc (ct_store st)))) as [Hc|Hc].
    + by apply removed_unlisted.
    + rewrite Hout. by apply unlabelled_unlisted.
Qed.

(** C5: a Module that is deleted, or does not target a node any more, ends up unloaded there.  Assume
    the node's history is orderly (as in [status_tells_the_truth]; after a late load, which that
    excludes, the module stays: [Hazards.late_load_is_forgotten]); its NodeModulesConfig has one
    entry per module, each with a valid namespace and schedulable on the node, and the
    configured label of the Module if it has its entry; and the module's worker pod is absent or
    has succeeded.  When a pass of the Module controller for a Module that is being deleted, or
    has a loader and does not target the node, ends without an error, then two or more rounds (an
    error-free pass of the node's controller, then the success of the module's worker pod if it has
    one) leave no trace of the module: no status, no worker pod, and not loaded in the kernel. *)
Theorem module_leaves_kernel w0 w w' st st' mod_ j :
  initial w0 → rtc (orderly_step workerCfg workerImage) w0 w → ct_store st = w_store w →
  let s := w_store w in
  nmc_wf (cl_nmc s) → spec_runs s → re_ns (mod_Namespace mod_) = true →
  (is_Some (spec_map (cl_nmc s) !! module_nsn mod_) → configured mod_ (cl_nmc s)) →
  (om_DeletionTimestamp (mod_meta mod_) ≠ None ∨
   obj_key KMIC (ct_mic st) = module_nsn mod_ ∧ ms_ModuleLoader (mod_spec mod_) ≠ None ∧ ¬ targeted mod_ (cl_node s)) →
  (∀ p, cl_pods s !! worker_key (node_name s) (module_nsn mod_) = Some p → ended p) →
  steps manages st (Module_Reconcile mod_) st' (Some None) →
  2 ≤ j → nsteps (round workerCfg workerImage (module_nsn mod_)) j {| w_store := ct_store st'; w_loaded := w_loaded w |} w' →
  all_gone (module_nsn mod_) w'.
Proof.
  intros H0 Hr Hst s Hwf Hruns Hns Hlab Hwhy Hend Hp Hj Hn.
  assert (consistent (w_loaded w) s) as Hc by (by eapply reachable_consistent).
  assert (node_Name (cl_node s) = nmc_Name (cl_nmc s)) as Hname by exact (f_equal nsn_Name (co_node _ _ Hc)).
  pose proof (leaving_pass mod_ st st') as Hpass. rewrite Hst in Hpass. fold s in Hpass.
  destruct (Hpass (co_nmc _ _ Hc) Hname Hwf Hlab Hwhy Hp) as (n' & Hs' & Hkn & Hstn & Hout & Hsub). rewrite Hs' in Hn.
  eapply (rounds_remove workerCfg workerImage {| w_store := set_nmc s n'; w_loaded := w_loaded w |}); [..|exact Hn]; try done.
  - by apply (written_consistent w n').
  - apply Forall_forall. intros x Hx%Hsub. unfold spec_runs in Hruns. rewrite Forall_forall in Hruns. by apply Hruns.
  - intros p Ep. apply Hend. change (node_name s) with (nsn_Name (obj_key KNMC (cl_nmc s))). by rewrite <-Hkn.
Qed.
End composed.

(** ** An executable server for the Module controller *)

Definition manage (c : call) (st : control) : resp c * control :=
  match c as c return resp c * control with
  | Get k key =>
      match k as k return result (obj k) * control with
      | KMIC => (if decide (key = obj_key KMIC (ct_mic st)) then Ok (ct_mic st) else Err (ErrStatus ReasonNotFound), st)
      | KNamespace => (Ok {| ns_meta := empty_meta "" (nsn_Name key) |}, st)
      | _ => (Err (ErrStatus ReasonOther), st)
      end
  | ListAll k opts =>
      match k as k return result (list (obj k)) * control with
      | KNode => let a := cl_node (ct_store st) in (Ok (if decide (selects opts (node_Labels a)) then [a] else []), st)
      | KNMC => let a := cl_nmc (ct_store st) in (Ok (if decide (selects opts (nmc_Labels a)) then [a] else []), st)
      | _ => (Ok [], st)
      end
  | CreateOrPatch k o f =>
      match k as k return obj k → (obj k → result (obj k)) → result (obj k) * control with
      | KNMC => λ o f,
          if decide (obj_key KNMC o = obj_key KNMC (cl_nmc (ct_store st)))
          then let x := f (cl_nmc (ct_store st)) in
               (x, with_nmc st (match x with Ok n => n | Err _ => cl_nmc (ct_store st) end))
          else (f o, st)
      | KMIC => λ o f,
          if decide (obj_key KMIC o = obj_key KMIC (ct_mic st))
          then let x := f (ct_mic st) in (x, with_mic st (match x with Ok m => m | Err _ => ct_mic st end))
          else (f o, st)
      | _ => λ _ _, (Err (ErrStatus ReasonOther), st)
      end o f
  | Patch k base new _ => (Ok new, st)
  | StatusPatch k base new => (Ok new, st)
  | StatusUpdate k o => (Ok o, st)
  | c => (resp_inhabited c, st)
  end.

Lemma lists_one_alone {A} (name : A → string) (labels : A → labels_t) (a : A) opts :
  lists_one name labels a opts (if decide (selects opts (labels a)) then [a] else []).
Proof.
  destruct (decide _) as [H|H]; split_and!.
  - apply NoDup_singleton.
  - by intros b ->%list_elem_of_singleton.
  - split; [done|]. intros _. left.
  - apply NoDup_nil_2.
  - by intros b []%elem_of_nil.
  - split; [by intros []%elem_of_nil|done].
Qed.

Lemma manage_manages c st : manages st c (manage c st).1 (manage c st).2.
Proof.
  destruct c as [k ?|k ?|k o|k o|k base new ?|k base new|k o|k o f|on reason args|k o f| | | | |oc]; try done;
    destruct k; try done; simpl.
  - split; [done|]. intros E. by rewrite decide_True.
  - split; [done|]. eexists. split; [done|]. apply lists_one_alone.
  - split; [done|]. eexists. split; [done|]. apply lists_one_alone.
  - destruct (decide _); [|done]. by eexists.
  - destruct (decide _); [|done]. by eexists.
Qed.

Lemma manage_steps {R} (p : prog R) st : steps manages st p (run manage p st).2 (Some (run manage p st).1.2).
Proof. apply run_served. intros c st'. apply manage_manages. Qed.

(** ** Examples

    The Module is created while the node is idle, then deleted once it is loaded. *)

Definition demo_target : control :=
  {| ct_store := {| cl_node := demo_node "node-a" ∅; cl_nmc := empty_nmc "node-a"; cl_pods := ∅ |};
     ct_mic := SetImageStatus (empty_mic "ns" "mod") (mld_ContainerImage demo_mld_6) ImageExists |}.
Definition demo_idle : world := {| w_store := ct_store demo_target; w_loaded := ∅ |}.

Definition demo_module_pass (mod_ : Module_) (st : control) : list obs * option error * control :=
  run manage (Module_Reconcile (EXT := demo_externals) mod_) st.

Lemma demo_module_pass_steps mod_ st st' :
  (demo_module_pass mod_ st).1.2 = None → (demo_module_pass mod_ st).2 = st' →
  steps manages st (Module_Reconcile (EXT := demo_externals) mod_) st' (Some None).
Proof. intros <- <-. apply manage_steps. Qed.

Definition demo_enabled : control := Eval vm_compute in (demo_module_pass demo_module demo_target).2.
Definition demo_load_started : cluster := Eval vm_compute in (demo_pass true (ct_store demo_enabled)).2.
Definition demo_loader : Pod := Eval vm_compute in default demo_pod (cl_pods demo_load_started !! demo_key).
Definition demo_loaded : cluster :=
  Eval vm_compute in set_pod demo_load_started demo_key (with_status demo_loader demo_succeeded_status).
Definition demo_settled : cluster := Eval vm_compute in (demo_pass true demo_loaded).2.

Notation demo_round := (round (EXT := demo_externals) demo_worker_cfg "worker:v1" (module_nsn demo_module)).

Lemma demo_round_loads :
  demo_round {| w_store := ct_store demo_enabled; w_loaded := ∅ |} {| w_store := demo_loaded; w_loaded := {[module_nsn demo_module]} |}.
Proof.
  replace {[module_nsn demo_module]} with (worker_effect demo_loader ∅) by (vm_compute; reflexivity).
  apply (demo_round_worker _ _ demo_load_started demo_loader); [apply valid_names_check; reflexivity|vm_compute; reflexivity..|].
  vm_compute. left.
Qed.

Lemma module_reaches_kernel_witness :
  at_rest (desired_entry demo_mld_6 (module_config demo_mld_6))
    {| w_store := demo_settled; w_loaded := {[module_nsn demo_module]} |}.
Proof.
  apply (module_reaches_kernel (EXT := demo_externals) demo_worker_cfg "worker:v1" demo_idle demo_idle _
    demo_target demo_enabled demo_module demo_mld_6 4).
  - by repeat split.
  - apply rtc_refl.
  - reflexivity.
  - split; apply NoDup_nil_2.
  - constructor.
  - reflexivity.
  - reflexivity.
  - reflexivity.
  - split; [apply map_empty_subseteq|reflexivity].
  - reflexivity.
  - by left.
  - vm_compute. reflexivity.
  - reflexivity.
  - eexists. split; [left|done].
  - intros p E. vm_compute in E. discriminate.
  - apply demo_module_pass_steps; vm_compute; reflexivity.
  - lia.
  - eapply nsteps_l; [exact demo_round_loads|].
    do 3 (eapply nsteps_l; [apply (demo_round_quiet _ _ demo_settled); [apply valid_names_check; reflexivity|vm_compute; reflexivity..]|]).
    apply nsteps_O.
Defined.

Definition demo_deleted_module : Module_ :=
  let m := mod_meta demo_module in
  mod_set_meta demo_module
    {| om_Name := om_Name m; om_GenerateName := om_GenerateName m; om_Namespace := om_Namespace m;
       om_UID := om_UID m; om_Generation := om_Generation m; om_CreationTimestamp := om_CreationTimestamp m;
       om_Labels := om_Labels m; om_Annotations := om_Annotations m; om_Finalizers := [constants.ModuleFinalizer];
       om_OwnerReferences := om_OwnerReferences m; om_DeletionTimestamp := Some 1%Z |}.

Definition demo_at_deletion : control := {| ct_store := demo_loaded; ct_mic := ct_mic demo_enabled |}.
Definition demo_disabled : control := Eval vm_compute in (demo_module_pass demo_deleted_module demo_at_deletion).2.
Definition demo_leaving : cluster := Eval vm_compute in (demo_pass true (ct_store demo_disabled)).2.
Definition demo_leaver : Pod := Eval vm_compute in default demo_pod (cl_pods demo_leaving !! demo_key).
Definition demo_left : cluster :=
  Eval vm_compute in set_pod demo_leaving demo_key (with_status demo_leaver demo_succeeded_status).
Definition demo_gone : cluster := Eval vm_compute in (demo_pass true demo_left).2.

Lemma demo_reaches_deletion :
  rtc (orderly_step (EXT := demo_externals) demo_worker_cfg "worker:v1") demo_idle
    {| w_store := demo_loaded; w_loaded := {[module_nsn demo_module]} |}.
Proof.
  eapply rtc_l.
  { exists ESpec. split; [done|]. apply (step_spec _ _ (ct_store demo_target) ∅ (cl_nmc (ct_store demo_enabled))); vm_compute; reflexivity. }
  destruct demo_round_loads as (_ & s1 & Hp & Hr & _). eapply rtc_l.
  - exists EPass. split; [done|]. apply step_pass with (o := Some None). apply steps_answers_serves. exact Hp.
  - eapply rtc_subrel; [|exact Hr]. intros w1 w2 (e & _ & Ho & Hs). by exists e.
Qed.

Lemma demo_round_leaves :
  demo_round {| w_store := ct_store demo_disabled; w_loaded := {[module_nsn demo_module]} |} {| w_store := demo_left; w_loaded := ∅ |}.
Proof.
  replace (∅ : gset NamespacedName) with (worker_effect demo_leaver {[module_nsn demo_module]}) by (vm_compute; reflexivity).
  apply (demo_round_worker _ _ demo_leaving demo_leaver); [apply valid_names_check; reflexivity|vm_compute; reflexivity..|].
  vm_compute. left.
Qed.

Lemma module_leaves_kernel_witness : all_gone (module_nsn demo_module) {| w_store := demo_gone; w_loaded := ∅ |}.
Proof.
  apply (module_leaves_kernel (EXT := demo_externals) demo_worker_cfg "worker:v1" demo_idle
    {| w_store := demo_loaded; w_loaded := {[module_nsn demo_module]} |} _ demo_at_deletion demo_disabled demo_deleted_module 2).
  - by repeat split.
  - exact demo_reaches_deletion.
  - reflexivity.
  - apply (bool_decide_unpack _). vm_compute. exact I.
  - repeat constructor.
  - reflexivity.
  - intros _. apply map_singleton_subseteq_l. vm_compute. reflexivity.
  - by left.
  - intros p E. vm_compute in E. injection E as <-. split; [reflexivity|]. split; [vm_compute; reflexivity|].
    intros _. exists (module_config demo_mld_6). vm_compute. reflexivity.
  - apply demo_module_pass_steps; vm_compute; reflexivity.
  - lia.
  - eapply nsteps_l; [exact demo_round_leaves|]. eapply nsteps_l; [|apply nsteps_O].
    apply (demo_round_quiet _ _ demo_gone); [apply valid_names_check; reflexivity|vm_compute; reflexivity..].
Defined.
