(* ===== verification/Release.v ===== *)
(** * The end of a Module

    A deleted Module keeps its finalizer until the Module controller has taken it off every node
    and sees no in-use label of it any more.  Together with [InUse]: when the finalizer is given
    up, the module is not loaded on the node; and one history, excluded there, in which it is
    loaded afterwards. *)

From S2P Require Import Prelude Types Kube GoStrings Externals Demo Labels NmcHelper Node KernelMapper WorkerPod NmcReconciler NmcProps NmcLabels Mic ModuleReconciler ModuleProps Cluster Rollout Converge InUse Deploy.

Open Scope string_scope.
Open Scope nat_scope.
Open Scope list_scope.

(** ** The Module controller, with its finalizer in view *)

Record release := { rl_control : control; rl_released : bool }.

(** The patch that takes the finalizer off the Module. *)
Definition gives_up (c : call) : bool :=
  match c with
  | Patch KModule base new _ =>
      bool_decide (constants.ModuleFinalizer ∈ om_Finalizers (mod_meta base)) &&
      bool_decide (constants.ModuleFinalizer ∉ om_Finalizers (mod_meta new))
  | _ => false
  end.

Definition releases (st : release) (c : call) (x : resp c) (st' : release) : Prop :=
  manages (rl_control st) c x (rl_control st') ∧ rl_released st' = rl_released st || gives_up c.

(** As long as the finalizer is not touched, the controller is the one of [Deploy]. *)
Lemma swp_unreleased {R} (p : prog R) Q st :
  only_calls (λ c, gives_up c = false) p → swp manages (λ _, True) p Q (rl_control st) → rl_released st = false →
  swp releases (λ st, rl_released st = false) p (λ r st', rl_released st' = false ∧ Q r (rl_control st')) st.
Proof.
  unfold only_calls. revert st. induction p as [r|c k IH]; intros st Hp Hs Hr; [by destruct Hs|].
  simpl in Hp. destruct Hs as [_ Hs]. split; [done|]. intros x st' [Hx Hrel]. destruct (exec_total (k x)) as (tr & r & Hex).
  assert (gives_up c = false) as Hc.
  { specialize (Hp x). rewrite wp_exec in Hp. specialize (Hp _ _ Hex). by inversion Hp. }
  apply IH; [|by apply Hs|by rewrite Hrel, Hr, Hc].
  eapply wp_mono; [|exact (Hp x)]. intros tr' r' H. by inversion H.
Qed.

Section release.
Context `{EXT : Externals} `{EXTL : !ExternalsLaws} (workerCfg : WorkerConfig) (workerImage : string).

(** A Module that is not deleted keeps its finalizer. *)
Lemma live_keeps_finalizer mod_ :
  om_DeletionTimestamp (mod_meta mod_) = None → only_calls (λ c, gives_up c = false) (Module_Reconcile mod_).
Proof.
  intros Hd. unfold Module_Reconcile. rewrite Hd.
  unfold setLabel, setFinalizerAndStatus, clearModuleLoaderStatus, GetSchedulableNodesBySelector, GetAllNodesBySelector,
    handleMIC, mic_CreateOrPatch, getNMCsByModuleSet, getNMCsForModule, reconcile_nodes, sched_node, enableModuleOnNode,
    disableModuleOnNode, removeModuleFromNMC, updateModuleStatus, updateModuleLoaderStatus,
    updateImageRebuildTriggerGenerationStatus, mic_Get, get, list_all, patch, patch_lock, status_patch, perform.
  only_calls; try done.
  simpl. rewrite andb_false_iff. right. apply bool_decide_eq_false. intros H. apply H. rewrite AddFinalizer_spec.
  case_decide; set_solver.
Qed.

(** ** The pass of a deleted Module *)

(** When the finalizer is given up, the module is off the node and its label is gone. *)
Definition let_go mod_ (c0 : control) (st : release) : Prop :=
  rl_released st = true → own_removed mod_ c0 (rl_control st) ∧ ¬ in_use (ct_store (rl_control st)) (module_nsn mod_).

Lemma unlisted_not_in_use mod_ (s : cluster) :
  lists_one nmc_Name nmc_Labels (cl_nmc s) [MatchingLabels {[ModuleInUseLabel (mod_Namespace mod_) (mod_Name mod_) := ""]}] [] →
  ¬ in_use s (module_nsn mod_).
Proof.
  intros (_ & _ & Hsel) Hu. apply (not_elem_of_nil (cl_nmc s)), Hsel. unfold selects. rewrite Forall_singleton.
  by apply map_singleton_subseteq_l.
Qed.

(** The list of the nodes that use the module, and what follows it. *)
Lemma finalize_tail mod_ c0 st :
  rl_released st = false → own_removed mod_ c0 (rl_control st) →
  swp releases (let_go mod_ c0)
    (r ← list_all KNMC [MatchingLabels {[ModuleInUseLabel (mod_Namespace mod_) (mod_Name mod_) := ""]}];
     match r with
     | Err e => mret (Some (Errorf_v "failed to list NMCs with %s loaded in the cluster: %v" e))
     | Ok (_ :: _) => mret None
     | Ok [] => '(_, err) ← patch_lock KModule mod_ (mod_remove_finalizer mod_); mret err
     end) (λ _ _, True) st.
Proof.
  intros Hr Ho. assert (∀ st', rl_released st' = false → let_go mod_ c0 st') as Hgo by (intros st' E; unfold let_go; by rewrite E).
  apply swp_bind, swp_call; [by apply Hgo|]. intros x st1 [[Hst1 (l & -> & Hl)] Hr1]. rewrite Hr in Hr1. simpl in Hr1.
  split; [by apply Hgo|]. destruct l as [|n l]; [|apply swp_ret; [by apply Hgo|done]].
  apply unlisted_not_in_use in Hl. apply swp_bind, swp_bind, swp_call; [by apply Hgo|]. intros x st2 [[Hst2 ->] _].
  assert (let_go mod_ c0 st2) as H2 by (intros _; rewrite Hst2, Hst1; done).
  by apply swp_ret; [done|]; apply swp_ret; [done|]; apply swp_ret.
Qed.

Lemma unreleased_let_go mod_ c0 st : rl_released st = false → let_go mod_ c0 st.
Proof. unfold let_go. by intros ->. Qed.

(** A part of the pass that does not touch the finalizer. *)
Lemma swp_untouched {R} mod_ c0 (p : prog R) Q st :
  only_calls (λ c, gives_up c = false) p → swp manages (λ _, True) p Q (rl_control st) → rl_released st = false →
  swp releases (let_go mod_ c0) p (λ r st', rl_released st' = false ∧ Q r (rl_control st')) st.
Proof. intros. apply (swp_weaken _ (λ st, rl_released st = false)); [apply unreleased_let_go|by apply swp_unreleased]. Qed.

Lemma finalize_releases mod_ st :
  rl_released st = false →
  swp releases (let_go mod_ (rl_control st)) (finalizeModule mod_) (λ _ _, True) st.
Proof.
  intros Hr. set (c0 := rl_control st). unfold finalizeModule. apply swp_bind.
  eapply swp_mono; [|apply (swp_untouched mod_ c0 _ (λ r c, c = c0 ∧ ∃ l, r = Ok l ∧ lists_one nmc_Name nmc_Labels (cl_nmc (ct_store c0))
    [MatchingLabels {[ModuleConfiguredLabel (mod_Namespace mod_) (mod_Name mod_) := ""]}] l)); [unfold list_all; only_calls; done| |done]].
  - intros r st1 _ (Hr1 & Hc & nmcs & -> & Hnd & Hl & Hsel). apply swp_bind.
    eapply swp_mono; [|apply (swp_untouched mod_ c0 _ (drop_state mod_ c0 [])); [unfold removeModuleFromNMC; only_calls; done| |done]].
    + intros errs st2 _ (Hr2 & _ & _ & [[H _]|[_ H]]); [by apply elem_of_nil in H|].
      destruct (errors_Join errs) as [e|]; [apply swp_ret; [by apply unreleased_let_go|done]|]. by apply finalize_tail.
    + rewrite Hc. apply drop_loop. do 2 (split; [done|]). unfold selects in Hsel. rewrite Forall_singleton in Hsel.
      destruct (decide (configured mod_ (cl_nmc (ct_store c0)))); [left; split; [tauto|done]|right; split; [tauto|by left]].
  - apply swp_call; [done|]. intros x c (-> & l & -> & Hl). apply swp_ret; [done|]. split; [done|]. by exists l.
Qed.

Lemma deleted_releases mod_ t st :
  om_DeletionTimestamp (mod_meta mod_) = Some t → rl_released st = false →
  swp releases (let_go mod_ (rl_control st)) (Module_Reconcile mod_) (λ _ _, True) st.
Proof.
  intros Hd Hr. unfold Module_Reconcile. rewrite Hd. apply swp_bind.
  eapply swp_mono; [|apply (swp_untouched _ _ _ (λ _ c, c = rl_control st));
    [unfold tryRemovingLabel, patch, list_all, get; only_calls; done|apply harmless_swp, tryRemovingLabel_harmless|done]].
  intros err st1 _ [Hr1 Hc]. destruct err as [e|]; [apply swp_ret; [by apply unreleased_let_go|done]|].
  apply swp_bind. rewrite <-Hc. eapply swp_mono; [|by apply finalize_releases]. intros r st2 H2 _. by apply swp_ret.
Qed.

(** ** What the Module controller writes *)

Lemma remove_writes ns name n n' : remove_mutate ns name n = Ok n' → writes_labels n n'.
Proof.
  unfold remove_mutate. destruct (RemoveModuleConfig_keeps n ns name) as [Hmeta _]. intros [= <-]. split.
  - intros k Hk. unfold nmc_Labels in *. simpl. rewrite Hmeta. rewrite lookup_delete_ne; [done|apply configured_not_in_use].
  - intros k (x & -> & Hx)%list_elem_of_fmap. left. apply list_elem_of_fmap_2. simpl in Hx. unfold RemoveModuleConfig in Hx.
    destruct (GetModuleSpecEntry _ _ _) as [[e i]|]; [|done]. simpl in Hx.
    apply elem_of_app in Hx as [Hx|Hx]; [by eapply elem_of_take in Hx as (j & Hx & _); eapply list_elem_of_lookup_2|].
    apply list_elem_of_lookup in Hx as [j Hx]. rewrite lookup_drop in Hx. by eapply list_elem_of_lookup_2.
Qed.

Lemma enable_writes mld node n n' : enable_mutate mld node n = Ok n' → writes_labels n n'.
Proof.
  intros (Hsp & _ & Hlab & _)%enable_mutate_Ok. split.
  - intros k Hk. rewrite Hlab. destruct (decide (ModuleInUseLabel (mld_Namespace mld) (mld_Name mld) = in_use_label k)) as [->|];
      [apply lookup_insert_eq|]. rewrite lookup_insert_ne, lookup_insert_ne by (done || apply configured_not_in_use). done.
  - intros k Hk. assert (is_Some (spec_map n' !! k)) as Hs by (by apply keyed_map_dom). rewrite Hsp in Hs.
    apply lookup_insert_is_Some in Hs as [<-|[_ Hs]]; [right|left; by apply (keyed_map_dom nms_key)].
    rewrite Hlab. apply lookup_insert_eq.
Qed.

(** C6: the finalizer of a Module outlives the module on the node.  Along every labelled history
    of a node that starts untouched with the in-use labels of its spec ([labelled_step], as in
    [in_use_label_sound]): when a pass of the Module controller, finished or cut short, has given up
    the finalizer of the Module, then the module is neither in the node's spec, nor recorded as
    loaded, nor loaded in its kernel, and no successful loader pod of it waits to be recorded.

    What labelled histories leave out can happen and breaks the statement: a loader that succeeds
    after it was released ([Hazards.late_load_is_forgotten]) or after the in-use label of its module
    was taken away ([finalizer_given_up_while_loading]).  A reboot before the record of a
    loader is left out too. *)
Theorem finalizer_given_up_after_unload w0 w st st' mod_ o :
  initial w0 → labelled (w_store w0) → rtc (labelled_step workerCfg workerImage) w0 w →
  ct_store (rl_control st) = w_store w → rl_released st = false →
  steps releases st (Module_Reconcile mod_) st' o → rl_released st' = true →
  let s' := ct_store (rl_control st') in let k := module_nsn mod_ in
  k ∉ w_loaded w ∧ ¬ recorded s' k ∧ ¬ in_spec s' k ∧ ¬ worker_done s' false k.
Proof.
  intros H0 Hl0 Hreach Hst Hr Hs Hr' s' k. destruct (labelled_reachable _ _ _ _ H0 Hl0 Hreach) as [Hc Hl].
  destruct (om_DeletionTimestamp (mod_meta mod_)) as [t|] eqn:Hd.
  2:{ pose proof (swp_unreleased (Module_Reconcile mod_) (λ _ _, True) st (live_keeps_finalizer _ Hd) (swp_true _ _ _) Hr) as H.
      destruct (swp_sound _ _ _ _ _ _ _ H Hs) as [H' _]. congruence. }
  destruct (swp_sound _ _ _ _ _ _ _ (deleted_releases mod_ t st Hd Hr) Hs) as [Hgo _].
  destruct (Hgo Hr') as [Hown Hno]. fold s' in Hno.
  assert (consistent (w_loaded w) s' ∧ labelled s') as [Hc' Hl'].
  { destruct Hown as [[_ E]|(n' & E & Hn')]; unfold s'; rewrite E; [by rewrite Hst|]. simpl. rewrite Hst in *.
    pose proof (remove_writes _ _ _ _ Hn') as Hw. pose proof (remove_key _ _ _ _ Hn') as Hk.
    assert (nmc_status_Modules n' = nmc_status_Modules (cl_nmc (w_store w))) as Hsn.
    { unfold remove_mutate in Hn'. injection Hn' as <-. apply RemoveModuleConfig_keeps. }
    split; [by apply (written_consistent workerCfg workerImage)|].
    apply (labelled_step_keeps workerCfg workerImage w {| w_store := set_nmc (w_store w) n'; w_loaded := w_loaded w |}); [|done..].
    exists ESpec. split; [done|]. split; [|done]. destruct w. by apply step_spec. }
  assert (¬ claimed s' k ∧ ¬ worker_done s' false k) as [H1 H2] by (split; intros H; apply Hno, Hl'; auto).
  split_and!; [|by intros ?; apply H1; right|by intros ?; apply H1; left|done].
  intros [Hk|Hk]%(co_accounted _ _ Hc'); [by apply H1; right|done].
Qed.
End release.

(** ** Example: a module comes to the node, and leaves it with its Module *)

Notation demo_labelled := (labelled_step (EXT := demo_externals) demo_worker_cfg "worker:v1").
Notation demo_orderly := (orderly_step (EXT := demo_externals) demo_worker_cfg "worker:v1").

(** The executable server of [Deploy], watching the finalizer. *)
Definition manage_release (c : call) (st : release) : resp c * release :=
  let r := manage c (rl_control st) in
  (r.1, {| rl_control := r.2; rl_released := rl_released st || gives_up c |}).

Definition demo_release (mod_ : Module_) (s : cluster) : list obs * option error * release :=
  run manage_release (Module_Reconcile (EXT := demo_externals) mod_)
    {| rl_control := {| ct_store := s; ct_mic := ct_mic demo_enabled |}; rl_released := false |}.

Lemma demo_release_steps mod_ s o st' :
  (demo_release mod_ s).1.2 = o → (demo_release mod_ s).2 = st' →
  steps releases {| rl_control := {| ct_store := s; ct_mic := ct_mic demo_enabled |}; rl_released := false |}
    (Module_Reconcile (EXT := demo_externals) mod_) st' (Some o).
Proof. intros <- <-. apply run_served. intros c st. split; [apply manage_manages|done]. Qed.

(** The steps of the histories. *)
Notation demo_step := (step (EXT := demo_externals) demo_worker_cfg "worker:v1").
Notation at_node s L := {| w_store := s; w_loaded := L |}.

Lemma demo_step_write s L s' :
  obj_key KNMC (cl_nmc s') = obj_key KNMC (cl_nmc s) → nmc_status_Modules (cl_nmc s') = nmc_status_Modules (cl_nmc s) →
  cl_node s' = cl_node s → cl_pods s' = cl_pods s → demo_step ESpec (at_node s L) (at_node s' L).
Proof.
  intros Hk Hs Hn Hp. replace s' with (set_nmc s (cl_nmc s')); [by apply step_spec|].
  destruct s', s. simpl in *. by subst.
Qed.

Lemma demo_step_pass s L s' :
  node_name s = "node-a" → (demo_pass true s).1.2 = None → (demo_pass true s).2 = s' →
  demo_step EPass (at_node s L) (at_node s' L).
Proof.
  intros Hn H1 H2. apply step_pass with (o := Some None). rewrite Hn. by apply steps_answers_serves, (demo_pass_steps true).
Qed.

(** Every step of a module's stay on the node. *)
Lemma demo_labelled_write s L s' : demo_step ESpec (at_node s L) (at_node s' L) → writes_labels (cl_nmc s) (cl_nmc s') →
  demo_labelled (at_node s L) (at_node s' L).
Proof. intros. by exists ESpec. Qed.

Lemma demo_labelled_pass s L s' : demo_step EPass (at_node s L) (at_node s' L) → demo_labelled (at_node s L) (at_node s' L).
Proof. intros. by exists EPass. Qed.

Lemma demo_step_done s L key p :
  cl_pods s !! key = Some p → finished p = false →
  demo_step (EDone p) (at_node s L) (at_node (set_pod s key (with_status p demo_succeeded_status)) (worker_effect p L)).
Proof. intros. by apply step_done. Qed.

Lemma demo_labelled_done s L p s' L' :
  cl_pods s !! demo_key = Some p → finished p = false → held p → (IsUnloaderPod (Some p) = false → in_use s (pod_module p)) →
  set_pod s demo_key (with_status p demo_succeeded_status) = s' → worker_effect p L = L' →
  demo_labelled (at_node s L) (at_node s' L').
Proof. intros Hp Hf Hh Hu <- <-. exists (EDone p). split; [done|]. split; [by apply demo_step_done|done]. Qed.

Lemma demo_arrives : rtc demo_labelled demo_idle (at_node demo_loaded {[module_nsn demo_module]}).
Proof.
  eapply rtc_l; [|eapply rtc_l; [|apply rtc_once]].
  - apply (demo_labelled_write _ _ (ct_store demo_enabled)); [by apply demo_step_write|].
    apply (enable_writes (EXT := demo_externals) demo_mld_6 (demo_node "node-a" ∅)). vm_compute. reflexivity.
  - apply (demo_labelled_pass _ _ demo_load_started), demo_step_pass; vm_compute; reflexivity.
  - apply (demo_labelled_done _ _ demo_loader); [vm_compute; reflexivity|reflexivity|vm_compute; left| |vm_compute; reflexivity..].
    intros _. vm_compute. reflexivity.
Qed.

Lemma demo_leaves : rtc demo_labelled (at_node demo_loaded {[module_nsn demo_module]}) (at_node demo_gone ∅).
Proof.
  eapply rtc_l; [|eapply rtc_l; [|eapply rtc_l; [|apply rtc_once]]].
  - apply (demo_labelled_write _ _ (ct_store demo_disabled)); [by apply demo_step_write|].
    apply (remove_writes "ns" "mod"). vm_compute. reflexivity.
  - apply (demo_labelled_pass _ _ demo_leaving), demo_step_pass; vm_compute; reflexivity.
  - apply (demo_labelled_done _ _ demo_leaver demo_left ∅); [vm_compute; reflexivity|reflexivity|vm_compute; left| |vm_compute; reflexivity..].
    intros H. vm_compute in H. discriminate.
  - apply (demo_labelled_pass _ _ demo_gone), demo_step_pass; vm_compute; reflexivity.
Qed.

Lemma demo_idle_labelled : labelled (w_store demo_idle).
Proof. intros k [[H|H]|(p & H & _)]; by vm_compute in H; try inversion H. Qed.

Lemma in_use_label_sound_witness : in_use demo_loaded (module_nsn demo_module).
Proof.
  apply (in_use_label_sound (EXT := demo_externals) demo_worker_cfg "worker:v1" demo_idle
    (at_node demo_loaded {[module_nsn demo_module]})).
  - by repeat split.
  - exact demo_idle_labelled.
  - exact demo_arrives.
  - right. right. cbn [w_loaded]. set_solver.
Defined.

Lemma finalizer_given_up_after_unload_witness :
  rl_released (demo_release demo_deleted_module demo_gone).2 = true ∧
  ¬ recorded demo_gone (module_nsn demo_module).
Proof.
  assert (rl_released (demo_release demo_deleted_module demo_gone).2 = true) as Hr by (vm_compute; reflexivity). split; [exact Hr|].
  destruct (finalizer_given_up_after_unload (EXT := demo_externals) demo_worker_cfg "worker:v1" demo_idle (at_node demo_gone ∅)
    {| rl_control := {| ct_store := demo_gone; ct_mic := ct_mic demo_enabled |}; rl_released := false |}
    (demo_release demo_deleted_module demo_gone).2 demo_deleted_module (Some None)) as (_ & H & _).
  - by repeat split.
  - exact demo_idle_labelled.
  - etrans; [exact demo_arrives|exact demo_leaves].
  - reflexivity.
  - reflexivity.
  - apply demo_release_steps; vm_compute; reflexivity.
  - exact Hr.
  - intros Hx. apply H. vm_compute in Hx. vm_compute. exact Hx.
Defined.

(** ** Example: the finalizer is given up and the module loaded afterwards *)

(** Two Modules of the same name, in two namespaces, are enabled on one node. *)
Definition demo_twin : Module_ := mod_set_meta demo_module (empty_meta "other" "mod").

Definition demo_twins : cluster := Eval vm_compute in
  let n := cl_nmc (ct_store demo_enabled) in
  {| cl_node := demo_node "node-a" ∅;
     cl_nmc := match GetModuleLoaderDataForKernel (EXT := demo_externals) demo_twin "6.1.0" with
               | Ok mld => match enable_mutate (EXT := demo_externals) mld (demo_node "node-a" ∅) n with Ok n' => n' | Err _ => n end
               | Err _ => n
               end;
     cl_pods := ∅ |}.

(** Their loaders are started; one Module is deleted and taken off the spec; a pass of the node
    follows. *)
Definition demo_twins_started : cluster := Eval vm_compute in (demo_pass true demo_twins).2.
Definition demo_twin_disabled : cluster :=
  Eval vm_compute in ct_store (rl_control (demo_release demo_deleted_module demo_twins_started).2).
Definition demo_twin_unlabelled : cluster := Eval vm_compute in (demo_pass true demo_twin_disabled).2.
Definition demo_twin_released : release := Eval vm_compute in (demo_release demo_deleted_module demo_twin_unlabelled).2.
Definition demo_twin_loader : Pod := Eval vm_compute in default demo_pod (cl_pods demo_twin_unlabelled !! demo_key).

Lemma demo_twins_labelled : labelled demo_twins.
Proof.
  intros k [[H|H]|(p & H & _)]; [|by vm_compute in H; inversion H..].
  unfold in_spec in H. vm_compute in H. repeat (apply elem_of_cons in H as [->|H]; [vm_compute; reflexivity|]). inversion H.
Qed.

Lemma demo_twins_history : rtc demo_orderly (at_node demo_twins ∅) (at_node demo_twin_unlabelled ∅).
Proof.
  eapply rtc_l; [|eapply rtc_l; [|apply rtc_once]].
  - exists EPass. split; [done|]. apply (demo_step_pass _ _ demo_twins_started); vm_compute; reflexivity.
  - exists ESpec. split; [done|]. by apply (demo_step_write _ _ demo_twin_disabled).
  - exists EPass. split; [done|]. apply demo_step_pass; vm_compute; reflexivity.
Qed.

(** The one order of events the two theorems leave out.  The pass of the node identifies the module of a pending
    pod by its name only: because of the twin's entry in the spec it does not collect the loader
    pod of the deleted Module, yet it takes the in-use label away.  The next pass of the deleted
    Module gives up the finalizer; then the loader, still held by the controller, ends
    well: the module is loaded, no Module stands for it and its label is gone. *)
Theorem finalizer_given_up_while_loading :
  let k := module_nsn demo_module in
  initial (at_node demo_twins ∅) ∧ labelled demo_twins ∧
  rtc demo_orderly (at_node demo_twins ∅) (at_node demo_twin_unlabelled ∅) ∧
  steps releases {| rl_control := {| ct_store := demo_twin_unlabelled; ct_mic := ct_mic demo_enabled |}; rl_released := false |}
    (Module_Reconcile (EXT := demo_externals) demo_deleted_module) demo_twin_released (Some None) ∧
  rl_released demo_twin_released = true ∧
  ∃ s', demo_orderly (at_node (ct_store (rl_control demo_twin_released)) ∅) (at_node s' {[k]}) ∧ ¬ in_use s' k ∧ ¬ in_spec s' k.
Proof.
  intros k. split; [by repeat split|]. split; [exact demo_twins_labelled|]. split; [exact demo_twins_history|].
  split; [apply demo_release_steps; vm_compute; reflexivity|]. split; [reflexivity|].
  exists (set_pod (ct_store (rl_control demo_twin_released)) demo_key (with_status demo_twin_loader demo_succeeded_status)). split_and!.
  - replace {[k]} with (worker_effect demo_twin_loader ∅) by (vm_compute; reflexivity).
    exists (EDone demo_twin_loader). split; [vm_compute; left|]. by apply demo_step_done; [vm_compute|].
  - intros H. vm_compute in H. discriminate.
  - intros H. unfold in_spec in H. vm_compute in H. repeat (apply elem_of_cons in H as [H|H]; [discriminate|]). inversion H.
Qed.
