(* ===== verification/BuildSign.v ===== *)
(** * Build and sign pods ([internal/buildsign/manager.go],
    [internal/buildsign/resource/*.go])

    A build or a signing is one pod per module, kernel and action.  The pod carries a hash of
    everything that determines its result; [Sync] creates the missing pod and deletes a pod
    whose hash is outdated, [GetStatus] reads the outcome, [GarbageCollect] deletes the pods
    that succeeded. *)

From S2P Require Import Prelude Types Kube GoStrings Externals Demo Labels NmcHelper Node KernelMapper.

Open Scope string_scope.
Open Scope nat_scope.
Open Scope list_scope.

Definition ErrNoMatchingBuildSignResource : string := "no matching build or sign resource".

Definition dockerfileAnnotationKey := "dockerfile".
Definition dockerfileVolumeName := "dockerfile".
Definition DockerConfigJsonKey := ".dockerconfigjson".

Definition action_string (a : BuildOrSignAction) : string :=
  match a with BuildImage => "BuildImage" | SignImage => "SignImage" end.

Inductive bs_Status := StatusCompleted | StatusCreated | StatusInProgress | StatusFailed.

(** ** Labels *)

Definition moduleLabels (moduleName : string) (resourceType : BuildOrSignAction) : labels_t :=
  {[ constants.ModuleNameLabel := moduleName; constants.ResourceType := action_string resourceType ]}.

Definition moduleKernelLabels (moduleName targetKernel : string) (resourceType : BuildOrSignAction) : labels_t :=
  <[constants.TargetKernelTarget := targetKernel]> (moduleLabels moduleName resourceType).

Definition resourceLabels (modName targetKernel : string) (resourceType : BuildOrSignAction) : labels_t :=
  <["app.kubernetes.io/part-of" := "kmm"]>
    (<["app.kubernetes.io/component" := action_string resourceType]>
       (<["app.kubernetes.io/name" := "kmm"]> (moduleKernelLabels modName targetKernel resourceType))).

(** ** Volumes ([volumes.go]) *)

Definition ro_mount (name path : string) : VolumeMount :=
  {| vm_Name := name; vm_MountPath := path; vm_SubPath := ""; vm_ReadOnly := true |}.

Definition repo_secret_volumes (imageRepoSecret : option LocalObjectReference) : list Volume :=
  match imageRepoSecret with
  | None => []
  | Some s => [{| vol_Name := "secret-" +:+ s; vol_Source := VolSecret s [(DockerConfigJsonKey, "config.json")] |}]
  end.

Definition repo_secret_mounts (imageRepoSecret : option LocalObjectReference) : list VolumeMount :=
  match imageRepoSecret with
  | None => []
  | Some s => [ro_mount ("secret-" +:+ s) "/kaniko/.docker"]
  end.

(** The Dockerfile config map is dereferenced. *)
Definition makeBuildResourceVolumesAndVolumeMounts (buildConfig : Build) (imageRepoSecret : option LocalObjectReference) : result (list Volume * list VolumeMount) :=
  match build_DockerfileConfigMap buildConfig with
  | None => Err (ErrPanic "nil DockerfileConfigMap")
  | Some cm =>
      Ok ([{| vol_Name := dockerfileVolumeName; vol_Source := VolConfigMap cm [(constants.DockerfileCMKey, "Dockerfile")] |};
           {| vol_Name := "lib-modules"; vol_Source := VolHostPath "/lib/modules" "Directory" |}] ++
          ((λ s, {| vol_Name := "secret-" +:+ s; vol_Source := VolSecret s [] |}) <$> build_Secrets buildConfig) ++
          repo_secret_volumes imageRepoSecret,
          [ro_mount dockerfileVolumeName "/workspace"; ro_mount "lib-modules" "/host/lib/modules"] ++
          ((λ s, ro_mount ("secret-" +:+ s) ("/run/secrets/" +:+ s)) <$> build_Secrets buildConfig) ++
          repo_secret_mounts imageRepoSecret)
  end.

(** The two secrets are dereferenced. *)
Definition makeSignResourceVolumesAndVolumeMounts (signConfig : Sign) (imageRepoSecret : option LocalObjectReference) : result (list Volume * list VolumeMount) :=
  match sign_CertSecret signConfig, sign_KeySecret signConfig with
  | Some cert, Some key =>
      Ok ([{| vol_Name := "secret-" +:+ cert; vol_Source := VolSecret cert [("cert", "cert.pem")] |};
           {| vol_Name := "secret-" +:+ key; vol_Source := VolSecret key [("key", "key.pem")] |};
           {| vol_Name := dockerfileVolumeName;
              vol_Source := VolDownwardAPI [("Dockerfile", "metadata.annotations['" +:+ dockerfileAnnotationKey +:+ "']")] |}] ++
          repo_secret_volumes imageRepoSecret,
          [ro_mount ("secret-" +:+ cert) "/run/secrets/cert"; ro_mount ("secret-" +:+ key) "/run/secrets/key";
           ro_mount dockerfileVolumeName "/workspace"] ++
          repo_secret_mounts imageRepoSecret)
  | _, _ => Err (ErrPanic "nil signing secret")
  end.

(** ** Pod specs ([common.go]) *)

(** [RegistryTLS] is dereferenced when the image is pushed. *)
Definition containerArgs (mld : ModuleLoaderData) (destinationImg : string) (tlsOptions : TLSOptions) (pushImage : bool) : result (list string) :=
  args ← (if pushImage then
            match mld_RegistryTLS mld with
            | None => Err (ErrPanic "nil RegistryTLS")
            | Some tls =>
                Ok (["--destination"; destinationImg] ++
                    (if tls_Insecure tls then ["--insecure"] else []) ++
                    (if tls_InsecureSkipTLSVerify tls then ["--skip-tls-verify"] else []))
            end
          else Ok ["--no-push"]);
  Ok (args ++ (if tls_Insecure tlsOptions then ["--insecure-pull"] else []) ++
      (if tls_InsecureSkipTLSVerify tlsOptions then ["--skip-tls-verify-pull"] else [])).

Definition kaniko_container (args : list string) (image : string) (mounts : list VolumeMount) : Container :=
  {| ct_Name := "kaniko"; ct_Image := image; ct_ImagePullPolicy := ""; ct_Command := []; ct_Args := args;
     ct_Env := []; ct_Resources := ""; ct_SecurityContext := None; ct_VolumeMounts := mounts;
     ct_LivenessProbe := None; ct_StartupProbe := None |}.

Definition kaniko_spec (c : Container) (volumes : list Volume) (selector : labels_t) (tolerations : list Toleration) : PodSpec :=
  {| ps_InitContainers := []; ps_Containers := [c]; ps_NodeName := ""; ps_NodeSelector := selector;
     ps_RestartPolicy := "Never"; ps_ServiceAccountName := ""; ps_ImagePullSecrets := [];
     ps_Volumes := volumes; ps_Tolerations := tolerations; ps_PriorityClassName := "";
     ps_AutomountServiceAccountToken := None; ps_HostNetwork := false |}.

(** The build arguments the operator imposes. *)
Definition build_overrides (mld : ModuleLoaderData) : list BuildArg :=
  [{| ba_Name := "KERNEL_VERSION"; ba_Value := mld_KernelVersion mld |};
   {| ba_Name := "KERNEL_FULL_VERSION"; ba_Value := mld_KernelVersion mld |};
   {| ba_Name := "MOD_NAME"; ba_Value := mld_Name mld |};
   {| ba_Name := "MOD_NAMESPACE"; ba_Value := mld_Namespace mld |}].

(** The text before the first [@] or [:]. *)
Definition image_name (image : string) : string :=
  default "" (head (split_on (λ c, is_char "@" c || is_char ":" c) image)).

Definition kaniko_image (image : string) (tag : option string) : string :=
  match tag with
  | Some t => if String.eqb t "" then image else image_name image +:+ ":" +:+ t
  | None => image
  end.

Definition newline : string := String "010"%char "".
Definition dquote : string := String "034"%char "".

(** [templates/Dockerfile.gotmpl]. *)
Definition sign_dockerfile (filesToSign : list string) (signImage unsignedImage dirName : string) : string :=
  let file := dquote +:+ "${file}" +:+ dquote in
  let sign_one f :=
    newline +:+ "RUN for file in /opt" +:+ f +:+ "; do \" +:+ newline +:+
    "      [ -e " +:+ file +:+ " ] && /usr/local/bin/sign-file sha256 /run/secrets/key/key.pem /run/secrets/cert/cert.pem " +:+
    file +:+ "; \" +:+ newline +:+ "    done" in
  "FROM " +:+ unsignedImage +:+ " as source" +:+ newline +:+ newline +:+
  "FROM " +:+ signImage +:+ " AS signimage" +:+ newline +:+
  "COPY --from=source " +:+ dirName +:+ " /opt" +:+ dirName +:+
  foldr (λ f s, sign_one f +:+ s) "" filesToSign +:+ newline +:+ newline +:+
  "FROM source" +:+ newline +:+
  "COPY --from=signimage /opt" +:+ dirName +:+ " " +:+ dirName +:+ newline.

Section buildsign.
Context `{EXT : Externals}.

(** The build section is dereferenced. *)
Definition buildSpec (mld : ModuleLoaderData) (destinationImg : string) (pushImage : bool) : result PodSpec :=
  match mld_Build mld with
  | None => Err (ErrPanic "nil Build")
  | Some buildConfig =>
      args ← containerArgs mld destinationImg (build_BaseImageRegistryTLS buildConfig) pushImage;
      let buildArgs := ApplyBuildArgOverrides (build_BuildArgs buildConfig) (build_overrides mld) in
      let args := args ++ (buildArgs ≫= λ ba, ["--build-arg"; ba_Name ba +:+ "=" +:+ ba_Value ba]) in
      let kanikoImage := kaniko_image (os_Getenv "RELATED_IMAGE_BUILD") (build_KanikoTag buildConfig) in
      let selector := if bool_decide (build_Selector buildConfig = ∅) then mld_Selector mld else build_Selector buildConfig in
      '(volumes, volumeMounts) ← makeBuildResourceVolumesAndVolumeMounts buildConfig (mld_ImageRepoSecret mld);
      Ok (kaniko_spec (kaniko_container args kanikoImage volumeMounts) volumes selector (mld_Tolerations mld))
  end.

Definition signSpec (mld : ModuleLoaderData) (destinationImg : string) (pushImage : bool) : result PodSpec :=
  match mld_Sign mld with
  | None => Err (ErrPanic "nil Sign")
  | Some signConfig =>
      args ← containerArgs mld destinationImg (sign_UnsignedImageRegistryTLS signConfig) pushImage;
      '(volumes, volumeMounts) ← makeSignResourceVolumesAndVolumeMounts signConfig (mld_ImageRepoSecret mld);
      Ok (kaniko_spec (kaniko_container args (os_Getenv "RELATED_IMAGE_BUILD") volumeMounts) volumes
            (mld_Selector mld) (mld_Tolerations mld))
  end.

Definition getBuildHashAnnotationValue (configMapName namespace : string) (spec : PodSpec) : prog (result N) :=
  r ← get KConfigMap (nsn namespace configMapName);
  mret (match r with
        | Err e => Err (Errorf_v "failed to get dockerfile ConfigMap %s: %v" e)
        | Ok cm =>
            match cm_Data cm !! constants.DockerfileCMKey with
            | None => Err (ErrNew "invalid Dockerfile ConfigMap %s format, %s key is missing")
            | Some dockerfile =>
                wrap_v "could not hash build's spec template and dockefile: %v" (hashstructure_Hash_build spec dockerfile)
            end
        end).

Definition getSecretData (secretName secretDataKey namespace : string) : prog (result string) :=
  r ← get KSecret (nsn namespace secretName);
  mret (match r with
        | Err e => Err (Errorf_v "failed to get Secret %s: %v" e)
        | Ok s =>
            match sec_Data s !! secretDataKey with
            | None => Err (ErrNew "invalid Secret %s format, %s key is missing")
            | Some data => Ok data
            end
        end).

Definition getSignHashAnnotationValue (privateSecret publicSecret namespace signConfig : string) (spec : PodSpec) : prog (result N) :=
  r ← getSecretData privateSecret constants.PrivateSignDataKey namespace;
  match r with
  | Err e => mret (Err (Errorf_v "failed to get private secret %s for signing: %v" e))
  | Ok privateKeyData =>
      r ← getSecretData publicSecret constants.PublicSignDataKey namespace;
      mret (match r with
            | Err e => Err (Errorf_v "failed to get public secret %s for signing: %v" e)
            | Ok publicKeyData =>
                wrap_v "could not hash sign's spec template and signing keys: %v"
                  (hashstructure_Hash_sign spec privateKeyData publicKeyData signConfig)
            end)
  end.

(** The pod of a build or signing, before the owner is set. *)
Definition resource_pod (mld : ModuleLoaderData) (action : BuildOrSignAction) (annotations : gmap string string) (spec : PodSpec) : Pod :=
  {| pod_meta :=
       {| om_Name := mld_Name mld +:+ (match action with BuildImage => "-build-" | SignImage => "-sign-" end) +:+ mld_KernelNormalizedVersion mld;
          om_GenerateName := ""; om_Namespace := mld_Namespace mld; om_UID := ""; om_Generation := 0%Z; om_CreationTimestamp := "";
          om_Labels := resourceLabels (mld_Name mld) (mld_KernelNormalizedVersion mld) action;
          om_Annotations := annotations;
          om_Finalizers := [constants.GCDelayFinalizer; constants.JobEventFinalizer];
          om_OwnerReferences := []; om_DeletionTimestamp := None |};
     pod_spec := spec;
     pod_status := {| pst_Phase := PodPhaseUnset; pst_ContainerStatuses := []; pst_Ready := false |} |}.

Definition own_pod (ownerKind : string) (owner : ObjectMeta) (p : Pod) : result Pod :=
  m ← wrap_v "could not set the owner reference: %v" (SetControllerReference ownerKind owner (pod_meta p));
  Ok (pod_set_meta p m).

Definition makeBuildTemplate (mld : ModuleLoaderData) (ownerKind : string) (owner : ObjectMeta) (pushImage : bool) : prog (result Pod) :=
  match buildSpec mld (mld_ContainerImage mld) pushImage with
  | Err e => mret (Err e)
  | Ok spec =>
      match mld_Build mld ≫= build_DockerfileConfigMap with
      | None => mret (Err (ErrPanic "nil DockerfileConfigMap"))
      | Some cm =>
          r ← getBuildHashAnnotationValue cm (mld_Namespace mld) spec;
          mret (match r with
                | Err e => Err (Errorf_v "could not hash resource's definitions: %v" e)
                | Ok hash =>
                    own_pod ownerKind owner
                      (resource_pod mld BuildImage {[ constants.ResourceHashAnnotation := pretty hash ]} spec)
                end)
      end
  end.

Definition makeSignTemplate (mld : ModuleLoaderData) (ownerKind : string) (owner : ObjectMeta) (pushImage : bool) : prog (result Pod) :=
  match mld_Sign mld with
  | None => mret (Err (ErrPanic "nil Sign"))
  | Some signConfig =>
      let unsigned :=
        if ShouldBeBuilt mld then Some (mld_ContainerImage mld)
        else if negb (String.eqb (sign_UnsignedImage signConfig) "") then Some (sign_UnsignedImage signConfig)
        else None in
      match unsigned with
      | None => mret (Err (ErrNew "no image to sign given"))
      | Some unsignedImage =>
          let buf := sign_dockerfile (sign_FilesToSign signConfig) (os_Getenv "RELATED_IMAGE_SIGN") unsignedImage
                       (mp_DirName (mld_Modprobe mld)) in
          match signSpec mld (mld_ContainerImage mld) pushImage with
          | Err e => mret (Err e)
          | Ok spec =>
              match sign_KeySecret signConfig, sign_CertSecret signConfig with
              | Some key, Some cert =>
                  r ← getSignHashAnnotationValue key cert (mld_Namespace mld) buf spec;
                  mret (match r with
                        | Err e => Err (Errorf_v "could not hash resource's definitions: %v" e)
                        | Ok hash =>
                            own_pod ownerKind owner
                              (resource_pod mld SignImage
                                 {[ constants.ResourceHashAnnotation := pretty hash; dockerfileAnnotationKey := buf ]} spec)
                        end)
              | _, _ => mret (Err (ErrPanic "nil signing secret"))
              end
          end
      end
  end.

(** ** [resourcemanager.go] *)

Definition MakeResourceTemplate (mld : ModuleLoaderData) (ownerKind : string) (owner : ObjectMeta) (pushImage : bool) (resourceType : BuildOrSignAction) : prog (result Pod) :=
  match resourceType with
  | BuildImage => makeBuildTemplate mld ownerKind owner pushImage
  | SignImage => makeSignTemplate mld ownerKind owner pushImage
  end.

Definition CreateResource (p : Pod) : prog (option error) := create KPod p.

(** With background propagation. *)
Definition DeleteResource (p : Pod) : prog (option error) := delete_obj KPod p.

Definition filterResourcesByOwner (resources : list Pod) (owner : ObjectMeta) : list Pod :=
  filter (λ p, IsControlledBy (pod_meta p) owner = true) resources.

Definition getResources (namespace : string) (labels : labels_t) : prog (result (list Pod)) :=
  r ← list_all KPod [MatchingLabels labels; InNamespace namespace];
  mret (wrap_v "could not list resources: %v" r).

Definition GetResourceByKernel (name namespace targetKernel : string) (resourceType : BuildOrSignAction) (owner : ObjectMeta) : prog (result Pod) :=
  r ← getResources namespace (moduleKernelLabels name targetKernel resourceType);
  mret (match r with
        | Err e => Err (Errorf_v "failed to get module %s, resources by kernel %s: %v" e)
        | Ok resources =>
            match filterResourcesByOwner resources owner with
            | [] => Err (ErrSentinel ErrNoMatchingBuildSignResource)
            | [p] => Ok p
            | _ => Err (ErrNew "expected 0 or 1 %s resources, got %d")
            end
        end).

Definition GetResourceStatus (p : Pod) : result bs_Status :=
  match pod_Phase p with
  | PodSucceeded => Ok StatusCompleted
  | PodRunning | PodPending => Ok StatusInProgress
  | PodFailed => Ok StatusFailed
  | _ => Err (ErrNew "unknown status: %v")
  end.

Definition IsResourceChanged (existing new : Pod) : result bool :=
  if bool_decide (pod_Annotations existing = ∅) then Err (ErrNew "annotations are not present in the existing resource %s")
  else Ok (negb (String.eqb (map_get (pod_Annotations existing) constants.ResourceHashAnnotation)
                            (map_get (pod_Annotations new) constants.ResourceHashAnnotation))).

Definition GetModuleResources (modName namespace : string) (resourceType : BuildOrSignAction) (owner : ObjectMeta) : prog (result (list Pod)) :=
  r ← getResources namespace (moduleLabels modName resourceType);
  mret (match r with
        | Err e => Err (Errorf_v "failed to get resources for module %s, namespace %s: %v" e)
        | Ok resources => Ok (filterResourcesByOwner resources owner)
        end).

Definition HasResourcesCompletedSuccessfully (p : Pod) : bool := bool_decide (pod_Phase p = PodSucceeded).

(** ** [manager.go] *)

Definition GetStatus (name namespace kernelVersion : string) (action : BuildOrSignAction) (owner : ObjectMeta) : prog (result BuildOrSignStatus) :=
  r ← GetResourceByKernel name namespace (DNSSafeKernelVersion kernelVersion) action owner;
  mret (match r with
        | Err e =>
            if negb (errors_Is e ErrNoMatchingBuildSignResource) then
              Err (Errorf_v "failed to get resource %s/%s, action %s: %v" e)
            else Ok ActionUnset
        | Ok foundResource =>
            match GetResourceStatus foundResource with
            | Err e => Err (Errorf_v "failed to get status for the resource %s/%s, action %s: %v" e)
            | Ok StatusCompleted => Ok ActionSuccess
            | Ok StatusFailed => Ok ActionFailure
            | Ok StatusInProgress | Ok StatusCreated => Ok ActionUnset
            end
        end).

Definition Sync (mld : ModuleLoaderData) (pushImage : bool) (action : BuildOrSignAction) (ownerKind : string) (owner : ObjectMeta) : prog (option error) :=
  r ← MakeResourceTemplate mld ownerKind owner pushImage action;
  match r with
  | Err e => mret (Some (rethrow_v "could not make the resource's template template: %v" e))
  | Ok resourceTemplate =>
      r ← GetResourceByKernel (mld_Name mld) (mld_Namespace mld) (mld_KernelNormalizedVersion mld) action owner;
      match r with
      | Err e =>
          if negb (errors_Is e ErrNoMatchingBuildSignResource) then
            mret (Some (Errorf_v "error getting the %s resource: %v" e))
          else
            err ← CreateResource resourceTemplate;
            mret (match err with
                  | None => None
                  | Some e => if IsAlreadyExists e then None else Some (Errorf_v "could not create resource: %v" e)
                  end)
      | Ok resource =>
          match IsResourceChanged resource resourceTemplate with
          | Err e => mret (Some (Errorf_v "could not determine if the resource has changed: %v" e))
          | Ok true => _ ← DeleteResource resource; mret None
          | Ok false => mret None
          end
      end
  end.

(** One iteration of the garbage collection: the names of the deleted resources and the
    errors. *)
Definition gc_step (p : Pod) (st : list string * list (option error)) : prog (list string * list (option error)) :=
  let '(deleted, errs) := st in
  if HasResourcesCompletedSuccessfully p then
    err ← DeleteResource p;
    mret (match err with
          | Some e => (deleted, errs ++ [Some e])
          | None => (deleted ++ [pod_Name p], errs ++ [None])
          end)
  else mret st.

Definition GarbageCollect (name namespace : string) (action : BuildOrSignAction) (owner : ObjectMeta) : prog (list string * option error) :=
  r ← GetModuleResources name namespace action owner;
  match r with
  | Err e => mret ([], Some (Errorf_v "failed to get %s resources for mbsc %s/%s: %v" e))
  | Ok resources =>
      '(deleted, errs) ← for_range resources gc_step ([], []);
      mret (deleted, errors_Join errs)
  end.
End buildsign.

(** ** Properties *)

Section buildsign_props.
Context `{EXT : Externals} `{EXTL : !ExternalsLaws}.

Definition hash_of (p : Pod) : string := map_get (pod_Annotations p) constants.ResourceHashAnnotation.

(** What identifies the pod of a build or signing in the cluster. *)
Definition resource_ok (mld : ModuleLoaderData) (owner : ObjectMeta) (action : BuildOrSignAction) (p : Pod) : Prop :=
  pod_Namespace p = mld_Namespace mld ∧
  pod_Labels p = resourceLabels (mld_Name mld) (mld_KernelNormalizedVersion mld) action ∧
  IsControlledBy (pod_meta p) owner = true ∧
  is_Some (pod_Annotations p !! constants.ResourceHashAnnotation) ∧
  constants.GCDelayFinalizer ∈ om_Finalizers (pod_meta p).

Definition is_read (o : obs) : Prop := mutates (obs_call o) = false.

Lemma own_pod_ok mld owner action kd ann spec p :
  is_Some (ann !! constants.ResourceHashAnnotation) →
  own_pod kd owner (resource_pod mld action ann spec) = Ok p → resource_ok mld owner action p.
Proof.
  intros Hann. unfold own_pod. intros (m & Hm%wrap_v_Ok & [= <-])%result_bind_Ok.
  pose proof (SetControllerReference_controls _ _ _ _ Hm) as Hc. apply SetControllerReference_spec in Hm.
  unfold resource_ok, pod_Namespace, pod_Labels, pod_Annotations. simpl. split_and!; [by rewrite Hm|by rewrite Hm|done|by rewrite Hm|].
  rewrite Hm. simpl. by left.
Qed.

Lemma MakeResourceTemplate_wp mld kd owner push action :
  wp (MakeResourceTemplate mld kd owner push action) (λ tr r,
    Forall is_read tr ∧ ∀ p, r = Ok p → resource_ok mld owner action p).
Proof.
  unfold MakeResourceTemplate, makeBuildTemplate, makeSignTemplate. destruct action.
  - destruct (buildSpec _ _ _) as [spec|e]; [|done]. destruct (mld_Build mld ≫= _) as [cm|]; [|done].
    intros x. simpl in x. destruct x as [cmap|e]; cbn [mbind prog_bind wp mret prog_ret]; (split; [by repeat constructor|]); [|done].
    intros p. destruct (cm_Data cmap !! _); [|done].
    destruct (hashstructure_Hash_build _ _) as [h|e]; simpl; [|done].
    apply own_pod_ok. rewrite lookup_singleton_eq. eauto.
  - destruct (mld_Sign mld) as [sc|]; [|done]. case_match; [|done]. destruct (signSpec _ _ _) as [spec|e]; [|done].
    destruct (sign_KeySecret sc) as [key|], (sign_CertSecret sc) as [cert|]; try done.
    set (buf := sign_dockerfile _ _ _ _).
    intros x. simpl in x. destruct x as [sec|e]; [|split; [by repeat constructor|done]]. cbn -[sign_dockerfile].
    destruct (sec_Data sec !! _); [|split; [by repeat constructor|done]].
    intros y. destruct y as [sec2|e]; (split; [by repeat constructor|]); [|done].
    intros p. destruct (sec_Data sec2 !! _); [|done].
    destruct (hashstructure_Hash_sign _ _ _ _) as [h|e]; simpl; [|done].
    apply own_pod_ok. rewrite lookup_insert_eq. eauto.
Qed.

(** ** Finding the pods again *)

Lemma resourceLabels_match modName kernel action :
  moduleKernelLabels modName kernel action ⊆ resourceLabels modName kernel action ∧
  moduleLabels modName action ⊆ resourceLabels modName kernel action.
Proof.
  unfold resourceLabels. assert (∀ m k (v : string) (l : labels_t), m ⊆ l → l !! k = None → m ⊆ <[k := v]> l) as Hins.
  { intros m k v l Hm Hk. etrans; [exact Hm|]. by apply insert_subseteq. }
  assert (moduleLabels modName action ⊆ moduleKernelLabels modName kernel action) as Hk.
  { unfold moduleKernelLabels. apply insert_subseteq. vm_compute. reflexivity. }
  split; do 3 (apply Hins; [|vm_compute; reflexivity]); [reflexivity|exact Hk].
Qed.

Lemma moduleKernelLabels_distinct modName kernel action modName' kernel' action' :
  moduleKernelLabels modName kernel action ⊆ resourceLabels modName' kernel' action' →
  modName = modName' ∧ kernel = kernel' ∧ action = action'.
Proof.
  rewrite map_subseteq_spec. intros H.
  assert (resourceLabels modName' kernel' action' !! constants.ModuleNameLabel = Some modName) as H1 by by apply H.
  assert (resourceLabels modName' kernel' action' !! constants.TargetKernelTarget = Some kernel) as H2 by by apply H.
  assert (resourceLabels modName' kernel' action' !! constants.ResourceType = Some (action_string action)) as H3 by by apply H.
  vm_compute in H1, H2. simplify_eq. split_and!; [done|done|].
  destruct action, action'; [done| | |done]; vm_compute in H3; by simplify_eq.
Qed.

(** C32: the pod of a build or signing is found again, and only it: the labels by which
    [Sync], [GetStatus] and [GarbageCollect] list pods select the pod a template produces for
    the same module, kernel and action and for no other, its owner passes the owner filter,
    and the pod does not count as changed with respect to its own template. *)
Theorem resource_template_found mld kd owner push action :
  wp (MakeResourceTemplate mld kd owner push action) (λ _ r, ∀ p, r = Ok p →
    (∀ name kernel action', moduleKernelLabels name kernel action' ⊆ pod_Labels p ↔
       name = mld_Name mld ∧ kernel = mld_KernelNormalizedVersion mld ∧ action' = action) ∧
    moduleLabels (mld_Name mld) action ⊆ pod_Labels p ∧
    pod_Namespace p = mld_Namespace mld ∧
    filterResourcesByOwner [p] owner = [p] ∧
    IsResourceChanged p p = Ok false).
Proof.
  eapply wp_mono; [|apply MakeResourceTemplate_wp]. intros tr r [_ Hp] p Hr.
  destruct (Hp p Hr) as (Hns & Hl & Hc & [h Hh] & _).
  destruct (resourceLabels_match (mld_Name mld) (mld_KernelNormalizedVersion mld) action) as [Hm1 Hm2].
  rewrite Hl. split_and!; [|done|done| |].
  - intros name kernel action'. split; [apply moduleKernelLabels_distinct|]. by intros (-> & -> & ->).
  - unfold filterResourcesByOwner. by rewrite filter_cons_True.
  - unfold IsResourceChanged. rewrite bool_decide_false by (intros E; by rewrite E in Hh).
    by rewrite String.eqb_refl.
Qed.

(** ** Synchronization *)

Definition resource_list (mld : ModuleLoaderData) (action : BuildOrSignAction) : call :=
  ListAll KPod [MatchingLabels (moduleKernelLabels (mld_Name mld) (mld_KernelNormalizedVersion mld) action);
                InNamespace (mld_Namespace mld)].

(** The change [Sync] makes, given the pods listed and the desired one. *)
Definition sync_change (owner : ObjectMeta) (new : Pod) (pods : list Pod) (post : list obs) (err : option error) : Prop :=
  match filter (λ p, IsControlledBy (pod_meta p) owner = true) pods with
  | [] => ∃ x, post = [Obs (Create KPod new) x] ∧
               (err = None ↔ is_ok x = true ∨ ∃ e, x = Err e ∧ IsAlreadyExists e = true)
  | [old] =>
      if bool_decide (pod_Annotations old = ∅) then post = [] ∧ is_Some err
      else if bool_decide (hash_of old = hash_of new) then post = [] ∧ err = None
      else (∃ x, post = [Obs (Delete KPod old) x]) ∧ err = None
  | _ => post = [] ∧ is_Some err
  end.

(** C14: [Sync] makes the template of the pod from the module, lists the pods of the module,
    kernel and action, and makes at most one change: it creates the pod of the template
    exactly when the owner has none, deletes the owner's pod exactly when the hash it carries
    differs from the one of the template, and leaves an up-to-date pod alone.  It changes
    nothing, and fails, when the template cannot be made, the list fails, the owner has
    several pods or its pod carries no annotation. *)
Theorem Sync_behaviour mld push action kd owner :
  wp (Sync mld push action kd owner) (λ tr err,
    (∃ e, exec (MakeResourceTemplate mld kd owner push action) tr (Err e) ∧ Forall is_read tr ∧ is_Some err) ∨
    ∃ pre new a post, tr = pre ++ Obs (resource_list mld action) a :: post ∧
      exec (MakeResourceTemplate mld kd owner push action) pre (Ok new) ∧ Forall is_read pre ∧
      match a with
      | Err _ => post = [] ∧ is_Some err
      | Ok pods => sync_change owner new pods post err
      end).
Proof.
  unfold Sync. apply wp_bind. apply wp_exec. intros pre r Hrun.
  pose proof (proj1 (wp_exec _ _) (MakeResourceTemplate_wp mld kd owner push action) _ _ Hrun) as [Hpre _].
  destruct r as [new|e]; cbn [wp mret prog_ret]; [|left; rewrite app_nil_r; eauto].
  intros a. assert (∀ post err, (match a with Err _ => post = [] ∧ is_Some err | Ok pods => sync_change owner new pods post err end) →
      (∃ e, exec (MakeResourceTemplate mld kd owner push action) (pre ++ Obs (resource_list mld action) a :: post) (Err e) ∧
            Forall is_read (pre ++ Obs (resource_list mld action) a :: post) ∧ is_Some err) ∨
      ∃ pre' new' a' post', pre ++ Obs (resource_list mld action) a :: post = pre' ++ Obs (resource_list mld action) a' :: post' ∧
        exec (MakeResourceTemplate mld kd owner push action) pre' (Ok new') ∧ Forall is_read pre' ∧
        match a' with Err _ => post' = [] ∧ is_Some err | Ok pods => sync_change owner new' pods post' err end) as Hfin
    by (intros post err H; right; by exists pre, new, a, post).
  simpl in a. destruct a as [pods|e]; cbn [mbind prog_bind wp mret prog_ret]; fold (resource_list mld action); simpl; [|apply Hfin; eauto].
  unfold sync_change in Hfin. change (filterResourcesByOwner pods owner) with (filter (λ p, IsControlledBy (pod_meta p) owner = true) pods).
  destruct (filter _ pods) as [|old [|old' l]]; simpl.
  - intros x. apply Hfin. exists x. split; [done|]. destruct x as [|e]; simpl; [by split; [left|]|].
    destruct (IsAlreadyExists e) eqn:E; split; [by right; exists e|done|done|].
    intros [H|(e' & [= <-] & H)]; congruence.
  - unfold IsResourceChanged. case_bool_decide as Ha; simpl; [apply Hfin; eauto|].
    unfold hash_of in Hfin. destruct (String.eqb_spec (map_get (pod_Annotations old) constants.ResourceHashAnnotation)
      (map_get (pod_Annotations new) constants.ResourceHashAnnotation)) as [E|E]; simpl.
    + apply Hfin. by rewrite bool_decide_true.
    + intros x. apply Hfin. rewrite bool_decide_false by done. eauto.
  - apply Hfin. eauto.
Qed.

(** The garbage collection deletes, of the pods listed for the module and action, exactly
    those of the owner that succeeded, one deletion each; a failed deletion does not stop it
    but is reported. *)
Theorem GarbageCollect_behaviour name namespace action owner :
  wp (GarbageCollect name namespace action owner) (λ tr r,
    (∃ e, tr = [Obs (ListAll KPod [MatchingLabels (moduleLabels name action); InNamespace namespace]) (Err e)] ∧
          is_Some r.2) ∨
    ∃ pods dels, tr = Obs (ListAll KPod [MatchingLabels (moduleLabels name action); InNamespace namespace]) (Ok pods) :: dels ∧
      obs_call <$> dels =
        (λ p, Delete KPod p) <$> filter (λ p, IsControlledBy (pod_meta p) owner = true ∧ pod_Phase p = PodSucceeded) pods ∧
      (r.2 = None ↔ Forall (λ o, succeeded o = true) dels)).
Proof.
  unfold GarbageCollect. intros a. simpl in a. destruct a as [pods|e]; [|left; eauto].
  cbn [mbind prog_bind wp mret prog_ret]. apply wp_bind.
  set (owned := filterResourcesByOwner pods owner).
  set (I := λ l tr (st : list string * list (option error)),
    (obs_call <$> tr) ++ ((λ p, Delete KPod p) <$> filter (λ p, pod_Phase p = PodSucceeded) l) =
      (λ p, Delete KPod p) <$> filter (λ p, pod_Phase p = PodSucceeded) owned ∧
    (errors_Join st.2 = None ↔ Forall (λ o, succeeded o = true) tr)).
  apply (wp_mono _ (λ tr st, I [] tr st)).
  - intros tr [deleted errs] [Hc He]. simpl in *. right. exists pods, tr. rewrite app_nil_r in *. split_and!; [done| |done].
    rewrite Hc. f_equal. unfold owned, filterResourcesByOwner. rewrite list_filter_filter. apply list_filter_iff. tauto.
  - apply wp_for_range.
    + split; [done|]. simpl. by split; [constructor|].
    + intros p l tr [deleted errs] [Hc He]. unfold gc_step, HasResourcesCompletedSuccessfully.
      rewrite filter_cons in Hc. case_bool_decide as Hs.
      * rewrite decide_True in Hc by done. intros x. simpl. destruct x; simpl.
        all: (split; [by rewrite fmap_app, <-app_assoc|]); simpl; rewrite errors_Join_app, Forall_app, He, Forall_singleton; simpl.
        -- tauto.
        -- by split; intros [_ ?].
      * rewrite decide_False in Hc by done. simpl. by rewrite app_nil_r.
Qed.
End buildsign_props.

(** ** Witnesses *)

Definition demo_build : Build :=
  {| build_BuildArgs := []; build_DockerfileConfigMap := Some "dockerfile-cm";
     build_BaseImageRegistryTLS := {| tls_Insecure := false; tls_InsecureSkipTLSVerify := false |};
     build_Secrets := []; build_KanikoTag := None; build_Selector := ∅ |}.

Definition demo_build_mld : ModuleLoaderData :=
  {| mld_KernelVersion := "6.1.0"; mld_KernelNormalizedVersion := "6.1.0";
     mld_ImageRepoSecret := None; mld_Selector := ∅; mld_Name := "mod"; mld_Namespace := "ns";
     mld_ServiceAccountName := ""; mld_Build := Some demo_build; mld_Sign := None;
     mld_ModuleVersion := ""; mld_ContainerImage := "registry/mod:v1";
     mld_ImagePullPolicy := "Always"; mld_Modprobe := demo_modprobe; mld_RegistryTLS := None;
     mld_InTreeModulesToRemove := None; mld_OwnerUID := "uid"; mld_Tolerations := [] |}.

Definition demo_dockerfile : ConfigMap :=
  {| cm_meta := empty_meta "ns" "dockerfile-cm"; cm_Data := {[ constants.DockerfileCMKey := "FROM scratch" ]} |}.

(** The pod that builds its image. *)
Definition demo_build_pod : Pod :=
  Eval vm_compute in
  match buildSpec (EXT := demo_externals) demo_build_mld "registry/mod:v1" false with
  | Ok spec =>
      match hashstructure_Hash_build (Externals := demo_externals) spec "FROM scratch" with
      | Ok hash =>
          let p := resource_pod demo_build_mld BuildImage {[ constants.ResourceHashAnnotation := pretty hash ]} spec in
          match own_pod (EXT := demo_externals) "ModuleBuildSignConfig" (empty_meta "ns" "mod") p with Ok p => p | Err _ => p end
      | Err _ => resource_pod demo_build_mld BuildImage ∅ spec
      end
  | Err _ => resource_pod demo_build_mld BuildImage ∅ (kaniko_spec (kaniko_container [] "" []) [] ∅ [])
  end.

(** The run of the template builder on a module with a build section. *)
Lemma resource_template_found_witness :
  exec (MakeResourceTemplate (EXT := demo_externals) demo_build_mld "ModuleBuildSignConfig" (empty_meta "ns" "mod") false BuildImage)
    [Obs (Get KConfigMap (nsn "ns" "dockerfile-cm")) (Ok demo_dockerfile)] (Ok demo_build_pod) ∧
  filterResourcesByOwner (EXT := demo_externals) [demo_build_pod] (empty_meta "ns" "mod") = [demo_build_pod] ∧
  IsResourceChanged demo_build_pod demo_build_pod = Ok false.
Proof.
  assert (exec (MakeResourceTemplate (EXT := demo_externals) demo_build_mld "ModuleBuildSignConfig" (empty_meta "ns" "mod") false BuildImage)
    [Obs (Get KConfigMap (nsn "ns" "dockerfile-cm")) (Ok demo_dockerfile)] (Ok demo_build_pod)) as H.
  { simpl. exists (Ok demo_dockerfile), []. split; [reflexivity|]. vm_compute. split; reflexivity. }
  split; [exact H|].
  pose proof (proj1 (wp_exec _ _) (resource_template_found (EXT := demo_externals) demo_build_mld "ModuleBuildSignConfig"
    (empty_meta "ns" "mod") false BuildImage) _ _ H demo_build_pod eq_refl) as (_ & _ & _ & H1 & H2).
  split; [exact H1|exact H2].
Defined.

(** With no pod in the cluster the pass ends with one request, to create the pod. *)
Lemma Sync_behaviour_witness :
  ∃ p, exec (Sync (EXT := demo_externals) demo_build_mld false BuildImage "ModuleBuildSignConfig" (empty_meta "ns" "mod"))
         [Obs (Get KConfigMap (nsn "ns" "dockerfile-cm")) (Ok demo_dockerfile);
          Obs (resource_list demo_build_mld BuildImage) (Ok []);
          Obs (Create KPod p) (Ok p)] None ∧
       ∃ pre new pods post,
         [Obs (Get KConfigMap (nsn "ns" "dockerfile-cm")) (Ok demo_dockerfile);
          Obs (resource_list demo_build_mld BuildImage) (Ok []);
          Obs (Create KPod p) (Ok p)] = pre ++ Obs (resource_list demo_build_mld BuildImage) (Ok pods) :: post ∧
         sync_change (EXT := demo_externals) (empty_meta "ns" "mod") new pods post None.
Proof.
  eexists. match goal with |- ?E ∧ _ => assert E as H end.
  { simpl. eexists _, _. split; [reflexivity|]. simpl. eexists _, _. split; [reflexivity|]. simpl.
    eexists _, _. split; [reflexivity|]. vm_compute. split; reflexivity. }
  split; [exact H|].
  destruct (proj1 (wp_exec _ _) (Sync_behaviour (EXT := demo_externals) demo_build_mld false BuildImage "ModuleBuildSignConfig"
    (empty_meta "ns" "mod")) _ _ H) as [(e & _ & _ & [e' He])|(pre & new & a & post & Htr & _ & _ & Hch)]; [discriminate He|].
  destruct a as [pods|e]; [|destruct Hch as [_ [e' He]]; discriminate He].
  exists pre, new, pods, post. split; [exact Htr|exact Hch].
Defined.
