(* ===== verification/MbscReconciler.v ===== *)
(** * The ModuleBuildSignConfig reconciler ([internal/controllers/mbsc_reconciler.go])

    Copies the outcome of build and sign pods into the status, asks for the pods that are
    missing, and deletes the ones that succeeded. *)

From S2P Require Import Prelude Types Kube GoStrings Externals Demo Labels NmcHelper Node KernelMapper Mic BuildSign.

Open Scope string_scope.
Open Scope nat_scope.
Open Scope list_scope.

(** The fields that are not set are the zero values. *)
Definition createMLD (mbscObj : ModuleBuildSignConfig) (imageSpec : ModuleImageSpec) : ModuleLoaderData :=
  {| mld_KernelVersion := mis_KernelVersion imageSpec;
     mld_KernelNormalizedVersion := DNSSafeKernelVersion (mis_KernelVersion imageSpec);
     mld_ImageRepoSecret := mbscs_ImageRepoSecret (mbsc_spec mbscObj);
     mld_Selector := ∅;
     mld_Name := mbsc_Name mbscObj;
     mld_Namespace := mbsc_Namespace mbscObj;
     mld_ServiceAccountName := "";
     mld_Build := mis_Build imageSpec;
     mld_Sign := mis_Sign imageSpec;
     mld_ModuleVersion := "";
     mld_ContainerImage := mis_Image imageSpec;
     mld_ImagePullPolicy := "";
     mld_Modprobe := {| mp_ModuleName := ""; mp_Parameters := []; mp_DirName := mis_DirName imageSpec;
                        mp_Args := None; mp_RawArgs := None; mp_FirmwarePath := ""; mp_ModprobedDir := "";
                        mp_ModulesLoadingOrder := None |};
     mld_RegistryTLS := mis_RegistryTLS imageSpec;
     mld_InTreeModulesToRemove := None;
     mld_OwnerUID := om_UID (mbsc_meta mbscObj);
     mld_Tolerations := mbscs_Tolerations (mbsc_spec mbscObj) |}.

Section mbsc_reconciler.
Context `{EXT : Externals}.

Definition status_step (owner : ModuleBuildSignConfig) (imageSpec : ModuleBuildSignSpec) (st : ModuleBuildSignConfig * list (option error)) : prog (ModuleBuildSignConfig * list (option error)) :=
  let '(mbscObj, errs) := st in
  r ← GetStatus (mbsc_Name owner) (mbsc_Namespace owner) (mis_KernelVersion (mbs_spec imageSpec)) (mbs_Action imageSpec) (mbsc_meta owner);
  mret (match r with
        | Err e => (mbscObj, errs ++ [Some e])
        | Ok ActionUnset => (mbscObj, errs ++ [None])
        | Ok status => (mbsc_SetImageStatus mbscObj (mbs_Image imageSpec) (mbs_Action imageSpec) status, errs)
        end).

Definition mbsc_updateStatus (mbscObj : ModuleBuildSignConfig) : prog (ModuleBuildSignConfig * option error) :=
  '(new, errs) ← for_range (mbscs_Images (mbsc_spec mbscObj)) (status_step mbscObj) (mbscObj, []);
  '(m, err) ← status_patch KMBSC mbscObj new;
  mret (m, errors_Join (errs ++ [err])).

(** The loop over the images; [Err] is a panic, which ends it. *)
Fixpoint sync_images (mbscObj : ModuleBuildSignConfig) (images : list ModuleBuildSignSpec) (errs : list (option error)) : prog (result (list (option error))) :=
  match images with
  | [] => mret (Ok errs)
  | imageSpec :: images =>
      if bool_decide (mbsc_GetImageStatus mbscObj (mbs_Image imageSpec) (mbs_Action imageSpec) = ActionSuccess) then
        sync_images mbscObj images errs
      else
        err ← Sync (createMLD mbscObj (mbs_spec imageSpec)) (mbscs_PushBuiltImage (mbsc_spec mbscObj))
                (mbs_Action imageSpec) "ModuleBuildSignConfig" (mbsc_meta mbscObj);
        match err with
        | None => sync_images mbscObj images errs
        | Some e => if is_panic e then mret (Err e) else sync_images mbscObj images (errs ++ [Some e])
        end
  end.

Definition mbsc_processImagesSpecs (mbscObj : ModuleBuildSignConfig) : prog (option error) :=
  r ← sync_images mbscObj (mbscs_Images (mbsc_spec mbscObj)) [];
  mret (match r with
        | Err e => Some e
        | Ok errs => errors_Join errs
        end).

Definition mbsc_garbageCollect (mbscObj : ModuleBuildSignConfig) : prog (option error) :=
  '(_, err) ← GarbageCollect (mbsc_Name mbscObj) (mbsc_Namespace mbscObj) BuildImage (mbsc_meta mbscObj);
  match err with
  | Some e => mret (Some (Errorf_v "could not garbage collect build objects: %v" e))
  | None =>
      '(_, err) ← GarbageCollect (mbsc_Name mbscObj) (mbsc_Namespace mbscObj) SignImage (mbsc_meta mbscObj);
      mret (wrap_err "could not garbage collect sign objects: %v" err)
  end.

Definition MBSC_Reconcile (mbscObj : ModuleBuildSignConfig) : prog (option error) :=
  match om_DeletionTimestamp (mbsc_meta mbscObj) with
  | Some _ => mret None
  | None =>
      '(mbscObj, err) ← mbsc_updateStatus mbscObj;
      match err with
      | Some e => mret (Some (Errorf_v "failed to update MSBC %s status based on the result of the builds: %v" e))
      | None =>
          err ← mbsc_processImagesSpecs mbscObj;
          match err with
          | Some e => mret (Some (rethrow_v "failed to process images of MSBC %s: %v" e))
          | None =>
              err ← mbsc_garbageCollect mbscObj;
              mret (wrap_err "failed to run garbage collector for MBSC %s: %v" err)
          end
      end
  end.
End mbsc_reconciler.

(** ** Properties *)

Section mbsc_props.
Context `{EXT : Externals} `{EXTL : !ExternalsLaws}.

(** The outcome the answer to a listing of build or sign pods stands for: that of the owner's
    only pod. *)
Definition listed_outcome (owner : ObjectMeta) (a : result (list Pod)) : option BuildOrSignStatus :=
  match a with
  | Err _ => None
  | Ok pods =>
      match filterResourcesByOwner pods owner with
      | [p] => match pod_Phase p with
               | PodSucceeded => Some ActionSuccess
               | PodFailed => Some ActionFailure
               | _ => None
               end
      | _ => None
      end
  end.

Definition record_outcome (owner : ObjectMeta) (m : ModuleBuildSignConfig) (sa : ModuleBuildSignSpec * result (list Pod)) : ModuleBuildSignConfig :=
  match listed_outcome owner sa.2 with
  | Some st => mbsc_SetImageStatus m (mbs_Image sa.1) (mbs_Action sa.1) st
  | None => m
  end.

Definition outcome_list (m : ModuleBuildSignConfig) (s : ModuleBuildSignSpec) : call :=
  ListAll KPod [MatchingLabels (moduleKernelLabels (mbsc_Name m) (DNSSafeKernelVersion (mis_KernelVersion (mbs_spec s))) (mbs_Action s));
                InNamespace (mbsc_Namespace m)].

Definition outcome_obs (m : ModuleBuildSignConfig) (sa : ModuleBuildSignSpec * result (list Pod)) : obs :=
  Obs (outcome_list m sa.1) sa.2.

Lemma status_step_wp owner s m errs :
  wp (status_step owner s (m, errs)) (λ tr st, ∃ a,
    tr = [outcome_obs owner (s, a)] ∧ st.1 = record_outcome (mbsc_meta owner) m (s, a)).
Proof.
  unfold status_step. intros a. exists a. split; [done|]. unfold record_outcome, listed_outcome. simpl in *.
  destruct a as [pods|e]; simpl; [|done].
  destruct (filterResourcesByOwner pods (mbsc_meta owner)) as [|p [|]]; simpl; [done| |done].
  unfold GetResourceStatus. by destruct (pod_Phase p).
Qed.

Lemma status_loop_wp owner images :
  wp (for_range images (status_step owner) (owner, [])) (λ tr st, ∃ answers,
    length answers = length images ∧
    tr = outcome_obs owner <$> zip images answers ∧
    st.1 = foldl (record_outcome (mbsc_meta owner)) owner (zip images answers)).
Proof.
  set (I := λ l tr (st : ModuleBuildSignConfig * list (option error)), ∃ done_ answers,
    images = done_ ++ l ∧ length answers = length done_ ∧ tr = outcome_obs owner <$> zip done_ answers ∧
    st.1 = foldl (record_outcome (mbsc_meta owner)) owner (zip done_ answers)).
  apply (wp_mono _ (λ tr st, I [] tr st)).
  { intros tr st (d & answers & Hd & ? & ? & ?). rewrite app_nil_r in Hd. subst d. eauto. }
  apply wp_for_range; [by exists [], []|].
  intros s l tr [m errs] (d & answers & Hd & Hlen & -> & Hm). eapply wp_mono; [|apply status_step_wp].
  intros tr' st (a & -> & Hst). exists (d ++ [s]), (answers ++ [a]). simpl in Hm. subst m.
  rewrite zip_with_app by done. rewrite fmap_app, foldl_app, !length_app, <-app_assoc. simpl.
  split_and!; [done|lia|done|done].
Qed.


(** An image to build without a build section makes the whole pass panic before any of the
    remaining images is looked at. *)
Theorem build_without_section_panics m s rest errs :
  mbs_Action s = BuildImage → mis_Build (mbs_spec s) = None →
  mbsc_GetImageStatus m (mbs_Image s) BuildImage ≠ ActionSuccess →
  sync_images m (s :: rest) errs = mret (Err (ErrPanic "nil Build")).
Proof.
  intros Ha Hb Hst. simpl. rewrite Ha, bool_decide_false by done.
  unfold Sync, MakeResourceTemplate, makeBuildTemplate, buildSpec. simpl. by rewrite Hb.
Qed.

(** The module's node selector does not reach its build and sign pods: a build pod can only be
    constrained by the selector of the build section, a sign pod not at all. *)
Theorem module_selector_not_used_by_builds m s image push :
  (∀ b spec, mis_Build s = Some b → buildSpec (createMLD m s) image push = Ok spec →
     ps_NodeSelector spec = build_Selector b) ∧
  (∀ spec, signSpec (createMLD m s) image push = Ok spec → ps_NodeSelector spec = ∅).
Proof.
  split.
  - intros b spec Hb. unfold buildSpec. simpl. rewrite Hb.
    intros (args & _ & ([vols mounts] & _ & [= <-])%result_bind_Ok)%result_bind_Ok. simpl. by case_bool_decide.
  - intros spec. unfold signSpec. simpl. destruct (mis_Sign s); [|done].
    by intros (args & _ & ([vols mounts] & _ & [= <-])%result_bind_Ok)%result_bind_Ok.
Qed.
End mbsc_props.

(** ** Witnesses *)

