(* ===== verification/Pipeline.v ===== *)
(** * From an image specification to an image

    The ModuleImagesConfig controller asks for images, the ModuleBuildSignConfig controller has
    them built and signed, the Module controller relies on the result.  Here both controllers run
    at the same time, interleaved at their calls, with the pods they create: an image is said to
    exist only after a node pulled it, or a pod made it (and pushed it, unless the configuration says
    not to push), and an image that has to be signed not already after its build. *)

From S2P Require Import Prelude Types Kube GoStrings Externals Demo Labels NmcHelper Node KernelMapper WorkerPod Mic MicReconciler BuildSign MbscReconciler Cluster Rollout Interleave.

Open Scope string_scope.
Open Scope nat_scope.
Open Scope list_scope.

(** ** The objects of one module, and what happened in the registry *)

Inductive image_fact :=
| Pulled (image : string)
| Pushed (image : string) (action : BuildOrSignAction)
| Unpushed (kernel : string) (action : BuildOrSignAction).

Record images := {
  im_mic : ModuleImagesConfig;
  im_mbsc : option ModuleBuildSignConfig;
  im_pods : gmap NamespacedName Pod;
  im_facts : list image_fact;
}.

Definition with_mic (st : images) (m : ModuleImagesConfig) : images :=
  {| im_mic := m; im_mbsc := im_mbsc st; im_pods := im_pods st; im_facts := im_facts st |}.
Definition with_mbsc (st : images) (b : option ModuleBuildSignConfig) : images :=
  {| im_mic := im_mic st; im_mbsc := b; im_pods := im_pods st; im_facts := im_facts st |}.
Definition with_pods (st : images) (m : gmap NamespacedName Pod) : images :=
  {| im_mic := im_mic st; im_mbsc := im_mbsc st; im_pods := m; im_facts := im_facts st |}.
Definition with_facts (st : images) (l : list image_fact) : images :=
  {| im_mic := im_mic st; im_mbsc := im_mbsc st; im_pods := im_pods st; im_facts := l |}.

(** What the success of a pod says: a pull pod pulled its image; the container of a build or
    sign pod pushed to its [--destination], or, told [--no-push], made the image for its kernel. *)
Definition pod_action (p : Pod) : BuildOrSignAction :=
  if String.eqb (map_get (pod_Labels p) constants.ResourceType) (action_string SignImage) then SignImage else BuildImage.

Definition pod_facts (p : Pod) : list image_fact :=
  if decide (is_Some (pod_Labels p !! pullPodTypeLabelKey)) then [Pulled (GetPullPodImage p)]
  else match ct_Args <$> head (ps_Containers (pod_spec p)) with
       | Some ("--destination" :: image :: _) => [Pushed image (pod_action p)]
       | Some ("--no-push" :: _) => [Unpushed (map_get (pod_Labels p) constants.TargetKernelTarget) (pod_action p)]
       | _ => []
       end.

(** ** The API server *)

#[export] Instance ModuleImageState_eq_dec : EqDecision ModuleImageState.
Proof. solve_decision. Defined.
#[export] Instance BuildSignImageState_eq_dec : EqDecision BuildSignImageState.
Proof. solve_decision. Defined.

(** A field in a merge patch. *)
Definition merge_field {A} `{EqDecision A} (base new cur : A) : A := if decide (base = new) then cur else new.

Definition mic_merge_status (base new cur : ModuleImagesConfig) : ModuleImagesConfig :=
  mic_set_status cur
    {| micst_ImagesStates := merge_field (mic_states base) (mic_states new) (mic_states cur);
       micst_ImageRebuildTriggerGeneration :=
         merge_field (micst_ImageRebuildTriggerGeneration (mic_status base))
           (micst_ImageRebuildTriggerGeneration (mic_status new)) (micst_ImageRebuildTriggerGeneration (mic_status cur)) |}.

Definition mbsc_merge_status (base new cur : ModuleBuildSignConfig) : ModuleBuildSignConfig :=
  mbsc_set_status cur (merge_field (mbsc_status_Images base) (mbsc_status_Images new) (mbsc_status_Images cur)).

(** The server completes the metadata of a new object: a name when only a prefix is given, and a
    unique id. *)
Definition meta_admitted (m : ObjectMeta) (name uid : string) : ObjectMeta :=
  {| om_Name := name; om_GenerateName := om_GenerateName m; om_Namespace := om_Namespace m; om_UID := uid;
     om_Generation := om_Generation m; om_CreationTimestamp := om_CreationTimestamp m; om_Labels := om_Labels m;
     om_Annotations := om_Annotations m; om_Finalizers := om_Finalizers m; om_OwnerReferences := om_OwnerReferences m;
     om_DeletionTimestamp := om_DeletionTimestamp m |}.

Definition pod_admitted (p : Pod) (name uid : string) : Pod :=
  pod_created (pod_set_meta p (meta_admitted (pod_meta p) name uid)).

Definition mbsc_admitted (b : ModuleBuildSignConfig) (uid : string) : ModuleBuildSignConfig :=
  {| mbsc_meta := meta_admitted (mbsc_meta b) (mbsc_Name b) uid; mbsc_spec := mbsc_spec b;
     mbsc_status_Images := mbsc_status_Images b |}.

Definition mbsc_at (st : images) (key : NamespacedName) : option ModuleBuildSignConfig :=
  b ← im_mbsc st; if decide (key = obj_key KMBSC b) then Some b else None.

(** What the API server answers to the two controllers.  Objects of other kinds can be
    anything. *)
Definition supplies (st : images) (c : call) : resp c → images → Prop :=
  match c as c return resp c → images → Prop with
  | Get k key =>
      match k as k return result (obj k) → images → Prop with
      | KMBSC => λ x st', st' = st ∧ x = match mbsc_at st key with Some b => Ok b | None => Err (ErrStatus ReasonNotFound) end
      | _ => λ _ st', st' = st
      end
  | ListAll k opts =>
      match k as k return result (list (obj k)) → images → Prop with
      | KPod => λ x st', st' = st ∧
          ∃ l, x = Ok l ∧ l ≡ₚ filter (λ p, matches_options opts p = true) (map_to_list (im_pods st)).*2
      | _ => λ _ st', st' = st
      end
  | Create k o =>
      match k as k return obj k → result (obj k) → images → Prop with
      | KPod => λ p x st', ∃ name uid, (pod_Name p = "" ∨ name = pod_Name p) ∧
          let q := pod_admitted p name uid in
          match im_pods st !! obj_key KPod q with
          | Some _ => st' = st ∧ x = Err (ErrStatus ReasonAlreadyExists)
          | None => x = Ok q ∧ st' = with_pods st (<[obj_key KPod q := q]> (im_pods st))
          end
      | _ => λ _ _ st', st' = st
      end o
  | Delete k o =>
      match k as k return obj k → result () → images → Prop with
      | KPod => λ p x st',
          match im_pods st !! obj_key KPod p with
          | None => st' = st ∧ x = Err (ErrStatus ReasonNotFound)
          | Some q => x = Ok () ∧
              (st' = with_pods st (delete (obj_key KPod p) (im_pods st)) ∨
               ∃ t, st' = with_pods st (<[obj_key KPod p := pod_terminating q t]> (im_pods st)))
          end
      | KMBSC => λ b x st',
          match mbsc_at st (obj_key KMBSC b) with
          | None => st' = st ∧ x = Err (ErrStatus ReasonNotFound)
          | Some _ => x = Ok () ∧ st' = with_mbsc st None
          end
      | _ => λ _ _ st', st' = st
      end o
  | StatusPatch k base new =>
      match k as k return obj k → obj k → result (obj k) → images → Prop with
      | KMIC => λ base new x st',
          if decide (obj_key KMIC base = obj_key KMIC (im_mic st))
          then let m := mic_merge_status base new (im_mic st) in x = Ok m ∧ st' = with_mic st m
          else st' = st ∧ x = Err (ErrStatus ReasonNotFound)
      | KMBSC => λ base new x st',
          match mbsc_at st (obj_key KMBSC base) with
          | None => st' = st ∧ x = Err (ErrStatus ReasonNotFound)
          | Some cur => let b := mbsc_merge_status base new cur in x = Ok b ∧ st' = with_mbsc st (Some b)
          end
      | _ => λ _ _ _ st', st' = st
      end base new
  | CreateOrPatch k o f =>
      match k as k return obj k → (obj k → result (obj k)) → result (obj k) → images → Prop with
      | KMBSC => λ o f x st',
          match im_mbsc st with
          | Some b =>
              if decide (obj_key KMBSC o = obj_key KMBSC b)
              then match f b with Ok b' => x = Ok b' ∧ st' = with_mbsc st (Some b') | Err e => x = Err e ∧ st' = st end
              else st' = st
          | None =>
              match f o with
              | Ok b => ∃ uid, x = Ok (mbsc_admitted b uid) ∧ st' = with_mbsc st (Some (mbsc_admitted b uid))
              | Err e => x = Err e ∧ st' = st
              end
          end
      | _ => λ _ _ _ st', st' = st
      end o f
  | _ => λ _ st', st' = st
  end.

(** With failures: whether a call that failed took effect is unknown. *)
Definition serves_images (st : images) (c : call) (x : resp c) (st' : images) : Prop :=
  supplies st c x st' ∨ (failed c x ∧ (st' = st ∨ ∃ x', supplies st c x' st')).

(** Calls that only read. *)
Lemma reads_keep st c x st' : mutates c = false → serves_images st c x st' → st' = st.
Proof.
  assert (∀ x st', mutates c = false → supplies st c x st' → st' = st) as H.
  { destruct c as [k ?|k ?| | | | | | | | | | | | |]; intros x0 st0 Hm Hs; simpl in *; try done; destruct k; simpl in *; naive_solver. }
  intros Hm [?|[_ [?|[x' ?]]]]; eauto.
Qed.

Section pipeline.
Context `{EXT : Externals} `{EXTL : !ExternalsLaws}.

(** The image specifications the module may ask for, over time. *)
Context (wanted : ModuleImageSpec → Prop).
Implicit Types (st : images) (F : list image_fact) (s : ModuleImageSpec).

(** ** The world around the controllers

    The controller that owns the ModuleImagesConfig rewrites the spec, with images to push or not; pods report
    their state, end, change their metadata (finalizers, deletion) and go away; the
    garbage collector of the cluster may remove the ModuleBuildSignConfig. *)
Inductive world_event : images → images → Prop :=
| ev_spec st m :
    mic_status m = mic_status (im_mic st) → Forall wanted (mics_Images (mic_spec m)) → world_event st (with_mic st m)
| ev_report st key p ps :
    im_pods st !! key = Some p → finished p = false → pst_Phase ps ≠ PodSucceeded →
    world_event st (with_pods st (<[key := with_status p ps]> (im_pods st)))
| ev_done st key p ps :
    im_pods st !! key = Some p → finished p = false → pst_Phase ps = PodSucceeded →
    world_event st (with_facts (with_pods st (<[key := with_status p ps]> (im_pods st))) (pod_facts p ++ im_facts st))
| ev_meta st key p m :
    im_pods st !! key = Some p → om_Labels m = pod_Labels p →
    world_event st (with_pods st (<[key := pod_set_meta p m]> (im_pods st)))
| ev_gone st key : world_event st (with_pods st (delete key (im_pods st)))
| ev_mbsc_gone st : world_event st (with_mbsc st None).

Inductive image_pass : images → thread → Prop :=
| pass_mic st : image_pass st (thread_of (MIC_Reconcile (im_mic st)))
| pass_mbsc st b : im_mbsc st = Some b → image_pass st (thread_of (MBSC_Reconcile b)).

Definition image_step : pool images → pool images → Prop := pool_step serves_images image_pass world_event.

(** ** The invariant *)

(** An action was carried out for an image specification: a pod pushed its image, or made the image
    of its kernel without pushing it. *)
Definition made F s (action : BuildOrSignAction) : Prop :=
  Pushed (mis_Image s) action ∈ F ∨ Unpushed (DNSSafeKernelVersion (mis_KernelVersion s)) action ∈ F.

Definition made_image F (image : string) (action : BuildOrSignAction) : Prop := ∃ s, wanted s ∧ mis_Image s = image ∧ made F s action.

(** Evidence that an image exists: it was pulled, it was signed, or it was built and a specification
    of it asks for no signature. *)
Definition evidence F (image : string) : Prop :=
  Pulled image ∈ F ∨ made_image F image SignImage ∨
  (made_image F image BuildImage ∧ ∃ s, wanted s ∧ mis_Image s = image ∧ mis_Sign s = None).

Record mic_ok F (m : ModuleImagesConfig) : Prop := {
  mk_wanted : Forall wanted (mics_Images (mic_spec m));
  mk_states image : GetImageState m image = ImageExists → evidence F image;
}.

Definition outcome_ok F (b : BuildSignImageState) : Prop :=
  bsi_Status b = ActionSuccess → made_image F (bsi_Image b) (bsi_Action b).

Record mbsc_ok F (b : ModuleBuildSignConfig) : Prop := {
  bk_wanted : Forall (λ e, wanted (mbs_spec e)) (mbscs_Images (mbsc_spec b));
  bk_outcomes : Forall (outcome_ok F) (mbsc_status_Images b);
}.

(** The pod of a kernel and an action makes the image wanted for that kernel. *)
Definition pod_purpose (p : Pod) : Prop :=
  ∀ name kernel action, moduleKernelLabels name kernel action ⊆ pod_Labels p →
  ∃ s, wanted s ∧ DNSSafeKernelVersion (mis_KernelVersion s) = kernel ∧
    (pod_facts p = [Pushed (mis_Image s) action] ∨ pod_facts p = [Unpushed kernel action]).

Record pod_ok F (p : Pod) : Prop := {
  pk_purpose : pod_purpose p;
  pk_done : pod_Phase p = PodSucceeded → pod_facts p ⊆ F;
}.

Record images_ok st : Prop := {
  ok_mic : mic_ok (im_facts st) (im_mic st);
  ok_mbsc b : im_mbsc st = Some b → mbsc_ok (im_facts st) b;
  ok_pods key p : im_pods st !! key = Some p → pod_ok (im_facts st) p;
}.

(** What was learnt about an object lasts: nothing that happened is undone. *)
Definition lasts st st' : Prop := im_facts st ⊆ im_facts st'.

#[local] Instance lasts_preorder : PreOrder lasts.
Proof. unfold lasts. split; [by intros st|]. intros st1 st2 st3 H1 H2. by etrans. Qed.

Lemma lasts_same st st' : im_facts st' = im_facts st → lasts st st'.
Proof. unfold lasts. by intros ->. Qed.

Lemma made_mono F F' s action : F ⊆ F' → made F s action → made F' s action.
Proof. intros H [?|?]; [left|right]; auto. Qed.

Lemma made_image_mono F F' image action : F ⊆ F' → made_image F image action → made_image F' image action.
Proof. intros H (s & ? & ? & ?). exists s. eauto using made_mono. Qed.

Lemma evidence_mono F F' image : F ⊆ F' → evidence F image → evidence F' image.
Proof. intros H [?|[?|[? ?]]]; [left|right; left|right; right]; eauto using made_image_mono. Qed.

Lemma outcome_mono F F' b : F ⊆ F' → outcome_ok F b → outcome_ok F' b.
Proof. intros H Hb Hs. eapply made_image_mono; [exact H|by apply Hb]. Qed.

Lemma mic_ok_mono F F' m : F ⊆ F' → mic_ok F m → mic_ok F' m.
Proof.
  intros H [? Hs]. split; [done|]. intros image ?%Hs. by eapply evidence_mono.
Qed.

Lemma mbsc_ok_mono F F' b : F ⊆ F' → mbsc_ok F b → mbsc_ok F' b.
Proof. intros H [? Ho]. split; [done|]. eapply Forall_impl; [exact Ho|]. intros e. by apply outcome_mono. Qed.

Lemma pod_ok_mono F F' p : F ⊆ F' → pod_ok F p → pod_ok F' p.
Proof. intros H [? Hd]. split; [done|]. intros Hp. etrans; [by apply Hd|done]. Qed.

Lemma images_ok_with st m ob pods F :
  images_ok st → im_facts st ⊆ F → mic_ok F m → (∀ b, ob = Some b → mbsc_ok F b) →
  (∀ key p, pods !! key = Some p → im_pods st !! key = Some p ∨ pod_ok F p) →
  images_ok {| im_mic := m; im_mbsc := ob; im_pods := pods; im_facts := F |}.
Proof. intros H HF Hm Hb Hp. split; [done..|]. intros key p [?|?]%Hp; [|done]. eapply pod_ok_mono; [exact HF|by eapply ok_pods]. Qed.

(** A change of the pods, of the MIC, of the MBSC. *)
Lemma images_ok_pod st key p : images_ok st → pod_ok (im_facts st) p → images_ok (with_pods st (<[key := p]> (im_pods st))).
Proof.
  intros H Hp. apply (images_ok_with st); [done..|apply H|apply H|].
  intros key' q [[<- <-]|[_ ?]]%lookup_insert_Some; [by right|by left].
Qed.

Lemma images_ok_gone st key : images_ok st → images_ok (with_pods st (delete key (im_pods st))).
Proof. intros H. apply (images_ok_with st); [done..|apply H|apply H|]. intros key' q [_ ?]%lookup_delete_Some. by left. Qed.

Lemma images_ok_mic st m : images_ok st → mic_ok (im_facts st) m → images_ok (with_mic st m).
Proof. intros H Hm. apply (images_ok_with st); [done..|apply H|]. by left. Qed.

Lemma images_ok_mbsc st ob : images_ok st → (∀ b, ob = Some b → mbsc_ok (im_facts st) b) → images_ok (with_mbsc st ob).
Proof. intros H Hb. apply (images_ok_with st); [done..|apply H|done|]. by left. Qed.

(** Metadata but the labels, and a status without success, do not matter. *)
Lemma pod_ok_same F p q :
  pod_Labels q = pod_Labels p → pod_spec q = pod_spec p → (pod_Phase q = PodSucceeded → pod_Phase p = PodSucceeded) →
  pod_ok F p → pod_ok F q.
Proof.
  intros Hl Hs Hph [Hp Hd]. assert (pod_facts q = pod_facts p) as Hf.
  { unfold pod_facts, pod_action, GetPullPodImage. by rewrite Hl, Hs. }
  split; [intros ? ? ?; rewrite Hl, Hf; apply Hp|]. rewrite Hf. auto.
Qed.

Lemma mbsc_at_ok st key b : images_ok st → mbsc_at st key = Some b → mbsc_ok (im_facts st) b.
Proof.
  intros H. unfold mbsc_at. destruct (im_mbsc st) as [b'|] eqn:E; simpl; [|done].
  case_decide; [intros [= <-]|done]. by eapply ok_mbsc.
Qed.

(** ** The world keeps it *)

Lemma event_ok st st' : world_event st st' → images_ok st → images_ok st' ∧ lasts st st'.
Proof.
  intros He H. destruct He as [st m Hm Hw|st key p ps Hl Hf Hph|st key p ps Hl Hf Hph|st key p m Hl Hm|st key|st].
  - split; [|by apply lasts_same]. apply images_ok_mic; [done|]. split; [done..|]. intros image. unfold GetImageState, mic_states. rewrite Hm. apply H.
  - split; [|by apply lasts_same]. apply images_ok_pod; [done|]. eapply pod_ok_same; [..|by eapply ok_pods]; [done..|]. by intros ?.
  - split; [|by intros x Hx; apply elem_of_app; right]. assert (im_facts st ⊆ pod_facts p ++ im_facts st) as HF by set_solver.
    apply (images_ok_with st); [done..|eapply mic_ok_mono, H; done|intros b Hb; eapply mbsc_ok_mono, H; done|].
    simpl. intros key' q [[<- <-]|[_ ?]]%lookup_insert_Some; [right|by left]. destruct (ok_pods _ H _ _ Hl) as [Hpu _].
    split; [exact Hpu|]. intros _. change (pod_facts (with_status p ps)) with (pod_facts p). set_solver.
  - split; [|by apply lasts_same]. apply images_ok_pod; [done|]. by eapply pod_ok_same; [..|by eapply ok_pods].
  - split; [by apply images_ok_gone|by apply lasts_same].
  - split; [|by apply lasts_same]. by apply images_ok_mbsc.
Qed.

(** ** The calls of the passes *)

Notation safely p Q st := (safe serves_images images_ok lasts p Q st).

Lemma safe_then {A B} (p : prog A) (f : A → prog B) Q st : safely p (λ a st', safely (f a) Q st') st → safely (p ≫= f) Q st.
Proof. apply safe_bind, _. Qed.

Lemma safe_post {R} (p : prog R) (Q Q' : R → images → Prop) st :
  (∀ r st', lasts st st' → Q r st' → Q' r st') → safely p Q st → safely p Q' st.
Proof. apply safe_mono, _. Qed.

Lemma served_ok st c x st' :
  (∀ x st', supplies st c x st' → images_ok st' ∧ lasts st st') → images_ok st → serves_images st c x st' →
  images_ok st' ∧ lasts st st' ∧ (supplies st c x st' ∨ failed c x).
Proof.
  intros H Hok [Hs|[Hf [->|[x' Hs]]]]; [by destruct (H _ _ Hs); auto| |destruct (H _ _ Hs); auto].
  split_and!; [done|reflexivity|by right].
Qed.

(** One call: what it does to the store, and what its answer says. *)
Lemma safe_one {R} c (k : resp c → prog R) Q st :
  (∀ st1 x st2, lasts st st1 → images_ok st1 → supplies st1 c x st2 → images_ok st2 ∧ lasts st1 st2) →
  (∀ st1 x st2, lasts st st1 → images_ok st1 → supplies st1 c x st2 ∨ failed c x → images_ok st2 → lasts st st2 →
     safely (k x) Q st2) →
  safely (Call c k) Q st.
Proof.
  intros H Hk. apply safe_call. intros st1 x st2 Hle Hi Hs.
  destruct (served_ok st1 c x st2) as (Hi2 & Hle2 & Hx); [by intros; eapply H|done|done|].
  split_and!; [done..|]. eapply Hk; [exact Hle|exact Hi|exact Hx|done|by etrans].
Qed.

Lemma safe_reads {R} (p : prog R) (P : R → Prop) st :
  only_calls (λ c, mutates c = false) p → wp p (λ _ r, P r) → safely p (λ r _, P r) st.
Proof.
  apply safe_only_calls. intros c s x s' Hc Hi Hs. apply reads_keep in Hs as ->; [|done]. split; [done|reflexivity].
Qed.

Lemma safe_list_pods opts st :
  safely (list_all KPod opts) (λ r st', ∀ l p, r = Ok l → p ∈ l → pod_ok (im_facts st') p ∧ matches_options opts p = true) st.
Proof.
  apply safe_one.
  - intros st1 x st2 _ Hi [-> _]. split; [done|reflexivity].
  - intros st1 x st2 _ _ Hx Hi _ st3 Hle l p -> Hp. destruct Hx as [(-> & l' & [= <-] & Hl)|(e & [=] & _)].
    rewrite Hl, list_elem_of_filter, list_elem_of_fmap in Hp. destruct Hp as (Hm & [key q] & -> & Hq%elem_of_map_to_list).
    split; [|done]. eapply pod_ok_mono; [exact Hle|by eapply ok_pods].
Qed.

Lemma pod_ok_created F p name uid : pod_purpose p → pod_ok F (pod_admitted p name uid).
Proof. intros Hp. split; [exact Hp|]. by intros. Qed.

Lemma safe_create_pod p st : pod_purpose p → safely (create KPod p) (λ _ _, True) st.
Proof.
  intros Hp. apply safe_then, safe_one; [|done].
  intros st1 x st2 _ Hi (name & uid & _ & H). simpl in H. destruct (im_pods st1 !! _).
  - destruct H as [-> _]. split; [done|reflexivity].
  - destruct H as [_ ->]. split; [|by apply lasts_same]. apply images_ok_pod; [done|by apply pod_ok_created].
Qed.

Lemma safe_delete_pod p st : safely (delete_obj KPod p) (λ _ _, True) st.
Proof.
  apply safe_then, safe_one; [|done]. intros st1 x st2 _ Hi H. simpl in H.
  destruct (im_pods st1 !! obj_key KPod p) as [q|] eqn:E; [|destruct H as [-> _]; split; [done|reflexivity]].
  destruct H as [_ [->|[t ->]]]; (split; [|by apply lasts_same]); [by apply images_ok_gone|].
  apply images_ok_pod; [done|]. by eapply pod_ok_same; [..|by eapply ok_pods].
Qed.

Lemma mic_merge_ok F base new cur :
  mic_ok F cur → (∀ image, GetImageState new image = ImageExists → evidence F image) → mic_ok F (mic_merge_status base new cur).
Proof.
  intros [Hw Hs] Hn. split; [exact Hw|]. intros image. unfold GetImageState, mic_merge_status, merge_field, mic_states.
  simpl. case_decide; [apply Hs|apply Hn].
Qed.

Lemma safe_mic_status base new st :
  (∀ image, GetImageState new image = ImageExists → evidence (im_facts st) image) →
  safely (status_patch KMIC base new) (λ r st', r.2 = None → mic_ok (im_facts st') r.1) st.
Proof.
  intros Hn. assert (∀ st1, lasts st st1 → images_ok st1 → mic_ok (im_facts st1) (mic_merge_status base new (im_mic st1))) as Hm.
  { intros st1 Hle Hi. apply mic_merge_ok; [apply Hi|]. intros image ?%Hn. by eapply evidence_mono. }
  apply safe_then, safe_one.
  - intros st1 x st2 Hle Hi H. simpl in H. case_decide; destruct H as [Hx Hst].
    + subst st2. split; [apply images_ok_mic; auto|by apply lasts_same].
    + subst st2. split; [done|reflexivity].
  - intros st1 x st2 Hle Hi Hx Hi2 _ st3 Hle3 st4 Hle4. destruct x as [m|e]; [|done]. intros _. cbn [fst].
    destruct Hx as [H|(e & [=] & _)]. simpl in H. case_decide; [|by destruct H]. destruct H as [[= ->] ->].
    eapply mic_ok_mono; [|by apply Hm]. by etrans.
Qed.

Lemma safe_mbsc_status base new st :
  Forall (outcome_ok (im_facts st)) (mbsc_status_Images new) →
  safely (status_patch KMBSC base new) (λ r st', r.2 = None → mbsc_ok (im_facts st') r.1) st.
Proof.
  intros Hn. assert (∀ st1 b, lasts st st1 → images_ok st1 → mbsc_at st1 (obj_key KMBSC base) = Some b →
    mbsc_ok (im_facts st1) (mbsc_merge_status base new b)) as Hm.
  { intros st1 b Hle Hi E. destruct (mbsc_at_ok _ _ _ Hi E) as [Hw Ho]. split; [exact Hw|].
    simpl. unfold merge_field. case_decide; [done|]. eapply Forall_impl; [exact Hn|]. intros e. by apply outcome_mono. }
  apply safe_then, safe_one.
  - intros st1 x st2 Hle Hi H. simpl in H. destruct (mbsc_at st1 _) as [b|] eqn:E; destruct H as [Hx Hst].
    + subst st2. split; [|by apply lasts_same]. apply images_ok_mbsc; [done|]. intros b' [= <-]. auto.
    + subst st2. split; [done|reflexivity].
  - intros st1 x st2 Hle Hi Hx Hi2 _ st3 Hle3 st4 Hle4. destruct x as [m|e]; [|done]. intros _. cbn [fst].
    destruct Hx as [H|(e & [=] & _)]. simpl in H. destruct (mbsc_at st1 _) as [b|] eqn:E; [|by destruct H]. destruct H as [[= ->] ->].
    eapply mbsc_ok_mono; [|by apply Hm]. by etrans.
Qed.

Lemma safe_mbsc_Get name ns st :
  safely (mbsc_Get name ns) (λ r st', ∀ b, r = Ok (Some b) → mbsc_ok (im_facts st') b) st.
Proof.
  apply safe_then, safe_one.
  - intros st1 x st2 _ Hi [-> _]. split; [done|reflexivity].
  - intros st1 x st2 _ Hi Hx Hi2 _ st3 Hle3 st4 Hle4 b Hb. destruct Hx as [[-> ->]|(e & -> & He)]; [|by rewrite He in Hb].
    destruct (mbsc_at st1 _) as [b'|] eqn:E; [|done]. injection Hb as ->. eapply mbsc_ok_mono; [|by eapply mbsc_at_ok]. by etrans.
Qed.

Lemma safe_mbsc_Delete name ns st : safely (mbsc_Delete name ns) (λ _ _, True) st.
Proof.
  apply safe_then, safe_then, safe_one; [|done]. intros st1 x st2 _ Hi H. simpl in H. destruct (mbsc_at st1 _).
  - destruct H as [_ ->]. split; [by apply images_ok_mbsc|by apply lasts_same].
  - destruct H as [-> _]. split; [done|reflexivity].
Qed.

(** ** The pass of the ModuleImagesConfig controller *)

(** The states of a local copy, as far as they claim that an image exists. *)
Definition states_ok F (m : ModuleImagesConfig) : Prop := ∀ image, GetImageState m image = ImageExists → evidence F image.

Lemma states_ok_set F m image state :
  states_ok F m → (state = ImageExists → evidence F image) → states_ok F (SetImageStatus m image state).
Proof. intros Hm Hs k. rewrite GetImageState_set. case_decide; [by subst|apply Hm]. Qed.

Lemma wanted_spec m image s : Forall wanted (mics_Images (mic_spec m)) → GetModuleImageSpec m image = Some s → wanted s ∧ mis_Image s = image.
Proof. rewrite Forall_forall. intros Hw [Hin He%String.eqb_eq]%find_first_Some. auto. Qed.

Definition pulled_ok F (p : Pod) : Prop := pod_Phase p = PodSucceeded → Pulled (GetPullPodImage p) ∈ F.

Lemma PullImageSuccess_phase p : GetPullPodStatus p = PullImageSuccess → pod_Phase p = PodSucceeded.
Proof. unfold GetPullPodStatus. repeat case_match; done. Qed.

Lemma failed_pull_not_exists s state : failed_pull_state s = Some state → state ≠ ImageExists.
Proof. unfold failed_pull_state. repeat case_match; naive_solver. Qed.

Lemma pull_pods_ok F m pods :
  Forall wanted (mics_Images (mic_spec m)) → states_ok F m → Forall (pulled_ok F) pods →
  states_ok F (foldl pull_pod_step (m, []) pods).1.
Proof.
  intros Hw Hs Hp. assert (mic_spec (foldl pull_pod_step (m, []) pods).1 = mic_spec m ∧
    states_ok F (foldl pull_pod_step (m, []) pods).1) as [_ H]; [|done].
  induction pods as [|p pods IH] using rev_ind; [done|]. apply Forall_app in Hp as [Hp1 Hp2]. rewrite Forall_singleton in Hp2.
  destruct (IH Hp1) as [IH1 IH2]. rewrite foldl_app. simpl. rewrite pull_pod_step_spec. split; [done|].
  destruct (foldl pull_pod_step (m, []) pods) as [m' dels]. simpl in IH1, IH2. unfold pull_pod_step.
  destruct (GetModuleImageSpec m' _) as [s|] eqn:E; [|done]. apply wanted_spec in E as [Hws Hi]; [|by rewrite IH1].
  destruct (GetPullPodStatus p) eqn:Es; try done.
  - destruct (failed_pull_state s) as [state|] eqn:Ef; [|done]. apply states_ok_set; [done|]. intros ->. by apply failed_pull_not_exists in Ef.
  - apply states_ok_set; [done|]. intros _. left. by apply Hp2, PullImageSuccess_phase.
Qed.

Lemma build_results_ok F m l :
  Forall wanted (mics_Images (mic_spec m)) → states_ok F m → Forall (outcome_ok F) l → states_ok F (foldl mbsc_state_step m l).
Proof.
  revert m. induction l as [|b l IH]; intros m Hw Hs Hl; [done|]. apply Forall_cons in Hl as [Hb Hl]. simpl.
  apply IH; [by rewrite mbsc_state_step_spec| |done]. unfold mbsc_state_step.
  destruct (GetModuleImageSpec m _) as [s|] eqn:E; [|done]. apply wanted_spec in E as [Hws Hi]; [|done].
  destruct (mbsc_outcome b s) as [state|] eqn:Eo; [|done]. apply states_ok_set; [done|]. intros ->.
  unfold outcome_ok in Hb. unfold mbsc_outcome in Eo.
  destruct (bsi_Status b); [done| |done]. specialize (Hb eq_refl). destruct (bsi_Action b); [|right; by left].
  case_bool_decide as Hsg; [done|]. apply eq_None_not_Some in Hsg. right. right. eauto.
Qed.

Lemma handle_trigger_safe m st :
  mic_ok (im_facts st) m →
  safely (handleImageRebuildTriggerGeneration m) (λ r st', r.2 = Ok false → mic_ok (im_facts st') r.1) st.
Proof.
  intros Hm. unfold handleImageRebuildTriggerGeneration. case_bool_decide.
  - intros st' Hle _. by eapply mic_ok_mono.
  - apply safe_then. eapply safe_post; [|apply safe_mbsc_Delete]. intros err st1 _ _. destruct err as [e|]; [by intros st2 _|].
    apply safe_then. eapply safe_post; [|apply safe_mic_status]; [|by intros].
    intros [m' err] st2 _ _ st3 _. by destruct err.
Qed.

Lemma ListPullPods_safe name ns st :
  safely (ListPullPods name ns) (λ r st', ∀ l, r = Ok l → Forall (pulled_ok (im_facts st')) l) st.
Proof.
  apply safe_then. eapply safe_post; [|apply safe_list_pods]. intros r st1 Hle Hr st2 Hle2 l Hl.
  destruct r as [l'|e]; [|done]. injection Hl as ->. apply Forall_forall. intros p Hp.
  destruct (Hr _ _ eq_refl Hp) as [Hok Hm]. intros Hph. apply Hle2, (pk_done _ _ Hok Hph).
  unfold pod_facts. rewrite decide_True; [by left|]. unfold matches_options in Hm. simpl in Hm.
  rewrite !andb_true_iff in Hm. destruct Hm as (_ & [Hm _] & _). by apply bool_decide_eq_true in Hm.
Qed.

Lemma delete_pods_safe (l : list Pod) errs st :
  safely (for_range l (λ p errs, err ← deletePod p; mret (errs ++ [err])) errs) (λ _ _, True) st.
Proof.
  revert errs st. induction l as [|p l IH]; intros errs st; [done|]. simpl. apply safe_then, safe_then.
  unfold deletePod. destruct (om_DeletionTimestamp _); [by intros st1 _ st2 _; apply IH|].
  apply safe_then. eapply safe_post; [|apply safe_delete_pod]. intros err st1 _ _ st2 _ st3 _. apply IH.
Qed.

Lemma mic_ok_states F m : mic_ok F m → states_ok F m.
Proof. intros H image. apply H. Qed.

Lemma updateStatusByPullPods_safe m pods st :
  mic_ok (im_facts st) m → Forall (pulled_ok (im_facts st)) pods →
  safely (updateStatusByPullPods m pods) (λ r st', r.2 = None → mic_ok (im_facts st') r.1) st.
Proof.
  intros Hm Hp. unfold updateStatusByPullPods. destruct pods as [|p pods].
  - intros st' Hle _. by eapply mic_ok_mono.
  - pose proof (pull_pods_ok _ m _ (mk_wanted _ _ Hm) (mic_ok_states _ _ Hm) Hp) as Hn.
    destruct (foldl pull_pod_step (m, []) (p :: pods)) as [new dels]. apply safe_then.
    eapply safe_post; [|by apply safe_mic_status]. intros [m' err] st1 _ Hm1. destruct err as [e|]; [by intros st2 _|].
    specialize (Hm1 eq_refl). apply safe_then. eapply safe_post; [|apply delete_pods_safe].
    intros errs st2 Hle2 _ st3 Hle3 _. eapply mic_ok_mono; [|exact Hm1]. by etrans.
Qed.

Lemma updateStatusByMBSC_safe m st :
  mic_ok (im_facts st) m → safely (updateStatusByMBSC m) (λ r st', r.2 = None → mic_ok (im_facts st') r.1) st.
Proof.
  intros Hm. unfold updateStatusByMBSC. apply safe_then. eapply safe_post; [|apply safe_mbsc_Get].
  intros r st1 Hle Hb. destruct r as [[b|]|e]; [| |by intros st2 _].
  - apply safe_mic_status. apply build_results_ok; [apply Hm| |by apply bk_outcomes, Hb].
    apply mic_ok_states. by eapply mic_ok_mono.
  - intros st2 Hle2 _. eapply mic_ok_mono; [|exact Hm]. by etrans.
Qed.

Lemma pull_pod_purpose name ns image one secret policy tols kd owner m :
  SetControllerReference kd owner (pod_meta (pull_pod name ns image one secret policy tols)) = Ok m →
  pod_purpose (pod_set_meta (pull_pod name ns image one secret policy tols) m).
Proof.
  intros Hm%SetControllerReference_spec n k a Hl. exfalso.
  apply (map_subseteq_spec (moduleKernelLabels n k a)) with (i := constants.ResourceType) (x := action_string a) in Hl; [|done].
  unfold pod_Labels in Hl. simpl in Hl. rewrite Hm in Hl. simpl in Hl. by vm_compute in Hl.
Qed.

Lemma setModuleImageSpec_wanted l s action :
  wanted s → Forall (λ e, wanted (mbs_spec e)) l → Forall (λ e, wanted (mbs_spec e)) (setModuleImageSpec l s action).
Proof.
  intros Hs. unfold setModuleImageSpec. induction l as [|e l IH]; intros Hl; simpl; [by constructor|].
  apply Forall_cons in Hl as [He Hl]. case_match; constructor; auto.
Qed.

Lemma mbsc_request_safe m s action st :
  wanted s → safely (mbsc_CreateOrPatch m s action) (λ _ _, True) st.
Proof.
  intros Hs. assert (∀ F b b', mbsc_mutate m s action b = Ok b' →
    Forall (λ e, wanted (mbs_spec e)) (mbscs_Images (mbsc_spec b)) → Forall (outcome_ok F) (mbsc_status_Images b) → mbsc_ok F b') as Hmut.
  { intros F b b' (om & _ & [= <-])%result_bind_Ok Hb1 Hb2. split; [by apply setModuleImageSpec_wanted|done]. }
  apply safe_then, safe_one; [|done]. intros st1 x st2 _ Hi H. simpl in H. destruct (im_mbsc st1) as [b|] eqn:E.
  - case_decide; [|subst st2; split; [done|reflexivity]]. destruct (mbsc_mutate m s action b) as [b'|] eqn:Em; destruct H as [_ ->].
    + split; [|by apply lasts_same]. apply images_ok_mbsc; [done|]. intros b0 [= <-].
      destruct (ok_mbsc _ Hi _ E) as [? ?]. by eapply Hmut.
    + split; [done|reflexivity].
  - destruct (mbsc_mutate m s action _) as [b'|] eqn:Em.
    + destruct H as (uid & _ & ->). split; [|by apply lasts_same]. apply images_ok_mbsc; [done|]. intros b0 [= <-].
      destruct (Hmut (im_facts st1) _ _ Em) as [? ?]; [constructor..|]. by split.
    + destruct H as [_ ->]. split; [done|reflexivity].
Qed.

Lemma process_image_safe m pods s errs st :
  wanted s → safely (process_image m pods s errs) (λ _ _, True) st.
Proof.
  intros Hs. assert (∀ action, safely (err ← mbsc_CreateOrPatch m s action; mret (errs ++ [err])) (λ _ _, True) st) as Hreq.
  { intros action. apply safe_then. eapply safe_post; [|by apply mbsc_request_safe]. done. }
  unfold process_image. destruct (GetImageState m (mis_Image s)); [|done| |done..].
  - destruct (GetPullPodForImage _ _); [done|]. apply safe_then. unfold CreatePullPod.
    destruct (SetControllerReference _ _ _) as [om|e] eqn:E; [|done].
    eapply safe_post; [|eapply safe_create_pod, pull_pod_purpose, E]. done.
  - by destruct (_ && _).
Qed.

Lemma MIC_pass_safe m st : mic_ok (im_facts st) m → safely (MIC_Reconcile m) (λ _ _, True) st.
Proof.
  intros Hm. unfold MIC_Reconcile. destruct (om_DeletionTimestamp _); [done|]. apply safe_then.
  eapply safe_post; [|by apply handle_trigger_safe]. intros [m1 r] st1 _ Hm1. destruct r as [[|]|e]; [done| |done].
  specialize (Hm1 eq_refl). simpl in Hm1. apply safe_then. eapply safe_post; [|apply ListPullPods_safe].
  intros r st2 Hle2 Hpods. destruct r as [pods|e]; [|done]. specialize (Hpods _ eq_refl). apply safe_then.
  eapply safe_post; [|apply updateStatusByPullPods_safe; [by eapply mic_ok_mono|done]].
  intros [m2 err] st3 _ Hm2. destruct err as [e|]; [done|]. specialize (Hm2 eq_refl). simpl in Hm2. apply safe_then.
  eapply safe_post; [|by apply updateStatusByMBSC_safe]. intros [m3 err'] st4 _ Hm3. destruct err' as [e|]; [done|].
  specialize (Hm3 eq_refl). simpl in Hm3. unfold mic_processImagesSpecs. apply safe_then, safe_then.
  apply (safe_post _ (λ _ _, True)); [done|]. apply safe_for_range; [apply _|done..|].
  intros s errs st5 Hs _ _. apply process_image_safe. by eapply Forall_forall; [apply Hm3|].
Qed.

(** ** The pass of the ModuleBuildSignConfig controller

    One image per kernel: only then does the pod of a kernel stand for the image. *)
Context (one_image : ∀ s s', wanted s → wanted s' →
  DNSSafeKernelVersion (mis_KernelVersion s) = DNSSafeKernelVersion (mis_KernelVersion s') → mis_Image s = mis_Image s').

Lemma GetResourceByKernel_safe name ns kernel action owner st :
  safely (GetResourceByKernel name ns kernel action owner)
    (λ r st', ∀ p, r = Ok p → pod_ok (im_facts st') p ∧ moduleKernelLabels name kernel action ⊆ pod_Labels p) st.
Proof.
  apply safe_then, safe_then. eapply safe_post; [|apply safe_list_pods]. intros r st1 _ Hr st2 Hle2 st3 Hle3 p Hp.
  destruct r as [l|e]; simpl in Hp; [|done]. destruct (filterResourcesByOwner l owner) as [|q [|]] eqn:E; [done| |done]. injection Hp as ->.
  assert (p ∈ l) as Hin.
  { assert (p ∈ filterResourcesByOwner l owner) as H by (rewrite E; left). by apply list_elem_of_filter in H as [_ ?]. }
  destruct (Hr _ _ eq_refl Hin) as [Hok Hm]. split; [eapply pod_ok_mono; [|exact Hok]; by etrans|].
  unfold matches_options in Hm. simpl in Hm. rewrite !andb_true_iff in Hm. destruct Hm as [Hm _]. by apply bool_decide_eq_true in Hm.
Qed.

Lemma GetStatus_safe name ns s action owner st :
  wanted s →
  safely (GetStatus name ns (mis_KernelVersion s) action owner)
    (λ r st', r = Ok ActionSuccess → made (im_facts st') s action) st.
Proof.
  intros Hs. unfold GetStatus. apply safe_then. eapply safe_post; [|apply GetResourceByKernel_safe].
  intros r st1 _ Hr st2 Hle2. destruct r as [p|e]; [|by case_match].
  destruct (Hr _ eq_refl) as [[Hpu Hd] Hl]. destruct (Hpu _ _ _ Hl) as (s' & Hs' & Hk & Hf).
  destruct (GetResourceStatus p) as [[]|] eqn:E; try done. intros _.
  assert (pod_facts p ⊆ im_facts st2) as Hin.
  { etrans; [|exact Hle2]. apply Hd. unfold GetResourceStatus in E. by destruct (pod_Phase p). }
  destruct Hf as [Hf|Hf]; rewrite Hf in Hin; [left; rewrite (one_image s s') by done|right]; apply Hin; left.
Qed.

(** What a template makes: it pushes the image, or is told not to push. *)
Definition makes (image : string) (push : bool) (spec : PodSpec) : Prop :=
  ∃ c args l, ps_Containers spec = c :: l ∧ ct_Args c = (if push then ["--destination"; image] else ["--no-push"]) ++ args.

Lemma containerArgs_makes mld image tls push args :
  containerArgs mld image tls push = Ok args → ∃ l, args = (if push then ["--destination"; image] else ["--no-push"]) ++ l.
Proof.
  intros (a & Ha & [= <-])%result_bind_Ok. destruct push; [destruct (mld_RegistryTLS mld); [|done]|]; injection Ha as <-; simpl; eauto.
Qed.

Lemma buildSpec_makes mld image push spec : buildSpec mld image push = Ok spec → makes image push spec.
Proof.
  unfold buildSpec. destruct (mld_Build mld); [|done].
  intros (args & (l & ->)%containerArgs_makes & ([vols mounts] & _ & [= <-])%result_bind_Ok)%result_bind_Ok.
  eexists _, _, _. split; [done|]. simpl. rewrite <-app_assoc. done.
Qed.

Lemma signSpec_makes mld image push spec : signSpec mld image push = Ok spec → makes image push spec.
Proof.
  unfold signSpec. destruct (mld_Sign mld); [|done].
  intros (args & (l & ->)%containerArgs_makes & ([vols mounts] & _ & [= <-])%result_bind_Ok)%result_bind_Ok.
  eexists _, _, _. split; [done|]. simpl. rewrite <-?app_assoc. done.
Qed.

Lemma resource_pod_facts mld action ann spec kd owner image push p :
  makes image push spec → own_pod kd owner (resource_pod mld action ann spec) = Ok p →
  pod_facts p = [if push then Pushed image action else Unpushed (mld_KernelNormalizedVersion mld) action].
Proof.
  intros (c & args & l & Hc & Ha). unfold own_pod. intros (m & Hm%wrap_v_Ok%SetControllerReference_spec & [= <-])%result_bind_Ok.
  unfold pod_facts, pod_action, pod_Labels. simpl. rewrite Hm, Hc. simpl. rewrite Ha.
  by destruct push, action.
Qed.

Lemma template_makes mld kd owner push action :
  wp (MakeResourceTemplate mld kd owner push action) (λ _ r, ∀ p, r = Ok p →
    pod_facts p = [if push then Pushed (mld_ContainerImage mld) action else Unpushed (mld_KernelNormalizedVersion mld) action]).
Proof.
  unfold MakeResourceTemplate, makeBuildTemplate, makeSignTemplate. destruct action.
  - destruct (buildSpec _ _ _) as [spec|e] eqn:Es; [|done]. destruct (mld_Build mld ≫= _); [|done].
    apply wp_bind. apply wp_all. intros tr [h|e]; [|done]. apply wp_ret. intros p. by eapply resource_pod_facts, buildSpec_makes.
  - destruct (mld_Sign mld) as [sc|]; [|done]. case_match; [|done]. destruct (signSpec _ _ _) as [spec|e] eqn:Es; [|done].
    destruct (sign_KeySecret sc), (sign_CertSecret sc); try done.
    apply wp_bind. apply wp_all. intros tr [h|e]; [|done]. apply wp_ret. intros p. by eapply resource_pod_facts, signSpec_makes.
Qed.

Lemma template_safe b s kd owner st push action :
  wanted s →
  safely (MakeResourceTemplate (createMLD b s) kd owner push action) (λ r _, ∀ p, r = Ok p → pod_purpose p) st.
Proof.
  intros Hs. apply safe_reads.
  - eapply wp_mono; [|apply (MakeResourceTemplate_wp (createMLD b s) kd owner push action)]. by intros tr r [H _].
  - eapply wp_mono; [|apply wp_and; [apply template_makes|apply MakeResourceTemplate_wp]].
    intros tr r [Hf [_ Hok]] p Hp. specialize (Hf p Hp). destruct (Hok p Hp) as (_ & Hl & _).
    intros n k a. rewrite Hl. intros (_ & -> & ->)%moduleKernelLabels_distinct. exists s. split_and!; [done..|].
    rewrite Hf. destruct push; [by left|by right].
Qed.

Lemma Sync_safe b s push action kd owner st :
  wanted s → safely (Sync (createMLD b s) push action kd owner) (λ _ _, True) st.
Proof.
  intros Hs. unfold Sync. apply safe_then. eapply safe_post; [|by apply template_safe]. intros r st1 _ Hp.
  destruct r as [p|e]; [|done]. specialize (Hp _ eq_refl). apply safe_then. eapply safe_post; [|apply GetResourceByKernel_safe].
  intros r st2 _ _. destruct r as [q|e].
  - destruct (IsResourceChanged q p) as [[|]|]; [|done..]. apply safe_then. eapply safe_post; [|apply safe_delete_pod]. done.
  - destruct (negb _); [done|]. apply safe_then. eapply safe_post; [|by apply safe_create_pod]. done.
Qed.

Lemma outcomes_set F b image action status :
  Forall (outcome_ok F) (mbsc_status_Images b) → (status = ActionSuccess → made_image F image action) →
  Forall (outcome_ok F) (mbsc_status_Images (mbsc_SetImageStatus b image action status)).
Proof.
  intros Hb Hs. simpl. induction (mbsc_status_Images b) as [|e l IH]; simpl; [by constructor|].
  apply Forall_cons in Hb as [He Hl]. case_match; constructor; auto.
Qed.

Lemma outcomes_mono F F' l : F ⊆ F' → Forall (outcome_ok F) l → Forall (outcome_ok F') l.
Proof. intros H Hl. eapply Forall_impl; [exact Hl|]. intros e. by apply outcome_mono. Qed.

Lemma status_step_safe owner e b errs st :
  wanted (mbs_spec e) → Forall (outcome_ok (im_facts st)) (mbsc_status_Images b) →
  safely (status_step owner e (b, errs)) (λ r st', Forall (outcome_ok (im_facts st')) (mbsc_status_Images r.1)) st.
Proof.
  intros He Hb. unfold status_step. apply safe_then. eapply safe_post; [|by apply GetStatus_safe].
  intros r st1 Hle1 Hr st2 Hle2. assert (Forall (outcome_ok (im_facts st2)) (mbsc_status_Images b)) as Hb2.
  { eapply outcomes_mono; [|exact Hb]. by etrans. }
  destruct r as [[]|]; [done| |by apply outcomes_set|done]. apply outcomes_set; [done|]. intros _.
  exists (mbs_spec e). split_and!; [done..|]. eapply made_mono; [exact Hle2|]. by apply Hr.
Qed.

Lemma updateStatus_safe b st :
  mbsc_ok (im_facts st) b → safely (mbsc_updateStatus b) (λ r st', r.2 = None → mbsc_ok (im_facts st') r.1) st.
Proof.
  intros [Hw Ho]. unfold mbsc_updateStatus. apply safe_then.
  eapply safe_post; [|apply (safe_for_range _ _ _ _ (λ r st', Forall (outcome_ok (im_facts st')) (mbsc_status_Images r.1)))].
  - intros [new errs] st1 _ Hn. apply safe_then. eapply safe_post; [|by apply safe_mbsc_status].
    intros [b' err] st2 _ Hb st3 Hle3 Herr. simpl in Herr. rewrite errors_Join_app in Herr. destruct Herr as [_ Herr]. destruct err; [done|].
    eapply mbsc_ok_mono; [exact Hle3|]. by apply Hb.
  - intros r st1 st2 Hle. by apply outcomes_mono.
  - done.
  - intros e [b' errs] st1 He _ Hb. apply status_step_safe; [|done]. rewrite Forall_forall in Hw. by apply Hw.
Qed.

Lemma sync_images_safe b images errs st :
  Forall (λ e, wanted (mbs_spec e)) images →
  safely (sync_images b images errs) (λ _ _, True) st.
Proof.
  intros Hw. revert errs st. induction Hw as [|e l He Hl IH]; intros errs st; [done|]. simpl. case_bool_decide; [apply IH|].
  apply safe_then. eapply safe_post; [|by apply Sync_safe]. intros err st1 _ _.
  destruct err as [e'|]; [|apply IH]. destruct (is_panic e'); [done|apply IH].
Qed.

Lemma GarbageCollect_safe name ns action owner st : safely (GarbageCollect name ns action owner) (λ _ _, True) st.
Proof.
  unfold GarbageCollect, GetModuleResources, getResources. apply safe_then, safe_then, safe_then.
  eapply safe_post; [|apply safe_list_pods]. intros r st1 _ _ st2 _ st3 _. destruct (wrap_v _ r) as [l|e]; [|done].
  apply safe_then. apply (safe_post _ (λ _ _, True)); [by intros [? ?]|]. apply safe_for_range; [apply _|done..|].
  intros p [deleted errs] st4 _ _ _. unfold gc_step. destruct (HasResourcesCompletedSuccessfully p); [|done].
  apply safe_then. eapply safe_post; [|apply safe_delete_pod]. done.
Qed.

Lemma MBSC_pass_safe b st : mbsc_ok (im_facts st) b → safely (MBSC_Reconcile b) (λ _ _, True) st.
Proof.
  intros Hb. unfold MBSC_Reconcile. destruct (om_DeletionTimestamp _); [done|]. apply safe_then.
  eapply safe_post; [|by apply updateStatus_safe]. intros [b1 err] st1 _ Hb1. destruct err as [e|]; [done|].
  specialize (Hb1 eq_refl). simpl in Hb1. apply safe_then. unfold mbsc_processImagesSpecs. apply safe_then.
  eapply safe_post; [|apply sync_images_safe; apply Hb1]. intros r st2 _ _ st3 _.
  destruct (match r with Ok _ => _ | Err _ => _ end); [done|]. apply safe_then. unfold mbsc_garbageCollect. apply safe_then.
  eapply safe_post; [|apply GarbageCollect_safe]. intros [d1 err1] st4 _ _. destruct err1 as [e|]; [done|]. apply safe_then.
  eapply safe_post; [|apply GarbageCollect_safe]. by intros [d2 err2] st5 _ _.
Qed.

(** A module nothing was done for yet. *)
Definition images_initial st : Prop :=
  im_mbsc st = None ∧ im_pods st = ∅ ∧ im_facts st = [] ∧ mic_states (im_mic st) = [] ∧
  Forall wanted (mics_Images (mic_spec (im_mic st))).

Lemma images_initial_ok st : images_initial st → images_ok st.
Proof.
  intros (H1 & H2 & H3 & H4 & H5). split.
  - split; [done|]. intros image. unfold GetImageState. by rewrite H4.
  - intros b. by rewrite H1.
  - intros key p. by rewrite H2, lookup_empty.
Qed.

(** C8: an image is said to exist only on evidence.  Start from a ModuleImagesConfig nothing was done for
    yet, let its owner rewrite the spec at any time, with images to push or not, as long as over the
    whole history the specifications give one image per kernel; then in every state that any
    interleaving of the calls of both controllers and of the pods reaches, whatever fails or is cut
    short: an image whose recorded state is that it exists was pulled by a pull pod, or signed by a
    sign pod, or built by a build pod while some specification of it asks for no signature.  If all
    specifications of the image agree on whether it is signed, the last means that its own one asks
    for none.  A sign or build pod pushed the image, unless it was told not to push. *)
Theorem image_exists_on_evidence st0 w s :
  images_initial st0 → rtc image_step (Pool st0 []) w →
  let st := po_store w in
  s ∈ mics_Images (mic_spec (im_mic st)) → GetImageState (im_mic st) (mis_Image s) = ImageExists →
  evidence (im_facts st) (mis_Image s) ∧
  ((∀ s', wanted s' → mis_Image s' = mis_Image s → mis_Sign s' = None → mis_Sign s = None) →
   Pulled (mis_Image s) ∈ im_facts st ∨ made_image (im_facts st) (mis_Image s) SignImage ∨
   (made_image (im_facts st) (mis_Image s) BuildImage ∧ mis_Sign s = None)).
Proof.
  intros H0 Hr st Hs He.
  assert (images_ok st) as Hok.
  { eapply (pool_sound serves_images image_pass world_event images_ok lasts); [| |by apply images_initial_ok|exact Hr].
    - intros st1 t Hi Ht. destruct Ht as [st1|st1 b Hb]; [apply MIC_pass_safe, Hi|by apply MBSC_pass_safe, Hi].
    - intros st1 st2. apply event_ok. }
  pose proof (mk_states _ _ (ok_mic _ Hok) _ He) as Hev. split; [done|]. intros Hsign.
  destruct Hev as [?|[?|(? & s' & ? & ? & ?)]]; [by left|right; by left|]. right. right. eauto.
Qed.
End pipeline.

(** ** An executable server *)

Definition supply (c : call) (st : images) : resp c * images :=
  match c as c return resp c * images with
  | Get k key =>
      match k as k return result (obj k) * images with
      | KMBSC => (match mbsc_at st key with Some b => Ok b | None => Err (ErrStatus ReasonNotFound) end, st)
      | KConfigMap => (Ok demo_dockerfile, st)
      | _ => (Err (ErrStatus ReasonOther), st)
      end
  | ListAll k opts =>
      match k as k return result (list (obj k)) * images with
      | KPod => (Ok (filter (λ p, matches_options opts p = true) (map_to_list (im_pods st)).*2), st)
      | _ => (Err (ErrStatus ReasonOther), st)
      end
  | Create k o =>
      match k as k return obj k → result (obj k) * images with
      | KPod => λ p,
          let name := if String.eqb (pod_Name p) "" then om_GenerateName (pod_meta p) +:+ "x" else pod_Name p in
          let q := pod_admitted p name "pod" in
          match im_pods st !! obj_key KPod q with
          | Some _ => (Err (ErrStatus ReasonAlreadyExists), st)
          | None => (Ok q, with_pods st (<[obj_key KPod q := q]> (im_pods st)))
          end
      | _ => λ _, (Err (ErrStatus ReasonOther), st)
      end o
  | Delete k o =>
      match k as k return obj k → result () * images with
      | KPod => λ p,
          match im_pods st !! obj_key KPod p with
          | None => (Err (ErrStatus ReasonNotFound), st)
          | Some q =>
              (Ok (), with_pods st (match om_Finalizers (pod_meta q) with
                                    | [] => delete (obj_key KPod p) (im_pods st)
                                    | _ => <[obj_key KPod p := pod_terminating q 0]> (im_pods st)
                                    end))
          end
      | KMBSC => λ b,
          match mbsc_at st (obj_key KMBSC b) with
          | None => (Err (ErrStatus ReasonNotFound), st)
          | Some _ => (Ok (), with_mbsc st None)
          end
      | _ => λ _, (Err (ErrStatus ReasonOther), st)
      end o
  | StatusPatch k base new =>
      match k as k return obj k → obj k → result (obj k) * images with
      | KMIC => λ base new,
          if decide (obj_key KMIC base = obj_key KMIC (im_mic st))
          then let m := mic_merge_status base new (im_mic st) in (Ok m, with_mic st m)
          else (Err (ErrStatus ReasonNotFound), st)
      | KMBSC => λ base new,
          match mbsc_at st (obj_key KMBSC base) with
          | None => (Err (ErrStatus ReasonNotFound), st)
          | Some cur => let b := mbsc_merge_status base new cur in (Ok b, with_mbsc st (Some b))
          end
      | _ => λ _ _, (Err (ErrStatus ReasonOther), st)
      end base new
  | CreateOrPatch k o f =>
      match k as k return obj k → (obj k → result (obj k)) → result (obj k) * images with
      | KMBSC => λ o f,
          match im_mbsc st with
          | Some b =>
              if decide (obj_key KMBSC o = obj_key KMBSC b)
              then match f b with Ok b' => (Ok b', with_mbsc st (Some b')) | Err e => (Err e, st) end
              else (Err (ErrStatus ReasonOther), st)
          | None =>
              match f o with
              | Ok b => (Ok (mbsc_admitted b "mbsc"), with_mbsc st (Some (mbsc_admitted b "mbsc")))
              | Err e => (Err e, st)
              end
          end
      | _ => λ _ _, (Err (ErrStatus ReasonOther), st)
      end o f
  | c => (resp_inhabited c, st)
  end.

Lemma supply_supplies c st : supplies st c (supply c st).1 (supply c st).2.
Proof.
  destruct c as [k ?|k ?|k o|k o|k base new ?|k base new|k o|k o f| | | | | | |]; try done; destruct k; try done; simpl.
  - split; [done|]. eauto.
  - exists (if String.eqb (pod_Name o) "" then om_GenerateName (pod_meta o) +:+ "x" else pod_Name o), "pod".
    split; [destruct (String.eqb_spec (pod_Name o) ""); auto|]. by destruct (im_pods st !! _).
  - destruct (im_pods st !! _) as [q|]; [|done]. split; [done|]. destruct (om_Finalizers _); [by left|]. right. by exists 0%Z.
  - by destruct (mbsc_at st _).
  - by case_decide.
  - by destruct (mbsc_at st _).
  - destruct (im_mbsc st) as [b|]; [case_decide; [|done]; by destruct (f b)|]. destruct (f o); [by eexists|done].
Qed.

(** ** Example: an image is built, and another one believed to exist *)

Definition demo_built (image : string) : ModuleImageSpec :=
  {| mis_Image := image; mis_KernelVersion := "6.1.0"; mis_Build := Some demo_build; mis_Sign := None;
     mis_SkipWaitMissingImage := false; mis_RegistryTLS := Some {| tls_Insecure := false; tls_InsecureSkipTLSVerify := false |};
     mis_DirName := "/opt" |}.

Definition demo_asks (image : string) (m : ModuleImagesConfig) : ModuleImagesConfig :=
  mic_set_spec m
    {| mics_Images := [demo_built image]; mics_ImageRepoSecret := None; mics_ImagePullPolicy := "Always";
       mics_PushBuiltImage := true; mics_ImageRebuildTriggerGeneration := None; mics_Tolerations := [] |}.

Definition demo_images0 : images :=
  {| im_mic := demo_asks "registry/mod:v1" (empty_mic "ns" "mod"); im_mbsc := None; im_pods := ∅; im_facts := [] |}.

Definition demo_mic_pass (st : images) : images := (run supply (MIC_Reconcile (EXT := demo_externals) (im_mic st)) st).2.
Definition demo_mbsc_pass (st : images) : images :=
  match im_mbsc st with Some b => (run supply (MBSC_Reconcile (EXT := demo_externals) b) st).2 | None => st end.

Definition demo_pull_key : NamespacedName := nsn "ns" "mod-pull-pod-x".
Definition demo_build_key : NamespacedName := nsn "ns" "mod-build-6-1-0".
Definition demo_succeeded : PodStatus := {| pst_Phase := PodSucceeded; pst_ContainerStatuses := []; pst_Ready := false |}.
Definition demo_not_pulled : PodStatus :=
  {| pst_Phase := PodPending;
     pst_ContainerStatuses := [{| cs_Name := pullerContainerName; cs_RestartCount := 0%Z; cs_WaitingReason := Some errImagePullReason |}];
     pst_Ready := false |}.

Definition demo_report (key : NamespacedName) (ps : PodStatus) (st : images) : images :=
  match im_pods st !! key with Some p => with_pods st (<[key := with_status p ps]> (im_pods st)) | None => st end.
Definition demo_finish (key : NamespacedName) (st : images) : images :=
  match im_pods st !! key with
  | Some p => with_facts (with_pods st (<[key := with_status p demo_succeeded]> (im_pods st))) (pod_facts p ++ im_facts st)
  | None => st
  end.

(** The pull fails, the image is requested and built, and its pod is kept by a finalizer. *)
Definition demo_images1 : images := Eval vm_compute in demo_mic_pass demo_images0.
Definition demo_images2 : images := Eval vm_compute in demo_mic_pass (demo_report demo_pull_key demo_not_pulled demo_images1).
Definition demo_images3 : images := Eval vm_compute in demo_mbsc_pass demo_images2.
Definition demo_images4 : images := Eval vm_compute in demo_mbsc_pass (demo_finish demo_build_key demo_images3).
Definition demo_images5 : images := Eval vm_compute in demo_mic_pass demo_images4.

(** The module asks for another image for the same kernel. *)
Definition demo_images6 : images :=
  Eval vm_compute in demo_mic_pass (with_mic demo_images5 (demo_asks "registry/mod:v2" (im_mic demo_images5))).
Definition demo_images7 : images := Eval vm_compute in demo_mic_pass (demo_report demo_pull_key demo_not_pulled demo_images6).
Definition demo_images8 : images := Eval vm_compute in demo_mic_pass (demo_mbsc_pass demo_images7).

Section demo_steps.
Context (wanted : ModuleImageSpec → Prop).
Notation reaches st st' := (rtc (image_step (EXT := demo_externals) wanted) (Pool st []) (Pool st' [])).

Lemma supply_serves c st : serves_images st c (supply c st).1 (supply c st).2.
Proof. left. apply supply_supplies. Qed.

Lemma demo_mic_passes st st' : demo_mic_pass st = st' → reaches st st'.
Proof. intros <-. apply pool_pass; [apply supply_serves|apply pass_mic]. Qed.

Lemma demo_mbsc_passes st st' : demo_mbsc_pass st = st' → reaches st st'.
Proof.
  intros <-. unfold demo_mbsc_pass. destruct (im_mbsc st) as [b|] eqn:E; [|apply rtc_refl].
  apply pool_pass; [apply supply_serves|by apply pass_mbsc].
Qed.

Lemma demo_reports key st st' : demo_report key demo_not_pulled st = st' →
  (∀ p, im_pods st !! key = Some p → finished p = false) → reaches st st'.
Proof.
  intros <- Hf. unfold demo_report. destruct (im_pods st !! key) as [p|] eqn:E; [|apply rtc_refl].
  apply rtc_once, pool_event. by apply ev_report; [..|by apply Hf|].
Qed.

Lemma demo_finishes key st st' : demo_finish key st = st' →
  (∀ p, im_pods st !! key = Some p → finished p = false) → reaches st st'.
Proof.
  intros <- Hf. unfold demo_finish. destruct (im_pods st !! key) as [p|] eqn:E; [|apply rtc_refl].
  apply rtc_once, pool_event. by apply ev_done; [..|by apply Hf|].
Qed.

Lemma demo_unfinished key st :
  (if im_pods st !! key is Some p then finished p else false) = false → ∀ p, im_pods st !! key = Some p → finished p = false.
Proof. by intros H p E; rewrite E in H. Qed.

Lemma demo_builds : reaches demo_images0 demo_images5.
Proof.
  etrans; [apply (demo_mic_passes _ demo_images1); vm_compute; reflexivity|].
  etrans; [apply (demo_reports demo_pull_key); [reflexivity|by apply demo_unfinished; vm_compute]|].
  etrans; [apply (demo_mic_passes _ demo_images2); vm_compute; reflexivity|].
  etrans; [apply (demo_mbsc_passes _ demo_images3); vm_compute; reflexivity|].
  etrans; [apply (demo_finishes demo_build_key); [reflexivity|by apply demo_unfinished; vm_compute]|].
  etrans; [apply (demo_mbsc_passes _ demo_images4); vm_compute; reflexivity|].
  apply demo_mic_passes. vm_compute. reflexivity.
Qed.

Lemma demo_reuses : wanted (demo_built "registry/mod:v2") → reaches demo_images5 demo_images8.
Proof.
  intros Hw. etrans; [apply rtc_once, pool_event, (ev_spec _ _ (demo_asks "registry/mod:v2" (im_mic demo_images5)));
    [reflexivity|by constructor]|].
  etrans; [apply (demo_mic_passes _ demo_images6); vm_compute; reflexivity|].
  etrans; [apply (demo_reports demo_pull_key); [reflexivity|by apply demo_unfinished; vm_compute]|].
  etrans; [apply (demo_mic_passes _ demo_images7); vm_compute; reflexivity|].
  etrans; [apply demo_mbsc_passes; reflexivity|]. apply demo_mic_passes. vm_compute. reflexivity.
Qed.
End demo_steps.

Lemma image_exists_on_evidence_witness :
  let wanted s := s = demo_built "registry/mod:v1" in
  GetImageState (im_mic demo_images5) "registry/mod:v1" = ImageExists ∧
  evidence wanted (im_facts demo_images5) "registry/mod:v1".
Proof.
  intros wanted. split; [reflexivity|].
  refine (proj1 (image_exists_on_evidence (EXT := demo_externals) wanted _ demo_images0 (Pool demo_images5 []) (demo_built "registry/mod:v1") _ _ _ _)).
  - by intros s s' -> ->.
  - repeat split. by constructor.
  - apply demo_builds.
  - left.
  - reflexivity.
Defined.

(** The hypothesis that a kernel has one image is needed.  The outcome of a build is looked up by
    kernel and action: when the module asks for another image for the same kernel while the
    successful pod of the previous one is kept ([job.gcDelay]), that pod counts as the build of
    the new image, which is then said to exist although nothing pulled or pushed it. *)
Theorem finished_build_counts_for_other_image :
  let wanted s := s = demo_built "registry/mod:v1" ∨ s = demo_built "registry/mod:v2" in
  images_initial wanted demo_images0 ∧
  rtc (image_step (EXT := demo_externals) wanted) (Pool demo_images0 []) (Pool demo_images8 []) ∧
  GetImageState (im_mic demo_images8) "registry/mod:v2" = ImageExists ∧
  ¬ evidence wanted (im_facts demo_images8) "registry/mod:v2".
Proof.
  intros wanted. split_and!.
  - repeat split. constructor; [by left|constructor].
  - etrans; [apply demo_builds|apply demo_reuses; by right].
  - reflexivity.
  - assert (∀ action, ¬ made_image wanted (im_facts demo_images8) "registry/mod:v2" action) as Hno.
    { intros action (s & [->| ->] & Hi & [H|H]); [discriminate Hi|discriminate Hi|..]; vm_compute in H; apply list_elem_of_singleton in H; discriminate H. }
    intros [H|[H|[H _]]]; [|by apply Hno in H..]. vm_compute in H. apply list_elem_of_singleton in H. discriminate H.
Qed.
