(* ===== verification/VersionLabels.v ===== *)
(** * Version labels of nodes
    ([internal/controllers/node_label_module_version_reconciler.go],
    [internal/controllers/module_version_label_action_table.go])

    The rolling upgrade of a versioned module on a node is driven by three labels: the version
    the user asks for, the version worker pods may load, and the version device-plugin and DRA
    pods may run against.  A pass looks at the three labels of every module of the node and
    adds or removes one label per module. *)

From S2P Require Import Prelude Types Kube GoStrings Externals Demo Labels NmcHelper.

Open Scope string_scope.
Open Scope nat_scope.
Open Scope list_scope.

(** ** The action table *)

Inductive label_state := labelMissing | labelPresent | labelDifferent.
Inductive label_action := addAction | deleteAction | noneAction.

#[export] Instance label_state_eq_dec : EqDecision label_state.
Proof. solve_decision. Defined.
#[export] Instance label_action_eq_dec : EqDecision label_action.
Proof. solve_decision. Defined.

Record labelActionKey := { lk_module : label_state; lk_workerPod : label_state; lk_schedulePod : label_state }.

(** The name function is [nil] where there is nothing to do. *)
Record labelAction := { la_getLabelName : option (string → string → string); la_action : label_action }.

Definition labelActionTable (k : labelActionKey) : option labelAction :=
  match lk_module k, lk_workerPod k, lk_schedulePod k with
  | labelMissing, labelMissing, labelMissing => Some {| la_getLabelName := None; la_action := noneAction |}
  | labelMissing, labelPresent, labelPresent => Some {| la_getLabelName := Some GetSchedulePodVersionLabelName; la_action := deleteAction |}
  | labelMissing, labelPresent, labelMissing => Some {| la_getLabelName := Some GetWorkerPodVersionLabelName; la_action := deleteAction |}
  | labelPresent, labelMissing, labelMissing => Some {| la_getLabelName := Some GetWorkerPodVersionLabelName; la_action := addAction |}
  | labelPresent, labelPresent, labelMissing => Some {| la_getLabelName := Some GetSchedulePodVersionLabelName; la_action := addAction |}
  | labelPresent, labelPresent, labelPresent => Some {| la_getLabelName := None; la_action := noneAction |}
  | labelPresent, labelDifferent, labelDifferent => Some {| la_getLabelName := Some GetSchedulePodVersionLabelName; la_action := deleteAction |}
  | labelPresent, labelDifferent, labelMissing => Some {| la_getLabelName := Some GetWorkerPodVersionLabelName; la_action := deleteAction |}
  | _, _, _ => None
  end.

Record modulesVersionLabels := {
  mvl_name : string;
  mvl_namespace : string;
  mvl_module : string;
  mvl_workerPod : string;
  mvl_schedulePod : string;
}.

Definition getModuleVersionLabelsState (m : modulesVersionLabels) : labelActionKey :=
  {| lk_module := if String.eqb (mvl_module m) "" then labelMissing else labelPresent;
     lk_workerPod :=
       if String.eqb (mvl_workerPod m) "" then labelMissing
       else if negb (String.eqb (mvl_module m) "") && negb (String.eqb (mvl_workerPod m) (mvl_module m)) then labelDifferent
       else labelPresent;
     lk_schedulePod :=
       if String.eqb (mvl_schedulePod m) "" then labelMissing
       else if negb (String.eqb (mvl_module m) "") && negb (String.eqb (mvl_schedulePod m) (mvl_module m)) then labelDifferent
       else labelPresent |}.

Definition getLabelAndAction (m : modulesVersionLabels) : string * string * label_action :=
  match labelActionTable (getModuleVersionLabelsState m) with
  | None => ("", "", noneAction)
  | Some la =>
      let label := match la_getLabelName la with Some f => f (mvl_namespace m) (mvl_name m) | None => "" end in
      match la_action la with
      | noneAction => ("", "", noneAction)
      | deleteAction => (label, "", deleteAction)
      | addAction => (label, mvl_module m, addAction)
      end
  end.

(** ** The pass *)

Definition mvl_set (m : modulesVersionLabels) (key value : string) : modulesVersionLabels :=
  if IsModuleVersionLabel key then
    {| mvl_name := mvl_name m; mvl_namespace := mvl_namespace m; mvl_module := value;
       mvl_workerPod := mvl_workerPod m; mvl_schedulePod := mvl_schedulePod m |}
  else if IsWorkerPodVersionLabel key then
    {| mvl_name := mvl_name m; mvl_namespace := mvl_namespace m; mvl_module := mvl_module m;
       mvl_workerPod := value; mvl_schedulePod := mvl_schedulePod m |}
  else if IsSchedulePodVersionLabel key then
    {| mvl_name := mvl_name m; mvl_namespace := mvl_namespace m; mvl_module := mvl_module m;
       mvl_workerPod := mvl_workerPod m; mvl_schedulePod := value |}
  else m.

Definition mvl_new (namespace name : string) : modulesVersionLabels :=
  {| mvl_name := name; mvl_namespace := namespace; mvl_module := ""; mvl_workerPod := ""; mvl_schedulePod := "" |}.

Definition module_map_key (namespace name : string) : string := namespace +:+ "-" +:+ name.

Definition per_module_step (labelsPerModule : gmap string modulesVersionLabels) (kv : string * string) : gmap string modulesVersionLabels :=
  let '(key, value) := kv in
  if IsVersionLabel key then
    match GetNamespaceNameFromVersionLabel key with
    | Err _ => labelsPerModule
    | Ok (namespace, name) =>
        let mapKey := module_map_key namespace name in
        let m := default (mvl_new namespace name) (labelsPerModule !! mapKey) in
        <[mapKey := mvl_set m key value]> labelsPerModule
    end
  else labelsPerModule.

(** No pod of the module may be left on the node. *)
Definition verifyLabelDeleteValidity (name namespace : string) (pods : list Pod) : bool :=
  negb (existsb (λ p, String.eqb (pod_Namespace p) namespace && String.eqb (map_get (pod_Labels p) constants.ModuleNameLabel) name) pods).

Definition verifyLabelAddValidity (name namespace : string) (loadedKernelModules : list NamespacedName) : bool :=
  negb (existsb (λ k, bool_decide (k = nsn namespace name)) loadedKernelModules).

Record reconcileLabelsResult := {
  rl_labelsToAdd : labels_t;
  rl_labelsToDelete : list string;
  rl_requeue : bool;
}.

Definition recon_step (schedulePods : list Pod) (loadedKernelModules : list NamespacedName) (res : reconcileLabelsResult) (m : modulesVersionLabels) : reconcileLabelsResult :=
  let '(label, labelValue, action) := getLabelAndAction m in
  let requeue := {| rl_labelsToAdd := rl_labelsToAdd res; rl_labelsToDelete := rl_labelsToDelete res; rl_requeue := true |} in
  match action with
  | deleteAction =>
      if IsWorkerPodVersionLabel label && negb (verifyLabelDeleteValidity (mvl_name m) (mvl_namespace m) schedulePods) then requeue
      else {| rl_labelsToAdd := rl_labelsToAdd res; rl_labelsToDelete := rl_labelsToDelete res ++ [label];
              rl_requeue := rl_requeue res |}
  | addAction =>
      if IsWorkerPodVersionLabel label && negb (verifyLabelAddValidity (mvl_name m) (mvl_namespace m) loadedKernelModules) then requeue
      else {| rl_labelsToAdd := <[label := labelValue]> (rl_labelsToAdd res); rl_labelsToDelete := rl_labelsToDelete res;
              rl_requeue := rl_requeue res |}
  | noneAction => res
  end.

Section version_labels.
Context `{EXT : Externals}.

Definition getLabelsPerModules (nodeLabels : labels_t) : gmap string modulesVersionLabels :=
  foldl per_module_step ∅ (range_map nodeLabels).

Definition getSchedulePods (nodeName : string) : prog (result (list Pod)) :=
  match NewRequirement_In constants.DaemonSetRole [constants.DevicePluginRoleLabelValue; constants.DRARoleLabelValue] with
  | Some e => mret (Err (Errorf_v "failed to create label requirement: %v" e))
  | None =>
      r ← list_all KPod [HasLabels [constants.ModuleNameLabel]; MatchingFields "spec.nodeName" nodeName;
                         LabelIn constants.DaemonSetRole [constants.DevicePluginRoleLabelValue; constants.DRARoleLabelValue]];
      mret (wrap_v "failed to get list of schedule pods on node %s: %v" r)
  end.

Definition getLoadedKernelModules (nodeLabels : labels_t) : list NamespacedName :=
  omap (λ kv, let '(isReadyLabel, namespace, name) := IsKernelModuleReadyNodeLabel kv.1 in
              if isReadyLabel then Some (nsn namespace name) else None) (range_map nodeLabels).

Definition reconcileLabels (modulesLabels : gmap string modulesVersionLabels) (schedulePods : list Pod) (loadedKernelModules : list NamespacedName) : reconcileLabelsResult :=
  foldl (recon_step schedulePods loadedKernelModules)
    {| rl_labelsToAdd := ∅; rl_labelsToDelete := []; rl_requeue := false |} ((range_map modulesLabels).*2).

Definition apply_labels (labels : labels_t) (res : reconcileLabelsResult) : labels_t :=
  let labels := foldl (λ m kv, <[kv.1 := kv.2]> m) labels (range_map (rl_labelsToAdd res)) in
  foldl (λ m l, delete l m) labels (rl_labelsToDelete res).

Definition updateNodeLabels (nodeName : string) (res : reconcileLabelsResult) : prog (option error) :=
  r ← get KNode (nsn "" nodeName);
  match r with
  | Err e => mret (Some (Errorf_v "could not get node %s: %v" e))
  | Ok node =>
      '(_, err) ← patch KNode node (node_set_labels node (apply_labels (node_Labels node) res));
      mret err
  end.

(** The result is whether to requeue, and the error. *)
Definition NodeLabelModuleVersion_Reconcile (node : Node) : prog (bool * option error) :=
  let modulesVersionLabels := getLabelsPerModules (node_Labels node) in
  r ← getSchedulePods (node_Name node);
  match r with
  | Err e => mret (false, Some (Errorf_v "could not get schedule pods for the node %s: %v" e))
  | Ok schedulePods =>
      let loadedKernelModules := getLoadedKernelModules (node_Labels node) in
      let res := reconcileLabels modulesVersionLabels schedulePods loadedKernelModules in
      err ← updateNodeLabels (node_Name node) res;
      mret (match err with
            | Some e => (false, Some (Errorf_v "could not label node %s with added/deleted labels: %v" e))
            | None => (rl_requeue res, None)
            end)
  end.
End version_labels.
