(* ===== verification/VersionProps.v ===== *)
(** * Properties of the version labels

    The protocol the action table implements, as a step relation on the labels of one module,
    with its invariant and its convergence; and the proof that a pass over the labels of a node
    makes one step of that protocol for each of its modules. *)

From S2P Require Import Prelude Types Kube GoStrings Externals Demo Labels NmcHelper VersionLabels.

Open Scope string_scope.
Open Scope nat_scope.
Open Scope list_scope.

(** ** The protocol

    [m] is the version the user asks for, the pair is the version admitted for worker pods and
    for device-plugin and DRA pods; the empty string stands for a missing label.  [loaded]
    says that the kernel module is loaded on the node, [pods] that device-plugin or DRA pods
    of the module are on it. *)
Inductive upgrade_step (loaded pods : bool) (m : string) : string * string → string * string → Prop :=
| us_add_worker : m ≠ "" → loaded = false → upgrade_step loaded pods m ("", "") (m, "")
| us_add_schedule : m ≠ "" → upgrade_step loaded pods m (m, "") (m, m)
| us_delete_schedule w s : w ≠ "" → s ≠ "" → w ≠ m → s ≠ m → upgrade_step loaded pods m (w, s) (w, "")
| us_delete_worker w : w ≠ "" → w ≠ m → pods = false → upgrade_step loaded pods m (w, "") ("", "").

(** The label change decided for one module, if any: the label and its new value. *)
Definition decided (schedulePods : list Pod) (loadedKernelModules : list NamespacedName) (r : modulesVersionLabels) : option (string * option string) :=
  let '(label, value, action) := getLabelAndAction r in
  match action with
  | deleteAction =>
      if IsWorkerPodVersionLabel label && negb (verifyLabelDeleteValidity (mvl_name r) (mvl_namespace r) schedulePods) then None
      else Some (label, None)
  | addAction =>
      if IsWorkerPodVersionLabel label && negb (verifyLabelAddValidity (mvl_name r) (mvl_namespace r) loadedKernelModules) then None
      else Some (label, Some value)
  | noneAction => None
  end.

Definition label_new (l : string) (old : option string) (d : option (string * option string)) : option string :=
  match d with
  | Some (l', v) => if decide (l' = l) then v else old
  | None => old
  end.

(** The labels of a module after the decided change. *)
Definition next_labels (schedulePods : list Pod) (loadedKernelModules : list NamespacedName) (r : modulesVersionLabels) : string * string :=
  let d := decided schedulePods loadedKernelModules r in
  (default "" (label_new (GetWorkerPodVersionLabelName (mvl_namespace r) (mvl_name r)) (Some (mvl_workerPod r)) d),
   default "" (label_new (GetSchedulePodVersionLabelName (mvl_namespace r) (mvl_name r)) (Some (mvl_schedulePod r)) d)).

Lemma worker_label_kind ns name :
  IsModuleVersionLabel (GetWorkerPodVersionLabelName ns name) = false ∧
  IsWorkerPodVersionLabel (GetWorkerPodVersionLabelName ns name) = true ∧
  IsVersionLabel (GetWorkerPodVersionLabelName ns name) = true.
Proof. done. Qed.

Lemma schedule_label_kind ns name :
  IsModuleVersionLabel (GetSchedulePodVersionLabelName ns name) = false ∧
  IsWorkerPodVersionLabel (GetSchedulePodVersionLabelName ns name) = false ∧
  IsSchedulePodVersionLabel (GetSchedulePodVersionLabelName ns name) = true ∧
  IsVersionLabel (GetSchedulePodVersionLabelName ns name) = true.
Proof. done. Qed.

Lemma worker_not_schedule ns name ns' name' :
  GetWorkerPodVersionLabelName ns name ≠ GetSchedulePodVersionLabelName ns' name'.
Proof. intros E. assert (IsWorkerPodVersionLabel (GetWorkerPodVersionLabelName ns name) = true) as H by done. by rewrite E in H. Qed.

#[local] Arguments IsWorkerPodVersionLabel : simpl never.
#[local] Arguments GetWorkerPodVersionLabelName : simpl never.
#[local] Arguments GetSchedulePodVersionLabelName : simpl never.
#[local] Arguments verifyLabelAddValidity : simpl never.
#[local] Arguments verifyLabelDeleteValidity : simpl never.

(** Evaluate the effect of a decision about one of the two labels. *)
Ltac label_effect :=
  unfold label_new; cbn [default mvl_workerPod mvl_schedulePod mvl_name mvl_namespace];
  repeat match goal with
         | |- context [decide (?a = ?a)] => rewrite (decide_True (P := a = a)) by reflexivity
         | |- context [decide (?a = ?b)] =>
             rewrite (decide_False (P := a = b)) by (apply worker_not_schedule || apply not_eq_sym, worker_not_schedule)
         end;
  cbn [default].

Lemma decided_worker pods loaded ns name m w s (add : bool) :
  getLabelAndAction (Build_modulesVersionLabels name ns m w s) =
    (GetWorkerPodVersionLabelName ns name, if add then m else "", if add then addAction else deleteAction) →
  next_labels pods loaded (Build_modulesVersionLabels name ns m w s) =
  if (if add then verifyLabelAddValidity name ns loaded else verifyLabelDeleteValidity name ns pods)
  then (if add then m else "", s) else (w, s).
Proof.
  intros E. destruct (worker_label_kind ns name) as (_ & Hw & _). unfold next_labels, decided. rewrite E.
  destruct add; rewrite Hw; cbn [andb mvl_name mvl_namespace];
    [destruct (verifyLabelAddValidity _ _ _)|destruct (verifyLabelDeleteValidity _ _ _)]; cbn [negb]; by label_effect.
Qed.

Lemma decided_schedule pods loaded ns name m w s (add : bool) :
  getLabelAndAction (Build_modulesVersionLabels name ns m w s) =
    (GetSchedulePodVersionLabelName ns name, if add then m else "", if add then addAction else deleteAction) →
  next_labels pods loaded (Build_modulesVersionLabels name ns m w s) = (w, if add then m else "").
Proof.
  intros E. destruct (schedule_label_kind ns name) as (_ & Hw & _). unfold next_labels, decided. rewrite E.
  destruct add; rewrite Hw; cbn [andb]; by label_effect.
Qed.

Lemma decided_none pods loaded r :
  getLabelAndAction r = ("", "", noneAction) → next_labels pods loaded r = (mvl_workerPod r, mvl_schedulePod r).
Proof. intros E. unfold next_labels, decided. rewrite E. done. Qed.

(** Compute the action for labels compared in the context. *)
Ltac table_entry :=
  unfold getLabelAndAction, getModuleVersionLabelsState; cbn [mvl_module mvl_workerPod mvl_schedulePod mvl_name mvl_namespace];
  repeat match goal with
         | H : ?a ≠ ?b |- context [String.eqb ?a ?b] => rewrite (proj2 (String.eqb_neq a b) H)
         | |- context [String.eqb ?a ?a] => rewrite (String.eqb_refl a)
         end; reflexivity.

Lemma next_labels_step pods loaded r new :
  let old := (mvl_workerPod r, mvl_schedulePod r) in
  let step := upgrade_step (negb (verifyLabelAddValidity (mvl_name r) (mvl_namespace r) loaded))
                (negb (verifyLabelDeleteValidity (mvl_name r) (mvl_namespace r) pods)) (mvl_module r) in
  step old new → next_labels pods loaded r = new.
Proof.
  destruct r as [name ns m w s]. cbn.
  inversion 1 as [Hm Hl|Hm|w' s' Hw Hs Hwm Hsm|w' Hw Hwm Hp]; subst.
  - rewrite (decided_worker _ _ _ _ _ _ _ true) by table_entry. apply negb_false_iff in Hl. by rewrite Hl.
  - by rewrite (decided_schedule _ _ _ _ _ _ _ true) by table_entry.
  - destruct (decide (m = "")) as [->|Hm]; by rewrite (decided_schedule _ _ _ _ _ _ _ false) by table_entry.
  - apply negb_false_iff in Hp.
    destruct (decide (m = "")) as [->|Hm]; rewrite (decided_worker _ _ _ _ _ _ _ false) by table_entry; by rewrite Hp.
Qed.

Lemma next_labels_only_steps pods loaded r :
  upgrade_step (negb (verifyLabelAddValidity (mvl_name r) (mvl_namespace r) loaded))
    (negb (verifyLabelDeleteValidity (mvl_name r) (mvl_namespace r) pods)) (mvl_module r)
    (mvl_workerPod r, mvl_schedulePod r) (next_labels pods loaded r) ∨
  next_labels pods loaded r = (mvl_workerPod r, mvl_schedulePod r).
Proof.
  destruct r as [name ns m w s]. cbn [mvl_name mvl_namespace mvl_module mvl_workerPod mvl_schedulePod].
  destruct (decide (m = "")) as [->|Hm], (decide (w = "")) as [->|Hw], (decide (s = "")) as [->|Hs].
  - right. by apply decided_none.
  - right. apply decided_none. table_entry.
  - rewrite (decided_worker _ _ _ _ _ _ _ false) by table_entry.
    destruct (verifyLabelDeleteValidity name ns pods); [left; by constructor|by right].
  - rewrite (decided_schedule _ _ _ _ _ _ _ false) by table_entry. left. by constructor.
  - rewrite (decided_worker _ _ _ _ _ _ _ true) by table_entry.
    destruct (verifyLabelAddValidity name ns loaded); [left; by constructor|by right].
  - right. destruct (decide (s = m)) as [->|Hsm]; (apply decided_none; table_entry).
  - destruct (decide (w = m)) as [->|Hwm].
    + rewrite (decided_schedule _ _ _ _ _ _ _ true) by table_entry. left. by constructor.
    + rewrite (decided_worker _ _ _ _ _ _ _ false) by table_entry.
      destruct (verifyLabelDeleteValidity name ns pods); [left; by constructor|by right].
  - destruct (decide (w = m)) as [->|Hwm], (decide (s = m)) as [->|Hsm].
    + right. apply decided_none. table_entry.
    + right. apply decided_none. table_entry.
    + right. apply decided_none. table_entry.
    + rewrite (decided_schedule _ _ _ _ _ _ _ false) by table_entry. left. by constructor.
Qed.

(** ** Invariant and convergence *)

(** Device-plugin and DRA pods are admitted at most for the version admitted for worker pods. *)
Definition labels_ordered (ws : string * string) : Prop := ws.2 = "" ∨ ws.2 = ws.1.

(** What the node runs: the changes of the user (the version [m]) interleaved with steps. *)
Inductive upgrade_run : string * (string * string) → Prop :=
| run_start m : upgrade_run (m, ("", ""))
| run_user m m' ws : upgrade_run (m, ws) → upgrade_run (m', ws)
| run_step loaded pods m ws ws' : upgrade_run (m, ws) → upgrade_step loaded pods m ws ws' → upgrade_run (m, ws').

Lemma upgrade_step_ordered loaded pods m ws ws' :
  labels_ordered ws → upgrade_step loaded pods m ws ws' → labels_ordered ws'.
Proof. intros H. destruct 1; unfold labels_ordered; simpl; auto. Qed.

Lemma upgrade_step_worker loaded pods m w s w' s' :
  upgrade_step loaded pods m (w, s) (w', s') → w' ≠ w →
  s = "" ∧ s' = "" ∧ ((w = "" ∧ w' = m ∧ loaded = false) ∨ (w' = "" ∧ w ≠ m ∧ pods = false)).
Proof. inversion 1; subst; naive_solver. Qed.

Lemma upgrade_run_ordered st : upgrade_run st → labels_ordered st.2.
Proof. induction 1; [by left|done|]. eapply upgrade_step_ordered; eauto. Qed.

(** The number of steps left until both labels carry the version asked for, or are gone. *)
Definition steps_left (m : string) (ws : string * string) : nat :=
  let '(w, s) := ws in
  let up := if decide (m = "") then 0 else 2 in
  if decide (w = "") then up
  else if decide (w = m) then (if decide (s = "") then 1 else 0)
  else up + (if decide (s = "") then 1 else 2).

Lemma upgrade_step_measure loaded pods m ws ws' :
  upgrade_step loaded pods m ws ws' → steps_left m ws = S (steps_left m ws').
Proof.
  unfold steps_left. destruct 1; repeat case_decide; try done; try lia; by subst.
Qed.

(** Where the labels end up. *)
Definition settled (m : string) (ws : string * string) : Prop := ws = (m, m).

Lemma upgrade_progress m ws :
  labels_ordered ws → settled m ws ∨ ∃ ws', upgrade_step false false m ws ws'.
Proof.
  destruct ws as [w s]. unfold labels_ordered, settled. simpl. intros Hord.
  destruct (decide (w = "")) as [->|Hw].
  - assert (s = "") as -> by (by destruct Hord). destruct (decide (m = "")) as [->|]; [by left|].
    right. eexists. by constructor.
  - destruct (decide (w = m)) as [->|Hwm].
    + destruct Hord as [->| ->]; [right; eexists; by constructor|by left].
    + right. destruct Hord as [->| ->]; eexists; by constructor.
Qed.

Lemma settled_measure m ws : labels_ordered ws → steps_left m ws = 0 ↔ settled m ws.
Proof.
  destruct ws as [w s]. unfold labels_ordered, settled, steps_left. simpl. intros Hord.
  repeat case_decide; naive_solver.
Qed.

(** One pass over the labels of one module, and several in a row. *)
Definition relabel (pods : list Pod) (loaded : list NamespacedName) (r : modulesVersionLabels) : modulesVersionLabels :=
  let '(w, s) := next_labels pods loaded r in
  {| mvl_name := mvl_name r; mvl_namespace := mvl_namespace r; mvl_module := mvl_module r;
     mvl_workerPod := w; mvl_schedulePod := s |}.

Fixpoint passes (pods : list Pod) (loaded : list NamespacedName) (n : nat) (r : modulesVersionLabels) : modulesVersionLabels :=
  match n with 0 => r | S n => relabel pods loaded (passes pods loaded n r) end.

Definition mvl_pair (r : modulesVersionLabels) : string * string := (mvl_workerPod r, mvl_schedulePod r).

Lemma relabel_facts pods loaded r :
  mvl_pair (relabel pods loaded r) = next_labels pods loaded r ∧ mvl_module (relabel pods loaded r) = mvl_module r ∧
  mvl_name (relabel pods loaded r) = mvl_name r ∧ mvl_namespace (relabel pods loaded r) = mvl_namespace r.
Proof. unfold relabel. by destruct (next_labels pods loaded r). Qed.

Lemma relabel_progress pods loaded r :
  labels_ordered (mvl_pair r) →
  verifyLabelAddValidity (mvl_name r) (mvl_namespace r) loaded = true →
  verifyLabelDeleteValidity (mvl_name r) (mvl_namespace r) pods = true →
  labels_ordered (mvl_pair (relabel pods loaded r)) ∧
  steps_left (mvl_module r) (mvl_pair (relabel pods loaded r)) = Nat.pred (steps_left (mvl_module r) (mvl_pair r)).
Proof.
  intros Hord Ha Hd. destruct (relabel_facts pods loaded r) as (-> & _).
  destruct (upgrade_progress (mvl_module r) (mvl_pair r) Hord) as [Hset|[ws' Hstep]].
  - destruct (next_labels_only_steps pods loaded r) as [H| ->].
    + apply upgrade_step_measure in H. apply settled_measure in Hset; [|done]. unfold mvl_pair in Hset. by rewrite H in Hset.
    + split; [done|]. apply settled_measure in Hset; [|done]. by rewrite Hset.
  - pose proof (next_labels_step pods loaded r ws') as Hn. cbn zeta in Hn. rewrite Ha, Hd in Hn.
    specialize (Hn Hstep). rewrite Hn. split; [by eapply upgrade_step_ordered|].
    apply upgrade_step_measure in Hstep. by rewrite Hstep.
Qed.

(** C11: the rolling upgrade of a module on a node is safe.  In every state reached by changes
    of the user's version and passes, device-plugin and DRA pods are admitted at most for the
    version admitted for worker pods; a pass changes the version admitted for worker pods only
    by adding the user's version or removing the label, only while no version is admitted for
    the other pods, adds it only while the kernel module is not loaded, and removes it only
    when no device-plugin or DRA pod of the module is left on the node. *)
Theorem upgrade_safe pods loaded r :
  upgrade_run (mvl_module r, mvl_pair r) →
  let r' := relabel pods loaded r in
  upgrade_run (mvl_module r', mvl_pair r') ∧
  (mvl_schedulePod r' ≠ "" → mvl_schedulePod r' = mvl_workerPod r') ∧
  (mvl_workerPod r' ≠ mvl_workerPod r →
     mvl_schedulePod r = "" ∧ mvl_schedulePod r' = "" ∧
     ((mvl_workerPod r = "" ∧ mvl_workerPod r' = mvl_module r ∧
       verifyLabelAddValidity (mvl_name r) (mvl_namespace r) loaded = true) ∨
      (mvl_workerPod r' = "" ∧ mvl_workerPod r ≠ mvl_module r ∧
       verifyLabelDeleteValidity (mvl_name r) (mvl_namespace r) pods = true))).
Proof.
  intros Hrun r'. destruct (relabel_facts pods loaded r) as (Hp & Hm & _). fold r' in Hp, Hm.
  assert (upgrade_run (mvl_module r', mvl_pair r')) as Hrun'.
  { rewrite Hm, Hp. destruct (next_labels_only_steps pods loaded r) as [H| ->]; [by eapply run_step|done]. }
  split; [done|]. split.
  - apply upgrade_run_ordered in Hrun' as [H|H]; simpl in H; [done|]. by intros _.
  - intros Hne. unfold mvl_pair in Hp. destruct (next_labels_only_steps pods loaded r) as [H|H].
    + rewrite <-Hp in H. apply upgrade_step_worker in H; [|done]. by rewrite !negb_false_iff in H.
    + congruence.
Qed.


(** ** One pass over the labels of a node *)

Section node_pass.
Context `{EXT : Externals} `{EXTL : !ExternalsLaws}.

Definition version_label_names (ns name : string) : list string :=
  [GetModuleVersionLabelName ns name; GetWorkerPodVersionLabelName ns name; GetSchedulePodVersionLabelName ns name].

(** The labels of a module in a label map. *)
Definition mvl_of (L : labels_t) (ns name : string) : modulesVersionLabels :=
  {| mvl_name := name; mvl_namespace := ns;
     mvl_module := map_get L (GetModuleVersionLabelName ns name);
     mvl_workerPod := map_get L (GetWorkerPodVersionLabelName ns name);
     mvl_schedulePod := map_get L (GetSchedulePodVersionLabelName ns name) |}.

(** The code groups labels by a text made of the namespace and the name.  The group of a
    module is its own if no label of another module leads to the same text. *)
Definition own_group (L : labels_t) (ns name : string) : Prop :=
  ∀ k v ns' name', L !! k = Some v → IsVersionLabel k = true →
  GetNamespaceNameFromVersionLabel k = Ok (ns', name') →
  module_map_key ns' name' = module_map_key ns name → k ∈ version_label_names ns name.

Lemma version_label_names_parse ns name k :
  no_dot ns = true → no_dot name = true → k ∈ version_label_names ns name →
  GetNamespaceNameFromVersionLabel k = Ok (ns, name) ∧ IsVersionLabel k = true.
Proof.
  intros Hns Hname Hk. unfold version_label_names in Hk.
  repeat (apply elem_of_cons in Hk as [->|Hk]; [split; [by apply version_label_parse|done]|]). inversion Hk.
Qed.

Lemma map_get_insert_ne (L : labels_t) k k' v : k ≠ k' → map_get (<[k := v]> L) k' = map_get L k'.
Proof. intros H. unfold map_get. by rewrite lookup_insert_ne. Qed.

Lemma mvl_of_insert_other L ns name k v :
  k ∉ version_label_names ns name → mvl_of (<[k := v]> L) ns name = mvl_of L ns name.
Proof.
  unfold version_label_names. intros Hk. unfold mvl_of.
  by rewrite !map_get_insert_ne by (intros ->; apply Hk; set_solver).
Qed.

Lemma mvl_of_insert_own L ns name k v :
  k ∈ version_label_names ns name → mvl_set (mvl_of L ns name) k v = mvl_of (<[k := v]> L) ns name.
Proof.
  assert (∀ k, map_get (<[k := v]> L) k = v) as Heq by (intros k'; unfold map_get; by rewrite lookup_insert_eq).
  assert (GetModuleVersionLabelName ns name ≠ GetWorkerPodVersionLabelName ns name) as H1 by done.
  assert (GetModuleVersionLabelName ns name ≠ GetSchedulePodVersionLabelName ns name) as H2 by done.
  pose proof (worker_not_schedule ns name ns name) as H3.
  unfold version_label_names, mvl_of. intros Hk.
  repeat (apply elem_of_cons in Hk as [->|Hk]; [|]); [| | |inversion Hk].
  - rewrite Heq, !map_get_insert_ne by done. done.
  - rewrite Heq, !map_get_insert_ne by done. unfold mvl_set.
    destruct (worker_label_kind ns name) as (-> & -> & _). done.
  - rewrite Heq, !map_get_insert_ne by done. unfold mvl_set.
    destruct (schedule_label_kind ns name) as (-> & -> & -> & _). done.
Qed.

Definition any_label (L : labels_t) (ns name : string) : Prop :=
  Exists (λ k, is_Some (L !! k)) (version_label_names ns name).

Definition group_ok (ns name : string) (M : labels_t) (acc : gmap string modulesVersionLabels) : Prop :=
  acc !! module_map_key ns name = if decide (any_label M ns name) then Some (mvl_of M ns name) else None.

Lemma any_label_insert M ns name k v :
  any_label (<[k := v]> M) ns name ↔ k ∈ version_label_names ns name ∨ any_label M ns name.
Proof.
  unfold any_label. rewrite !Exists_exists. split.
  - intros (k' & Hk' & Hs). destruct (decide (k = k')) as [->|Hne]; [by left|].
    rewrite lookup_insert_ne in Hs by done. right. eauto.
  - intros [Hk|(k' & Hk' & Hs)].
    + exists k. split; [done|]. rewrite lookup_insert_eq. eauto.
    + exists k'. split; [done|]. rewrite lookup_insert_is_Some. destruct (decide (k = k')); [by left|by right].
Qed.

Lemma mvl_of_none M ns name : ¬ any_label M ns name → mvl_of M ns name = mvl_new ns name.
Proof.
  intros H. unfold any_label in H. rewrite Exists_exists in H.
  assert (∀ k, k ∈ version_label_names ns name → map_get M k = "") as Hg.
  { intros k Hk. unfold map_get. destruct (M !! k) eqn:E; [|done]. destruct H. exists k. eauto. }
  unfold mvl_of, mvl_new. unfold version_label_names in Hg. f_equal; apply Hg; set_solver.
Qed.

Lemma per_module_step_ok L ns name M acc k v :
  no_dot ns = true → no_dot name = true → own_group L ns name → L !! k = Some v →
  group_ok ns name M acc → group_ok ns name (<[k := v]> M) (per_module_step acc (k, v)).
Proof.
  intros Hns Hname Hown HL HI. unfold group_ok in *. unfold per_module_step.
  assert (k ∉ version_label_names ns name →
    (if decide (any_label (<[k:=v]> M) ns name) then Some (mvl_of (<[k:=v]> M) ns name) else None) =
    acc !! module_map_key ns name) as Hother.
  { intros Hk. rewrite HI, mvl_of_insert_other by done. apply decide_ext. rewrite any_label_insert. tauto. }
  destruct (IsVersionLabel k) eqn:Ev.
  2:{ symmetry. apply Hother. intros Hk. apply version_label_names_parse in Hk as [_ H]; [|done..]. congruence. }
  destruct (GetNamespaceNameFromVersionLabel k) as [[ns' name']|e] eqn:Ep.
  2:{ symmetry. apply Hother. intros Hk. apply version_label_names_parse in Hk as [H _]; [|done..]. congruence. }
  destruct (decide (module_map_key ns' name' = module_map_key ns name)) as [Ek|Ek].
  - pose proof (Hown _ _ _ _ HL Ev Ep Ek) as Hk.
    destruct (version_label_names_parse ns name k Hns Hname Hk) as [Hp _]. rewrite Ep in Hp. injection Hp as -> ->.
    rewrite lookup_insert_eq, HI.
    rewrite (decide_True (P := any_label (<[k:=v]> M) ns name)) by (rewrite any_label_insert; by left). f_equal.
    rewrite <-mvl_of_insert_own by done. f_equal. destruct (decide (any_label M ns name)); cbn [default]; [reflexivity|]. symmetry. by apply mvl_of_none.
  - rewrite lookup_insert_ne by done. symmetry. apply Hother. intros Hk.
    apply version_label_names_parse in Hk as [H _]; [|done..]. rewrite Ep in H. injection H as -> ->. done.
Qed.

Lemma getLabelsPerModules_lookup L ns name :
  no_dot ns = true → no_dot name = true → own_group L ns name →
  getLabelsPerModules L !! module_map_key ns name =
  if decide (any_label L ns name) then Some (mvl_of L ns name) else None.
Proof.
  intros Hns Hname Hown. unfold getLabelsPerModules.
  assert (list_to_map (range_map L) = L) as HL.
  { rewrite <-(list_to_map_to_list L) at 2. apply list_to_map_proper; [apply NoDup_range_map|apply range_map_perm]. }
  cut (group_ok ns name (list_to_map (range_map L)) (foldl per_module_step ∅ (range_map L))); [by rewrite HL|].
  assert (∀ kv, kv ∈ range_map L → L !! kv.1 = Some kv.2) as Hin by (intros [k v]; apply elem_of_range_map).
  pose proof (NoDup_range_map L) as Hnd. revert Hin Hnd. clear HL.
  induction (range_map L) as [|[k v] l IH] using rev_ind; intros Hin Hnd.
  - unfold group_ok. simpl. rewrite lookup_empty, decide_False; [done|].
    unfold any_label. rewrite Exists_exists. intros (k & _ & [x Hx]). done.
  - rewrite foldl_app. cbn [foldl]. rewrite fmap_app, NoDup_app in Hnd. destruct Hnd as (Hnd & Hk & _).
    replace (list_to_map (l ++ [(k, v)])) with (<[k := v]> (list_to_map l : labels_t)).
    + apply per_module_step_ok with (L := L); [done|done|done|by apply (Hin (k, v)); set_solver|].
      apply IH; [|done]. intros kv Hkv. apply Hin. set_solver.
    + rewrite list_to_map_app. simpl. rewrite insert_empty. symmetry. rewrite <-insert_union_singleton_r; [done|].
      apply not_elem_of_list_to_map. intros H. apply (Hk _ H). by left.
Qed.

(** Every group is stored under its own text, and its namespace and name have no period. *)
Lemma split_no_dot k x : x ∈ split_on (is_char ".") k → no_dot x = true.
Proof.
  revert x. induction k as [|c k IH]; intros x; cbn [split_on].
  - intros H. apply list_elem_of_singleton in H. by subst.
  - destruct (is_char "." c) eqn:Ec.
    + intros [->|H]%elem_of_cons; [done|auto].
    + destruct (split_on (is_char ".") k) as [|y l] eqn:E; [by destruct (split_on_not_nil (is_char ".") k)|].
      intros [->|H]%elem_of_cons; [|apply IH; by right].
      unfold no_dot. cbn [string_forallb]. rewrite Ec. apply IH. by left.
Qed.

Lemma parse_no_dot k ns name :
  GetNamespaceNameFromVersionLabel k = Ok (ns, name) → no_dot ns = true ∧ no_dot name = true.
Proof.
  unfold GetNamespaceNameFromVersionLabel. destruct (Nat.ltb_spec (length (split_on (is_char ".") k)) 2) as [|Hl]; [done|].
  intros [= <- <-].
  assert (∀ i, i < length (split_on (is_char ".") k) → no_dot (default "" (split_on (is_char ".") k !! i)) = true) as H.
  { intros i Hi. destruct (lookup_lt_is_Some_2 _ _ Hi) as [x Hx]. rewrite Hx. simpl.
    eapply split_no_dot, list_elem_of_lookup_2. exact Hx. }
  split; apply H; lia.
Qed.

Definition stored_ok (acc : gmap string modulesVersionLabels) : Prop :=
  ∀ mk r, acc !! mk = Some r →
  mk = module_map_key (mvl_namespace r) (mvl_name r) ∧ no_dot (mvl_namespace r) = true ∧ no_dot (mvl_name r) = true.

Lemma mvl_set_id m k v : mvl_name (mvl_set m k v) = mvl_name m ∧ mvl_namespace (mvl_set m k v) = mvl_namespace m.
Proof. unfold mvl_set. by repeat case_match. Qed.

Lemma getLabelsPerModules_stored L : stored_ok (getLabelsPerModules L).
Proof.
  unfold getLabelsPerModules. induction (range_map L) as [|[k v] l IH] using rev_ind; [by intros mk r H|].
  rewrite foldl_app. cbn [foldl]. revert IH. generalize (foldl per_module_step ∅ l). intros acc IH. unfold per_module_step.
  destruct (IsVersionLabel k); [|done]. destruct (GetNamespaceNameFromVersionLabel k) as [[ns name]|e] eqn:Ep; [|done].
  apply parse_no_dot in Ep as [H1 H2]. intros mk r. destruct (decide (module_map_key ns name = mk)) as [<-|Hne].
  - rewrite lookup_insert_eq. set (m := default _ _). intros Hr. injection Hr as Hr. subst r.
    destruct (mvl_set_id m k v) as [-> ->].
    assert (mvl_namespace m = ns ∧ mvl_name m = name ∨ acc !! module_map_key ns name = Some m) as [[-> ->]|E].
    { unfold m. destruct (acc !! module_map_key ns name); [by right|by left]. }
    + done.
    + by apply IH in E.
  - rewrite lookup_insert_ne by done. apply IH.
Qed.

(** The decisions of a pass, collected. *)
Lemma recon_step_decided pods loaded res r :
  let res' := recon_step pods loaded res r in
  rl_labelsToAdd res' = match decided pods loaded r with Some (l, Some v) => <[l := v]> (rl_labelsToAdd res) | _ => rl_labelsToAdd res end ∧
  rl_labelsToDelete res' = match decided pods loaded r with Some (l, None) => rl_labelsToDelete res ++ [l] | _ => rl_labelsToDelete res end.
Proof.
  unfold recon_step, decided. destruct (getLabelAndAction r) as [[l v] a].
  destruct a; [| |done].
  - by destruct (IsWorkerPodVersionLabel l && negb (verifyLabelAddValidity (mvl_name r) (mvl_namespace r) loaded)).
  - by destruct (IsWorkerPodVersionLabel l && negb (verifyLabelDeleteValidity (mvl_name r) (mvl_namespace r) pods)).
Qed.

Lemma recon_fold_decided pods loaded (l : list modulesVersionLabels) :
  let res := foldl (recon_step pods loaded) {| rl_labelsToAdd := ∅; rl_labelsToDelete := []; rl_requeue := false |} l in
  (∀ k, k ∈ rl_labelsToDelete res ↔ ∃ r, r ∈ l ∧ decided pods loaded r = Some (k, None)) ∧
  (∀ k v, rl_labelsToAdd res !! k = Some v → ∃ r, r ∈ l ∧ decided pods loaded r = Some (k, Some v)) ∧
  (∀ k v r, r ∈ l → decided pods loaded r = Some (k, Some v) → is_Some (rl_labelsToAdd res !! k)).
Proof.
  induction l as [|r l (IH1 & IH2 & IH3)] using rev_ind.
  { simpl. split_and!; [split; [intros H; inversion H|intros (r & H & _); inversion H]|done|intros k v r H; inversion H]. }
  rewrite foldl_app. cbn [foldl]. cbv zeta in *.
  destruct (recon_step_decided pods loaded (foldl (recon_step pods loaded)
    {| rl_labelsToAdd := ∅; rl_labelsToDelete := []; rl_requeue := false |} l) r) as [Ha Hd].
  rewrite Ha, Hd. clear Ha Hd. setoid_rewrite elem_of_app. setoid_rewrite list_elem_of_singleton.
  destruct (decided pods loaded r) as [[k0 [v0|]]|] eqn:E.
  - split_and!.
    + intros k. rewrite IH1. naive_solver.
    + intros k v. destruct (decide (k0 = k)) as [->|Hne]; [rewrite lookup_insert_eq; naive_solver|].
      rewrite lookup_insert_ne by done. naive_solver.
    + intros k v r' Hr' E'. destruct (decide (k0 = k)) as [->|Hne]; [rewrite lookup_insert_eq; eauto|].
      rewrite lookup_insert_ne by done. naive_solver.
  - split_and!; [|naive_solver|naive_solver]. intros k. rewrite elem_of_app, list_elem_of_singleton, IH1. naive_solver.
  - split_and!; [|naive_solver|naive_solver]. intros k. rewrite IH1. naive_solver.
Qed.

Lemma apply_labels_lookup L res k :
  apply_labels L res !! k =
  if decide (k ∈ rl_labelsToDelete res) then None
  else match rl_labelsToAdd res !! k with Some v => Some v | None => L !! k end.
Proof.
  unfold apply_labels.
  assert (∀ (m : labels_t) l, foldl (λ m l, delete l m) m l !! k = if decide (k ∈ l) then None else m !! k) as Hdel.
  { intros m l. induction l as [|x l IH] using rev_ind; [done|]. rewrite foldl_app. simpl.
    destruct (decide (x = k)) as [->|Hne].
    - rewrite lookup_delete_eq, decide_True by set_solver. done.
    - rewrite lookup_delete_ne, IH by done. apply decide_ext. set_solver. }
  rewrite Hdel. destruct (decide (k ∈ rl_labelsToDelete res)); [done|].
  assert (∀ l : list (string * string), NoDup l.*1 → ∀ m : labels_t,
    foldl (λ m kv, <[kv.1 := kv.2]> m) m l !! k = match (list_to_map l : labels_t) !! k with Some v => Some v | None => m !! k end) as Hadd.
  { intros l. induction l as [|[x v] l IH]; intros Hnd m; [done|]. cbn [foldl]. rewrite fmap_cons, NoDup_cons in Hnd.
    destruct Hnd as [Hx Hnd]. rewrite IH by done. simpl. destruct (decide (x = k)) as [->|Hne].
    - rewrite !lookup_insert_eq. by rewrite (not_elem_of_list_to_map_1 (M := gmap string) l k).
    - by rewrite !lookup_insert_ne. }
  rewrite Hadd by apply NoDup_range_map.
  replace (list_to_map (range_map (rl_labelsToAdd res)) : labels_t) with (rl_labelsToAdd res); [done|].
  rewrite <-(list_to_map_to_list (rl_labelsToAdd res)) at 1. symmetry.
  apply list_to_map_proper; [apply NoDup_range_map|apply range_map_perm].
Qed.

Lemma decided_label pods loaded r k o :
  decided pods loaded r = Some (k, o) →
  k = GetWorkerPodVersionLabelName (mvl_namespace r) (mvl_name r) ∨
  k = GetSchedulePodVersionLabelName (mvl_namespace r) (mvl_name r).
Proof.
  unfold decided, getLabelAndAction, labelActionTable.
  destruct (getModuleVersionLabelsState r) as [a b c]. cbn [lk_module lk_workerPod lk_schedulePod].
  destruct a, b, c; cbn [la_getLabelName la_action]; try (intros H; discriminate H);
    match goal with |- context [if ?b then _ else _] => destruct b end;
    intros H; try discriminate H; injection H as <- <-; auto.
Qed.

Lemma decided_new pods loaded ns name : decided pods loaded (mvl_new ns name) = None.
Proof. reflexivity. Qed.

(** Only the group of the module itself decides about the module's labels. *)
Lemma decided_own L pods loaded ns name k o :
  no_dot ns = true → no_dot name = true → own_group L ns name → k ∈ version_label_names ns name →
  (∃ r, r ∈ (range_map (getLabelsPerModules L)).*2 ∧ decided pods loaded r = Some (k, o)) ↔
  decided pods loaded (mvl_of L ns name) = Some (k, o).
Proof.
  intros Hns Hname Hown Hk. pose proof (getLabelsPerModules_lookup L ns name Hns Hname Hown) as Hl.
  setoid_rewrite list_elem_of_fmap. split.
  - intros (r & ([mk r'] & E & Hr) & Hd). simpl in E. subst r'. apply elem_of_range_map in Hr.
    destruct (getLabelsPerModules_stored L _ _ Hr) as (-> & H1 & H2).
    assert (k ∈ version_label_names (mvl_namespace r) (mvl_name r)) as Hk'.
    { apply decided_label in Hd as [->| ->]; unfold version_label_names; set_solver. }
    destruct (version_label_names_parse _ _ _ Hns Hname Hk) as [P1 _].
    destruct (version_label_names_parse _ _ _ H1 H2 Hk') as [P2 _]. rewrite P1 in P2. injection P2 as E1 E2.
    rewrite <-E1, <-E2, Hl in Hr. destruct (decide (any_label L ns name)); [|done]. injection Hr as Hr. by rewrite Hr.
  - intros Hd. exists (mvl_of L ns name). split; [|done]. exists (module_map_key ns name, mvl_of L ns name).
    split; [done|]. apply elem_of_range_map. rewrite Hl. destruct (decide (any_label L ns name)) as [|Hno]; [done|].
    rewrite (mvl_of_none L ns name Hno), decided_new in Hd. discriminate Hd.
Qed.

Lemma pass_lookup L pods loaded ns name k :
  no_dot ns = true → no_dot name = true → own_group L ns name → k ∈ version_label_names ns name →
  apply_labels L (reconcileLabels (getLabelsPerModules L) pods loaded) !! k =
  label_new k (L !! k) (decided pods loaded (mvl_of L ns name)).
Proof.
  intros Hns Hname Hown Hk. rewrite apply_labels_lookup. unfold reconcileLabels.
  destruct (recon_fold_decided pods loaded (range_map (getLabelsPerModules L)).*2) as (H1 & H2 & H3). cbv zeta in *.
  set (res := foldl _ _ _) in *.
  pose proof (λ o, decided_own L pods loaded ns name k o Hns Hname Hown Hk) as Hd.
  unfold label_new. destruct (decide (k ∈ rl_labelsToDelete res)) as [Hin|Hin]; rewrite H1, Hd in Hin.
  { rewrite Hin. by rewrite decide_True. }
  destruct (rl_labelsToAdd res !! k) as [v|] eqn:Ea.
  { apply H2, Hd in Ea. rewrite Ea. by rewrite decide_True. }
  destruct (decided pods loaded (mvl_of L ns name)) as [[k' o]|] eqn:E; [|done].
  destruct (decide (k' = k)) as [->|]; [|done]. destruct o as [v|]; [|done].
  destruct (proj2 (Hd (Some v)) eq_refl) as (r & Hr & Hdr). destruct (H3 _ _ _ Hr Hdr) as [x Hx]. congruence.
Qed.

(** C16: one pass over the labels of a node makes, for every module whose group is its own, the
    step of the upgrade protocol for that module, whatever the other modules' labels are. *)
Theorem node_pass_steps L pods ns name :
  no_dot ns = true → no_dot name = true → own_group L ns name →
  let loaded := getLoadedKernelModules L in
  mvl_of (apply_labels L (reconcileLabels (getLabelsPerModules L) pods loaded)) ns name =
  relabel pods loaded (mvl_of L ns name).
Proof.
  intros Hns Hname Hown loaded. set (L' := apply_labels _ _).
  assert (∀ k, k ∈ version_label_names ns name →
    map_get L' k = default "" (label_new k (Some (map_get L k)) (decided pods loaded (mvl_of L ns name)))) as Hk.
  { intros k Hk. unfold map_get at 1, L'. rewrite (pass_lookup L pods loaded ns name k) by done. unfold label_new, map_get.
    destruct (decided _ _ _) as [[k' o]|]; [destruct (decide (k' = k)); done|done]. }
  unfold relabel, next_labels. unfold mvl_of at 1. f_equal.
  - rewrite Hk by (left). destruct (decided pods loaded (mvl_of L ns name)) as [[k' o]|] eqn:E; [|done].
    apply decided_label in E as [->| ->]; unfold label_new; by rewrite decide_False.
  - rewrite Hk by (right; left). done.
  - rewrite Hk by (right; right; left). done.
Qed.
End node_pass.

(** ** Witnesses *)

Definition demo_mvl : modulesVersionLabels :=
  {| mvl_name := "mod"; mvl_namespace := "ns"; mvl_module := "2"; mvl_workerPod := "1"; mvl_schedulePod := "1" |}.

(** The user asks for version 1, both labels are set, and the user asks for version 2. *)
Lemma demo_mvl_run : upgrade_run (mvl_module demo_mvl, mvl_pair demo_mvl).
Proof.
  change (upgrade_run ("2", ("1", "1"))). apply (run_user "1").
  apply (run_step false false _ ("1", "")); [|by constructor].
  apply (run_step false false _ ("", "")); [constructor|by constructor].
Qed.

Lemma upgrade_safe_witness : mvl_pair (relabel [] [] demo_mvl) = ("1", "") ∧ upgrade_run ("2", ("1", "")).
Proof.
  split; [vm_compute; reflexivity|].
  exact (proj1 (upgrade_safe [] [] demo_mvl demo_mvl_run)).
Defined.


Definition demo_version_labels : labels_t :=
  {[ GetModuleVersionLabelName "ns" "mod" := "2"; GetWorkerPodVersionLabelName "ns" "mod" := "1" ]}.

Lemma node_pass_steps_witness :
  mvl_of (apply_labels (EXT := demo_externals) demo_version_labels
            (reconcileLabels (EXT := demo_externals) (getLabelsPerModules (EXT := demo_externals) demo_version_labels) []
               (getLoadedKernelModules (EXT := demo_externals) demo_version_labels))) "ns" "mod" =
  {| mvl_name := "mod"; mvl_namespace := "ns"; mvl_module := "2"; mvl_workerPod := ""; mvl_schedulePod := "" |}.
Proof.
  rewrite (node_pass_steps (EXT := demo_externals) demo_version_labels [] "ns" "mod"); [vm_compute; reflexivity|reflexivity|reflexivity|].
  intros k v ns' name' Hk _ _ _. unfold version_label_names. unfold demo_version_labels in Hk.
  apply lookup_insert_Some in Hk as [[<- _]|[_ Hk]]; [by left|].
  apply lookup_singleton_Some in Hk as [<- _]. right. by left.
Defined.

(** Two modules whose namespaces and names join to the same text share one group: only one of
    them is handled. *)
Example version_groups_collide :
  let L : labels_t := {[ GetModuleVersionLabelName "team-a" "driver" := "1"; GetModuleVersionLabelName "team" "a-driver" := "2" ]} in
  size (getLabelsPerModules (EXT := demo_externals) L) = 1.
Proof. vm_compute. reflexivity. Qed.
