(* ===== verification/Webhook.v ===== *)
(** * Admission webhooks ([internal/webhook/*.go], [internal/webhook/hub],
    [internal/version/version.go])

    What the API server accepts: the checks on created and updated Modules, on
    ManagedClusterModules and PreflightValidations, and the protection of namespaces that
    contain modules.  A validator returns [None] when it accepts the object.  The checks are
    tied to the code they protect: kernel mappings, label names, sign sections. *)

From S2P Require Import Prelude Types GoStrings Externals Demo Labels KernelMapper.

Open Scope string_scope.
Open Scope nat_scope.
Open Scope list_scope.

(** ** [internal/version/version.go] *)
Module version.
Record KubeVersion := { Major : Z; Minor : Z }.

Definition AtLeast (kv : KubeVersion) (major minor : Z) : bool :=
  (major <? Major kv)%Z || ((Major kv =? major)%Z && (minor <=? Minor kv)%Z).

(** The longest run of digits at the start of a string, and what follows it. *)
Fixpoint span_digits (s : string) : string * string :=
  match s with
  | String c t =>
      if is_digit c then let '(d, rest) := span_digits t in (String c d, rest) else ("", s)
  | "" => ("", "")
  end.

(** [FindStringSubmatch] of [^v?(\d+)\.(\d+)]. *)
Definition kubeVersionRe (s : string) : option (string * string) :=
  let '(major, rest) := span_digits (TrimPrefix s "v") in
  match major, rest with
  | "", _ => None
  | _, String "." rest =>
      match span_digits rest with ("", _) => None | (minor, _) => Some (major, minor) end
  | _, _ => None
  end.

(** The value of a string of decimal digits. *)
Fixpoint digits_value (acc : Z) (s : string) : Z :=
  match s with
  | "" => acc
  | String c s => digits_value (10 * acc + (Z.of_nat (nat_of_ascii c) - 48)) s
  end.

(** [strconv.Atoi] on a string of digits: out of the range of a 64-bit [int] is an error. *)
Definition Atoi (s : string) : result Z :=
  let v := digits_value 0 s in
  if (v <? 2 ^ 63)%Z then Ok v else Err (ErrNew "value out of range").

Definition ParseKubeVersion (gitVersion : string) : result KubeVersion :=
  match kubeVersionRe gitVersion with
  | None => Err (ErrNew "cannot parse Kubernetes version from %q")
  | Some (m1, m2) =>
      major ← wrap_w "cannot parse Kubernetes major version from %q: %w" (Atoi m1);
      minor ← wrap_w "cannot parse Kubernetes minor version from %q: %w" (Atoi m2);
      Ok {| Major := major; Minor := minor |}
  end.
End version.

(** ** Checks in sequence

    [e1 ∪ e2] on [option error] is the first error: [if err := e1; err != nil { return err }]
    followed by [e2]. *)

Definition fail_if (b : bool) (msg : string) : option error := if b then Some (ErrNew msg) else None.

(** [for _, x := range l { if err := f(x); err != nil { return err } }]. *)
Fixpoint first_error {A} (f : A → option error) (l : list A) : option error :=
  match l with
  | [] => None
  | x :: l => f x ∪ first_error f l
  end.

Lemma fail_if_None b msg : fail_if b msg = None ↔ b = false.
Proof. by destruct b. Qed.
Lemma wrap_err_None fmt e : wrap_err fmt e = None ↔ e = None.
Proof. by destruct e. Qed.
Lemma first_error_None {A} (f : A → option error) l : first_error f l = None ↔ Forall (λ x, f x = None) l.
Proof. induction l as [|x l IH]; simpl; [by split; [constructor|]|]. by rewrite union_None, IH, Forall_cons. Qed.

(** Accepting is passing every check. *)
Ltac checks :=
  repeat first
    [ setoid_rewrite union_None | setoid_rewrite fail_if_None | setoid_rewrite wrap_err_None
    | setoid_rewrite first_error_None ].

(** ** [internal/webhook/module.go] *)

Definition NotImplemented : error := ErrSentinel "not implemented".

Definition maxCombinedLength : nat := 41.
Definition allowedHostPathPrefixes : list string := ["/dev"; "/sys"; "/var"; "/opt"; "/run"].

Definition isAllowedHostPath (hostPath : string) : bool :=
  let p := Clean hostPath in
  existsb (λ prefix, String.eqb p prefix || HasPrefix p (prefix +:+ "/")) allowedHostPathPrefixes.

Definition validateHostPathVolumes (volumes : list Volume) : option error :=
  first_error (λ vol,
    match vol_Source vol with
    | VolHostPath path _ => fail_if (negb (isAllowedHostPath path)) "%s.volumes[%d]: hostPath %q is not allowed; only /dev, /sys, /var, /opt and /run paths are permitted"
    | _ => None
    end) volumes.

Definition validateImageFormat (img : string) : option error :=
  fail_if (negb (contains_char ":" img) && negb (contains_char "@" img))
    "container image must explicitely set a tag or digest; got: %s".

Definition isWellFormedAbsolutePath (p : string) : bool :=
  if negb (IsAbs p) then false
  else
    let trimmed := TrimSuffix p "/" in
    let trimmed := if String.eqb trimmed "" then "/" else trimmed in
    String.eqb (Clean trimmed) trimmed.

(** The loop over a loading order, with the set of names already seen. *)
Fixpoint duplicate_in_order (seen : gset string) (l : list string) : option error :=
  match l with
  | [] => None
  | modName :: l =>
      fail_if (bool_decide (modName ∈ seen)) "%q: duplicate value in the loading order list"
      ∪ duplicate_in_order ({[modName]} ∪ seen) l
  end.

Definition rawLoadArgsDefined (m : ModprobeSpec) : bool :=
  match mp_RawArgs m with Some a => negb (bool_decide (ma_Load a = [])) | None => false end.
Definition rawUnloadArgsDefined (m : ModprobeSpec) : bool :=
  match mp_RawArgs m with Some a => negb (bool_decide (ma_Unload a = [])) | None => false end.

Definition validateModprobe (modprobe : ModprobeSpec) : option error :=
  let moduleName := mp_ModuleName modprobe in
  let moduleNameDefined := negb (String.eqb moduleName "") in
  (if moduleNameDefined then
     fail_if (rawLoadArgsDefined modprobe || rawUnloadArgsDefined modprobe) "rawArgs cannot be set when moduleName is set"
   else
     fail_if (negb (rawLoadArgsDefined modprobe) || negb (rawUnloadArgsDefined modprobe))
       "load and unload rawArgs must be set when moduleName is unset")
  ∪ (match mp_ModulesLoadingOrder modprobe with
     | None => None
     | Some order =>
         fail_if (length order <? 2) "if a loading order is defined, at least two values must be defined"
         ∪ fail_if (negb moduleNameDefined) "if a loading order is defined, moduleName must be set"
         ∪ fail_if (negb (bool_decide (order !! 0 = Some moduleName))) "if a loading order is defined, the first element must be moduleName"
         ∪ duplicate_in_order ∅ order
     end)
  ∪ (if negb (String.eqb (mp_ModprobedDir modprobe) "") then
       fail_if (negb (isWellFormedAbsolutePath (mp_ModprobedDir modprobe))) "modprobedDir %q must be a well-formed absolute path"
     else None).

Definition validateSignSection (sign : option Sign) (dirName : string) : option error :=
  match sign with
  | None => None
  | Some sign =>
      fail_if (bool_decide (sign_FilesToSign sign = [])) "filesToSign is required when Sign is set"
      ∪ first_error (λ filePath, fail_if (negb (HasPrefix filePath (dirName +:+ "/"))) "filesToSign[%q] must be under dirName %q")
          (sign_FilesToSign sign)
  end.

Definition validateFilesToSign (container : ModuleLoaderContainerSpec) : option error :=
  let dirName := mp_DirName (mlc_Modprobe container) in
  wrap_err "global Sign: %v" (validateSignSection (mlc_Sign container) dirName)
  ∪ first_error (λ km, wrap_err "kernelMappings[%d].Sign: %v" (validateSignSection (km_Sign km) dirName))
      (mlc_KernelMappings container).

Definition TolerationOpEqual := "Equal".

(** The three effects Kubernetes knows. *)
Definition validEffects : list string := [TaintEffectNoSchedule; TaintEffectPreferNoSchedule; TaintEffectNoExecute].

Section webhook.
Context `{EXT : Externals}.

Definition validateToleration (t : Toleration) : option error :=
  (if negb (String.eqb (tol_Key t) "") then
     fail_if (negb (bool_decide (IsQualifiedName (tol_Key t) = []))) "%s invalid key '%s': %s"
   else None)
  ∪ fail_if (String.eqb (tol_Key t) "" && negb (String.eqb (tol_Operator t) TolerationOpExists)) "%s operator must be 'Exists' when key is empty"
  ∪ fail_if (is_some (tol_Seconds t) && negb (String.eqb (tol_Effect t) TaintEffectNoExecute)) "%s effect must be 'NoExecute' when tolerationSeconds is set"
  ∪ (if String.eqb (tol_Operator t) TolerationOpEqual || String.eqb (tol_Operator t) "" then
       fail_if (negb (bool_decide (IsValidLabelValue (tol_Value t) = []))) "%s invalid value '%s' for Equal operator %s"
     else if String.eqb (tol_Operator t) TolerationOpExists then
       fail_if (negb (String.eqb (tol_Value t) "")) "%s value must be empty when operator is 'Exists'"
     else Some (ErrNew "%s invalid operator '%s', allowed values are ['Equal', 'Exists']"))
  ∪ (if negb (String.eqb (tol_Effect t) "") then
       fail_if (negb (existsb (String.eqb (tol_Effect t)) validEffects))
         "%s invalid effect '%s', allowed values are ['NoSchedule', 'PreferNoSchedule', 'NoExecute']"
     else None).

Definition validateTolerations (tolerations : list Toleration) : option error :=
  first_error validateToleration tolerations.

Definition validateKernelMapping (container : ModuleLoaderContainerSpec) (km : KernelMapping) : option error :=
  let has_regexp := negb (String.eqb (km_Regexp km) "") in
  let has_literal := negb (String.eqb (km_Literal km) "") in
  fail_if (has_regexp && has_literal) "regexp and literal are mutually exclusive properties at kernelMappings[%d]"
  ∪ fail_if (negb has_regexp && negb has_literal) "regexp or literal must be set at kernelMappings[%d]"
  ∪ wrap_err "invalid regexp at index %d: %v" (regexp_Compile (km_Regexp km))
  ∪ (if String.eqb (km_ContainerImage km) "" then
       fail_if (String.eqb (mlc_ContainerImage container) "") "missing spec.moduleLoader.container.kernelMappings[%d].containerImage"
     else wrap_err "failed to validate image format: %v" (validateImageFormat (km_ContainerImage km)))
  ∪ fail_if (is_some (km_InTreeModulesToRemove km) && negb (String.eqb (km_InTreeModuleToRemove km) ""))
      "only one of the KernelMapping fields: InTreeModulesToRemove or InTreeModuleToRemove can be defined"
  ∪ fail_if ((is_some (km_InTreeModulesToRemove km) && negb (String.eqb (mlc_InTreeModuleToRemove container) "")) ||
             (negb (String.eqb (km_InTreeModuleToRemove km) "") && is_some (mlc_InTreeModulesToRemove container)))
      "only one type if field (InTreeModuleToRemove or InTreeModulesToRemove) can be defined in KenrelMapping or Container".

Definition validateModuleLoaderContainerSpec (container : ModuleLoaderContainerSpec) : option error :=
  fail_if (is_some (mlc_InTreeModulesToRemove container) && negb (String.eqb (mlc_InTreeModuleToRemove container) ""))
    "only one of the Container's fields: InTreeModulesToRemove or InTreeModuleToRemove can be defined"
  ∪ (if negb (String.eqb (mlc_ContainerImage container) "") then
       wrap_err "failed to validate image format: %v" (validateImageFormat (mlc_ContainerImage container))
     else None)
  ∪ first_error (validateKernelMapping container) (mlc_KernelMappings container).

(** The loop over the device classes, with the set of names already seen. *)
Fixpoint validate_classes (seen : gset string) (l : list DeviceClassSpec) : option error :=
  match l with
  | [] => None
  | dc :: l =>
      fail_if (String.eqb (dc_Name dc) "") "spec.dra.deviceClasses[%d].name is required"
      ∪ fail_if (negb (bool_decide (IsDNS1123Subdomain (dc_Name dc) = []))) "spec.dra.deviceClasses[%d].name %q is not a valid DNS subdomain: %s"
      ∪ fail_if (bool_decide (dc_Name dc ∈ seen)) "spec.dra.deviceClasses[%d].name %q is a duplicate"
      ∪ validate_classes ({[dc_Name dc]} ∪ seen) l
  end.

Definition validateDRA (mod_ : Module_) (kubeVersion : option version.KubeVersion) : option error :=
  match ms_DRA (mod_spec mod_) with
  | None => None
  | Some dra =>
      (match kubeVersion with
       | Some kv =>
           fail_if (negb (version.AtLeast kv constants.MinKubeMajorForDRA constants.MinKubeMinorForDRA))
             "spec.dra requires Kubernetes %d.%d or later; current cluster version is %d.%d"
       | None => None
       end)
      ∪ fail_if (String.eqb (dra_DriverName dra) "") "spec.dra.driverName is required"
      ∪ fail_if (negb (bool_decide (IsDNS1123Subdomain (dra_DriverName dra) = []))) "spec.dra.driverName %q is not a valid DNS subdomain: %s"
      ∪ validate_classes ∅ (dra_DeviceClasses dra)
      ∪ (match dra_InitContainer dra with
         | Some c =>
             fail_if (is_some (cc_StartupProbe c)) "spec.dra.initContainer.startupProbe is not supported"
             ∪ fail_if (is_some (cc_LivenessProbe c)) "spec.dra.initContainer.livenessProbe is not supported"
         | None => None
         end)
  end.

Definition validate_device_plugin (dp : DevicePluginSpec) : option error :=
  wrap_err "failed to validate device plugin volumes: %v" (validateHostPathVolumes (dp_Volumes dp))
  ∪ (match dp_InitContainer dp with
     | Some c =>
         fail_if (is_some (cc_StartupProbe c)) "spec.devicePlugin.initContainer.startupProbe is not supported"
         ∪ fail_if (is_some (cc_LivenessProbe c)) "spec.devicePlugin.initContainer.livenessProbe is not supported"
     | None => None
     end).

Definition validateModule (mod_ : Module_) (kubeVersion : option version.KubeVersion) : option error :=
  fail_if (maxCombinedLength <? String.length (mod_Name mod_ +:+ mod_Namespace mod_))
    "module name and namespace have a combined length of %d characters, which exceeds the maximum of %d when version is set"
  ∪ wrap_err "failed to validate Module's tolerations: %v" (validateTolerations (ms_Tolerations (mod_spec mod_)))
  ∪ wrap_err "failed to validate DRA: %v" (validateDRA mod_ kubeVersion)
  ∪ (match ms_DRA (mod_spec mod_) with
     | Some dra => wrap_err "failed to validate DRA volumes: %v" (validateHostPathVolumes (dra_Volumes dra))
     | None => None
     end)
  ∪ (match ms_DevicePlugin (mod_spec mod_) with Some dp => validate_device_plugin dp | None => None end)
  ∪ (match ms_ModuleLoader (mod_spec mod_) with
     | None => None
     | Some ml =>
         wrap_err "failed to validate kernel mappings: %v" (validateModuleLoaderContainerSpec (ml_Container ml))
         ∪ wrap_err "failed to validate modprobe: %v" (validateModprobe (mlc_Modprobe (ml_Container ml)))
         ∪ validateFilesToSign (ml_Container ml)
     end).

Definition ValidateCreate (mod_ : Module_) (kubeVersion : option version.KubeVersion) : option error :=
  validateModule mod_ kubeVersion.

Definition loader_version (mod_ : Module_) : option string :=
  (λ ml, mlc_Version (ml_Container ml)) <$> ms_ModuleLoader (mod_spec mod_).

Definition ValidateUpdate (oldMod newMod : Module_) (kubeVersion : option version.KubeVersion) : option error :=
  (match loader_version oldMod, loader_version newMod with
   | Some o, Some n =>
       fail_if ((String.eqb o "" && negb (String.eqb n "")) || (negb (String.eqb o "") && String.eqb n ""))
         "cannot update to or from an empty version; please delete the Module and create it again"
   | _, _ => None
   end)
  ∪ fail_if (negb (Bool.eqb (is_some (ms_ModuleLoader (mod_spec oldMod))) (is_some (ms_ModuleLoader (mod_spec newMod)))))
      "cannot add or remove spec.moduleLoader; please delete the Module and create it again"
  ∪ (match ms_DRA (mod_spec oldMod) with
     | None => None
     | Some o =>
         match ms_DRA (mod_spec newMod) with
         | None => Some (ErrNew "spec.dra cannot be removed; delete the Module once no ResourceClaim consumer is left")
         | Some n =>
             fail_if (negb (String.eqb (dra_DriverName o) (dra_DriverName n)))
               "spec.dra.driverName is immutable; delete the Module once no ResourceClaim consumer is left"
         end
     end)
  ∪ validateModule newMod kubeVersion.

Definition ValidateDelete (mod_ : Module_) : option error := Some NotImplemented.

(** ** [internal/webhook/hub/managedclustermodule_webhook.go] *)

(** The Module the hub validates: the zero metadata and the ModuleSpec. *)
Definition hub_module (mcm : ManagedClusterModule) : Module_ :=
  {| mod_meta := empty_meta "" ""; mod_spec := mcms_ModuleSpec (mcm_spec mcm);
     mod_status :=
       let z := {| dss_NodesMatchingSelectorNumber := 0; dss_DesiredNumber := 0; dss_AvailableNumber := 0 |} in
       {| mst_DevicePlugin := z; mst_DRA := z; mst_ModuleLoader := z; mst_ImageRebuildTriggerGeneration := None |} |}.

Definition hub_ValidateCreate (mcm : ManagedClusterModule) (kubeVersion : option version.KubeVersion) : option error :=
  ValidateCreate (hub_module mcm) kubeVersion.

Definition hub_ValidateUpdate (oldMCM newMCM : ManagedClusterModule) (kubeVersion : option version.KubeVersion) : option error :=
  ValidateUpdate (hub_module oldMCM) (hub_module newMCM) kubeVersion.
End webhook.

(** ** [internal/webhook/namespace.go] *)

Definition namespace_ValidateDelete (ns : Namespace) : option error :=
  fail_if (HasLabel (ns_meta ns) constants.NamespaceLabelKey)
    "namespace contains one or more Module resources; delete those before deleting the namespace".

(** ** [internal/webhook/preflight.go] *)

Definition validatePreflight (pv : PreflightValidation) : option error :=
  fail_if (String.eqb (pvs_KernelVersion (pv_spec pv)) "") "kernelVersion cannot be empty"
  ∪ fail_if (length (split_on kernel_sep (pvs_KernelVersion (pv_spec pv))) <? 3) "invalid kernelVersion %s".

(** ** Properties *)

Section webhook_props.
Context `{EXT : Externals} `{EXTL : !ExternalsLaws}.

(** What acceptance gives for a module with a loader section. *)
Lemma validateModule_loader mod_ kv ml :
  validateModule mod_ kv = None → ms_ModuleLoader (mod_spec mod_) = Some ml →
  validateModuleLoaderContainerSpec (ml_Container ml) = None ∧
  validateModprobe (mlc_Modprobe (ml_Container ml)) = None ∧
  validateFilesToSign (ml_Container ml) = None.
Proof.
  unfold validateModule. rewrite !union_None. intros (_ & H) E. rewrite E in H.
  rewrite !union_None, !wrap_err_None in H. tauto.
Qed.

(** The facts about one kernel mapping the loop checks. *)
Lemma validateKernelMapping_accepts c km :
  validateKernelMapping c km = None →
  regexp_Compile (km_Regexp km) = None ∧
  (km_ContainerImage km = "" → mlc_ContainerImage c ≠ "") ∧
  (km_ContainerImage km ≠ "" → validateImageFormat (km_ContainerImage km) = None) ∧
  (km_InTreeModulesToRemove km = None ∨ km_InTreeModuleToRemove km = "") ∧
  (km_InTreeModulesToRemove km = None ∨ mlc_InTreeModuleToRemove c = "") ∧
  (km_InTreeModuleToRemove km = "" ∨ mlc_InTreeModulesToRemove c = None).
Proof.
  unfold validateKernelMapping. cbv zeta. rewrite !union_None, !fail_if_None, wrap_err_None, orb_false_iff.
  intros (((((_ & _) & Hr) & Hi) & H1) & H2 & H3).
  rewrite andb_false_iff, negb_false_iff, String.eqb_eq in H1, H2, H3.
  split_and!; [done| | |by destruct (km_InTreeModulesToRemove km); naive_solver..|].
  - intros E. rewrite E in Hi. simpl in Hi. by apply fail_if_None, String.eqb_neq in Hi.
  - intros E%String.eqb_neq. rewrite E in Hi. by apply wrap_err_None in Hi.
  - by destruct (mlc_InTreeModulesToRemove c); naive_solver.
Qed.
(** The format check of an image: a colon or an at sign, anywhere. *)
Definition colon_or_at (s : string) : Prop := ∃ pre post, s = pre +:+ ":" +:+ post ∨ s = pre +:+ "@" +:+ post.

Lemma contains_char_split c s : contains_char c s = true → ∃ pre post, s = pre +:+ String c post.
Proof.
  induction s as [|x s IH]; [done|]. unfold contains_char in *. cbn [string_forallb].
  rewrite negb_andb, negb_involutive, orb_true_iff. intros [H|H].
  - apply Ascii.eqb_eq in H as ->. by exists "", s.
  - destruct (IH H) as (pre & post & ->). by exists (String x pre), post.
Qed.

Lemma validateImageFormat_accepts img : validateImageFormat img = None → colon_or_at img.
Proof.
  unfold validateImageFormat. rewrite fail_if_None, andb_false_iff, !negb_false_iff.
  intros [H|H]; apply contains_char_split in H as (pre & post & ->); exists pre, post; auto.
Qed.

(** In an accepted container, the image template a mapping gets is present and has one of them. *)
Lemma mapping_image_ok c km t :
  validateModuleLoaderContainerSpec c = None → km ∈ mlc_KernelMappings c → image_template c km t → t ≠ "" ∧ colon_or_at t.
Proof.
  unfold validateModuleLoaderContainerSpec. rewrite !union_None, first_error_None, Forall_forall.
  intros ((_ & Hc) & Hkm) Hin [Ht1 Ht2]. destruct (validateKernelMapping_accepts _ _ (Hkm _ Hin)) as (_ & H1 & H2 & _).
  destruct (decide (km_ContainerImage km = "")) as [E|E]; [|rewrite (Ht2 E); split; [done|]; by apply validateImageFormat_accepts, H2].
  specialize (H1 E). rewrite (Ht1 E). split; [done|]. rewrite (proj2 (String.eqb_neq _ _) H1) in Hc. apply wrap_err_None in Hc.
  by apply validateImageFormat_accepts.
Qed.

(** A search through mappings whose expressions compile fails only when nothing matches. *)
Lemma findKernelMapping_compiled l k :
  Forall (λ km, regexp_Compile (km_Regexp km) = None) l →
  match findKernelMapping l k with
  | Ok km => km ∈ l
  | Err e => e = ErrSentinel ErrNoMatchingKernelMapping
  end.
Proof.
  induction 1 as [|km l Hc _ IH]; simpl; [done|].
  assert (match findKernelMapping l k with
          | Ok km' => km' ∈ km :: l
          | Err e => e = ErrSentinel ErrNoMatchingKernelMapping end) as IH'.
  { destruct (findKernelMapping l k); [by apply list_elem_of_further|done]. }
  destruct (negb _ && _); [by left|]. destruct (String.eqb _ ""); [done|].
  apply (MatchString_Compile _ k) in Hc. destruct (regexp_MatchString _ _) as [[]|]; [by left|done|done].
Qed.

(** What an accepted mapping and its container remove. *)
Lemma accepted_in_tree mod_ ml km k sign :
  let c := ml_Container ml in
  let removed := default [] (mld_InTreeModulesToRemove (base_mld km mod_ ml k sign)) in
  let named (l : option (list string)) (s : string) := default [] l ++ (if String.eqb s "" then [] else [s]) in
  validateModuleLoaderContainerSpec c = None → km ∈ mlc_KernelMappings c →
  named (km_InTreeModulesToRemove km) (km_InTreeModuleToRemove km) ⊆ removed ∧
  (km_InTreeModulesToRemove km = None → km_InTreeModuleToRemove km = "" →
   named (mlc_InTreeModulesToRemove c) (mlc_InTreeModuleToRemove c) = removed).
Proof.
  intros c removed named Hc Hin. unfold validateModuleLoaderContainerSpec in Hc.
  rewrite !union_None, first_error_None, fail_if_None, andb_false_iff, negb_false_iff, String.eqb_eq in Hc.
  destruct Hc as ((Hx & _) & Hkms). unfold removed, named. split; simpl; fold c.
  - rewrite Forall_forall in Hkms. destruct (validateKernelMapping_accepts _ _ (Hkms _ Hin)) as (_ & _ & _ & H1 & H2 & H3).
    destruct (String.eqb_spec (km_InTreeModuleToRemove km) "") as [E|E]; simpl.
    + destruct (km_InTreeModulesToRemove km) as [l|]; simpl; [|by apply list_subseteq_nil].
      destruct H2 as [H2|H2]; [done|]. rewrite H2. simpl. by rewrite app_nil_r.
    + destruct H1 as [H1|H1]; [|done]. rewrite H1. simpl. by rewrite (proj2 (String.eqb_neq _ _) E).
  - intros El Es. rewrite El, Es. simpl.
    destruct (String.eqb_spec (mlc_InTreeModuleToRemove c) "") as [E|E]; simpl; [by rewrite app_nil_r|].
    destruct Hx as [Hx|Hx]; [|done]. by destruct (mlc_InTreeModulesToRemove c).
Qed.

(** C37: the webhook protects the kernel mapper.  For an accepted module with a loader section and
    any kernel, there is a first mapping for the kernel, or every mapping is passed over: no regular
    expression fails.  The image template that mapping gives is not empty and has a colon or an at
    sign somewhere (not more than that: the port of a registry will do).  The data derived for the
    kernel removes every in-tree module that the mapping names and, where the mapping names none,
    exactly those the module names: no setting is ignored. *)
Theorem accepted_mappings_usable mod_ kv ml k :
  validateModule mod_ kv = None → ms_ModuleLoader (mod_spec mod_) = Some ml →
  let c := ml_Container ml in
  let named (l : option (list string)) (s : string) := default [] l ++ (if String.eqb s "" then [] else [s]) in
  ((∃ km, first_mapping (mlc_KernelMappings c) k km) ∨ Forall (passed_over k) (mlc_KernelMappings c)) ∧
  ∀ km, first_mapping (mlc_KernelMappings c) k km →
    (∀ t, image_template c km t → t ≠ "" ∧ colon_or_at t) ∧
    ∀ mld, GetModuleLoaderDataForKernel mod_ k = Ok mld →
      let removed := default [] (mld_InTreeModulesToRemove mld) in
      named (km_InTreeModulesToRemove km) (km_InTreeModuleToRemove km) ⊆ removed ∧
      (km_InTreeModulesToRemove km = None → km_InTreeModuleToRemove km = "" →
       named (mlc_InTreeModulesToRemove c) (mlc_InTreeModuleToRemove c) = removed).
Proof.
  intros Hv Hml c named. destruct (validateModule_loader _ _ _ Hv Hml) as (Hc & _ & _). fold c in Hc.
  pose proof Hc as Hall. unfold validateModuleLoaderContainerSpec in Hall. rewrite !union_None, first_error_None in Hall.
  destruct Hall as (_ & Hkms). split.
  - destruct (findKernelMapping (mlc_KernelMappings c) k) as [km|e] eqn:Ef; [left; exists km; by apply findKernelMapping_first|]. right.
    pose proof (findKernelMapping_compiled (mlc_KernelMappings c) k) as Hf. rewrite Ef in Hf.
    eapply Forall_impl; [apply (findKernelMapping_NoMatch (mlc_KernelMappings c) k)|intros km; apply verdict_skip].
    exists e. split; [done|]. rewrite Hf; [by apply bool_decide_eq_true|]. eapply Forall_impl; [exact Hkms|].
    intros km Hkm. by apply validateKernelMapping_accepts in Hkm as [? _].
  - intros km Hkm. pose proof Hkm as (pre & post & El & _). assert (km ∈ mlc_KernelMappings c) as Hin by (rewrite El; set_solver).
    split; [intros t Ht; by eapply mapping_image_ok|].
    intros mld (ml' & m & mld0 & img & Hml' & Hm & Hp & ->)%GetModuleLoaderDataForKernel_inv.
    rewrite Hml in Hml'. injection Hml' as <-. apply findKernelMapping_first in Hkm. fold c in Hm. rewrite Hkm in Hm. injection Hm as <-.
    apply prepareModuleLoaderData_Ok in Hp as [sign ->]. exact (accepted_in_tree mod_ ml km k sign Hc Hin).
Qed.

(** Acceptance of one sign section. *)
Lemma validateSignSection_accepts s dir :
  validateSignSection (Some s) dir = None ↔
  sign_FilesToSign s ≠ [] ∧ Forall (λ f, ∃ t, f = dir +:+ "/" +:+ t) (sign_FilesToSign s).
Proof.
  unfold validateSignSection. rewrite union_None, fail_if_None, bool_decide_eq_false, first_error_None.
  f_equiv. apply Forall_iff. intros f. rewrite fail_if_None, negb_false_iff, HasPrefix_spec.
  by setoid_rewrite string_app_assoc.
Qed.

(** In an accepted module, the sign section merged from the module and any of its kernel
    mappings names at least one file, and every file is in the directory that the generated
    Dockerfile copies to the signing stage and back. *)
Theorem accepted_signed_files_copied mod_ kv ml km s :
  validateModule mod_ kv = None → ms_ModuleLoader (mod_spec mod_) = Some ml →
  km ∈ mlc_KernelMappings (ml_Container ml) →
  merge_sign (mlc_Sign (ml_Container ml)) (km_Sign km) = Some s →
  sign_FilesToSign s ≠ [] ∧
  Forall (λ f, ∃ t, f = mp_DirName (mlc_Modprobe (ml_Container ml)) +:+ "/" +:+ t) (sign_FilesToSign s).
Proof.
  intros Hv Hml Hin. destruct (validateModule_loader _ _ _ Hv Hml) as (_ & _ & Hs).
  unfold validateFilesToSign in Hs. rewrite union_None, wrap_err_None, first_error_None, Forall_forall in Hs.
  destruct Hs as [Hg Hk]. specialize (Hk _ Hin). apply wrap_err_None in Hk. unfold merge_sign.
  destruct (mlc_Sign (ml_Container ml)) as [g|], (km_Sign km) as [m|]; intros [= <-]; simpl.
  - apply validateSignSection_accepts in Hg as [Hg1 Hg2], Hk as [_ Hk2]. split; [|by apply Forall_app].
    by destruct (sign_FilesToSign g).
  - by apply validateSignSection_accepts.
  - by apply validateSignSection_accepts.
Qed.

(** *** Label names *)

(** The name part of a qualified name: what follows the first slash. *)
Fixpoint name_part (s : string) : string :=
  match s with
  | "" => ""
  | String c t => if is_char "/" c then t else name_part t
  end.

(** The node labels that carry a module's namespace and name. *)
Definition module_labels (ns name : string) : list string :=
  [GetModuleVersionLabelName ns name; GetWorkerPodVersionLabelName ns name; GetSchedulePodVersionLabelName ns name;
   GetKernelModuleReadyNodeLabel ns name; GetKernelModuleVersionReadyNodeLabel ns name;
   GetDevicePluginNodeLabel ns name; GetDevicePluginTargetNodeLabel ns name;
   GetDRANodeLabel ns name; GetDRATargetNodeLabel ns name;
   ModuleConfiguredLabel ns name; ModuleInUseLabel ns name].

Lemma labels_within_limit ns name :
  String.length (name +:+ ns) ≤ maxCombinedLength → Forall (λ l, String.length (name_part l) ≤ 63) (module_labels ns name).
Proof.
  unfold module_labels, maxCombinedLength. rewrite string_app_length. intros H.
  repeat (apply Forall_cons; split; [simpl; rewrite ?string_app_length; simpl; rewrite ?string_app_length; simpl; lia|]). constructor.
Qed.

Lemma name_too_long mod_ kv :
  maxCombinedLength < String.length (mod_Name mod_ +:+ mod_Namespace mod_) → is_Some (validateModule mod_ kv).
Proof. unfold validateModule. intros H%Nat.ltb_lt. rewrite H. simpl. rewrite !union_Some_l. eauto. Qed.

(** C40: the limit on the length of a module's name and namespace when its version is set is exactly
    what label names allow.  For an accepted module with a version, every node label the operator
    derives from it has a name of at most 63 characters; a module with a version beyond the limit is
    refused, and its scheduling label would be longer than that. *)
Theorem accepted_label_names_fit mod_ kv version :
  loader_version mod_ = Some version → version ≠ "" →
  (validateModule mod_ kv = None →
   Forall (λ l, String.length (name_part l) ≤ 63) (module_labels (mod_Namespace mod_) (mod_Name mod_))) ∧
  (maxCombinedLength < String.length (mod_Name mod_ +:+ mod_Namespace mod_) →
   63 < String.length (name_part (GetSchedulePodVersionLabelName (mod_Namespace mod_) (mod_Name mod_))) ∧
   is_Some (validateModule mod_ kv)).
Proof.
  intros _ _. split.
  - intros Hv. apply labels_within_limit. unfold validateModule in Hv. rewrite !union_None, fail_if_None, Nat.ltb_ge in Hv. tauto.
  - intros H. split; [|by apply name_too_long].
    rewrite string_app_length in H. unfold maxCombinedLength in H. simpl. rewrite string_app_length. simpl. lia.
Qed.

(** The same limit holds for a module without a version, which has no version labels. *)
Lemma limit_without_version mod_ kv :
  loader_version mod_ = None ∨ loader_version mod_ = Some "" →
  maxCombinedLength < String.length (mod_Name mod_ +:+ mod_Namespace mod_) → is_Some (validateModule mod_ kv).
Proof. intros _. apply name_too_long. Qed.

(** *** Updates *)

(** The modules an object can become by accepted updates. *)
Inductive updated (m : Module_) : Module_ → Prop :=
| updated_refl : updated m m
| updated_step m1 m2 kv : updated m m1 → ValidateUpdate m1 m2 kv = None → updated m m2.

(** The fields an accepted update does not change. *)
Lemma ValidateUpdate_accepts m1 m2 kv :
  ValidateUpdate m1 m2 kv = None →
  is_some (ms_ModuleLoader (mod_spec m1)) = is_some (ms_ModuleLoader (mod_spec m2)) ∧
  (loader_version m1 = Some "" ↔ loader_version m2 = Some "") ∧
  (∀ d, ms_DRA (mod_spec m1) = Some d → ∃ d', ms_DRA (mod_spec m2) = Some d' ∧ dra_DriverName d' = dra_DriverName d) ∧
  validateModule m2 kv = None.
Proof.
  unfold ValidateUpdate. rewrite !union_None, fail_if_None, negb_false_iff, Bool.eqb_true_iff.
  intros (((Hver & Hml) & Hdra) & Hval). split_and!; [done| | |done].
  - unfold loader_version in *. destruct (ms_ModuleLoader (mod_spec m1)), (ms_ModuleLoader (mod_spec m2)); simpl in *; try done.
    apply fail_if_None in Hver. revert Hver.
    destruct (String.eqb_spec (mlc_Version (ml_Container m)) "") as [->|E1],
      (String.eqb_spec (mlc_Version (ml_Container m0)) "") as [->|E2]; try done.
    intros _. by split; intros [= ?].
  - intros d E. rewrite E in Hdra. destruct (ms_DRA (mod_spec m2)) as [d'|]; [|done]. exists d'. split; [done|].
    apply fail_if_None, negb_false_iff, String.eqb_eq in Hdra. done.
Qed.

(** C38: along any history of accepted updates a module keeps having, or not having, a loader
    section and a version; a DRA driver, once set, is never removed or renamed; and the module
    still satisfies every check on created modules. *)
Theorem accepted_updates_keep m m' :
  updated m m' →
  is_some (ms_ModuleLoader (mod_spec m)) = is_some (ms_ModuleLoader (mod_spec m')) ∧
  (loader_version m = Some "" ↔ loader_version m' = Some "") ∧
  (∀ d, ms_DRA (mod_spec m) = Some d → ∃ d', ms_DRA (mod_spec m') = Some d' ∧ dra_DriverName d' = dra_DriverName d) ∧
  (m' = m ∨ ∃ kv, validateModule m' kv = None).
Proof.
  induction 1 as [|m1 m2 kv _ (IH1 & IH2 & IH3 & _) H]; [naive_solver|].
  apply ValidateUpdate_accepts in H as (H1 & H2 & H3 & H4). split_and!; [congruence|tauto| |eauto].
  intros d (d1 & E1 & Ed1)%IH3. destruct (H3 _ E1) as (d2 & E2 & Ed2). exists d2. split; [done|congruence].
Qed.
End webhook_props.

(** *** Modprobe settings *)

Lemma duplicate_in_order_None seen l :
  duplicate_in_order seen l = None ↔ NoDup l ∧ Forall (λ x, x ∉ seen) l.
Proof.
  revert seen. induction l as [|x l IH]; intros seen; simpl.
  - split; [|done]. intros _. split; constructor.
  - rewrite union_None, fail_if_None, bool_decide_eq_false, IH, NoDup_cons, Forall_cons, !Forall_forall. set_solver.
Qed.

(** The modprobe settings accepted are exactly these: a module name without raw arguments,
    or no module name with raw arguments both for loading and for unloading; a loading order,
    if there is one, starts with the module name, has at least two entries and no duplicates;
    a host directory, if there is one, is a clean absolute path. *)
Theorem validateModprobe_exact m :
  let raw := default {| ma_Load := []; ma_Unload := [] |} (mp_RawArgs m) in
  validateModprobe m = None ↔
  (mp_ModuleName m ≠ "" ∧ ma_Load raw = [] ∧ ma_Unload raw = [] ∨
   mp_ModuleName m = "" ∧ ma_Load raw ≠ [] ∧ ma_Unload raw ≠ []) ∧
  (∀ order, mp_ModulesLoadingOrder m = Some order →
     mp_ModuleName m ≠ "" ∧ NoDup order ∧ ∃ x rest, order = mp_ModuleName m :: x :: rest) ∧
  (mp_ModprobedDir m ≠ "" → isWellFormedAbsolutePath (mp_ModprobedDir m) = true).
Proof.
  intros raw. unfold validateModprobe. cbv zeta. rewrite !union_None, Logic.and_assoc.
  apply Morphisms_Prop.and_iff_morphism; [|apply Morphisms_Prop.and_iff_morphism].
  - unfold raw, rawLoadArgsDefined, rawUnloadArgsDefined.
    destruct (String.eqb_spec (mp_ModuleName m) "") as [E|E]; simpl; rewrite fail_if_None.
    all: destruct (mp_RawArgs m) as [[[] []]|]; simpl; intuition congruence.
  - destruct (mp_ModulesLoadingOrder m) as [order|]; [|done].
    rewrite !union_None, !fail_if_None, !negb_false_iff, negb_true_iff, String.eqb_neq, bool_decide_eq_true, Nat.ltb_ge, duplicate_in_order_None.
    split.
    + intros (((Hl & Hn) & H0) & Hd & _) ? [= <-]. split_and!; [done..|]. destruct order as [|y [|x rest]]; simpl in *; [lia..|].
      injection H0 as ->. eauto.
    + intros H. destruct (H order eq_refl) as (Hn & Hd & x & rest & ->). simpl. split_and!; [lia|done..|].
      apply Forall_forall. set_solver.
  - destruct (String.eqb_spec (mp_ModprobedDir m) "") as [E|E]; simpl; [naive_solver|].
    rewrite fail_if_None, negb_false_iff. naive_solver.
Qed.

(** *** Host paths *)

(** Where an absolute path leads, as the list of directory entries from the root: an empty
    element and [.] stay, [..] goes up. *)
Definition walk (dirs : list string) (e : string) : list string :=
  if String.eqb e "" || String.eqb e "." then dirs
  else if String.eqb e ".." then removelast dirs
  else dirs ++ [e].
Definition resolved (p : string) : list string := foldl walk [] (split_on (is_char "/") p).

Definition path_element (e : string) : Prop := e ≠ "" ∧ string_forallb (λ c, negb (is_char "/" c)) e = true.

Lemma split_on_free sep s : Forall (λ e, string_forallb (λ c, negb (sep c)) e = true) (split_on sep s).
Proof.
  induction s as [|c s IH]; simpl; [by repeat constructor|].
  destruct (sep c) eqn:E; [by constructor|]. destruct (split_on sep s) as [|e l]; simpl.
  - repeat constructor. simpl. by rewrite E.
  - inversion IH; subst. constructor; [|done]. simpl. by rewrite E.
Qed.

Lemma clean_steps_elements rooted els stack :
  Forall (λ e, string_forallb (λ c, negb (is_char "/" c)) e = true) els →
  Forall path_element stack → Forall path_element (foldl (clean_step rooted) stack els).
Proof.
  intros Hels. revert stack. induction Hels as [|e els He _ IH]; intros stack Hs; simpl; [done|]. apply IH.
  unfold clean_step. destruct (String.eqb_spec e ""); [done|]. destruct (String.eqb_spec e "."); [done|]. simpl.
  assert (path_element "..") by (by split). destruct (String.eqb_spec e "..").
  - destruct Hs as [|x s Hx Hs]; [destruct rooted; auto using Forall_cons_2, Forall_nil_2|].
    destruct (String.eqb x ".."); auto using Forall_cons_2.
  - by constructor.
Qed.

(** On a rooted path, [Clean]'s stack is the place the walk has reached. *)
Lemma clean_steps_walk els dirs :
  ".." ∉ dirs → rev (foldl (clean_step true) (rev dirs) els) = foldl walk dirs els.
Proof.
  revert dirs. induction els as [|e els IH]; intros dirs Hd; simpl; [by rewrite rev_involutive|].
  assert (clean_step true (rev dirs) e = rev (walk dirs e) ∧ ".." ∉ walk dirs e) as [-> Hw]; [|by apply IH].
  unfold clean_step, walk. destruct (String.eqb_spec e ""); [done|]. destruct (String.eqb_spec e "."); [done|]. simpl.
  destruct (String.eqb_spec e "..") as [->|].
  - destruct dirs as [|x dirs] using rev_ind; [done|]. rewrite rev_app_distr, removelast_last. simpl.
    destruct (String.eqb_spec x "..") as [->|]; [set_solver|]. split; [done|set_solver].
  - rewrite rev_app_distr. simpl. split; [done|set_solver].
Qed.

(** The first element of a joined path. *)
Lemma slash_split a b s t :
  string_forallb (λ c, negb (is_char "/" c)) a = true → string_forallb (λ c, negb (is_char "/" c)) b = true →
  a +:+ "/" +:+ s = b +:+ "/" +:+ t → a = b.
Proof.
  intros Ha Hb H. apply (f_equal (λ x, head (split_on (is_char "/") x))) in H. simpl in H.
  rewrite !split_on_app, (split_on_none _ a), (split_on_none _ b) in H by done. by simplify_eq/=.
Qed.

Lemma slash_free_no_split a b t :
  string_forallb (λ c, negb (is_char "/" c)) a = true → a ≠ b +:+ "/" +:+ t.
Proof. intros Ha ->. rewrite string_forallb_app in Ha. by apply andb_true_iff in Ha as [_ Ha]. Qed.

Lemma Join_first_element els d :
  Forall path_element els → path_element d →
  Join els "/" = d ∨ (∃ t, Join els "/" = d +:+ "/" +:+ t) ↔ ∃ rest, els = d :: rest.
Proof.
  intros Hels [Hd0 Hd]. destruct Hels as [|e els [He0 He] Hels]; simpl.
  - split; [|by intros []]. intros [E|[t E]]; [by symmetry in E|]. by destruct d.
  - destruct els as [|e' els].
    + split; [|intros [? [= <- <-]]; by left]. intros [->|[t E]]; [eauto|]. by apply slash_free_no_split in E.
    + split; [|intros [? [= <- <-]]; right; eauto]. intros [E|[t E]].
      * symmetry in E. by apply slash_free_no_split in E.
      * apply slash_split in E as ->; eauto.
Qed.

(** C39: a host path is accepted exactly when it is absolute and, after every [.] and [..] is
    followed, leads into one of [/dev], [/sys], [/var], [/opt] and [/run]: no [..] escapes. *)
Theorem isAllowedHostPath_exact p :
  isAllowedHostPath p = true ↔
  IsAbs p = true ∧ ∃ d rest, resolved p = d :: rest ∧ d ∈ ["dev"; "sys"; "var"; "opt"; "run"].
Proof.
  pose proof (clean_steps_elements (IsAbs p) (split_on (is_char "/") p) [] (split_on_free _ p) (Forall_nil_2 _)) as Hels.
  pose proof (clean_steps_walk (split_on (is_char "/") p) [] (not_elem_of_nil _)) as Hwalk. simpl in Hwalk.
  assert (∀ d s, path_element d → String.eqb ("/" +:+ s) ("/" +:+ d) || HasPrefix ("/" +:+ s) (("/" +:+ d) +:+ "/") = true ↔
            s = d ∨ ∃ t, s = d +:+ "/" +:+ t) as Hpre.
  { intros d s _. rewrite orb_true_iff, String.eqb_eq, HasPrefix_spec. simpl. setoid_rewrite string_app_assoc. simpl.
    split; [intros [[= ->]|[t [= ->]]]; eauto|intros [->|[t ->]]; eauto]. }
  unfold isAllowedHostPath. rewrite existsb_exists. unfold Clean. fold (IsAbs p).
  destruct (IsAbs p) eqn:Habs.
  - rewrite Hwalk. fold (resolved p). apply Forall_rev in Hels. rewrite Hwalk in Hels. fold (resolved p) in Hels.
    assert (∀ d, d ∈ ["dev"; "sys"; "var"; "opt"; "run"] → path_element d) as Hd.
    { intros d. rewrite !elem_of_cons, elem_of_nil. intros Hd. destruct_or!; subst; by split. }
    split.
    + intros (pre & Hin & E). split; [done|].
      assert (∃ d, d ∈ ["dev"; "sys"; "var"; "opt"; "run"] ∧ pre = "/" +:+ d) as (d & Hind & ->).
      { simpl in Hin. destruct_or!; subst; eexists; (split; [|reflexivity]); set_solver. }
      apply Hpre, Join_first_element in E as [rest E]; eauto.
    + intros (_ & d & rest & E & Hind). exists ("/" +:+ d). split.
      * rewrite !elem_of_cons, elem_of_nil in Hind. destruct_or!; subst; simpl; tauto.
      * apply Hpre; [auto|]. apply Join_first_element; eauto.
  - split; [|by intros []]. intros (pre & Hin & E). exfalso. apply Forall_rev in Hels.
    assert (∃ d, pre = "/" +:+ d) as [d ->] by (simpl in Hin; destruct_or!; subst; eexists; reflexivity).
    apply orb_true_iff in E as [E%String.eqb_eq|[t E]%HasPrefix_spec].
    all: destruct (rev _) as [|[|c e] [|e' l]]; simpl in E; try done.
    all: apply Forall_cons in Hels as [[He0 He] _]; try done.
    all: simpl in He; injection E as -> _; done.
Qed.

(** *** Kubernetes versions *)

Module version_facts.
Import version.

Lemma digit_value n : (n < 10)%N →
  is_digit (pretty_N_char n) = true ∧ (Z.of_nat (nat_of_ascii (pretty_N_char n)) - 48 = Z.of_N n)%Z.
Proof. intros Hn. assert (n ∈ [0; 1; 2; 3; 4; 5; 6; 7; 8; 9]%N) as H by (rewrite !elem_of_cons; lia).
  rewrite !elem_of_cons, elem_of_nil in H. by destruct_or!; subst.
Qed.

Lemma pretty_N_go_digits x s :
  digits_value 0 (pretty_N_go x s) = digits_value (Z.of_N x) s ∧
  (string_forallb is_digit s = true → string_forallb is_digit (pretty_N_go x s) = true).
Proof.
  revert s. induction (N.lt_wf_0 x) as [x _ IH]; intros s.
  destruct (decide (x = 0)%N) as [->|Hx]; [by rewrite pretty_N_go_0|].
  rewrite pretty_N_go_step by lia. destruct (digit_value (x `mod` 10)) as [Hd Hv]; [by apply N.mod_lt|].
  destruct (IH (x `div` 10)%N ltac:(by apply N.div_lt; lia) (String (pretty_N_char (x `mod` 10)) s)) as [IHv IHd].
  rewrite IHv. split.
  - cbn [digits_value]. rewrite Hv. f_equal. rewrite N2Z.inj_div, N2Z.inj_mod. pose proof (Z.div_mod (Z.of_N x) 10). lia.
  - intros Hs. apply IHd. simpl. by rewrite Hd.
Qed.

Lemma pretty_digits x :
  string_forallb is_digit (pretty x) = true ∧ digits_value 0 (pretty x) = Z.of_N x ∧ pretty x ≠ "".
Proof.
  unfold pretty, pretty_N. case_decide as Hx; [by subst|].
  destruct (pretty_N_go_digits x "") as [Hv Hd]. split_and!; [by apply Hd|done|].
  intros E. rewrite E in Hv. simpl in Hv. lia.
Qed.

Lemma span_digits_app d rest :
  string_forallb is_digit d = true → (∀ c t, rest = String c t → is_digit c = false) →
  span_digits (d +:+ rest) = (d, rest).
Proof.
  intros Hd Hr. induction d as [|c d IH].
  - change ("" +:+ rest) with rest. destruct rest as [|c t]; [done|]. cbn [span_digits]. by rewrite (Hr c t).
  - cbn [string_forallb] in Hd. apply andb_true_iff in Hd as [Hc Hd].
    change (String c d +:+ rest) with (String c (d +:+ rest)). cbn [span_digits]. by rewrite Hc, IH.
Qed.
End version_facts.

(** Printing a version and parsing it back gives the version: [ParseKubeVersion] reads
    major and minor of every git version, with or without the leading v and whatever follows
    the minor number, and rejects exactly the numbers that do not fit a 64-bit integer. *)
Theorem ParseKubeVersion_roundtrip (v : bool) (major minor : N) (rest : string) :
  (∀ c t, rest = String c t → is_digit c = false) →
  let git := (if v then "v" else "") +:+ pretty major +:+ "." +:+ pretty minor +:+ rest in
  if ((Z.of_N major <? 2 ^ 63) && (Z.of_N minor <? 2 ^ 63))%Z
  then version.ParseKubeVersion git = Ok {| version.Major := Z.of_N major; version.Minor := Z.of_N minor |}
  else is_ok (version.ParseKubeVersion git) = false.
Proof.
  intros Hrest git. destruct (version_facts.pretty_digits major) as (Hd1 & Hv1 & Hn1).
  destruct (version_facts.pretty_digits minor) as (Hd2 & Hv2 & Hn2).
  assert (version.kubeVersionRe git = Some (pretty major, pretty minor)) as E.
  { unfold version.kubeVersionRe.
    assert (TrimPrefix git "v" = pretty major +:+ "." +:+ pretty minor +:+ rest) as ->.
    { unfold git, TrimPrefix. destruct v; [done|]. clear git Hv1. destruct (pretty major) as [|c s]; [done|].
      cbn [String.append strip_prefix string_forallb] in *.
      destruct (Ascii.eqb_spec "v" c) as [<-|]; [by vm_compute in Hd1|done]. }
    rewrite version_facts.span_digits_app; [|done|by intros ? ? [= <- _]].
    destruct (pretty major); [done|]. simpl. rewrite version_facts.span_digits_app by done.
    by destruct (pretty minor). }
  unfold version.ParseKubeVersion. rewrite E. unfold version.Atoi. rewrite Hv1, Hv2.
  destruct (Z.of_N major <? 2 ^ 63)%Z, (Z.of_N minor <? 2 ^ 63)%Z; done.
Qed.

(** *** Kernels of preflight validations *)

(** The kernels accepted for a preflight validation are those with the three components that
    templates need, as written; but the mapper normalizes the kernel first, so that a kernel
    with commas passes the webhook and never resolves. *)
Theorem preflight_kernels :
  (∀ pv, validatePreflight pv = None ↔ is_ok (KernelComponentsAsEnvVars (pvs_KernelVersion (pv_spec pv))) = true) ∧
  is_ok (KernelComponentsAsEnvVars "5,14,0") = true ∧
  is_ok (KernelComponentsAsEnvVars (NormalizeVersion "5,14,0")) = false.
Proof.
  split; [|by split]. intros pv. unfold validatePreflight, KernelComponentsAsEnvVars.
  rewrite union_None, !fail_if_None, Nat.ltb_ge, String.eqb_neq.
  destruct (split_on kernel_sep (pvs_KernelVersion (pv_spec pv))) as [|x [|y [|z l]]] eqn:E; simpl.
  1-3: split; [intros [_ ?]; lia|done].
  split; [done|]. intros _. split; [|lia]. intros E0. by rewrite E0 in E.
Qed.

(** *** The hub *)

(** The Module that the hub's ManifestWork creates on the spoke cluster. *)
Definition spoke_module (mcm : ManagedClusterModule) : Module_ :=
  {| mod_meta := empty_meta (mcms_SpokeNamespace (mcm_spec mcm)) (om_Name (mcm_meta mcm));
     mod_spec := mod_spec (hub_module mcm); mod_status := mod_status (hub_module mcm) |}.

(** The hub checks the module with an empty name, so it accepts exactly the
    ManagedClusterModules whose module passes every check but the one on the length of name
    and namespace; one that is too long is accepted on the hub and refused by each spoke. *)
Theorem hub_ignores_name_length `{EXT : Externals} mcm kv :
  (String.length (om_Name (mcm_meta mcm)) + String.length (mcms_SpokeNamespace (mcm_spec mcm)) ≤ maxCombinedLength →
   hub_ValidateCreate mcm kv = validateModule (spoke_module mcm) kv) ∧
  (maxCombinedLength < String.length (om_Name (mcm_meta mcm)) + String.length (mcms_SpokeNamespace (mcm_spec mcm)) →
   is_Some (validateModule (spoke_module mcm) kv)) ∧
  (∀ meta, hub_ValidateCreate {| mcm_meta := meta; mcm_spec := mcm_spec mcm; mcm_status := mcm_status mcm |} kv =
           hub_ValidateCreate mcm kv).
Proof.
  unfold hub_ValidateCreate, ValidateCreate, validateModule, mod_Name, mod_Namespace. simpl. rewrite string_app_length. split_and!.
  - intros H%Nat.ltb_ge. by rewrite H.
  - intros H%Nat.ltb_lt. rewrite H. simpl. rewrite !union_Some_l. eauto.
  - done.
Qed.

(** A registry with a port passes for an image with a tag. *)
Lemma port_counts_as_tag : validateImageFormat "registry.local:5000/mod" = None.
Proof. reflexivity. Qed.

(** ** Witnesses *)

Definition demo_km : KernelMapping := demo_mapping "" "6." "".

Definition demo_signed_ml : ModuleLoaderSpec :=
  {| ml_Container :=
       {| mlc_Build := None;
          mlc_Sign := Some {| sign_UnsignedImage := "registry/mod:unsigned";
                              sign_UnsignedImageRegistryTLS := {| tls_Insecure := false; tls_InsecureSkipTLSVerify := false |};
                              sign_KeySecret := Some "key"; sign_CertSecret := Some "cert"; sign_FilesToSign := ["/opt/mod.ko"] |};
          mlc_Version := "1"; mlc_ContainerImage := "registry/mod:v1";
          mlc_ImagePullPolicy := "Always"; mlc_KernelMappings := [demo_km];
          mlc_Modprobe := {| mp_ModuleName := "mod"; mp_Parameters := []; mp_DirName := "/opt"; mp_Args := None;
                             mp_RawArgs := None; mp_FirmwarePath := ""; mp_ModprobedDir := ""; mp_ModulesLoadingOrder := None |};
          mlc_RegistryTLS := {| tls_Insecure := false; tls_InsecureSkipTLSVerify := false |};
          mlc_InTreeModuleToRemove := "intree"; mlc_InTreeModulesToRemove := None |};
     ml_ServiceAccountName := "" |}.

Definition demo_signed_module : Module_ :=
  {| mod_meta := empty_meta "ns" "mod";
     mod_spec := {| ms_DevicePlugin := None; ms_DRA := None; ms_ModuleLoader := Some demo_signed_ml;
                    ms_ImageRepoSecret := None; ms_Selector := ∅; ms_Tolerations := [];
                    ms_ImageRebuildTriggerGeneration := None |};
     mod_status := mod_status demo_module |}.

Lemma accepted_mappings_usable_witness :
  validateModule (EXT := demo_externals) demo_signed_module None = None ∧
  ((∃ km, first_mapping (EXT := demo_externals) [demo_km] "6.1.0" km) ∨ Forall (passed_over (EXT := demo_externals) "6.1.0") [demo_km]).
Proof.
  assert (validateModule (EXT := demo_externals) demo_signed_module None = None) as H by (vm_compute; reflexivity).
  split; [exact H|].
  exact (proj1 (accepted_mappings_usable (EXT := demo_externals) demo_signed_module None demo_signed_ml "6.1.0" H eq_refl)).
Defined.

Lemma accepted_signed_files_copied_witness :
  Forall (λ f, ∃ t, f = "/opt" +:+ "/" +:+ t) ["/opt/mod.ko"].
Proof.
  assert (validateModule (EXT := demo_externals) demo_signed_module None = None) as H by (vm_compute; reflexivity).
  refine (proj2 (accepted_signed_files_copied (EXT := demo_externals) demo_signed_module None demo_signed_ml demo_km _ H eq_refl _ eq_refl)).
  left.
Defined.

Lemma accepted_label_names_fit_witness :
  Forall (λ l, String.length (name_part l) ≤ 63) (module_labels "ns" "mod").
Proof.
  apply (proj1 (accepted_label_names_fit (EXT := demo_externals) demo_signed_module None "1" eq_refl ltac:(discriminate))). vm_compute. reflexivity.
Defined.

Lemma accepted_updates_keep_witness :
  updated (EXT := demo_externals) demo_signed_module demo_signed_module ∧
  is_some (ms_ModuleLoader (mod_spec demo_signed_module)) = true.
Proof.
  assert (updated (EXT := demo_externals) demo_signed_module demo_signed_module) as H.
  { apply (updated_step (EXT := demo_externals) demo_signed_module demo_signed_module demo_signed_module None); [constructor|]. vm_compute. reflexivity. }
  split; [exact H|]. symmetry. exact (proj1 (accepted_updates_keep (EXT := demo_externals) demo_signed_module demo_signed_module H)).
Defined.

Lemma ParseKubeVersion_roundtrip_witness :
  version.ParseKubeVersion "v1.34.0+k3s1" = Ok {| version.Major := 1; version.Minor := 34 |}.
Proof.
  refine (ParseKubeVersion_roundtrip true 1 34 ".0+k3s1" _). intros c t [= <- _]. reflexivity.
Defined.
