(* ===== verification/DevicePlugin.v ===== *)
(** * The device plugin reconciler ([internal/controllers/device_plugin_reconciler.go])

    For a module with a device plugin, one DaemonSet per module version runs the plugin on the
    nodes where the module is ready; a target label withdraws it from nodes that no longer
    accept pods, so that the kernel module can be unloaded.  A finalizer of its own brackets
    everything the reconciler creates. *)

From S2P Require Import Prelude Types Kube GoStrings Externals Demo Labels Node KernelMapper ModuleReconciler.

Open Scope string_scope.
Open Scope nat_scope.
Open Scope list_scope.

Definition kubeletDevicePluginsVolumeName := "kubelet-device-plugins".
Definition kubeletDevicePluginsPath := "/var/lib/kubelet/device-plugins".

(** ** Pod templates, shared with the DRA reconciler *)

Definition privileged_context : SecurityContext :=
  {| sc_Privileged := Some true; sc_CapabilitiesAdd := []; sc_SELinuxType := None; sc_RunAsUser := None |}.

Definition generatePodContainerSpec (containerSpec : option CommonContainerSpec) (containerName : string) (presetVolumeMounts : list VolumeMount) (presetEnv : list EnvVar) (livenessProbe startupProbe : option Probe) : list Container :=
  match containerSpec with
  | None => []
  | Some c =>
      [{| ct_Name := containerName; ct_Image := cc_Image c; ct_ImagePullPolicy := cc_ImagePullPolicy c;
          ct_Command := cc_Command c; ct_Args := cc_Args c; ct_Env := presetEnv ++ cc_Env c;
          ct_Resources := cc_Resources c;
          ct_SecurityContext :=
            match cc_SecurityContext c with Some s => Some s | None => Some privileged_context end;
          ct_VolumeMounts := presetVolumeMounts ++ cc_VolumeMounts c;
          ct_LivenessProbe := livenessProbe; ct_StartupProbe := startupProbe |}]
  end.

Definition getPodPullSecrets (secret : option LocalObjectReference) : list LocalObjectReference :=
  match secret with Some s => [s] | None => [] end.

Definition rw_mount (name path : string) : VolumeMount :=
  {| vm_Name := name; vm_MountPath := path; vm_SubPath := ""; vm_ReadOnly := false |}.

(** The version of the loader section, empty when there is none. *)
Definition module_version (moduleLoader : option ModuleLoaderSpec) : string :=
  match moduleLoader with Some ml => mlc_Version (ml_Container ml) | None => "" end.

Definition generateDevicePluginLabelsAndSelector (mod_ : Module_) : labels_t * labels_t :=
  let ns := mod_Namespace mod_ in
  let name := mod_Name mod_ in
  let labels := {[ constants.ModuleNameLabel := name; constants.DaemonSetRole := constants.DevicePluginRoleLabelValue ]} in
  let nodeSelector := {[ GetKernelModuleReadyNodeLabel ns name := ""; GetDevicePluginTargetNodeLabel ns name := "" ]} in
  match ms_ModuleLoader (mod_spec mod_) with
  | Some ml =>
      let version := mlc_Version (ml_Container ml) in
      if negb (String.eqb version "") then
        let versionLabel := GetSchedulePodVersionLabelName ns name in
        (<[versionLabel := version]> labels, <[versionLabel := version]> nodeSelector)
      else (labels, nodeSelector)
  | None => (labels, ms_Selector (mod_spec mod_))
  end.

Definition getExistingDSFromVersion (existingDS : list DaemonSet) (moduleNamespace moduleName : string) (moduleLoader : option ModuleLoaderSpec) : option DaemonSet * string :=
  let version := module_version moduleLoader in
  let versionLabel := GetSchedulePodVersionLabelName moduleNamespace moduleName in
  (find_first (λ ds, String.eqb (map_get (ds_Labels ds) versionLabel) version) existingDS, version).

Definition isOlderVersionUnusedDevicePluginDaemonset (ds : DaemonSet) (moduleVersion : string) : bool :=
  let moduleName := map_get (ds_Labels ds) constants.ModuleNameLabel in
  let versionLabel := GetSchedulePodVersionLabelName (ds_Namespace ds) moduleName in
  negb (String.eqb (map_get (ds_Labels ds) versionLabel) moduleVersion) &&
  (ds_status_DesiredNumberScheduled ds =? 0)%Z.

(** [for k, v := range overrides { labels[k] = v }]: the keys of a map are distinct, so the
    order of the visit does not matter. *)
Definition overrideLabels (labels overrides : labels_t) : labels_t := overrides ∪ labels.

Definition isModuleBuildAndSignCapable (ml : ModuleLoaderSpec) : bool * bool :=
  let c := ml_Container ml in
  let buildCapable := is_some (mlc_Build c) in
  let signCapable := is_some (mlc_Sign c) in
  if buildCapable && signCapable then (true, true)
  else (buildCapable || existsb (λ m, is_some (km_Build m)) (mlc_KernelMappings c),
        signCapable || existsb (λ m, is_some (km_Sign m)) (mlc_KernelMappings c)).

(** The DaemonSet handed to [CreateOrPatch] when there is none for the version. *)
Definition new_ds (ns generateName : string) : DaemonSet :=
  {| ds_meta := {| om_Name := ""; om_GenerateName := generateName; om_Namespace := ns; om_UID := ""; om_Generation := 0%Z; om_CreationTimestamp := "";
                   om_Labels := ∅; om_Annotations := ∅; om_Finalizers := []; om_OwnerReferences := [];
                   om_DeletionTimestamp := None |};
     ds_spec := {| dsp_MatchLabels := ∅;
                   dsp_Template :=
                     {| pts_Labels := ∅; pts_Finalizers := [];
                        pts_Spec :=
                          {| ps_InitContainers := []; ps_Containers := []; ps_NodeName := ""; ps_NodeSelector := ∅;
                             ps_RestartPolicy := ""; ps_ServiceAccountName := ""; ps_ImagePullSecrets := [];
                             ps_Volumes := []; ps_Tolerations := []; ps_PriorityClassName := "";
                             ps_AutomountServiceAccountToken := None; ps_HostNetwork := false |} |} |};
     ds_status_DesiredNumberScheduled := 0; ds_status_NumberAvailable := 0 |}.

(** What the metrics are set to: the gauges and the load arguments per module. *)
Record KMMOMetrics := {
  kmmo_Modules : nat;
  kmmo_InClusterBuild : nat;
  kmmo_InClusterSign : nat;
  kmmo_DevicePlugin : nat;
  kmmo_ModprobeArgs : list (string * string * string);
  kmmo_ModprobeRawArgs : list (string * string * string);
}.

Definition count {A} (p : A → bool) (l : list A) : nat := length (List.filter p l).

(** The metric of one module's load arguments, if it has any. *)
Definition args_metric (args : ModprobeSpec → option ModprobeArgs) (m : Module_) : list (string * string * string) :=
  match ms_ModuleLoader (mod_spec m) with
  | Some ml =>
      match args (mlc_Modprobe (ml_Container ml)) with
      | Some a => [(mod_Name m, mod_Namespace m, Join (ma_Load a) ",")]
      | None => []
      end
  | None => []
  end.

Definition module_capable (proj : bool * bool → bool) (m : Module_) : bool :=
  match ms_ModuleLoader (mod_spec m) with
  | Some ml => proj (isModuleBuildAndSignCapable ml)
  | None => false
  end.

Definition kmmo_metrics (mods : list Module_) : KMMOMetrics :=
  {| kmmo_Modules := length mods;
     kmmo_InClusterBuild := count (module_capable fst) mods;
     kmmo_InClusterSign := count (module_capable snd) mods;
     kmmo_DevicePlugin := count (λ m, is_some (ms_DevicePlugin (mod_spec m))) mods;
     kmmo_ModprobeArgs := mods ≫= args_metric mp_Args;
     kmmo_ModprobeRawArgs := mods ≫= args_metric mp_RawArgs |}.

(** What is set, if the modules could be listed. *)
Definition setKMMOMetrics : prog (option KMMOMetrics) :=
  r ← list_all KModule [];
  mret (match r with Ok mods => Some (kmmo_metrics mods) | Err _ => None end).

Definition mod_set_dp_status (m : Module_) (s : DaemonSetStatus) : Module_ :=
  mod_set_status m
    {| mst_DevicePlugin := s; mst_DRA := mst_DRA (mod_status m); mst_ModuleLoader := mst_ModuleLoader (mod_status m);
       mst_ImageRebuildTriggerGeneration := mst_ImageRebuildTriggerGeneration (mod_status m) |}.

(** [numAvailable += ds.Status.NumberAvailable] on int32. *)
Definition sum_available (l : list DaemonSet) : Z := foldl (λ n ds, int32 (n + ds_status_NumberAvailable ds)) 0%Z l.

Definition ds_counters (numTargetedNodes : nat) (existingDS : list DaemonSet) : DaemonSetStatus :=
  {| dss_NodesMatchingSelectorNumber := int32 (Z.of_nat numTargetedNodes);
     dss_DesiredNumber := int32 (Z.of_nat numTargetedNodes);
     dss_AvailableNumber := sum_available existingDS |}.

Section device_plugin.
Context `{EXT : Externals}.

Definition mod_with_finalizer (f : string) (m : Module_) : Module_ :=
  mod_set_meta m (meta_set_finalizers (mod_meta m) (AddFinalizer (om_Finalizers (mod_meta m)) f)).
Definition mod_without_finalizer (f : string) (m : Module_) : Module_ :=
  mod_set_meta m (meta_set_finalizers (mod_meta m) (RemoveFinalizer (om_Finalizers (mod_meta m)) f)).

(** The error of adding the target label to a node, or of removing it. *)
Definition set_target_label (label : string) (present : bool) (node : Node) : prog (option error) :=
  '(_, err) ← (if present then UpdateLabels node {[ label := "" ]} ∅ else UpdateLabels node ∅ {[ label := "" ]});
  mret err.

(** One iteration of the loops over nodes: the error, if any, joins the others. *)
Definition target_step (fmt label : string) (present : Node → bool) (node : Node) (errs : list (option error)) : prog (list (option error)) :=
  err ← set_target_label label (present node) node;
  mret (match err with Some e => errs ++ [Some (Errorf_v fmt e)] | None => errs end).

Definition handleDevicePluginTargetLabels (mod_ : Module_) : prog (option error) :=
  match ms_DevicePlugin (mod_spec mod_) with
  | None => mret None
  | Some _ =>
      let targetLabel := GetDevicePluginTargetNodeLabel (mod_Namespace mod_) (mod_Name mod_) in
      r ← GetAllNodesBySelector (ms_Selector (mod_spec mod_));
      match r with
      | Err e => mret (Some (Errorf_v "could not list nodes targeted by module: %v" e))
      | Ok nodes =>
          errs ← for_range nodes (target_step "could not add or remove device-plugin-target label on node %s: %v" targetLabel
                                    (λ n, IsNodeSchedulable n (ms_Tolerations (mod_spec mod_)))) [];
          mret (errors_Join errs)
      end
  end.

Definition removeDevicePluginTargetLabels (mod_ : Module_) : prog (option error) :=
  let targetLabel := GetDevicePluginTargetNodeLabel (mod_Namespace mod_) (mod_Name mod_) in
  r ← GetAllNodesBySelector {[ targetLabel := "" ]};
  match r with
  | Err e => mret (Some (Errorf_v "could not list nodes with device-plugin-target label: %v" e))
  | Ok nodes =>
      errs ← for_range nodes (target_step "could not remove device-plugin-target label from node %s: %v" targetLabel (λ _, false)) [];
      mret (errors_Join errs)
  end.

(** Registers a finalizer, with an optimistic lock. *)
Definition set_finalizer (f : string) (mod_ : Module_) : prog (Module_ * option error) :=
  if ContainsFinalizer (om_Finalizers (mod_meta mod_)) f then mret (mod_, None)
  else patch_lock KModule mod_ (mod_with_finalizer f mod_).

Definition dp_setFinalizer (mod_ : Module_) : prog (Module_ * option error) := set_finalizer constants.DevicePluginFinalizer mod_.

Definition is_device_plugin_ds (ds : DaemonSet) : bool :=
  let role := map_get (ds_Labels ds) constants.DaemonSetRole in
  negb (String.eqb role constants.ModuleLoaderRoleLabelValue) && negb (String.eqb role constants.DRARoleLabelValue).

Definition getModuleDevicePluginDaemonSets (name namespace : string) : prog (result (list DaemonSet)) :=
  r ← list_all KDaemonSet [MatchingLabels {[ constants.ModuleNameLabel := name ]}; InNamespace namespace];
  mret (match r with
        | Err e => Err (Errorf_v "could not list DaemonSets: %v" e)
        | Ok l => Ok (List.filter is_device_plugin_ds l)
        end).

Fixpoint deleteDevicePluginDaemonSets (existingDS : list DaemonSet) : prog (option error) :=
  match existingDS with
  | [] => mret None
  | ds :: l =>
      err ← delete_obj KDaemonSet ds;
      match err with
      | Some e =>
          if IsNotFound e then deleteDevicePluginDaemonSets l
          else mret (Some (Errorf_v "failed to delete device-plugin Daemonset %s/%s: %v" e))
      | None => deleteDevicePluginDaemonSets l
      end
  end.

Definition dp_finalizeModule (mod_ : Module_) : prog (Module_ * option error) :=
  err ← removeDevicePluginTargetLabels mod_;
  match err with
  | Some e => mret (mod_, Some (Errorf_w "could not remove device-plugin-target labels: %w" e))
  | None =>
      r ← getModuleDevicePluginDaemonSets (mod_Name mod_) (mod_Namespace mod_);
      match r with
      | Err e => mret (mod_, Some e)
      | Ok ((_ :: _) as existingDevicePluginDS) => err ← deleteDevicePluginDaemonSets existingDevicePluginDS; mret (mod_, err)
      | Ok [] =>
          if negb (ContainsFinalizer (om_Finalizers (mod_meta mod_)) constants.DevicePluginFinalizer) then mret (mod_, None)
          else patch_lock KModule mod_ (mod_without_finalizer constants.DevicePluginFinalizer mod_)
      end
  end.

(** The DaemonSet specification of a device plugin. *)
Definition device_plugin_spec (mod_ : Module_) (dp : DevicePluginSpec) : DaemonSetSpec :=
  let '(standardLabels, nodeSelector) := generateDevicePluginLabelsAndSelector mod_ in
  {| dsp_MatchLabels := standardLabels;
     dsp_Template :=
       {| pts_Labels := standardLabels;
          pts_Finalizers := [constants.NodeLabelerFinalizer];
          pts_Spec :=
            {| ps_InitContainers := generatePodContainerSpec (dp_InitContainer dp) "device-plugin-init" [] [] None None;
               ps_Containers :=
                 generatePodContainerSpec (Some (dp_Container dp)) "device-plugin"
                   [rw_mount kubeletDevicePluginsVolumeName kubeletDevicePluginsPath] []
                   (cc_LivenessProbe (dp_Container dp)) (cc_StartupProbe (dp_Container dp));
               ps_NodeName := ""; ps_NodeSelector := nodeSelector; ps_RestartPolicy := "";
               ps_ServiceAccountName := dp_ServiceAccountName dp;
               ps_ImagePullSecrets := getPodPullSecrets (ms_ImageRepoSecret (mod_spec mod_));
               ps_Volumes :=
                 {| vol_Name := kubeletDevicePluginsVolumeName; vol_Source := VolHostPath kubeletDevicePluginsPath "Directory" |}
                 :: dp_Volumes dp;
               ps_Tolerations := ms_Tolerations (mod_spec mod_) ++ InternalTolerations;
               ps_PriorityClassName := "system-node-critical";
               ps_AutomountServiceAccountToken := dp_AutomountServiceAccountToken dp;
               ps_HostNetwork := false |} |} |}.

Definition setDevicePluginAsDesired (mod_ : Module_) (ds : DaemonSet) : result DaemonSet :=
  match ms_DevicePlugin (mod_spec mod_) with
  | None => Err (ErrNew "device plugin in module should not be nil")
  | Some dp =>
      let standardLabels := (generateDevicePluginLabelsAndSelector mod_).1 in
      let m := meta_set_labels (ds_meta ds) (overrideLabels (ds_Labels ds) standardLabels) in
      m ← SetControllerReference "Module" (mod_meta mod_) m;
      Ok (ds_set ds m (device_plugin_spec mod_ dp))
  end.

Definition handleDevicePlugin (mod_ : Module_) (existingDevicePluginDS : list DaemonSet) : prog (option error) :=
  match ms_DevicePlugin (mod_spec mod_) with
  | None => mret None
  | Some _ =>
      let '(ds, version) := getExistingDSFromVersion existingDevicePluginDS (mod_Namespace mod_) (mod_Name mod_) (ms_ModuleLoader (mod_spec mod_)) in
      let ds := default (new_ds (mod_Namespace mod_) (mod_Name mod_ +:+ "-device-plugin-")) ds in
      r ← (perform (CreateOrPatch KDaemonSet ds (setDevicePluginAsDesired mod_)) : prog (result DaemonSet));
      mret (err_of r)
  end.

(** Deletes the first unused DaemonSets of other versions until one deletion fails. *)
Fixpoint gc_daemonsets (unused : DaemonSet → bool) (fmt : string) (l : list DaemonSet) : prog (option error) :=
  match l with
  | [] => mret None
  | ds :: l =>
      if unused ds then
        err ← delete_obj KDaemonSet ds;
        match err with
        | Some e => mret (Some (Errorf_v fmt e))
        | None => gc_daemonsets unused fmt l
        end
      else gc_daemonsets unused fmt l
  end.

Definition dp_garbageCollect (mod_ : Module_) (existingDS : list DaemonSet) : prog (option error) :=
  match ms_ModuleLoader (mod_spec mod_) with
  | None => mret None
  | Some ml =>
      gc_daemonsets (λ ds, isOlderVersionUnusedDevicePluginDaemonset ds (mlc_Version (ml_Container ml)))
        "could not delete device plugin DaemonSet %s: %v" existingDS
  end.

Definition moduleUpdateDevicePluginStatus (mod_ : Module_) (existingDevicePluginDS : list DaemonSet) : prog (option error) :=
  match ms_DevicePlugin (mod_spec mod_) with
  | None => mret None
  | Some _ =>
      r ← GetNumTargetedNodes (ms_Selector (mod_spec mod_)) (ms_Tolerations (mod_spec mod_));
      match r with
      | Err e => mret (Some (Errorf_v "failed to determine the number of nodes that should be targeted by Module's %s/%s selector: %v" e))
      | Ok n => '(_, err) ← status_patch KModule mod_ (mod_set_dp_status mod_ (ds_counters n existingDevicePluginDS)); mret err
      end
  end.

Definition clearDevicePluginStatus (mod_ : Module_) : prog (option error) :=
  if bool_decide (mst_DevicePlugin (mod_status mod_) = empty_ds_status) then mret None
  else '(_, err) ← status_patch KModule mod_ (mod_set_dp_status mod_ empty_ds_status); mret err.

(** The part of a pass after the finalizer is set. *)
Definition dp_deploy (mod_ : Module_) : prog (option error) :=
  r ← getModuleDevicePluginDaemonSets (mod_Name mod_) (mod_Namespace mod_);
  match r with
  | Err e => mret (Some (Errorf_v "could not get DaemonSets for module %s, namespace %s: %v" e))
  | Ok existingDevicePluginDS =>
      err ← handleDevicePluginTargetLabels mod_;
      match err with
      | Some e => mret (Some (Errorf_v "could not reconcile device-plugin-target labels: %v" e))
      | None =>
          err ← handleDevicePlugin mod_ existingDevicePluginDS;
          match err with
          | Some e => mret (Some (Errorf_w "could handle device plugin: %w" e))
          | None =>
              err ← dp_garbageCollect mod_ existingDevicePluginDS;
              match err with
              | Some e => mret (Some (Errorf_v "failed to run garbage collection: %v" e))
              | None =>
                  err ← moduleUpdateDevicePluginStatus mod_ existingDevicePluginDS;
                  mret (Errorf_w "failed to update device-plugin status of the module: %w" <$> err)
              end
          end
      end
  end.

Definition DevicePlugin_Reconcile (mod_ : Module_) : prog (option error) :=
  match om_DeletionTimestamp (mod_meta mod_) with
  | Some _ =>
      '(_, err) ← dp_finalizeModule mod_;
      mret (wrap_err "failed to finalize Module %s/%s: %v" err)
  | None =>
      _ ← setKMMOMetrics;
      match ms_DevicePlugin (mod_spec mod_) with
      | None =>
          '(m, err) ← dp_finalizeModule mod_;
          match err with
          | Some e => mret (Some (Errorf_v "failed to finalize Module %s/%s: %v" e))
          | None => clearDevicePluginStatus m
          end
      | Some _ =>
          '(m, err) ← dp_setFinalizer mod_;
          match err with
          | Some e => mret (Some (Errorf_v "failed to set finalizer on Module %s/%s: %v" e))
          | None => dp_deploy m
          end
      end
  end.
End device_plugin.

(** ** Properties *)

(** The patch that makes the target label of a node present or absent, if one is needed. *)
Definition target_calls (label : string) (present : bool) (n : Node) : list call :=
  let labels := node_Labels n in
  if present then
    if decide (labels !! label = Some "") then [] else [Patch KNode n (node_set_labels n (<[label := ""]> labels)) false]
  else
    if decide (labels !! label = None) then [] else [Patch KNode n (node_set_labels n (delete label labels)) false].

Section device_plugin_props.
Context `{EXT : Externals} `{EXTL : !ExternalsLaws}.

Lemma updated_labels_add (labels : labels_t) label : updated_labels labels {[ label := "" ]} ∅ = <[label := ""]> labels.
Proof. unfold updated_labels. by rewrite map_difference_empty, <-insert_union_singleton_l. Qed.

Lemma updated_labels_remove (labels : labels_t) label : updated_labels labels ∅ {[ label := "" ]} = delete label labels.
Proof.
  unfold updated_labels. rewrite map_empty_union. apply map_eq. intros k. rewrite lookup_difference, lookup_delete, lookup_singleton.
  by repeat case_decide; simplify_eq.
Qed.

Lemma set_target_label_wp label present n :
  wp (set_target_label label present n) (λ tr err,
    obs_call <$> tr = target_calls label present n ∧ (err = None ↔ Forall (λ o, succeeded o = true) tr)).
Proof.
  assert (∀ add remove, wp (UpdateLabels n add remove) (λ tr r,
    obs_call <$> tr = (if decide (updated_labels (node_Labels n) add remove = node_Labels n) then []
                       else [Patch KNode n (node_set_labels n (updated_labels (node_Labels n) add remove)) false]) ∧
    (r.2 = None ↔ Forall (λ o, succeeded o = true) tr))) as HU.
  { intros add remove. eapply wp_mono; [|apply wp_and; [apply UpdateLabels_wp|]].
    - intros tr r [[H _] H2]. split; [exact H|exact H2].
    - unfold UpdateLabels. case_bool_decide; simpl; [by split; [constructor|]|].
      intros [o|e]; simpl; rewrite Forall_singleton; by split. }
  unfold set_target_label, target_calls. apply wp_bind. destruct present.
  all: eapply wp_mono; [|apply HU]; intros tr [m err] [Htr Herr]; simpl in *; rewrite app_nil_r; (split; [|done]); rewrite Htr.
  - rewrite updated_labels_add. destruct (decide (<[label:=""]> (node_Labels n) = node_Labels n)) as [E|E].
    + rewrite decide_True; [done|]. by rewrite <-E, lookup_insert_eq.
    + rewrite decide_False; [done|]. intros E'. apply E. by apply insert_id.
  - rewrite updated_labels_remove. destruct (decide (delete label (node_Labels n) = node_Labels n)) as [E|E].
    + rewrite decide_True; [done|]. by rewrite <-E, lookup_delete_eq.
    + rewrite decide_False; [done|]. intros E'. apply E. by apply delete_id.
Qed.

(** The loops over nodes: one patch for each node whose label is to change, all of them tried,
    and an error exactly if one of them failed. *)
Lemma target_loop_wp fmt label present nodes :
  wp (for_range nodes (target_step fmt label present) []) (λ tr errs,
    obs_call <$> tr = nodes ≫= (λ n, target_calls label (present n) n) ∧
    (errors_Join errs = None ↔ Forall (λ o, succeeded o = true) tr)).
Proof.
  set (I := λ l tr (errs : list (option error)),
    (obs_call <$> tr) ++ (l ≫= (λ n, target_calls label (present n) n)) = nodes ≫= (λ n, target_calls label (present n) n) ∧
    (errors_Join errs = None ↔ Forall (λ o, succeeded o = true) tr)).
  apply (wp_mono _ (λ tr errs, I [] tr errs)).
  - intros tr errs [H1 H2]. simpl in H1. by rewrite app_nil_r in H1.
  - apply wp_for_range; [by split; [done|split; [constructor|]]|].
    intros n l tr errs [H1 H2]. unfold target_step. apply wp_bind. eapply wp_mono; [|apply set_target_label_wp].
    intros tr' err [Hc He]. simpl. rewrite app_nil_r. split.
    + simpl in H1. by rewrite fmap_app, Hc, <-app_assoc.
    + rewrite Forall_app, <-He. destruct err as [e|]; [|by rewrite H2; intuition].
      rewrite errors_Join_app. split; [intros [_ ?]; done|by intros [_ ?]].
Qed.
(** Changes to DaemonSets. *)
Definition changes_ds (c : call) : bool :=
  match c with
  | Create KDaemonSet _ | Delete KDaemonSet _ | Patch KDaemonSet _ _ _ | CreateOrPatch KDaemonSet _ _ => true
  | _ => false
  end.
Definition ds_changes (tr : list obs) : list obs := List.filter (λ o, changes_ds (obs_call o)) tr.

Lemma ds_changes_app tr1 tr2 : ds_changes (tr1 ++ tr2) = ds_changes tr1 ++ ds_changes tr2.
Proof. apply List.filter_app. Qed.

Lemma ds_changes_nil tr : Forall (λ o, changes_ds (obs_call o) = false) tr → ds_changes tr = [].
Proof. unfold ds_changes. induction 1 as [|o tr Ho _ IH]; simpl; [done|]. by rewrite Ho. Qed.

Definition no_ds_changes {R} (p : prog R) : Prop := only_calls (λ c, changes_ds c = false) p.

Lemma UpdateLabels_no_ds n add remove : no_ds_changes (UpdateLabels n add remove).
Proof. unfold no_ds_changes, UpdateLabels, patch, perform. only_calls; done. Qed.

Lemma handleDevicePluginTargetLabels_no_ds mod_ : no_ds_changes (handleDevicePluginTargetLabels mod_).
Proof.
  unfold no_ds_changes, handleDevicePluginTargetLabels, GetAllNodesBySelector, target_step, set_target_label, list_all, perform.
  only_calls; try done; apply UpdateLabels_no_ds.
Qed.

Lemma moduleUpdateDevicePluginStatus_no_ds mod_ l : no_ds_changes (moduleUpdateDevicePluginStatus mod_ l).
Proof.
  unfold no_ds_changes, moduleUpdateDevicePluginStatus, GetNumTargetedNodes, GetSchedulableNodesBySelector, GetAllNodesBySelector,
    status_patch, list_all, perform.
  only_calls; done.
Qed.

(** The garbage collection goes through the unused DaemonSets in order, and stops at the first
    deletion that fails. *)
Lemma gc_daemonsets_wp unused fmt l :
  wp (gc_daemonsets unused fmt l) (λ tr err, deletes_until KDaemonSet (List.filter unused l) tr (bool_decide (err = None))).
Proof.
  induction l as [|ds l IH]; simpl; [constructor|]. destruct (unused ds); [|exact IH]. intros [u|e]; simpl; [|constructor].
  eapply wp_mono; [|exact IH]. intros tr err H. by constructor.
Qed.

Lemma deletes_until_ds_changes l tr b : deletes_until KDaemonSet l tr b → ds_changes tr = tr.
Proof. induction 1 as [|o u l tr b _ IH|]; [done| |done]. unfold ds_changes in *. simpl. by rewrite IH. Qed.

Definition dp_listing (mod_ : Module_) : call :=
  ListAll KDaemonSet [MatchingLabels {[ constants.ModuleNameLabel := mod_Name mod_ ]}; InNamespace (mod_Namespace mod_)].

(** The DaemonSets that are device plugins: not those of the loaders of old releases, nor of DRA. *)
Definition plugin_ds (ds : DaemonSet) : Prop :=
  map_get (ds_Labels ds) constants.DaemonSetRole ≠ constants.ModuleLoaderRoleLabelValue ∧
  map_get (ds_Labels ds) constants.DaemonSetRole ≠ constants.DRARoleLabelValue.

(** The version a module asks for, and the one a DaemonSet was made for. *)
Definition wanted_version (mod_ : Module_) : string :=
  default "" ((λ ml, mlc_Version (ml_Container ml)) <$> ms_ModuleLoader (mod_spec mod_)).
Definition ds_version (ns name : string) (ds : DaemonSet) : string :=
  map_get (ds_Labels ds) (GetSchedulePodVersionLabelName ns name).

(** The DaemonSet to bring to the desired state: the first one of the wanted version, or a new one. *)
Definition current_ds (mod_ : Module_) (existing : list DaemonSet) (ds : DaemonSet) : Prop :=
  (∃ pre post, existing = pre ++ ds :: post ∧ ds_version (mod_Namespace mod_) (mod_Name mod_) ds = wanted_version mod_ ∧
     Forall (λ d, ds_version (mod_Namespace mod_) (mod_Name mod_) d ≠ wanted_version mod_) pre) ∨
  (Forall (λ d, ds_version (mod_Namespace mod_) (mod_Name mod_) d ≠ wanted_version mod_) existing ∧
   ds = new_ds (mod_Namespace mod_) (mod_Name mod_ +:+ "-device-plugin-")).

(** Made for another version, and scheduled on no node. *)
Definition unused_ds (mod_ : Module_) (ds : DaemonSet) : Prop :=
  is_Some (ms_ModuleLoader (mod_spec mod_)) ∧
  ds_version (ds_Namespace ds) (map_get (ds_Labels ds) constants.ModuleNameLabel) ds ≠ wanted_version mod_ ∧
  ds_status_DesiredNumberScheduled ds = 0%Z.

#[local] Instance plugin_ds_dec ds : Decision (plugin_ds ds).
Proof. unfold plugin_ds. apply _. Defined.
#[local] Instance unused_ds_dec mod_ ds : Decision (unused_ds mod_ ds).
Proof. unfold unused_ds. apply _. Defined.

Lemma filter_reflect {A} (P : A → Prop) `{∀ x, Decision (P x)} (f : A → bool) l :
  (∀ x, f x = true ↔ P x) → List.filter f l = filter P l.
Proof.
  intros Hf. induction l as [|x l IH]; [done|]. cbn [List.filter]. rewrite filter_cons. destruct (f x) eqn:E.
  - rewrite decide_True by (by apply Hf). by rewrite IH.
  - rewrite decide_False by (rewrite <-Hf; congruence). done.
Qed.

Lemma is_device_plugin_ds_iff ds : is_device_plugin_ds ds = true ↔ plugin_ds ds.
Proof. unfold is_device_plugin_ds, plugin_ds. by rewrite andb_true_iff, !negb_true_iff, !String.eqb_neq. Qed.

Lemma current_ds_found mod_ existing :
  current_ds mod_ existing (default (new_ds (mod_Namespace mod_) (mod_Name mod_ +:+ "-device-plugin-"))
    (getExistingDSFromVersion existing (mod_Namespace mod_) (mod_Name mod_) (ms_ModuleLoader (mod_spec mod_))).1).
Proof.
  unfold getExistingDSFromVersion. cbn [fst].
  assert (module_version (ms_ModuleLoader (mod_spec mod_)) = wanted_version mod_) as -> by (unfold wanted_version; by destruct (ms_ModuleLoader _)).
  induction existing as [|ds l IH]; [by right; split; [constructor|]|]. cbn [find_first]. fold (ds_version (mod_Namespace mod_) (mod_Name mod_) ds).
  destruct (String.eqb_spec (ds_version (mod_Namespace mod_) (mod_Name mod_) ds) (wanted_version mod_)) as [E|E].
  - left. exists [], l. split_and!; [done|done|constructor].
  - set (d := default _ (find_first _ l)) in *. clearbody d. destruct IH as [(pre & post & -> & Hd & Hpre)|[Hall ->]].
    + left. exists (ds :: pre), post. split_and!; [done|done|by constructor].
    + right. split; [by constructor|done].
Qed.

Lemma dp_garbageCollect_wp mod_ l :
  wp (dp_garbageCollect mod_ l) (λ tr err, deletes_until KDaemonSet (filter (unused_ds mod_) l) tr (bool_decide (err = None))).
Proof.
  unfold dp_garbageCollect. destruct (ms_ModuleLoader (mod_spec mod_)) as [ml|] eqn:E.
  - rewrite <-(filter_reflect _ (λ ds, isOlderVersionUnusedDevicePluginDaemonset ds (mlc_Version (ml_Container ml)))); [apply gc_daemonsets_wp|].
    intros ds. unfold isOlderVersionUnusedDevicePluginDaemonset, unused_ds, wanted_version, ds_version. rewrite E. simpl.
    rewrite andb_true_iff, negb_true_iff, String.eqb_neq, Z.eqb_eq. naive_solver.
  - rewrite <-(filter_reflect _ (λ _, false)); [by induction l; [constructor|]|]. intros ds. split; [done|]. intros [[ml Hml] _]. congruence.
Qed.

(** How a pass changes DaemonSets, with the answers it gets, given the existing device plugins. *)
Inductive ds_rollout (mod_ : Module_) (existing : list DaemonSet) : list obs → option error → Prop :=
| dr_none err : is_Some err → ds_rollout mod_ existing [] err
| dr_not_current ds e err :
    current_ds mod_ existing ds → is_Some err →
    ds_rollout mod_ existing [Obs (CreateOrPatch KDaemonSet ds (setDevicePluginAsDesired mod_)) (Err e)] err
| dr_current ds x dels ok err :
    current_ds mod_ existing ds → deletes_until KDaemonSet (filter (unused_ds mod_) existing) dels ok →
    (ok = false → is_Some err) →
    ds_rollout mod_ existing (Obs (CreateOrPatch KDaemonSet ds (setDevicePluginAsDesired mod_)) (Ok x) :: dels) err.

(** A program that reports an error exactly if one of its calls failed. *)
Definition reports (p : prog (option error)) : Prop :=
  wp p (λ tr err, err = None ↔ Forall (λ o, succeeded o = true) tr).

Lemma reports_then p q (f : error → error) :
  reports p → reports q → reports (err ← p; match err with Some e => mret (Some (f e)) | None => q end).
Proof.
  intros Hp Hq. apply wp_bind. eapply wp_mono; [|exact Hp]. intros tr [e|] H; simpl; [rewrite app_nil_r, <-H; naive_solver|].
  eapply wp_mono; [|exact Hq]. intros tr' r Hr. rewrite Forall_app. naive_solver.
Qed.

Lemma reports_wrapped p (f : error → error) : reports p → reports (err ← p; mret (option_map f err)).
Proof. intros Hp. apply wp_bind. eapply wp_mono; [|exact Hp]. intros tr [e|] H; simpl; rewrite app_nil_r, <-H; naive_solver. Qed.

Lemma target_labels_report mod_ : reports (handleDevicePluginTargetLabels mod_).
Proof.
  unfold reports, handleDevicePluginTargetLabels. destruct (ms_DevicePlugin _); [|done].
  intros [nodes|e]; simpl; [|by rewrite Forall_singleton]. apply wp_bind. eapply wp_mono; [|apply target_loop_wp].
  intros tr errs [_ H]. simpl. rewrite app_nil_r, Forall_cons. simpl. tauto.
Qed.

Lemma handleDevicePlugin_report mod_ existing : reports (handleDevicePlugin mod_ existing).
Proof.
  unfold reports, handleDevicePlugin. destruct (ms_DevicePlugin _); [|done]. intros [?|?]; simpl; by rewrite Forall_singleton.
Qed.

Lemma deletes_until_report k l tr b : deletes_until k l tr b → b = true ↔ Forall (λ o, succeeded o = true) tr.
Proof.
  induction 1 as [|o u l tr b _ IH|]; [by split; [constructor|]|rewrite Forall_cons; simpl; tauto|].
  rewrite Forall_singleton. simpl. done.
Qed.

Lemma dp_garbageCollect_report mod_ existing : reports (dp_garbageCollect mod_ existing).
Proof.
  unfold dp_garbageCollect. destruct (ms_ModuleLoader _); [|by split; [constructor|]]. eapply wp_mono; [|apply gc_daemonsets_wp].
  intros tr err H%deletes_until_report. by rewrite bool_decide_eq_true in H.
Qed.

Lemma dp_status_report mod_ existing : reports (moduleUpdateDevicePluginStatus mod_ existing).
Proof.
  unfold reports, moduleUpdateDevicePluginStatus. destruct (ms_DevicePlugin _); [|done].
  intros [nodes|e]; simpl; [|by rewrite Forall_singleton]. intros [m|e]; simpl; rewrite Forall_cons, Forall_singleton; simpl; naive_solver.
Qed.

Lemma dp_deploy_report mod_ : reports (dp_deploy mod_).
Proof.
  unfold dp_deploy. intros [all|e]; simpl; [|by rewrite Forall_singleton].
  eapply (wp_mono _ (λ tr err, err = None ↔ Forall (λ o, succeeded o = true) tr)); [intros tr err H; rewrite Forall_cons; simpl; tauto|].
  apply reports_then; [apply target_labels_report|]. apply reports_then; [apply handleDevicePlugin_report|].
  apply reports_then; [apply dp_garbageCollect_report|]. apply reports_wrapped, dp_status_report.
Qed.

Lemma dp_deploy_rollout mod_ :
  is_Some (ms_DevicePlugin (mod_spec mod_)) →
  wp (dp_deploy mod_) (λ tr err,
    (∃ e, tr = [Obs (dp_listing mod_) (Err e)] ∧ is_Some err) ∨
    ∃ all rest, tr = Obs (dp_listing mod_) (Ok all) :: rest ∧ ds_rollout mod_ (filter plugin_ds all) (ds_changes rest) err).
Proof.
  intros [dp Hdp].
  unfold dp_deploy. intros [all|e]; cbn [mbind prog_bind wp mret prog_ret]; [|left; eauto].
  fold (dp_listing mod_). rewrite (filter_reflect plugin_ds is_device_plugin_ds) by apply is_device_plugin_ds_iff.
  set (existing := filter plugin_ds all).
  apply (wp_mono _ (λ tr err, ds_rollout mod_ existing (ds_changes tr) err)); [intros tr err H; right; by exists all, tr|].
  apply wp_bind. eapply wp_mono; [|apply handleDevicePluginTargetLabels_no_ds]. intros tr1 err1 H1%ds_changes_nil.
  destruct err1 as [e1|]; simpl; [rewrite app_nil_r, H1; constructor; eauto|].
  unfold handleDevicePlugin. rewrite Hdp. intros x. pose proof (current_ds_found mod_ existing) as Hcur.
  apply (wp_mono _ (λ tr err, ds_rollout mod_ existing (Obs (CreateOrPatch KDaemonSet _ (setDevicePluginAsDesired mod_)) x :: ds_changes tr) err)).
  { intros tr err H. rewrite ds_changes_app, H1. exact H. }
  destruct x as [d|e]; simpl; [|apply dr_not_current; eauto].
  apply wp_bind. eapply wp_mono; [|apply dp_garbageCollect_wp]. intros tr2 err2 H2.
  pose proof (deletes_until_ds_changes _ _ _ H2) as Hd.
  destruct err2 as [e2|]; simpl.
  { rewrite app_nil_r, Hd. eapply dr_current; [exact Hcur|exact H2|eauto]. }
  apply wp_bind. eapply wp_mono; [|apply moduleUpdateDevicePluginStatus_no_ds]. intros tr3 err3 H3%ds_changes_nil. simpl.
  rewrite ds_changes_app, app_nil_r, H3, app_nil_r, Hd. eapply dr_current; [exact Hcur|exact H2|done].
Qed.

(** C33: the rollout of a device plugin.  A pass lists the DaemonSets of the module.  Of those that
    are device plugins, it first brings one to the desired state, the first of the wanted version or
    else a new one; only if that call succeeded does it delete the unused ones, one after the other
    and up to the first deletion that fails.  It changes no other DaemonSet, it stops before that
    only when a call failed, and it reports an error exactly if one did.  Unused are the DaemonSets of another version that are
    scheduled on no node, and none when the module has no loader section; a listed one that is unused
    is not of the wanted version. *)
Theorem device_plugin_rollout mod_ :
  is_Some (ms_DevicePlugin (mod_spec mod_)) →
  wp (dp_deploy mod_) (λ tr err,
    (∃ e, tr = [Obs (dp_listing mod_) (Err e)] ∧ is_Some err) ∨
    ∃ all rest, tr = Obs (dp_listing mod_) (Ok all) :: rest ∧
      ds_rollout mod_ (filter plugin_ds all) (ds_changes rest) err ∧
      (err = None ↔ Forall (λ o, succeeded o = true) rest)) ∧
  ∀ ds, ds_Namespace ds = mod_Namespace mod_ → ds_Labels ds !! constants.ModuleNameLabel = Some (mod_Name mod_) →
    unused_ds mod_ ds → ds_version (mod_Namespace mod_) (mod_Name mod_) ds ≠ wanted_version mod_.
Proof.
  intros Hdp. split.
  - eapply wp_mono; [|exact (wp_and _ _ _ (dp_deploy_report mod_) (dp_deploy_rollout mod_ Hdp))].
    intros tr err [Hrep [H|(all & rest & -> & H)]]; [by left|right]. exists all, rest. split_and!; [done|exact H|].
    rewrite Hrep, Forall_cons. simpl. tauto.
  - intros ds Hns Hname (_ & Hv & _). unfold map_get in Hv at 1. by rewrite Hname, Hns in Hv.
Qed.

(** A map with one entry more is included exactly if the entry and the rest are. *)
Lemma insert_subseteq_iff (k v : string) (m m' : labels_t) :
  (m !! k = None ∨ m !! k = Some v) → <[k := v]> m ⊆ m' ↔ m' !! k = Some v ∧ m ⊆ m'.
Proof.
  intros Hk. rewrite !map_subseteq_spec. split.
  - intros H. split; [apply H, lookup_insert_eq|]. intros i x Hi. apply H. destruct (decide (k = i)) as [->|].
    + rewrite lookup_insert_eq. naive_solver.
    + by rewrite lookup_insert_ne.
  - intros [H1 H2] i x. destruct (decide (k = i)) as [->|]; [rewrite lookup_insert_eq; naive_solver|].
    rewrite lookup_insert_ne by done. apply H2.
Qed.

Lemma singleton_subseteq_iff (k v : string) (m : labels_t) : {[ k := v ]} ⊆ m ↔ m !! k = Some v.
Proof. by rewrite map_singleton_subseteq_l. Qed.

(** The node selector of a daemon set whose pods follow a loaded module. *)
Lemma follow_selector (ready target vlabel version : string) (m : labels_t) :
  vlabel ≠ ready → vlabel ≠ target →
  (if negb (String.eqb version "") then <[vlabel := version]> {[ ready := ""; target := "" ]} else {[ ready := ""; target := "" ]}) ⊆ m ↔
  m !! ready = Some "" ∧ m !! target = Some "" ∧ (version ≠ "" → m !! vlabel = Some version).
Proof.
  intros H1 H2.
  assert (({[ ready := ""; target := "" ]} : labels_t) ⊆ m ↔ m !! ready = Some "" ∧ m !! target = Some "") as Hb.
  { rewrite insert_subseteq_iff, singleton_subseteq_iff; [done|]. rewrite lookup_singleton. case_decide; auto. }
  destruct (String.eqb_spec version "") as [->|Hv]; simpl; [naive_solver|].
  rewrite insert_subseteq_iff, Hb; [naive_solver|]. left. rewrite lookup_insert_ne, lookup_singleton_ne by done. done.
Qed.

(** The labels of a device plugin's pods, key by key. *)
Lemma dp_standard_labels mod_ :
  let labels := (generateDevicePluginLabelsAndSelector mod_).1 in
  let vlabel := GetSchedulePodVersionLabelName (mod_Namespace mod_) (mod_Name mod_) in
  let version := module_version (ms_ModuleLoader (mod_spec mod_)) in
  labels !! constants.ModuleNameLabel = Some (mod_Name mod_) ∧
  labels !! constants.DaemonSetRole = Some constants.DevicePluginRoleLabelValue ∧
  labels !! vlabel = (if String.eqb version "" then None else Some version).
Proof.
  cbv zeta. unfold generateDevicePluginLabelsAndSelector, module_version.
  set (vlabel := GetSchedulePodVersionLabelName (mod_Namespace mod_) (mod_Name mod_)).
  assert (vlabel ≠ constants.ModuleNameLabel ∧ vlabel ≠ constants.DaemonSetRole) as [H1 H2] by done.
  assert (constants.ModuleNameLabel ≠ constants.DaemonSetRole) as H3 by done.
  destruct (ms_ModuleLoader (mod_spec mod_)) as [ml|]; [destruct (String.eqb _ "")|]; simpl.
  all: rewrite ?lookup_insert_eq, ?(lookup_insert_ne _ vlabel) by done.
  all: rewrite ?lookup_insert_eq, ?lookup_insert_ne, ?lookup_singleton_eq, ?lookup_singleton_ne by done; done.
Qed.

(** A reconciled device plugin DaemonSet is stable: it is owned by the module, the next pass
    lists it, takes it for the module's current version and does not collect it; its selector
    selects its own pods; and with a loader section its pods run exactly on the nodes where the
    module is ready, that carry the target label and, if the module has a version, whose
    scheduling label names that version. *)
Theorem device_plugin_ds_stable mod_ ds ds' :
  setDevicePluginAsDesired mod_ ds = Ok ds' →
  ds_Namespace ds = mod_Namespace mod_ →
  let ns := mod_Namespace mod_ in
  let name := mod_Name mod_ in
  let vlabel := GetSchedulePodVersionLabelName ns name in
  let version := module_version (ms_ModuleLoader (mod_spec mod_)) in
  (version = "" → map_get (ds_Labels ds) vlabel = "") →
  IsControlledBy (ds_meta ds') (mod_meta mod_) = true ∧
  {[ constants.ModuleNameLabel := name ]} ⊆ ds_Labels ds' ∧ ds_Namespace ds' = ns ∧ is_device_plugin_ds ds' = true ∧
  (getExistingDSFromVersion [ds'] ns name (ms_ModuleLoader (mod_spec mod_))).1 = Some ds' ∧
  ¬ unused_ds mod_ ds' ∧
  dsp_MatchLabels (ds_spec ds') = pts_Labels (dsp_Template (ds_spec ds')) ∧
  (is_Some (ms_ModuleLoader (mod_spec mod_)) → ∀ n,
    ps_NodeSelector (pts_Spec (dsp_Template (ds_spec ds'))) ⊆ node_Labels n ↔
    node_Labels n !! GetKernelModuleReadyNodeLabel ns name = Some "" ∧
    node_Labels n !! GetDevicePluginTargetNodeLabel ns name = Some "" ∧
    (version ≠ "" → node_Labels n !! vlabel = Some version)).
Proof.
  intros H Hns ns name vlabel version Hv0. unfold setDevicePluginAsDesired in H.
  destruct (ms_DevicePlugin (mod_spec mod_)) as [dp|]; [|done].
  apply result_bind_Ok in H as (m & Hm & [= <-]). pose proof (SetControllerReference_controls _ _ _ _ Hm) as Hown.
  apply SetControllerReference_spec in Hm.
  destruct (dp_standard_labels mod_) as (HL1 & HL2 & HL3). fold ns name vlabel version in HL1, HL2, HL3.
  set (labels := (generateDevicePluginLabelsAndSelector mod_).1) in *.
  assert (ds_Labels (ds_set ds m (device_plugin_spec mod_ dp)) = labels ∪ ds_Labels ds) as HL by (unfold ds_Labels; simpl; by rewrite Hm).
  assert (ds_Namespace (ds_set ds m (device_plugin_spec mod_ dp)) = ns) as HN by (unfold ds_Namespace in *; simpl; by rewrite Hm).
  assert (map_get (labels ∪ ds_Labels ds) vlabel = version) as HV.
  { unfold map_get in *. rewrite lookup_union, HL3. destruct (String.eqb_spec version "") as [E|E].
    - rewrite (left_id_L None (∪)). by rewrite E, Hv0.
    - by destruct (ds_Labels ds !! vlabel). }
  assert (map_get (labels ∪ ds_Labels ds) constants.ModuleNameLabel = name) as HM.
  { unfold map_get. by rewrite lookup_union, HL1, union_Some_l. }
  split_and!; [done|..].
  - rewrite HL. apply singleton_subseteq_iff. by rewrite lookup_union, HL1, union_Some_l.
  - done.
  - unfold is_device_plugin_ds, map_get. by rewrite HL, lookup_union, HL2, union_Some_l.
  - unfold getExistingDSFromVersion. fold vlabel version. simpl. by rewrite HL, HV, String.eqb_refl.
  - intros (_ & Hne & _). apply Hne. unfold ds_version. rewrite HL, HM, HN. fold vlabel. rewrite HV. unfold version, wanted_version, module_version.
    by destruct (ms_ModuleLoader (mod_spec mod_)).
  - simpl. unfold device_plugin_spec. by destruct (generateDevicePluginLabelsAndSelector mod_).
  - intros [ml Hml] n.
    assert (ps_NodeSelector (pts_Spec (dsp_Template (ds_spec (ds_set ds m (device_plugin_spec mod_ dp))))) =
            (generateDevicePluginLabelsAndSelector mod_).2) as ->.
    { simpl. unfold device_plugin_spec. by destruct (generateDevicePluginLabelsAndSelector mod_). }
    rewrite <-(follow_selector _ _ vlabel version) by done. unfold generateDevicePluginLabelsAndSelector, version, module_version.
    rewrite Hml. by destruct (String.eqb (mlc_Version (ml_Container ml)) "").
Qed.
(** *** Target labels and the finalizer *)

(** With a device plugin configured, each node listed for the module gets the target label
    if pods of the module can be scheduled on it and loses it otherwise: one patch for each
    node whose label has to change, none for the others, all of them tried, and an error
    exactly if one failed. *)
Theorem target_labels_follow_schedulability mod_ :
  is_Some (ms_DevicePlugin (mod_spec mod_)) →
  let label := GetDevicePluginTargetNodeLabel (mod_Namespace mod_) (mod_Name mod_) in
  let listing := ListAll KNode [MatchingLabels (ms_Selector (mod_spec mod_))] in
  wp (handleDevicePluginTargetLabels mod_) (λ tr err,
    (∃ e, tr = [Obs listing (Err e)] ∧ is_Some err) ∨
    ∃ nodes patches, tr = Obs listing (Ok nodes) :: patches ∧
      obs_call <$> patches =
        nodes ≫= (λ n, target_calls label (IsNodeSchedulable n (ms_Tolerations (mod_spec mod_))) n) ∧
      (err = None ↔ Forall (λ o, succeeded o = true) patches)).
Proof.
  intros [dp Hdp] label listing. unfold handleDevicePluginTargetLabels. rewrite Hdp.
  intros [nodes|e]; cbn [mbind prog_bind wp mret prog_ret wrap_v]; [|left; eauto].
  apply wp_bind. eapply wp_mono; [|apply target_loop_wp]. intros tr errs [Hc He]. simpl. rewrite app_nil_r.
  right. exists nodes, tr. done.
Qed.

(** Patches of a Module. *)
Definition patches_module (c : call) : bool := match c with Patch KModule _ _ _ => true | _ => false end.

Lemma deleteDevicePluginDaemonSets_calls l :
  only_calls (λ c, patches_module c = false) (deleteDevicePluginDaemonSets l).
Proof.
  induction l as [|ds l IH]; [apply only_calls_ret|]. apply only_calls_call; [done|]. intros [[]|e]; simpl; [exact IH|].
  destruct (IsNotFound e); [exact IH|apply only_calls_ret].
Qed.

Lemma removeDevicePluginTargetLabels_wp mod_ :
  let label := GetDevicePluginTargetNodeLabel (mod_Namespace mod_) (mod_Name mod_) in
  let listing := ListAll KNode [MatchingLabels {[ label := "" ]}] in
  wp (removeDevicePluginTargetLabels mod_) (λ tr err,
    (∃ e, tr = [Obs listing (Err e)] ∧ is_Some err) ∨
    ∃ nodes patches, tr = Obs listing (Ok nodes) :: patches ∧
      obs_call <$> patches = nodes ≫= target_calls label false ∧
      (err = None ↔ Forall (λ o, succeeded o = true) patches)).
Proof.
  intros label listing. unfold removeDevicePluginTargetLabels.
  intros [nodes|e]; cbn [mbind prog_bind wp mret prog_ret wrap_v]; [|left; eauto].
  apply wp_bind. eapply wp_mono; [|apply target_loop_wp]. intros tr errs [Hc He]. simpl. rewrite app_nil_r.
  right. exists nodes, tr. done.
Qed.

Lemma target_calls_not_module label present n : Forall (λ c, patches_module c = false) (target_calls label present n).
Proof. unfold target_calls. destruct present; case_decide; by repeat constructor. Qed.

(** The module is released last.  In a pass that finalizes a module's device plugin the
    finalizer is patched away only at the end, after the target label was removed, without an
    error, from every node listed with it, and after a listing showed no device plugin
    DaemonSet of the module. *)
Theorem device_plugin_released_last mod_ :
  let label := GetDevicePluginTargetNodeLabel (mod_Namespace mod_) (mod_Name mod_) in
  wp (dp_finalizeModule mod_) (λ tr r,
    Forall (λ o, patches_module (obs_call o) = false) tr ∨
    ∃ nodes patches all x,
      tr = Obs (ListAll KNode [MatchingLabels {[ label := "" ]}]) (Ok nodes) :: patches ++
           [Obs (dp_listing mod_) (Ok all);
            Obs (Patch KModule mod_ (mod_without_finalizer constants.DevicePluginFinalizer mod_) true) x] ∧
      obs_call <$> patches = nodes ≫= target_calls label false ∧ Forall (λ o, succeeded o = true) patches ∧
      Forall (λ ds, is_device_plugin_ds ds = false) all).
Proof.
  intros label. unfold dp_finalizeModule. apply wp_bind. eapply wp_mono; [|apply removeDevicePluginTargetLabels_wp].
  intros tr err Htr. simpl in Htr. fold label in Htr.
  assert (Forall (λ o, patches_module (obs_call o) = false) tr) as Hnot.
  { destruct Htr as [(e & -> & _)|(nodes & patches & -> & Hc & _)]; repeat constructor.
    apply (Forall_obs_call (λ c, patches_module c = false)). rewrite Hc. apply Forall_bind. apply Forall_forall. intros n _. apply target_calls_not_module. }
  destruct err as [e|]; [left; by rewrite app_nil_r|].
  intros [all|e]; cbn [mbind prog_bind wp mret prog_ret]; [|left; apply Forall_app; split; [done|by repeat constructor]].
  destruct (List.filter is_device_plugin_ds all) as [|d l] eqn:E.
  - destruct (negb _); simpl; [left; apply Forall_app; split; [done|by repeat constructor]|].
    intros x. right. destruct Htr as [(e & _ & He)|(nodes & patches & -> & Hc & Hs)]; [by destruct He|].
    exists nodes, patches, all, x. split_and!; [by destruct x|done|by apply Hs|].
    apply Forall_forall. intros ds Hds. apply not_true_iff_false. intros Hd.
    assert (In ds (List.filter is_device_plugin_ds all)) as Hin by (apply filter_In; split; [by apply list_elem_of_In|done]).
    by rewrite E in Hin.
  - apply (wp_bind (deleteDevicePluginDaemonSets (d :: l))). eapply wp_mono; [|apply (deleteDevicePluginDaemonSets_calls (d :: l))]. intros tr' r Htr'. simpl. left.
    rewrite app_nil_r. apply Forall_app. split; [done|]. by constructor.
Qed.

(** What the finalizer protects: changes to nodes and DaemonSets. *)
Definition deploys (c : call) : bool :=
  match c with Patch KNode _ _ _ => true | _ => changes_ds c end.

(** Registering a finalizer changes no node and no DaemonSet, and succeeds only if the finalizer
    was there or was saved. *)
Lemma set_finalizer_wp f mod_ :
  wp (set_finalizer f mod_) (λ tr r,
    Forall (λ o, deploys (obs_call o) = false) tr ∧
    (r.2 = None → f ∈ om_Finalizers (mod_meta mod_) ∨ ∃ x, Obs (Patch KModule mod_ (mod_with_finalizer f mod_) true) (Ok x) ∈ tr)).
Proof.
  unfold set_finalizer. rewrite ContainsFinalizer_spec. case_bool_decide as Hf; simpl; [by split; [constructor|left]|].
  intros [m|e]; simpl; (split; [by repeat constructor|]); [|done]. intros _. right. exists m. set_solver.
Qed.

(** The finalizer comes first: a pass over a module that is not being deleted changes nodes
    or DaemonSets for its device plugin only after the module was seen with the device plugin
    finalizer or the finalizer was saved. *)
Theorem device_plugin_finalizer_first mod_ :
  om_DeletionTimestamp (mod_meta mod_) = None → is_Some (ms_DevicePlugin (mod_spec mod_)) →
  wp (DevicePlugin_Reconcile mod_) (λ tr _,
    Forall (λ o, deploys (obs_call o) = false) tr ∨
    ∃ pre post, tr = pre ++ post ∧ Forall (λ o, deploys (obs_call o) = false) pre ∧
      (constants.DevicePluginFinalizer ∈ om_Finalizers (mod_meta mod_) ∨
       ∃ x, Obs (Patch KModule mod_ (mod_with_finalizer constants.DevicePluginFinalizer mod_) true) (Ok x) ∈ pre)).
Proof.
  intros Hd [dp Hdp]. unfold DevicePlugin_Reconcile. rewrite Hd, Hdp. intros mods. cbn [mbind prog_bind wp mret prog_ret].
  apply wp_bind. eapply wp_mono; [|apply set_finalizer_wp]. intros tr [m [e|]] [Htr Hf].
  - left. rewrite app_nil_r. by constructor.
  - apply wp_all. intros tr' r. right. exists (Obs (ListAll KModule []) mods :: tr), tr'. split_and!; [done|by constructor|].
    destruct (Hf eq_refl) as [?|[x Hx]]; [by left|]. right. exists x. by right.
Qed.
End device_plugin_props.

(** A node whose target label has drifted to another value would need a patch to lose it, but
    is not among the nodes the removal lists: the finalizer is released while it is labelled. *)
Lemma removal_misses_drifted_label label v n :
  node_Labels n !! label = Some v → v ≠ "" →
  target_calls label false n ≠ [] ∧ ¬ ({[ label := "" ]} : labels_t) ⊆ node_Labels n.
Proof.
  intros H Hv. split.
  - unfold target_calls. rewrite decide_False by (by rewrite H). done.
  - rewrite map_singleton_subseteq_l. congruence.
Qed.

(** ** Witnesses *)

Definition demo_dp : DevicePluginSpec :=
  {| dp_Container := {| cc_Command := []; cc_Args := []; cc_Env := []; cc_Image := "registry/plugin:v1";
                        cc_ImagePullPolicy := "Always"; cc_Resources := ""; cc_VolumeMounts := [];
                        cc_StartupProbe := None; cc_LivenessProbe := None; cc_SecurityContext := None |};
     dp_InitContainer := None; dp_ServiceAccountName := ""; dp_Volumes := []; dp_AutomountServiceAccountToken := None |}.

Definition demo_dp_module : Module_ :=
  {| mod_meta := mod_meta demo_module;
     mod_spec := {| ms_DevicePlugin := Some demo_dp; ms_DRA := None; ms_ModuleLoader := Some demo_ml;
                    ms_ImageRepoSecret := None; ms_Selector := ∅; ms_Tolerations := [];
                    ms_ImageRebuildTriggerGeneration := None |};
     mod_status := mod_status demo_module |}.

(** The DaemonSet of the demonstration module. *)
Definition demo_dp_ds : DaemonSet :=
  Eval vm_compute in
  match setDevicePluginAsDesired (EXT := demo_externals) demo_dp_module (new_ds "ns" "mod-device-plugin-") with
  | Ok ds => ds | Err _ => new_ds "" "" end.

Lemma device_plugin_ds_stable_witness :
  setDevicePluginAsDesired (EXT := demo_externals) demo_dp_module (new_ds "ns" "mod-device-plugin-") = Ok demo_dp_ds ∧
  is_device_plugin_ds demo_dp_ds = true ∧
  (getExistingDSFromVersion [demo_dp_ds] "ns" "mod" (Some demo_ml)).1 = Some demo_dp_ds.
Proof.
  assert (setDevicePluginAsDesired (EXT := demo_externals) demo_dp_module (new_ds "ns" "mod-device-plugin-") = Ok demo_dp_ds) as H
    by (vm_compute; reflexivity).
  split; [exact H|].
  destruct (device_plugin_ds_stable (EXT := demo_externals) demo_dp_module _ _ H eq_refl (λ _, eq_refl)) as (_ & _ & _ & H1 & H2 & _).
  split; [exact H1|exact H2].
Defined.

(** A DaemonSet left over from another version. *)
Definition demo_old_ds : DaemonSet :=
  ds_set demo_dp_ds (SetLabel (ds_meta demo_dp_ds) (GetSchedulePodVersionLabelName "ns" "mod") "0") (ds_spec demo_dp_ds).

Lemma device_plugin_rollout_witness :
  unused_ds demo_dp_module demo_old_ds ∧
  ds_version "ns" "mod" demo_old_ds ≠ wanted_version demo_dp_module.
Proof.
  assert (unused_ds demo_dp_module demo_old_ds) as H by (split_and!; [by eexists|vm_compute; congruence|reflexivity]).
  split; [exact H|].
  refine (proj2 (device_plugin_rollout (EXT := demo_externals) demo_dp_module (mk_is_Some _ _ eq_refl)) demo_old_ds _ _ H).
  - reflexivity.
  - vm_compute. reflexivity.
Defined.

Lemma target_labels_follow_schedulability_witness :
  wp (handleDevicePluginTargetLabels (EXT := demo_externals) demo_dp_module) (λ tr err,
    tr ≠ []).
Proof.
  eapply wp_mono; [|exact (target_labels_follow_schedulability (EXT := demo_externals) demo_dp_module (mk_is_Some _ _ eq_refl))].
  intros tr err [(e & Htr & _)|(nodes & patches & Htr & _)]; rewrite Htr; discriminate.
Defined.

Lemma device_plugin_finalizer_first_witness :
  wp (DevicePlugin_Reconcile (EXT := demo_externals) demo_dp_module) (λ tr _,
    Forall (λ o, deploys (obs_call o) = false) tr ∨
    ∃ pre post x, tr = pre ++ post ∧
      Obs (Patch KModule demo_dp_module (mod_with_finalizer (EXT := demo_externals) constants.DevicePluginFinalizer demo_dp_module) true) (Ok x) ∈ pre).
Proof.
  eapply wp_mono; [|exact (device_plugin_finalizer_first (EXT := demo_externals) demo_dp_module eq_refl (mk_is_Some _ _ eq_refl))].
  intros tr err [H|(pre & post & Htr & _ & [Hf|[x Hx]])]; [left; exact H|vm_compute in Hf; inversion Hf|].
  right. exists pre, post, x. split; [exact Htr|exact Hx].
Defined.

Lemma device_plugin_released_last_witness :
  wp (dp_finalizeModule (EXT := demo_externals) demo_dp_module) (λ tr _,
    ∀ x rest, tr ≠ Obs (Patch KModule demo_dp_module
                (mod_without_finalizer (EXT := demo_externals) constants.DevicePluginFinalizer demo_dp_module) true) x :: rest).
Proof.
  eapply wp_mono; [|exact (device_plugin_released_last (EXT := demo_externals) demo_dp_module)].
  intros tr r [H|(nodes & patches & all & y & Htr & _)] x rest E; rewrite E in *.
  - apply Forall_cons in H as [H _]. discriminate H.
  - discriminate Htr.
Defined.
