(* ===== verification/Dra.v ===== *)
(** * The DRA reconciler ([internal/controllers/dra_reconciler.go])

    For a module with a DRA driver: one DaemonSet per module version runs the driver, the
    cluster-scoped DeviceClasses of the module are kept as declared, and a finalizer holds the
    module until both are gone.  The reconciler shares its pod templates and the handling of
    target labels with the device plugin reconciler. *)

From S2P Require Import Prelude Types Kube GoStrings Externals Demo Labels Node KernelMapper ModuleReconciler DevicePlugin.

Open Scope string_scope.
Open Scope nat_scope.
Open Scope list_scope.

Definition kubeletPluginsVolumeName := "kubelet-plugins".
Definition kubeletPluginsPath := "/var/lib/kubelet/plugins/".
Definition kubeletPluginsRegistryVolumeName := "kubelet-plugins-registry".
Definition kubeletPluginsRegistryPath := "/var/lib/kubelet/plugins_registry/".
Definition cdiVolumeName := "cdi".
Definition cdiPath := "/var/run/cdi".
Definition draHealthcheckPort := 51515%Z.

Definition host_path (name path type : string) : Volume := {| vol_Name := name; vol_Source := VolHostPath path type |}.

Definition dra_volumes : list Volume :=
  [host_path kubeletPluginsVolumeName kubeletPluginsPath "DirectoryOrCreate";
   host_path kubeletPluginsRegistryVolumeName kubeletPluginsRegistryPath "Directory";
   host_path cdiVolumeName cdiPath "DirectoryOrCreate"].

Definition dra_mounts : list VolumeMount :=
  [rw_mount kubeletPluginsVolumeName kubeletPluginsPath;
   rw_mount kubeletPluginsRegistryVolumeName kubeletPluginsRegistryPath;
   rw_mount cdiVolumeName cdiPath].

Definition dra_env : list EnvVar :=
  [EnvFieldRef "NODE_NAME" "spec.nodeName"; EnvFieldRef "POD_UID" "metadata.uid"; EnvValue "CDI_ROOT" cdiPath;
   EnvValue "KUBELET_REGISTRAR_DIRECTORY_PATH" kubeletPluginsRegistryPath;
   EnvValue "KUBELET_PLUGINS_DIRECTORY_PATH" kubeletPluginsPath;
   EnvValue "HEALTHCHECK_PORT" (pretty draHealthcheckPort)].

Definition draLivenessProbe : Probe := ProbeGRPC draHealthcheckPort "liveness" 30 10 5 3.

Definition dra_labels_and_selector (mod_ : Module_) : labels_t * labels_t :=
  let ns := mod_Namespace mod_ in
  let name := mod_Name mod_ in
  let standardLabels := {[ constants.ModuleNameLabel := name; constants.DaemonSetRole := constants.DRARoleLabelValue ]} in
  let nodeSelector := {[ GetKernelModuleReadyNodeLabel ns name := ""; GetDRATargetNodeLabel ns name := "" ]} in
  match ms_ModuleLoader (mod_spec mod_) with
  | Some ml =>
      let version := mlc_Version (ml_Container ml) in
      if negb (String.eqb version "") then
        let versionLabel := GetSchedulePodVersionLabelName ns name in
        (<[versionLabel := version]> standardLabels, <[versionLabel := version]> nodeSelector)
      else (standardLabels, nodeSelector)
  | None => (standardLabels, ms_Selector (mod_spec mod_))
  end.

Definition dra_spec (mod_ : Module_) (dra : DRASpec) : DaemonSetSpec :=
  let '(standardLabels, nodeSelector) := dra_labels_and_selector mod_ in
  let effectiveLivenessProbe :=
    match cc_LivenessProbe (dra_Container dra) with Some p => Some p | None => Some draLivenessProbe end in
  {| dsp_MatchLabels := standardLabels;
     dsp_Template :=
       {| pts_Labels := standardLabels;
          pts_Finalizers := [constants.NodeLabelerFinalizer];
          pts_Spec :=
            {| ps_InitContainers := generatePodContainerSpec (dra_InitContainer dra) "dra-init" [] [] None None;
               ps_Containers :=
                 generatePodContainerSpec (Some (dra_Container dra)) "dra" dra_mounts dra_env
                   effectiveLivenessProbe (cc_StartupProbe (dra_Container dra));
               ps_NodeName := ""; ps_NodeSelector := nodeSelector; ps_RestartPolicy := "";
               ps_ServiceAccountName := dra_ServiceAccountName dra;
               ps_ImagePullSecrets := getPodPullSecrets (ms_ImageRepoSecret (mod_spec mod_));
               ps_Volumes := dra_volumes ++ dra_Volumes dra;
               ps_Tolerations := ms_Tolerations (mod_spec mod_) ++ InternalTolerations;
               ps_PriorityClassName := "system-node-critical";
               ps_AutomountServiceAccountToken := dra_AutomountServiceAccountToken dra;
               ps_HostNetwork := true |} |} |}.

Definition getExistingDRADSFromVersion (existingDS : list DaemonSet) (moduleNamespace moduleName : string) (moduleLoader : option ModuleLoaderSpec) : option DaemonSet * string :=
  let version := module_version moduleLoader in
  let versionLabel := GetSchedulePodVersionLabelName moduleNamespace moduleName in
  (find_first (λ ds, String.eqb (map_get (ds_Labels ds) versionLabel) version) existingDS, version).

Definition isOlderVersionUnusedDRADaemonSet (ds : DaemonSet) (moduleNamespace moduleVersion : string) : bool :=
  let moduleName := map_get (ds_Labels ds) constants.ModuleNameLabel in
  let versionLabel := GetSchedulePodVersionLabelName moduleNamespace moduleName in
  negb (String.eqb (map_get (ds_Labels ds) versionLabel) moduleVersion) &&
  (ds_status_DesiredNumberScheduled ds =? 0)%Z.

Definition mod_set_dra_status (m : Module_) (s : DaemonSetStatus) : Module_ :=
  mod_set_status m
    {| mst_DevicePlugin := mst_DevicePlugin (mod_status m); mst_DRA := s; mst_ModuleLoader := mst_ModuleLoader (mod_status m);
       mst_ImageRebuildTriggerGeneration := mst_ImageRebuildTriggerGeneration (mod_status m) |}.

(** The node selector of a DaemonSet's pods. *)
Definition ds_NodeSelector (ds : DaemonSet) : labels_t := ps_NodeSelector (pts_Spec (dsp_Template (ds_spec ds))).

Definition ps_set_selector (ps : PodSpec) (sel : labels_t) : PodSpec :=
  {| ps_InitContainers := ps_InitContainers ps; ps_Containers := ps_Containers ps; ps_NodeName := ps_NodeName ps;
     ps_NodeSelector := sel; ps_RestartPolicy := ps_RestartPolicy ps; ps_ServiceAccountName := ps_ServiceAccountName ps;
     ps_ImagePullSecrets := ps_ImagePullSecrets ps; ps_Volumes := ps_Volumes ps; ps_Tolerations := ps_Tolerations ps;
     ps_PriorityClassName := ps_PriorityClassName ps; ps_AutomountServiceAccountToken := ps_AutomountServiceAccountToken ps;
     ps_HostNetwork := ps_HostNetwork ps |}.

Definition ds_set_selector (ds : DaemonSet) (sel : labels_t) : DaemonSet :=
  let t := dsp_Template (ds_spec ds) in
  ds_set ds (ds_meta ds)
    {| dsp_MatchLabels := dsp_MatchLabels (ds_spec ds);
       dsp_Template := {| pts_Labels := pts_Labels t; pts_Finalizers := pts_Finalizers t;
                          pts_Spec := ps_set_selector (pts_Spec t) sel |} |}.

(** ** DeviceClasses *)

Definition new_dc (name : string) : DeviceClass :=
  {| dcl_meta := empty_meta "" name; dcl_Selectors := []; dcl_Config := [] |}.
Definition dcl_Name (d : DeviceClass) : string := om_Name (dcl_meta d).

Definition dc_mutate (mod_ : Module_) (desired : DeviceClassSpec) (dc : DeviceClass) : result DeviceClass :=
  Ok {| dcl_meta := SetLabel (SetLabel (dcl_meta dc) constants.ModuleNameLabel (mod_Name mod_)) constants.ModuleNamespaceLabel (mod_Namespace mod_);
        dcl_Selectors := dc_Selectors desired; dcl_Config := dc_Config desired |}.

Section dra.
Context `{EXT : Externals}.

Definition setDRAAsDesired (mod_ : Module_) (ds : DaemonSet) : result DaemonSet :=
  match ms_DRA (mod_spec mod_) with
  | None => Err (ErrNew "DRA spec in module should not be nil")
  | Some dra =>
      let standardLabels := (dra_labels_and_selector mod_).1 in
      let m := meta_set_labels (ds_meta ds) (overrideLabels (ds_Labels ds) standardLabels) in
      m ← SetControllerReference "Module" (mod_meta mod_) m;
      Ok (ds_set ds m (dra_spec mod_ dra))
  end.

(** The mutate function of [handleDRA]: a live DaemonSet keeps its entry for the target label. *)
Definition dra_mutate (mod_ : Module_) (creating : bool) (ds : DaemonSet) : result DaemonSet :=
  let targetLabel := GetDRATargetNodeLabel (mod_Namespace mod_) (mod_Name mod_) in
  let held := ds_NodeSelector ds !! targetLabel in
  ds ← setDRAAsDesired mod_ ds;
  if creating || negb (is_some (ms_ModuleLoader (mod_spec mod_))) then Ok ds
  else
    match held with
    | Some v => Ok (ds_set_selector ds (<[targetLabel := v]> (ds_NodeSelector ds)))
    | None => Ok (ds_set_selector ds (delete targetLabel (ds_NodeSelector ds)))
    end.

Definition dra_setFinalizer (mod_ : Module_) : prog (Module_ * option error) := set_finalizer constants.DRAFinalizer mod_.

Definition handleDRATargetLabels (mod_ : Module_) : prog (option error) :=
  match ms_DRA (mod_spec mod_) with
  | None => mret None
  | Some _ =>
      let targetLabel := GetDRATargetNodeLabel (mod_Namespace mod_) (mod_Name mod_) in
      r ← GetAllNodesBySelector (ms_Selector (mod_spec mod_));
      match r with
      | Err e => mret (Some (Errorf_v "could not list nodes targeted by module: %v" e))
      | Ok nodes =>
          errs ← for_range nodes (target_step "could not reconcile dra-target label on node %s: %v" targetLabel
                                    (λ n, IsNodeSchedulable n (ms_Tolerations (mod_spec mod_)))) [];
          mret (errors_Join errs)
      end
  end.

Definition removeDRATargetLabels (mod_ : Module_) : prog (option error) :=
  let targetLabel := GetDRATargetNodeLabel (mod_Namespace mod_) (mod_Name mod_) in
  r ← list_all KNode [HasLabels [targetLabel]];
  match r with
  | Err e => mret (Some (Errorf_v "could not list nodes with dra-target label: %v" e))
  | Ok nodes =>
      errs ← for_range nodes (target_step "could not remove dra-target label from node %s: %v" targetLabel (λ _, false)) [];
      mret (errors_Join errs)
  end.

Definition getModuleDRADaemonSets (name namespace : string) : prog (result (list DaemonSet)) :=
  r ← list_all KDaemonSet
        [MatchingLabels {[ constants.ModuleNameLabel := name; constants.DaemonSetRole := constants.DRARoleLabelValue ]};
         InNamespace namespace];
  mret (wrap_v "could not list DaemonSets: %v" r).

Definition getModuleDeviceClasses (name namespace : string) : prog (result (list DeviceClass)) :=
  r ← list_all KDeviceClass
        [MatchingLabels {[ constants.ModuleNameLabel := name; constants.ModuleNamespaceLabel := namespace ]}];
  mret (wrap_v "could not list DeviceClasses: %v" r).

Definition handleDRA (mod_ : Module_) (existingDRADS : list DaemonSet) : prog (option error) :=
  match ms_DRA (mod_spec mod_) with
  | None => mret None
  | Some _ =>
      let '(ds, version) := getExistingDRADSFromVersion existingDRADS (mod_Namespace mod_) (mod_Name mod_) (ms_ModuleLoader (mod_spec mod_)) in
      let ds := default (new_ds (mod_Namespace mod_) (mod_Name mod_ +:+ "-dra-")) ds in
      let creating := String.eqb (ds_Name ds) "" in
      r ← (perform (CreateOrPatch KDaemonSet ds (dra_mutate mod_ creating)) : prog (result DaemonSet));
      mret (err_of r)
  end.

Definition garbageCollectDRADaemonSets (mod_ : Module_) (existingDS : list DaemonSet) : prog (option error) :=
  match ms_ModuleLoader (mod_spec mod_) with
  | None => mret None
  | Some ml =>
      gc_daemonsets (λ ds, isOlderVersionUnusedDRADaemonSet ds (mod_Namespace mod_) (mlc_Version (ml_Container ml)))
        "could not delete DRA DaemonSet %s: %v" existingDS
  end.

(** One deletion; an object that is gone is not an error. *)
Definition delete_step (fmt : string) (k : kind) (o : obj k) (errs : list (option error)) : prog (list (option error)) :=
  err ← delete_obj k o;
  mret (match err with
        | Some e => if IsNotFound e then errs else errs ++ [Some (Errorf_v fmt e)]
        | None => errs
        end).

Definition deleteDRAObjects (k : kind) (objs : list (obj k)) : prog (nat * option error) :=
  errs ← for_range objs (delete_step "could not delete %s: %v" k) [];
  mret (length objs, errors_Join errs).

Definition deleteDRAResources (mod_ : Module_) : prog (nat * option error) :=
  r ← getModuleDRADaemonSets (mod_Name mod_) (mod_Namespace mod_);
  match r with
  | Err e => mret (0, Some e)
  | Ok daemonSets =>
      '(n1, err1) ← deleteDRAObjects KDaemonSet daemonSets;
      r ← getModuleDeviceClasses (mod_Name mod_) (mod_Namespace mod_);
      match r with
      | Err e => mret (0, errors_Join [err1; Some e])
      | Ok deviceClasses =>
          '(n2, err2) ← deleteDRAObjects KDeviceClass deviceClasses;
          mret (n1 + n2, errors_Join [err1; err2])
      end
  end.

Definition dra_finalizeModule (mod_ : Module_) : prog (Module_ * option error) :=
  if negb (ContainsFinalizer (om_Finalizers (mod_meta mod_)) constants.DRAFinalizer) then mret (mod_, None)
  else
    err ← removeDRATargetLabels mod_;
    match err with
    | Some e => mret (mod_, Some (Errorf_v "could not remove dra-target labels: %v" e))
    | None =>
        '(remaining, err) ← deleteDRAResources mod_;
        match err with
        | Some e => mret (mod_, Some (Errorf_v "could not delete DRA resources: %v" e))
        | None =>
            if 0 <? remaining then mret (mod_, None)
            else patch_lock KModule mod_ (mod_without_finalizer constants.DRAFinalizer mod_)
        end
    end.

Definition moduleUpdateDRAStatus (mod_ : Module_) (existingDRADS : list DaemonSet) : prog (option error) :=
  match ms_DRA (mod_spec mod_) with
  | None => mret None
  | Some _ =>
      r ← GetNumTargetedNodes (ms_Selector (mod_spec mod_)) (ms_Tolerations (mod_spec mod_));
      match r with
      | Err e => mret (Some (Errorf_v "failed to determine the number of nodes targeted by Module %s/%s selector: %v" e))
      | Ok n => '(_, err) ← status_patch KModule mod_ (mod_set_dra_status mod_ (ds_counters n existingDRADS)); mret err
      end
  end.

Definition clearDRAStatus (mod_ : Module_) : prog (option error) :=
  if bool_decide (mst_DRA (mod_status mod_) = empty_ds_status) then mret None
  else '(_, err) ← status_patch KModule mod_ (mod_set_dra_status mod_ empty_ds_status); mret err.

(** One desired DeviceClass: the request, and the class leaves the map of leftovers. *)
Definition class_step (mod_ : Module_) (desired : DeviceClassSpec) (st : gmap string DeviceClass * list (option error)) : prog (gmap string DeviceClass * list (option error)) :=
  let '(existingByName, errs) := st in
  r ← (perform (CreateOrPatch KDeviceClass (new_dc (dc_Name desired)) (dc_mutate mod_ desired)) : prog (result DeviceClass));
  mret (delete (dc_Name desired) existingByName,
        match r with
        | Err e => errs ++ [Some (Errorf_v "failed to create or patch DeviceClass %s: %v" e)]
        | Ok _ => errs
        end).

Definition handleDeviceClasses (mod_ : Module_) (existingDCs : list DeviceClass) : prog (option error) :=
  match ms_DRA (mod_spec mod_) with
  | None => mret None
  | Some dra =>
      let existingByName := foldl (λ m dc, <[dcl_Name dc := dc]> m) (∅ : gmap string DeviceClass) existingDCs in
      '(existingByName, errs) ← for_range (dra_DeviceClasses dra) (class_step mod_) (existingByName, []);
      errs ← for_range (range_map existingByName).*2 (delete_step "failed to delete DeviceClass %s: %v" KDeviceClass) errs;
      mret (errors_Join errs)
  end.

(** The part of a pass after the finalizer is set. *)
Definition dra_deploy (mod_ : Module_) : prog (option error) :=
  r ← getModuleDRADaemonSets (mod_Name mod_) (mod_Namespace mod_);
  match r with
  | Err e => mret (Some (Errorf_v "could not get DRA DaemonSets for module %s, namespace %s: %v" e))
  | Ok existingDRADS =>
      r ← getModuleDeviceClasses (mod_Name mod_) (mod_Namespace mod_);
      match r with
      | Err e => mret (Some (Errorf_v "could not get DeviceClasses for module %s, namespace %s: %v" e))
      | Ok existingDCs =>
          err ← handleDRATargetLabels mod_;
          match err with
          | Some e => mret (Some (Errorf_v "could not reconcile dra-target labels: %v" e))
          | None =>
              err ← handleDRA mod_ existingDRADS;
              match err with
              | Some e => mret (Some (Errorf_v "could not handle DRA: %v" e))
              | None =>
                  err ← garbageCollectDRADaemonSets mod_ existingDRADS;
                  match err with
                  | Some e => mret (Some (Errorf_v "failed to run DRA garbage collection: %v" e))
                  | None =>
                      err ← handleDeviceClasses mod_ existingDCs;
                      match err with
                      | Some e => mret (Some (Errorf_v "could not handle DeviceClasses: %v" e))
                      | None =>
                          err ← moduleUpdateDRAStatus mod_ existingDRADS;
                          mret (wrap_err "failed to update DRA status of the module: %v" err)
                      end
                  end
              end
          end
      end
  end.

Definition DRA_Reconcile (mod_ : Module_) : prog (option error) :=
  match om_DeletionTimestamp (mod_meta mod_) with
  | Some _ =>
      '(_, err) ← dra_finalizeModule mod_;
      mret (wrap_err "failed to finalize Module %s/%s: %v" err)
  | None =>
      match ms_DRA (mod_spec mod_) with
      | None =>
          '(m, err) ← dra_finalizeModule mod_;
          match err with
          | Some e => mret (Some (Errorf_v "failed to finalize Module %s/%s: %v" e))
          | None => clearDRAStatus m
          end
      | Some _ =>
          '(m, err) ← dra_setFinalizer mod_;
          match err with
          | Some e => mret (Some (Errorf_v "failed to set finalizer on Module %s/%s: %v" e))
          | None => dra_deploy m
          end
      end
  end.
End dra.

(** ** Properties *)

(** A deletion after which the object is gone or going. *)
Definition gone (o : obs) : bool :=
  match o with
  | Obs (Delete _ _) (Err e) => IsNotFound e
  | o => succeeded o
  end.

Section dra_props.
Context `{EXT : Externals} `{EXTL : !ExternalsLaws}.

(** The deletion loops: every object is tried, in order, and an error is added exactly if one
    could not be deleted. *)
Lemma delete_loop_wp fmt k (objs : list (obj k)) errs :
  wp (for_range objs (delete_step fmt k) errs) (λ tr errs',
    obs_call <$> tr = Delete k <$> objs ∧
    (errors_Join errs' = None ↔ errors_Join errs = None ∧ Forall (λ o, gone o = true) tr)).
Proof.
  set (I := λ l tr (errs' : list (option error)),
    (obs_call <$> tr) ++ (Delete k <$> l) = Delete k <$> objs ∧
    (errors_Join errs' = None ↔ errors_Join errs = None ∧ Forall (λ o, gone o = true) tr)).
  apply (wp_mono _ (λ tr errs', I [] tr errs')).
  - intros tr errs' [H1 H2]. rewrite app_nil_r in H1. done.
  - apply wp_for_range; [split; [done|]; split; [intros ?; split; [done|constructor]|by intros []]|].
    intros o l tr errs' [H1 H2]. intros [[]|e]; simpl.
    + split; [by rewrite fmap_app, <-app_assoc|]. rewrite Forall_app, Forall_singleton, H2. simpl. tauto.
    + split; [by rewrite fmap_app, <-app_assoc|]. rewrite Forall_app, Forall_singleton. simpl.
      destruct (IsNotFound e); [rewrite H2; tauto|]. rewrite errors_Join_app. split; [by intros [_ ?]|by intros (_ & _ & ?)].
Qed.

(** *** DeviceClasses *)

(** The DeviceClasses that are listed and not declared, by name. *)
Definition leftover (declared : list string) (existing : list DeviceClass) : list DeviceClass :=
  filter (λ dc, dcl_Name dc ∉ declared) existing.

Lemma byName_lookup existing (m0 : gmap string DeviceClass) n dc :
  NoDup (dcl_Name <$> existing) →
  foldl (λ m dc, <[dcl_Name dc := dc]> m) m0 existing !! n = Some dc ↔
  (dc ∈ existing ∧ dcl_Name dc = n) ∨ ((n ∉ dcl_Name <$> existing) ∧ m0 !! n = Some dc).
Proof.
  revert m0. induction existing as [|d l IH]; intros m0 Hnd; simpl; [set_solver|].
  apply NoDup_cons in Hnd as [Hd Hnd]. rewrite IH by done. rewrite elem_of_cons, not_elem_of_cons, lookup_insert_Some.
  split; [|naive_solver]. intros [[? ?]|[? [[? ?]|[? ?]]]]; [by left; split; [right|]|by left; subst; split; [left|]|by right].
Qed.

Lemma class_loop_wp mod_ l m0 :
  wp (for_range l (class_step mod_) (m0, [])) (λ tr st,
    obs_call <$> tr = (λ d, CreateOrPatch KDeviceClass (new_dc (dc_Name d)) (dc_mutate mod_ d)) <$> l ∧
    st.1 = filter (λ kv, kv.1 ∉ dc_Name <$> l) m0 ∧
    (errors_Join st.2 = None ↔ Forall (λ o, succeeded o = true) tr)).
Proof.
  set (I := λ l' tr (st : gmap string DeviceClass * list (option error)),
    (obs_call <$> tr) ++ ((λ d, CreateOrPatch KDeviceClass (new_dc (dc_Name d)) (dc_mutate mod_ d)) <$> l') =
      ((λ d, CreateOrPatch KDeviceClass (new_dc (dc_Name d)) (dc_mutate mod_ d)) <$> l) ∧
    (filter (λ kv, kv.1 ∉ dc_Name <$> l') st.1 = filter (λ kv, kv.1 ∉ dc_Name <$> l) m0) ∧
    (errors_Join st.2 = None ↔ Forall (λ o, succeeded o = true) tr)).
  apply (wp_mono _ (λ tr st, I [] tr st)).
  - intros tr st (H1 & H2 & H3). rewrite app_nil_r in H1. split_and!; [done| |done]. rewrite <-H2. symmetry. apply map_filter_id. set_solver.
  - apply wp_for_range; [split_and!; [done|done|by split; [constructor|]]|].
    intros d l' tr [m errs] (H1 & H2 & H3). intros x. simpl. split_and!.
    + by rewrite fmap_app, <-app_assoc.
    + rewrite <-H2. apply map_eq. intros k. apply option_eq. intros v. simpl.
      rewrite !map_lookup_filter_Some, lookup_delete_Some. simpl. set_solver.
    + rewrite Forall_app, Forall_singleton. destruct x as [dc|e]; simpl; [rewrite H3; tauto|].
      rewrite errors_Join_app, H3. split; [by intros [_ ?]|by intros [_ ?]].
Qed.

(** What is left in the map is, in some order, what is listed and not declared. *)
Lemma leftover_perm declared existing :
  NoDup (dcl_Name <$> existing) →
  (range_map (filter (λ kv, kv.1 ∉ declared) (foldl (λ m dc, <[dcl_Name dc := dc]> m) (∅ : gmap string DeviceClass) existing))).*2
  ≡ₚ leftover declared existing.
Proof.
  intros Hnd. set (m := filter _ _).
  assert (∀ k dc, (k, dc) ∈ range_map m ↔ dc ∈ existing ∧ dcl_Name dc = k ∧ k ∉ declared) as Hkey.
  { intros k dc. rewrite elem_of_range_map. unfold m. rewrite map_lookup_filter_Some, byName_lookup by done. simpl. set_solver. }
  apply NoDup_Permutation.
  - apply (NoDup_fmap_1 dcl_Name). rewrite <-list_fmap_compose.
    assert ((dcl_Name ∘ snd) <$> range_map m = (range_map m).*1) as ->; [|apply NoDup_range_map].
    apply list_fmap_ext. intros i [k dc] Hi%list_elem_of_lookup_2. by apply Hkey in Hi as (_ & ? & _).
  - unfold leftover. apply NoDup_filter. by eapply NoDup_fmap_1.
  - intros dc. unfold leftover. rewrite list_elem_of_fmap, list_elem_of_filter. split.
    + intros ([k dc'] & -> & (H1 & <- & H2)%Hkey). done.
    + intros [Hn Hin]. exists (dcl_Name dc, dc). split; [done|]. by apply Hkey.
Qed.

(** The DeviceClasses converge to the declaration: a pass requests every declared class with
    its labels, selectors and configuration, in the declared order and also when another one
    fails, and deletes exactly the listed classes that are not declared; it reports an error
    exactly if a request failed or a leftover could not be deleted. *)
Theorem device_classes_converge mod_ dra existing :
  ms_DRA (mod_spec mod_) = Some dra → NoDup (dcl_Name <$> existing) →
  wp (handleDeviceClasses mod_ existing) (λ tr err, ∃ reqs dels deleted, tr = reqs ++ dels ∧
    obs_call <$> reqs = (λ d, CreateOrPatch KDeviceClass (new_dc (dc_Name d)) (dc_mutate mod_ d)) <$> dra_DeviceClasses dra ∧
    obs_call <$> dels = Delete KDeviceClass <$> deleted ∧
    deleted ≡ₚ leftover (dc_Name <$> dra_DeviceClasses dra) existing ∧
    (err = None ↔ Forall (λ o, succeeded o = true) reqs ∧ Forall (λ o, gone o = true) dels)).
Proof.
  intros Hdra Hnd. unfold handleDeviceClasses. rewrite Hdra. apply wp_bind. eapply wp_mono; [|apply class_loop_wp].
  intros reqs [m errs] (Hr & Hm & He). simpl in Hm, He. apply wp_bind. eapply wp_mono; [|apply delete_loop_wp].
  intros dels errs' [Hd He']. simpl. exists reqs, dels, (range_map m).*2. rewrite app_nil_r.
  split_and!; [done..| |by rewrite He', He]. subst m. by apply leftover_perm.
Qed.
(** *** The finalizer *)

Definition dra_ds_listing (mod_ : Module_) : call :=
  ListAll KDaemonSet
    [MatchingLabels {[ constants.ModuleNameLabel := mod_Name mod_; constants.DaemonSetRole := constants.DRARoleLabelValue ]};
     InNamespace (mod_Namespace mod_)].
Definition dra_dc_listing (mod_ : Module_) : call :=
  ListAll KDeviceClass
    [MatchingLabels {[ constants.ModuleNameLabel := mod_Name mod_; constants.ModuleNamespaceLabel := mod_Namespace mod_ ]}].

Lemma removeDRATargetLabels_wp mod_ :
  let label := GetDRATargetNodeLabel (mod_Namespace mod_) (mod_Name mod_) in
  let listing := ListAll KNode [HasLabels [label]] in
  wp (removeDRATargetLabels mod_) (λ tr err,
    Forall (λ o, patches_module (obs_call o) = false) tr ∧
    (err = None → ∃ nodes patches, tr = Obs listing (Ok nodes) :: patches ∧
       obs_call <$> patches = nodes ≫= target_calls label false ∧ Forall (λ o, succeeded o = true) patches)).
Proof.
  intros label listing. unfold removeDRATargetLabels.
  intros [nodes|e]; cbn [mbind prog_bind wp mret prog_ret]; [|split; [by repeat constructor|done]].
  apply wp_bind. eapply wp_mono; [|apply target_loop_wp]. intros tr errs [Hc He]. simpl. rewrite app_nil_r. split.
  - constructor; [done|]. apply (Forall_obs_call (λ c, patches_module c = false)). rewrite Hc. apply Forall_bind, Forall_forall.
    intros n _. apply target_calls_not_module.
  - intros E. exists nodes, tr. split_and!; [done..|by apply He].
Qed.

Lemma deleteDRAObjects_wp k (objs : list (obj k)) :
  wp (deleteDRAObjects k objs) (λ tr r, obs_call <$> tr = Delete k <$> objs ∧ r.1 = length objs).
Proof.
  unfold deleteDRAObjects. apply wp_bind. eapply wp_mono; [|apply delete_loop_wp]. intros tr errs [H _]. simpl. by rewrite app_nil_r.
Qed.

Lemma deletes_not_module k (objs : list (obj k)) tr :
  obs_call <$> tr = Delete k <$> objs → Forall (λ o, patches_module (obs_call o) = false) tr.
Proof.
  intros H. apply (Forall_obs_call (λ c, patches_module c = false)). rewrite H. apply Forall_fmap, Forall_forall. by destruct k.
Qed.

(** The count is zero only if both listings were empty. *)
Lemma deleteDRAResources_wp mod_ :
  wp (deleteDRAResources mod_) (λ tr r,
    Forall (λ o, patches_module (obs_call o) = false) tr ∧
    (r.2 = None → r.1 = 0 → tr = [Obs (dra_ds_listing mod_) (Ok []); Obs (dra_dc_listing mod_) (Ok [])])).
Proof.
  unfold deleteDRAResources. intros [dss|e]; cbn [mbind prog_bind wp mret prog_ret wrap_v]; [|split; [by repeat constructor|done]].
  apply wp_bind. eapply wp_mono; [|apply deleteDRAObjects_wp]. intros tr1 [n1 err1] [H1 Hn1]. simpl in Hn1. subst n1.
  pose proof (deletes_not_module KDaemonSet _ _ H1) as HF1.
  intros [dcs|e]; cbn [mbind prog_bind wp mret prog_ret wrap_v].
  2: { split; [constructor; [done|]; apply Forall_app; split; [done|by repeat constructor]|].
       intros E%errors_Join_None. by inversion E as [|? ? ? E2]; inversion E2. }
  apply wp_bind. eapply wp_mono; [|apply deleteDRAObjects_wp]. intros tr2 [n2 err2] [H2 Hn2]. simpl in Hn2. subst n2.
  pose proof (deletes_not_module KDeviceClass _ _ H2) as HF2. cbn [mbind prog_bind wp mret prog_ret]. split.
  - constructor; [done|]. apply Forall_app. split; [done|]. constructor; [done|]. by rewrite app_nil_r.
  - intros _ H0. simpl in H0. destruct dss, dcs; simpl in *; try lia.
    apply fmap_nil_inv in H1 as ->. apply fmap_nil_inv in H2 as ->. done.
Qed.

(** C34: a module with a DRA driver is released last: the finalizer is patched away only at the
    end of a pass that removed the target label from every node that carries it and then found,
    by listing, neither a driver DaemonSet nor a DeviceClass of the module; resources that are
    still there, even being deleted, keep the finalizer.  A module without the finalizer causes
    no request at all. *)
Theorem dra_released_last mod_ :
  let label := GetDRATargetNodeLabel (mod_Namespace mod_) (mod_Name mod_) in
  wp (dra_finalizeModule mod_) (λ tr r,
    (constants.DRAFinalizer ∉ om_Finalizers (mod_meta mod_) → tr = [] ∧ r = (mod_, None)) ∧
    (Forall (λ o, patches_module (obs_call o) = false) tr ∨
     ∃ nodes patches x,
       tr = Obs (ListAll KNode [HasLabels [label]]) (Ok nodes) :: patches ++
            [Obs (dra_ds_listing mod_) (Ok []); Obs (dra_dc_listing mod_) (Ok []);
             Obs (Patch KModule mod_ (mod_without_finalizer constants.DRAFinalizer mod_) true) x] ∧
       obs_call <$> patches = nodes ≫= target_calls label false ∧ Forall (λ o, succeeded o = true) patches)).
Proof.
  intros label. unfold dra_finalizeModule. rewrite ContainsFinalizer_spec. case_bool_decide as Hf; [|split; [done|left; constructor]].
  cbn [negb]. apply wp_bind. eapply wp_mono; [|apply removeDRATargetLabels_wp]. intros tr1 err1 [HF1 H1].
  destruct err1 as [e|]; [split; [done|left; by rewrite app_nil_r]|].
  apply wp_bind. eapply wp_mono; [|apply deleteDRAResources_wp]. intros tr2 [remaining err2] [HF2 H2]. simpl in H2.
  destruct err2 as [e|]; [split; [done|left; rewrite app_nil_r; by apply Forall_app]|].
  destruct (Nat.ltb_spec 0 remaining); [split; [done|left; rewrite app_nil_r; by apply Forall_app]|].
  rewrite H2 by (done || lia). destruct (H1 eq_refl) as (nodes & patches & -> & Hc & Hs).
  intros x. split; [done|]. right. exists nodes, patches, x. split_and!; [by destruct x|done..].
Qed.

(** The DRA finalizer comes first: a pass over a live module changes nodes or DaemonSets for
    its driver only after the finalizer was seen or saved. *)
Theorem dra_finalizer_first mod_ :
  om_DeletionTimestamp (mod_meta mod_) = None → is_Some (ms_DRA (mod_spec mod_)) →
  wp (DRA_Reconcile mod_) (λ tr _,
    Forall (λ o, deploys (obs_call o) = false) tr ∨
    ∃ pre post, tr = pre ++ post ∧ Forall (λ o, deploys (obs_call o) = false) pre ∧
      (constants.DRAFinalizer ∈ om_Finalizers (mod_meta mod_) ∨
       ∃ x, Obs (Patch KModule mod_ (mod_with_finalizer constants.DRAFinalizer mod_) true) (Ok x) ∈ pre)).
Proof.
  intros Hd [dra Hdra]. unfold DRA_Reconcile. rewrite Hd, Hdra.
  apply wp_bind. eapply wp_mono; [|apply set_finalizer_wp]. intros tr [m [e|]] [Htr Hf].
  - left. by rewrite app_nil_r.
  - apply wp_all. intros tr' r. right. exists tr, tr'. split_and!; [done|done|by apply Hf].
Qed.

(** *** The driver DaemonSet *)

(** Reconciling the DaemonSet of a module with a loader follows the declaration but never
    makes a live DaemonSet start, or stop, requiring the target label: a new DaemonSet requires
    it, an existing one keeps the entry it had, and every other entry of the node selector is
    the desired one. *)
Theorem live_daemonset_keeps_target mod_ creating ds ds' :
  dra_mutate mod_ creating ds = Ok ds' → is_Some (ms_ModuleLoader (mod_spec mod_)) →
  let label := GetDRATargetNodeLabel (mod_Namespace mod_) (mod_Name mod_) in
  ds_NodeSelector ds' !! label = (if creating then Some "" else ds_NodeSelector ds !! label) ∧
  (∀ k, k ≠ label → ds_NodeSelector ds' !! k = (dra_labels_and_selector mod_).2 !! k) ∧
  dsp_MatchLabels (ds_spec ds') = pts_Labels (dsp_Template (ds_spec ds')).
Proof.
  intros H [ml Hml] label. unfold dra_mutate, setDRAAsDesired in H. fold label in H.
  destruct (ms_DRA (mod_spec mod_)) as [dra|]; [|done]. rewrite Hml in H. simpl in H. rewrite orb_false_r in H.
  apply result_bind_Ok in H as (d & (m & Hm & [= <-])%result_bind_Ok & H).
  assert (ds_NodeSelector (ds_set ds m (dra_spec mod_ dra)) = (dra_labels_and_selector mod_).2 ∧
          dsp_MatchLabels (dra_spec mod_ dra) = pts_Labels (dsp_Template (dra_spec mod_ dra))) as [HS HM].
  { unfold ds_NodeSelector. simpl. unfold dra_spec. by destruct (dra_labels_and_selector mod_). }
  assert ((dra_labels_and_selector mod_).2 !! label = Some "") as HL.
  { unfold dra_labels_and_selector. rewrite Hml. fold label.
    assert (GetSchedulePodVersionLabelName (mod_Namespace mod_) (mod_Name mod_) ≠ label) by done.
    assert (({[GetKernelModuleReadyNodeLabel (mod_Namespace mod_) (mod_Name mod_) := ""; label := ""]} : labels_t) !! label = Some "").
    { rewrite lookup_insert, lookup_singleton_eq. by case_decide. }
    destruct (negb _); simpl; [|done]. by rewrite lookup_insert_ne. }
  destruct creating; [injection H as <-; rewrite HS; auto|].
  assert (∀ d sel, ds_NodeSelector (ds_set_selector d sel) = sel) as Hset by done.
  destruct (ds_NodeSelector ds !! label) as [v|]; injection H as <-; rewrite Hset, HS; split_and!; try done.
  - by rewrite lookup_insert_eq.
  - intros k Hk. by rewrite lookup_insert_ne.
  - by rewrite lookup_delete_eq.
  - intros k Hk. by rewrite lookup_delete_ne.
Qed.
End dra_props.

(** ** Witnesses *)

Definition demo_dra : DRASpec :=
  {| dra_Container := dp_Container demo_dp; dra_InitContainer := None; dra_ServiceAccountName := ""; dra_Volumes := [];
     dra_AutomountServiceAccountToken := None; dra_DriverName := "driver.example.com";
     dra_DeviceClasses := [{| dc_Name := "gpu"; dc_Selectors := []; dc_Config := [] |}] |}.

Definition demo_dra_module : Module_ :=
  {| mod_meta := mod_meta demo_module;
     mod_spec := {| ms_DevicePlugin := None; ms_DRA := Some demo_dra; ms_ModuleLoader := Some demo_ml;
                    ms_ImageRepoSecret := None; ms_Selector := ∅; ms_Tolerations := [];
                    ms_ImageRebuildTriggerGeneration := None |};
     mod_status := mod_status demo_module |}.

Lemma device_classes_converge_witness :
  wp (handleDeviceClasses (EXT := demo_externals) demo_dra_module [new_dc "old"]) (λ tr _,
    mutations tr = [CreateOrPatch KDeviceClass (new_dc "gpu") (dc_mutate demo_dra_module {| dc_Name := "gpu"; dc_Selectors := []; dc_Config := [] |});
                    Delete KDeviceClass (new_dc "old")]).
Proof.
  eapply wp_mono; [|refine (device_classes_converge (EXT := demo_externals) demo_dra_module demo_dra [new_dc "old"] eq_refl _)].
  - intros tr err (reqs & dels & deleted & Htr & Hr & Hd & Hp & _).
    assert (leftover (dc_Name <$> dra_DeviceClasses demo_dra) [new_dc "old"] = [new_dc "old"]) as HL by (vm_compute; reflexivity).
    rewrite HL in Hp. apply Permutation_singleton_r in Hp. unfold mutations. rewrite Htr, fmap_app, Hr, Hd, Hp. reflexivity.
  - vm_compute. repeat constructor. intros Hin. inversion Hin.
Defined.

(** The module once its finalizer is set. *)
Definition demo_dra_held : Module_ :=
  mod_set_meta demo_dra_module (meta_set_finalizers (mod_meta demo_dra_module) [constants.DRAFinalizer]).

Lemma dra_released_last_witness :
  wp (dra_finalizeModule (EXT := demo_externals) demo_dra_held) (λ tr _,
    ∀ x rest, tr ≠ Obs (Patch KModule demo_dra_held
                (mod_without_finalizer (EXT := demo_externals) constants.DRAFinalizer demo_dra_held) true) x :: rest).
Proof.
  eapply wp_mono; [|exact (dra_released_last (EXT := demo_externals) demo_dra_held)].
  intros tr r [_ [H|(nodes & patches & y & Htr & _)]] x rest E; rewrite E in *.
  - apply Forall_cons in H as [H _]. discriminate H.
  - discriminate Htr.
Defined.

Lemma dra_finalizer_first_witness :
  wp (DRA_Reconcile (EXT := demo_externals) demo_dra_module) (λ tr _,
    Forall (λ o, deploys (obs_call o) = false) tr ∨
    ∃ pre post x, tr = pre ++ post ∧
      Obs (Patch KModule demo_dra_module (mod_with_finalizer (EXT := demo_externals) constants.DRAFinalizer demo_dra_module) true) (Ok x) ∈ pre).
Proof.
  eapply wp_mono; [|exact (dra_finalizer_first (EXT := demo_externals) demo_dra_module eq_refl (mk_is_Some _ _ eq_refl))].
  intros tr err [H|(pre & post & Htr & _ & [Hf|[x Hx]])]; [left; exact H|vm_compute in Hf; inversion Hf|].
  right. exists pre, post, x. split; [exact Htr|exact Hx].
Defined.

(** A live DaemonSet without the target label in its selector. *)
Definition demo_live_ds : DaemonSet :=
  {| ds_meta := empty_meta "ns" "mod-dra-abc"; ds_spec := ds_spec (new_ds "ns" "mod-dra-");
     ds_status_DesiredNumberScheduled := 1; ds_status_NumberAvailable := 1 |}.

Definition demo_dra_ds : DaemonSet :=
  Eval vm_compute in
  match dra_mutate (EXT := demo_externals) demo_dra_module false demo_live_ds with Ok ds => ds | Err _ => demo_live_ds end.

Lemma live_daemonset_keeps_target_witness :
  dra_mutate (EXT := demo_externals) demo_dra_module false demo_live_ds = Ok demo_dra_ds ∧
  ds_NodeSelector demo_dra_ds !! GetDRATargetNodeLabel "ns" "mod" = None.
Proof.
  assert (dra_mutate (EXT := demo_externals) demo_dra_module false demo_live_ds = Ok demo_dra_ds) as H by (vm_compute; reflexivity).
  split; [exact H|].
  exact (proj1 (live_daemonset_keeps_target (EXT := demo_externals) demo_dra_module false demo_live_ds demo_dra_ds H (mk_is_Some _ _ eq_refl))).
Defined.
