(* ===== verification/PodNodeLabel.v ===== *)
(** * The pod-node-label reconciler ([internal/controllers/pod_node_label_reconciler.go])

    The pods of device plugins and DRA drivers report on their node: the node carries a ready
    label of the module while a ready pod of that role runs there.  A finalizer keeps a deleted
    pod until the label is settled. *)

From S2P Require Import Prelude Types Kube Externals Demo Labels NmcHelper Node.

Open Scope string_scope.
Open Scope nat_scope.
Open Scope list_scope.

(** [podutils.IsPodReady] and no deletion timestamp. *)
Definition IsPodReady (p : Pod) : bool := pst_Ready (pod_status p).
Definition pod_deleting (p : Pod) : bool :=
  match om_DeletionTimestamp (pod_meta p) with Some _ => true | None => false end.
Definition ready_and_live (p : Pod) : bool := IsPodReady p && negb (pod_deleting p).

Definition pnl_addLabel (nodeName labelName : string) : prog (option error) :=
  r ← get KNode (nsn "" nodeName);
  match r with
  | Err e => mret (Some (Errorf_v "could not get node %s: %v" e))
  | Ok node => '(_, err) ← patch KNode node (node_set_labels node (<[labelName := ""]> (node_Labels node))); mret err
  end.

Definition pnl_deleteLabel (nodeName labelName : string) : prog (option error) :=
  r ← get KNode (nsn "" nodeName);
  match r with
  | Err e => if IsNotFound e then mret None else mret (Some (Errorf_v "could not get node %s: %v" e))
  | Ok node => '(_, err) ← patch KNode node (node_set_labels node (delete labelName (node_Labels node))); mret err
  end.

(** The role and the node label of a pod's role. *)
Definition pod_role (pod : Pod) (moduleName : string) : string * string :=
  let isDRA := String.eqb (map_get (pod_Labels pod) constants.DaemonSetRole) constants.DRARoleLabelValue in
  if isDRA then (constants.DRARoleLabelValue, GetDRANodeLabel (pod_Namespace pod) moduleName)
  else (constants.DevicePluginRoleLabelValue, GetDevicePluginNodeLabel (pod_Namespace pod) moduleName).

(** The pods of the module and role on the pod's node. *)
Definition siblings (pod : Pod) (moduleName role : string) : call :=
  ListAll KPod [InNamespace (pod_Namespace pod);
                MatchingLabels {[ constants.ModuleNameLabel := moduleName; constants.DaemonSetRole := role ]};
                MatchingFields "spec.nodeName" (ps_NodeName (pod_spec pod))].

Section pod_node_label.
Context `{EXT : Externals}.

Definition pod_without_finalizer (pod : Pod) : Pod :=
  pod_set_finalizers pod (RemoveFinalizer (om_Finalizers (pod_meta pod)) constants.NodeLabelerFinalizer).

Definition pnl_deleteFinalizer (pod : Pod) : prog (option error) :=
  '(_, err) ← patch_lock KPod pod (pod_without_finalizer pod);
  mret err.

(** Unlabels the node unless another pod of the role is ready on it. *)
Definition unlabel_node (pod : Pod) (moduleName role labelName : string) : prog (option error) :=
  let nodeName := ps_NodeName (pod_spec pod) in
  if negb (String.eqb nodeName "") then
    r ← list_all KPod [InNamespace (pod_Namespace pod);
                       MatchingLabels {[ constants.ModuleNameLabel := moduleName; constants.DaemonSetRole := role ]};
                       MatchingFields "spec.nodeName" nodeName];
    match r with
    | Err e => mret (Some (Errorf_v "failed to get list of pods for module %s on node %s: %v" e))
    | Ok pods =>
        if existsb ready_and_live pods then mret None
        else
          err ← pnl_deleteLabel nodeName labelName;
          mret (wrap_err "could not unlabel node %s with label %s: %v" err)
    end
  else mret None.

Definition PodNodeLabel_Reconcile (pod : Pod) : prog (option error) :=
  match pod_Labels pod !! constants.ModuleNameLabel with
  | None => mret (Some (ErrNew "pod %s/%s has no %q label"))
  | Some moduleName =>
      let '(role, labelName) := pod_role pod moduleName in
      if negb (IsPodReady pod) || pod_deleting pod then
        err ← unlabel_node pod moduleName role labelName;
        match err with
        | Some e => mret (Some e)
        | None =>
            if pod_deleting pod then
              err ← pnl_deleteFinalizer pod;
              mret (wrap_err "could not delete the pod finalizer: %v" (IgnoreNotFound err))
            else mret None
        end
      else
        err ← pnl_addLabel (ps_NodeName (pod_spec pod)) labelName;
        mret (wrap_err "could not label node %s with %s: %v" err)
  end.

(** ** Properties *)

(** The node's label is settled by these calls: the pod never had a node; or another pod of the
    role is ready there; or none is, and the node is gone or its label was removed. *)
Definition settled (pod : Pod) (moduleName : string) (tr : list obs) : Prop :=
  let '(role, label) := pod_role pod moduleName in
  let node_key := nsn "" (ps_NodeName (pod_spec pod)) in
  (ps_NodeName (pod_spec pod) = "" ∧ tr = []) ∨
  ∃ pods, ps_NodeName (pod_spec pod) ≠ "" ∧
    if existsb ready_and_live pods then tr = [Obs (siblings pod moduleName role) (Ok pods)]
    else (∃ e, IsNotFound e = true ∧ tr = [Obs (siblings pod moduleName role) (Ok pods); Obs (Get KNode node_key) (Err e)]) ∨
         ∃ node x, tr = [Obs (siblings pod moduleName role) (Ok pods); Obs (Get KNode node_key) (Ok node);
                         Obs (Patch KNode node (node_set_labels node (delete label (node_Labels node))) false) (Ok x)].

Definition patches_pod (c : call) : bool := match c with Patch KPod _ _ _ => true | _ => false end.

Lemma unlabel_node_wp pod moduleName :
  let '(role, label) := pod_role pod moduleName in
  wp (unlabel_node pod moduleName role label) (λ tr err,
    Forall (λ o, patches_pod (obs_call o) = false) tr ∧ (err = None → settled pod moduleName tr)).
Proof.
  destruct (pod_role pod moduleName) as [role label] eqn:Hrole. unfold unlabel_node, settled. rewrite Hrole.
  destruct (String.eqb_spec (ps_NodeName (pod_spec pod)) "") as [E|E]; simpl; [split; [constructor|auto]|].
  fold (siblings pod moduleName role). intros [pods|e]; simpl; [|split; [by repeat constructor|done]].
  destruct (existsb ready_and_live pods) eqn:Hx; simpl.
  - split; [by repeat constructor|]. intros _. right. exists pods. by rewrite Hx.
  - intros [node|e]; simpl.
    + intros [x|e]; simpl; (split; [by repeat constructor|]); [|done]. intros _. right. exists pods. rewrite Hx. split; [done|]. right. eauto.
    + destruct (IsNotFound e) eqn:He; simpl; (split; [by repeat constructor|]); [|done].
      intros _. right. exists pods. rewrite Hx. split; [done|]. left. eauto.
Qed.

Lemma pnl_deleteFinalizer_wp pod :
  wp (pnl_deleteFinalizer pod) (λ tr err, ∃ x,
    tr = [Obs (Patch KPod pod (pod_without_finalizer pod) true) x] ∧
    (IgnoreNotFound err = None ↔ is_ok x = true ∨ ∃ e, x = Err e ∧ IsNotFound e = true)).
Proof.
  intros [p|e]; simpl; [exists (Ok p)|exists (Err e)]; (split; [done|]); simpl; [split; [by left|done]|].
  destruct (IsNotFound e) eqn:E; split; [by right; eauto|done|done|]. intros [?|(e' & [= <-] & ?)]; congruence.
Qed.

End pod_node_label.

(** A device plugin pod without role label, as DaemonSets created before that label have, counts
    as a device plugin when it is reconciled but is not selected by the listing of siblings: a
    ready one does not keep the label of its node. *)
Lemma roleless_pods_not_counted pod moduleName :
  pod_Labels pod !! constants.DaemonSetRole = None →
  (pod_role pod moduleName).1 = constants.DevicePluginRoleLabelValue ∧
  ¬ ({[ constants.ModuleNameLabel := moduleName; constants.DaemonSetRole := constants.DevicePluginRoleLabelValue ]} : labels_t) ⊆ pod_Labels pod.
Proof.
  intros H. split; [unfold pod_role, map_get; by rewrite H|]. rewrite map_subseteq_spec. intros Hs.
  specialize (Hs constants.DaemonSetRole constants.DevicePluginRoleLabelValue). rewrite lookup_insert_ne, lookup_singleton_eq in Hs by done.
  specialize (Hs eq_refl). congruence.
Qed.

(** ** Witness *)

Definition demo_plugin_pod (ready : bool) : Pod :=
  {| pod_meta := {| om_Name := "plugin-x"; om_GenerateName := ""; om_Namespace := "ns"; om_UID := ""; om_Generation := 0%Z; om_CreationTimestamp := "";
                    om_Labels := {[ constants.ModuleNameLabel := "mod"; constants.DaemonSetRole := constants.DevicePluginRoleLabelValue ]};
                    om_Annotations := ∅; om_Finalizers := [constants.NodeLabelerFinalizer]; om_OwnerReferences := [];
                    om_DeletionTimestamp := Some 1%Z |};
     pod_spec := {| ps_InitContainers := []; ps_Containers := []; ps_NodeName := "node-a"; ps_NodeSelector := ∅;
                    ps_RestartPolicy := ""; ps_ServiceAccountName := ""; ps_ImagePullSecrets := [];
                    ps_Volumes := []; ps_Tolerations := []; ps_PriorityClassName := "";
                    ps_AutomountServiceAccountToken := None; ps_HostNetwork := false |};
     pod_status := {| pst_Phase := PodRunning; pst_ContainerStatuses := []; pst_Ready := ready |} |}.

