(* ===== verification/Filter.v ===== *)
(** * Event filters and request mapping ([internal/filter/filter.go])

    Which changes of the cluster wake a controller up.  A predicate accepts or drops an event;
    a map function turns an object into the requests of the controller.  The combinators of
    controller-runtime are a class ([ControllerRuntime]) with their documented behaviour as
    laws; [demo_runtime] instantiates it. *)

From S2P Require Import Prelude Types Kube GoStrings Externals Demo Labels NmcHelper Node PodNodeLabel.

Open Scope string_scope.
Open Scope nat_scope.
Open Scope list_scope.

(** ** Events *)

(** A [client.Object]: an object with its dynamic type. *)
Record any_obj := AnyObj { ao_kind : kind; ao_obj : obj ao_kind }.

Definition ao_meta (o : any_obj) : ObjectMeta := obj_meta (ao_kind o) (ao_obj o).
Definition GetLabels (o : any_obj) : labels_t := om_Labels (ao_meta o).
Definition GetName (o : any_obj) : string := om_Name (ao_meta o).

(** Type assertions to a pointer to a Node, a Pod, a ManagedCluster. *)
Definition as_Node (o : any_obj) : option Node :=
  match o with AnyObj KNode n => Some n | _ => None end.
Definition as_Pod (o : any_obj) : option Pod :=
  match o with AnyObj KPod p => Some p | _ => None end.
Definition as_ManagedCluster (o : any_obj) : option ManagedCluster :=
  match o with AnyObj KManagedCluster c => Some c | _ => None end.

Inductive event :=
| CreateEvent (o : any_obj)
| UpdateEvent (old new : any_obj)
| DeleteEvent (o : any_obj)
| GenericEvent (o : any_obj).

Definition event_objects (e : event) : list any_obj :=
  match e with
  | CreateEvent o | DeleteEvent o | GenericEvent o => [o]
  | UpdateEvent old new => [old; new]
  end.

(** The package [predicate] of controller-runtime: a struct of optional functions, a function of
    the object alone, conjunction, disjunction, and two ready-made predicates. *)
Class ControllerRuntime := {
  predicate : Type;
  accepts : predicate → event → bool;
  Funcs (create : option (any_obj → bool)) (update : option (any_obj → any_obj → bool))
        (delete : option (any_obj → bool)) (generic : option (any_obj → bool)) : predicate;
  NewPredicateFuncs : (any_obj → bool) → predicate;
  predicate_And : list predicate → predicate;
  predicate_Or : list predicate → predicate;
  LabelChangedPredicate : predicate;
  GenerationChangedPredicate : predicate;
  (** [handler.EnqueueRequestForObject], [handler.EnqueueRequestForOwner] of a controller owner
      of that kind, and the objects [handler.EnqueueRequestsFromMapFunc] maps. *)
  EnqueueRequestForObject : event → list NamespacedName;
  EnqueueRequestForOwner : string → event → list NamespacedName;
  mapped_objects : event → list any_obj;
}.

Definition update_only (f : any_obj → any_obj → bool) (e : event) : bool :=
  match e with UpdateEvent old new => f old new | _ => true end.

(** A function that is not set accepts; a function of the object sees the new object of an
    update; the ready-made predicates only look at updates. *)
Class ControllerRuntimeLaws `{ControllerRuntime} : Prop := {
  accepts_Funcs c u d g e :
    accepts (Funcs c u d g) e =
    match e with
    | CreateEvent o => match c with Some f => f o | None => true end
    | UpdateEvent old new => match u with Some f => f old new | None => true end
    | DeleteEvent o => match d with Some f => f o | None => true end
    | GenericEvent o => match g with Some f => f o | None => true end
    end;
  accepts_NewPredicateFuncs f e :
    accepts (NewPredicateFuncs f) e =
    match e with CreateEvent o | UpdateEvent _ o | DeleteEvent o | GenericEvent o => f o end;
  accepts_And ps e : accepts (predicate_And ps) e = forallb (λ p, accepts p e) ps;
  accepts_Or ps e : accepts (predicate_Or ps) e = existsb (λ p, accepts p e) ps;
  accepts_LabelChanged e :
    accepts LabelChangedPredicate e =
    update_only (λ old new, negb (bool_decide (GetLabels old = GetLabels new))) e;
  accepts_GenerationChanged e :
    accepts GenerationChangedPredicate e =
    update_only (λ old new, negb (bool_decide (om_Generation (ao_meta old) = om_Generation (ao_meta new)))) e;
  EnqueueRequestForObject_spec e k :
    k ∈ EnqueueRequestForObject e ↔ ∃ o, o ∈ event_objects e ∧ k = meta_key (ao_meta o);
  mapped_objects_spec e : mapped_objects e = event_objects e;
}.

#[export] Instance demo_runtime : ControllerRuntime := {
  predicate := event → bool;
  accepts p e := p e;
  Funcs c u d g := λ e,
    match e with
    | CreateEvent o => match c with Some f => f o | None => true end
    | UpdateEvent old new => match u with Some f => f old new | None => true end
    | DeleteEvent o => match d with Some f => f o | None => true end
    | GenericEvent o => match g with Some f => f o | None => true end
    end;
  NewPredicateFuncs f := λ e,
    match e with CreateEvent o | UpdateEvent _ o | DeleteEvent o | GenericEvent o => f o end;
  predicate_And ps := λ e, forallb (λ p, p e) ps;
  predicate_Or ps := λ e, existsb (λ p, p e) ps;
  LabelChangedPredicate :=
    update_only (λ old new, negb (bool_decide (GetLabels old = GetLabels new)));
  GenerationChangedPredicate :=
    update_only (λ old new, negb (bool_decide (om_Generation (ao_meta old) = om_Generation (ao_meta new))));
  EnqueueRequestForObject e := meta_key ∘ ao_meta <$> event_objects e;
  EnqueueRequestForOwner kd e :=
    event_objects e ≫= λ o, (λ r, nsn (om_Namespace (ao_meta o)) (or_Name r)) <$>
      filter (λ r, or_Kind r = kd ∧ or_Controller r = true) (om_OwnerReferences (ao_meta o));
  mapped_objects := event_objects;
}.

#[export] Instance demo_runtime_laws : ControllerRuntimeLaws.
Proof.
  constructor; try done. intros e k. simpl. rewrite list_elem_of_fmap. naive_solver.
Qed.

(** ** Predicates *)

Section filter.
Context `{EXT : Externals} `{CR : ControllerRuntime}.

Definition filter_HasLabel (label : string) : predicate :=
  NewPredicateFuncs (λ o, negb (String.eqb (map_get (GetLabels o) label) "")).

Definition skipDeletions : predicate := Funcs None None (Some (λ _, false)) None.
Definition skipCreations : predicate := Funcs (Some (λ _, false)) None None None.
Definition SkipDeletions : predicate := skipDeletions.

(** The functions of update events, on the two objects. *)
Definition taints_changed (old new : any_obj) : bool :=
  match as_Node old, as_Node new with
  | Some oldNode, Some newNode => negb (bool_decide (node_Taints newNode = node_Taints oldNode))
  | _, _ => false
  end.

Definition nodeTaintsChanged : predicate := Funcs None (Some taints_changed) None None.

Definition clusterClaim (name : string) (clusterClaims : list ManagedClusterClaim) : option ManagedClusterClaim :=
  find_first (λ c, String.eqb (mcc_Name c) name) clusterClaims.

Definition kernel_claim (c : ManagedCluster) : option ManagedClusterClaim :=
  clusterClaim constants.KernelVersionsClusterClaimName (mcl_ClusterClaims c).

Definition claim_changed (old new : any_obj) : bool :=
  match as_ManagedCluster old, as_ManagedCluster new with
  | Some oldManagedCluster, Some newManagedCluster =>
      match kernel_claim newManagedCluster with
      | None => false
      | Some newClusterClaim => negb (bool_decide (Some newClusterClaim = kernel_claim oldManagedCluster))
      end
  | _, _ => false
  end.

Definition kmmClusterClaimChanged : predicate := Funcs None (Some claim_changed) None None.

Definition pod_success (_ new : any_obj) : bool :=
  match as_Pod new with
  | None => true
  | Some pod => bool_decide (pod_Phase pod = PodSucceeded)
  end.

Definition modulePodSuccess : predicate := Funcs None (Some pod_success) None None.

Definition getNodeReadyConditionStatus (node : Node) : string :=
  match find_first (λ c, String.eqb (nc_Type c) NodeReady) (node_Conditions node) with
  | Some cond => nc_Status cond
  | None => ConditionUnknown
  end.

Definition relevant_update (old new : any_obj) : bool :=
  match as_Node old, as_Node new with
  | Some oldNode, Some newNode =>
      if negb (bool_decide ((node_Taints oldNode, node_SpecOther oldNode) = (node_Taints newNode, node_SpecOther newNode))) then true
      else if negb (bool_decide (node_Labels oldNode = node_Labels newNode)) then true
      else if negb (bool_decide (node_NodeInfo oldNode = node_NodeInfo newNode)) then true
      else negb (String.eqb (getNodeReadyConditionStatus oldNode) (getNodeReadyConditionStatus newNode))
  | _, _ => false
  end.

Definition filterRelevantNodeUpdates : predicate := Funcs None (Some relevant_update) None None.

Definition NMCReconcilerNodePredicate : predicate := predicate_And [skipDeletions; filterRelevantNodeUpdates].

Definition ModuleReconcilerNodePredicate : predicate :=
  predicate_And [skipDeletions; predicate_Or [nodeTaintsChanged; LabelChangedPredicate]].

Definition DevicePluginReconcilerNodePredicate : predicate := predicate_And [skipDeletions; nodeTaintsChanged].

Definition ModuleReconcilePodPredicate : predicate := predicate_And [skipDeletions; skipCreations; modulePodSuccess].

Definition ModuleReconcileMICPredicate : predicate := predicate_And [skipCreations; skipDeletions].

Definition kernel_changed (old new : any_obj) : bool :=
  match as_Node old, as_Node new with
  | Some oldNode, Some newNode =>
      negb (String.eqb (ni_KernelVersion (node_NodeInfo oldNode)) (ni_KernelVersion (node_NodeInfo newNode)))
  | _, _ => false
  end.

Definition NodeUpdateKernelChangedPredicate : predicate := Funcs None (Some kernel_changed) None None.

Definition ManagedClusterModuleReconcilerManagedClusterPredicate : predicate :=
  predicate_Or [LabelChangedPredicate; kmmClusterClaimChanged].

Definition DeletingPredicate : predicate :=
  NewPredicateFuncs (λ o, bool_decide (is_Some (om_DeletionTimestamp (ao_meta o)))).

Definition readiness_changed (old new : any_obj) : bool :=
  match as_Pod old, as_Pod new with
  | Some oldPod, Some newPod => negb (Bool.eqb (IsPodReady oldPod) (IsPodReady newPod))
  | _, _ => true
  end.

Definition PodReadinessChangedPredicate : predicate := Funcs None (Some readiness_changed) None None.

Definition PreflightReconcilerUpdatePredicate : predicate := GenerationChangedPredicate.

Definition version_labels_changed (old new : any_obj) : bool :=
  match as_Node old, as_Node new with
  | Some oldNode, Some newNode =>
      negb (bool_decide (GetNodesVersionLabels (node_Labels oldNode) = GetNodesVersionLabels (node_Labels newNode)))
  | _, _ => true
  end.

Definition NodeLabelModuleVersionUpdatePredicate : predicate := Funcs None (Some version_labels_changed) None None.

(** ** Map functions *)

Definition DeviceClassToModuleReconcileRequest (o : any_obj) : list NamespacedName :=
  let labels := GetLabels o in
  let modName := map_get labels constants.ModuleNameLabel in
  let modNs := map_get labels constants.ModuleNamespaceLabel in
  if String.eqb modName "" || String.eqb modNs "" then [] else [nsn modNs modName].

Definition label_request (modules : gset NamespacedName) (k : string) : gset NamespacedName :=
  let '(ok, ns, name) := IsModuleConfiguredLabel k in
  if ok then {[ nsn ns name ]} ∪ modules
  else
    let '(ok, ns, name) := IsModuleInUseLabel k in
    if ok then {[ nsn ns name ]} ∪ modules else modules.

Definition ListModulesForNMC (o : any_obj) : list NamespacedName :=
  range_set (foldl label_request (∅ : gset NamespacedName) (range_map (GetLabels o)).*1).

(** The loop shared by [FindModulesForNode] and [FindManagedClusterModulesForCluster]: it stops
    at the first selector that cannot be evaluated and returns the requests found so far. *)
Fixpoint select_until_error {A} (selector : A → labels_t) (key : A → NamespacedName) (labels : labels_t) (items : list A) (reqs : list NamespacedName) : list NamespacedName :=
  match items with
  | [] => reqs
  | a :: items =>
      match IsObjectSelectedByLabels labels (selector a) with
      | Err _ => reqs
      | Ok false => select_until_error selector key labels items reqs
      | Ok true => select_until_error selector key labels items (reqs ++ [key a])
      end
  end.

Definition mod_key (m : Module_) : NamespacedName := nsn (mod_Namespace m) (mod_Name m).
Definition mod_selector (m : Module_) : labels_t := ms_Selector (mod_spec m).

Definition FindModulesForNode (node : any_obj) : prog (list NamespacedName) :=
  r ← list_all KModule [];
  mret (match r with
        | Err _ => []
        | Ok mods => select_until_error mod_selector mod_key (GetLabels node) mods []
        end).

(** Modules whose selector cannot be evaluated are skipped. *)
Definition node_change_requests (labels : labels_t) (mods : list Module_) : gset NamespacedName :=
  foldl (λ reqSet mod_,
           match IsObjectSelectedByLabels labels (mod_selector mod_) with
           | Err _ | Ok false => reqSet
           | Ok true => {[ mod_key mod_ ]} ∪ reqSet
           end) ∅ mods.

Definition FindModulesForNMCNodeChange (node : any_obj) : prog (list NamespacedName) :=
  r ← list_all KModule [];
  match r with
  | Err _ => mret []
  | Ok mods =>
      let reqSet := node_change_requests (GetLabels node) mods in
      nms ← nmc_Get (GetName node);
      mret (match nms with
            | Err _ => range_set reqSet
            | Ok nms => range_set (foldl (λ s e, {[ nms_key e ]} ∪ s) reqSet (nmc_spec_Modules nms))
            end)
  end.

Definition FindManagedClusterModulesForCluster (cluster : any_obj) : prog (list NamespacedName) :=
  r ← list_all KMCM [];
  mret (match r with
        | Err _ => []
        | Ok mods => select_until_error (λ m, mcms_Selector (mcm_spec m)) (λ m, nsn "" (mcm_Name m)) (GetLabels cluster) mods []
        end).

Definition EnqueueAllPreflightValidations (_ : any_obj) : prog (list NamespacedName) :=
  r ← list_all KPreflight [];
  mret (match r with
        | Err _ => []
        | Ok preflights =>
            meta_key ∘ pv_meta <$> filter (λ pv, om_DeletionTimestamp (pv_meta pv) = None) preflights
        end).

(** ** What selectors and requests mean *)

Section laws.
Context `{EXTL : !ExternalsLaws} `{CRL : !ControllerRuntimeLaws}.

(** A selector whose entries are all valid requirements. *)
Definition selector_ok (sel : labels_t) : Prop := ∀ k v, sel !! k = Some v → NewRequirement k v = None.

Lemma requirements_Ok l rs : requirements l = Ok rs ↔ rs = l ∧ Forall (λ kv, NewRequirement kv.1 kv.2 = None) l.
Proof.
  revert rs. induction l as [|[k v] l IH]; intros rs; simpl.
  - split; [intros [= <-]; by split|]. by intros [-> _].
  - destruct (NewRequirement k v) eqn:E; [split; [done|]; intros [_ H]; inversion H; simpl in *; congruence|].
    rewrite result_bind_Ok. setoid_rewrite IH. rewrite Forall_cons. simpl. naive_solver.
Qed.

Lemma IsObjectSelectedByLabels_spec labels sel b :
  IsObjectSelectedByLabels labels sel = Ok b ↔ selector_ok sel ∧ b = bool_decide (sel ⊆ labels).
Proof.
  unfold IsObjectSelectedByLabels. rewrite result_bind_Ok. setoid_rewrite requirements_Ok.
  assert (Forall (λ kv, NewRequirement kv.1 kv.2 = None) (range_map sel) ↔ selector_ok sel) as Hok.
  { rewrite Forall_forall. unfold selector_ok. setoid_rewrite <-elem_of_range_map. split; [|intros H [k v]; apply H].
    intros H k v Hkv. apply (H (k, v) Hkv). }
  assert (forallb (λ kv, Requirement_Matches kv.1 kv.2 labels) (range_map sel) = bool_decide (sel ⊆ labels)) as Hm.
  { destruct (bool_decide_reflect (sel ⊆ labels)) as [H|H].
    - apply forallb_forall. intros [k v] Hin%list_elem_of_In. simpl. rewrite Requirement_Matches_Equals.
      apply bool_decide_eq_true. apply elem_of_range_map in Hin. by eapply lookup_weaken.
    - apply not_true_iff_false. rewrite forallb_forall. intros Hf. apply H, map_subseteq_spec. intros k v Hkv.
      specialize (Hf (k, v)). rewrite <-list_elem_of_In, elem_of_range_map in Hf. specialize (Hf Hkv).
      by rewrite Requirement_Matches_Equals, bool_decide_eq_true in Hf. }
  rewrite <-Hm, <-Hok. naive_solver.
Qed.

(** The objects before the first one whose selector cannot be evaluated. *)
Fixpoint before_error {A} (selector : A → labels_t) (labels : labels_t) (items : list A) : list A :=
  match items with
  | [] => []
  | a :: items => if is_ok (IsObjectSelectedByLabels labels (selector a)) then a :: before_error selector labels items else []
  end.

Lemma select_until_error_spec {A} (selector : A → labels_t) key labels items reqs :
  select_until_error selector key labels items reqs =
  reqs ++ (key <$> filter (λ a, selector a ⊆ labels) (before_error selector labels items)).
Proof.
  revert reqs. induction items as [|a items IH]; intros reqs; simpl; [by rewrite app_nil_r|].
  destruct (IsObjectSelectedByLabels labels (selector a)) as [b|e] eqn:E; simpl; [|by rewrite app_nil_r].
  apply IsObjectSelectedByLabels_spec in E as [_ ->]. rewrite filter_cons.
  destruct (bool_decide_reflect (selector a ⊆ labels)); rewrite IH.
  - rewrite decide_True by done. by rewrite <-app_assoc.
  - by rewrite decide_False.
Qed.

Lemma before_error_all {A} (selector : A → labels_t) labels items :
  (∀ a, a ∈ items → selector_ok (selector a)) → before_error selector labels items = items.
Proof.
  induction items as [|a items IH]; intros H; simpl; [done|].
  assert (IsObjectSelectedByLabels labels (selector a) = Ok (bool_decide (selector a ⊆ labels))) as ->.
  { apply IsObjectSelectedByLabels_spec. split; [apply H; left|done]. }
  simpl. rewrite IH; [done|]. intros b Hb. apply H. by right.
Qed.

Lemma elem_of_foldl_union {A} (f : A → NamespacedName) l (X : gset NamespacedName) k :
  k ∈ foldl (λ s a, {[ f a ]} ∪ s) X l ↔ k ∈ X ∨ ∃ a, a ∈ l ∧ k = f a.
Proof.
  revert X. induction l as [|a l IH]; intros X; simpl; [set_solver|].
  rewrite IH, elem_of_union, elem_of_singleton. setoid_rewrite elem_of_cons. naive_solver.
Qed.

Lemma elem_of_node_change_requests labels mods k :
  k ∈ node_change_requests labels mods ↔
  ∃ m, m ∈ mods ∧ k = mod_key m ∧ selector_ok (mod_selector m) ∧ mod_selector m ⊆ labels.
Proof.
  unfold node_change_requests.
  cut (∀ X : gset NamespacedName, k ∈ foldl (λ reqSet mod_,
         match IsObjectSelectedByLabels labels (mod_selector mod_) with
         | Err _ | Ok false => reqSet
         | Ok true => {[ mod_key mod_ ]} ∪ reqSet
         end) X mods ↔
       k ∈ X ∨ ∃ m, m ∈ mods ∧ k = mod_key m ∧ selector_ok (mod_selector m) ∧ mod_selector m ⊆ labels).
  { intros H. rewrite H. set_solver. }
  induction mods as [|m mods IH]; intros X; simpl; [set_solver|]. rewrite IH. setoid_rewrite elem_of_cons.
  destruct (IsObjectSelectedByLabels labels (mod_selector m)) as [b|e] eqn:E.
  - apply IsObjectSelectedByLabels_spec in E as [Hok Hb].
    destruct b; symmetry in Hb; [apply bool_decide_eq_true in Hb|apply bool_decide_eq_false in Hb]; set_solver.
  - assert (¬ selector_ok (mod_selector m)); [|set_solver].
    intros Hok. assert (IsObjectSelectedByLabels labels (mod_selector m) = Ok (bool_decide (mod_selector m ⊆ labels))).
    { by apply IsObjectSelectedByLabels_spec. } congruence.
Qed.

(** A change of a node leads to a request for exactly the modules that select it (modules with
    a selector that cannot be evaluated apart, which do not hide the others) and, when its
    NodeModulesConfig can be read, the modules configured there: so a module that does not select
    the node any more is reconciled too.  If the modules cannot be listed nothing is requested. *)
Theorem FindModulesForNMCNodeChange_exact node :
  wp (FindModulesForNMCNodeChange node) (λ tr reqs,
    (∃ e, tr = [Obs (ListAll KModule []) (Err e)] ∧ reqs = []) ∨
    ∃ mods x, tr = [Obs (ListAll KModule []) (Ok mods); Obs (Get KNMC (nsn "" (GetName node))) x] ∧
      ∀ k, k ∈ reqs ↔
        (∃ m, m ∈ mods ∧ k = mod_key m ∧ selector_ok (mod_selector m) ∧ mod_selector m ⊆ GetLabels node) ∨
        ∃ nms e, x = Ok nms ∧ e ∈ nmc_spec_Modules nms ∧ k = nms_key e).
Proof.
  intros [mods|e]; simpl; [|left; eauto]. intros x. right. exists mods, x. split; [by destruct x|].
  intros k. destruct x as [nms|e]; simpl.
  - rewrite elem_of_range_set, elem_of_foldl_union, elem_of_node_change_requests. naive_solver.
  - destruct (IsNotFound e); rewrite elem_of_range_set, elem_of_node_change_requests; naive_solver.
Qed.

Lemma elem_of_label_request X l k :
  k ∈ label_request X l ↔ k ∈ X ∨
  (re_ns (nsn_Namespace k) = true ∧ re_name (nsn_Name k) = true ∧
   (l = ModuleConfiguredLabel (nsn_Namespace k) (nsn_Name k) ∨ l = ModuleInUseLabel (nsn_Namespace k) (nsn_Name k))).
Proof.
  unfold label_request.
  destruct (IsModuleConfiguredLabel l) as [[ok ns] name] eqn:E. destruct ok.
  - pose proof E as (-> & Hns & Hname)%IsModuleConfiguredLabel_spec.
    rewrite elem_of_union, elem_of_singleton. split.
    + intros [->|H]; [right; simpl; auto|by left].
    + intros [H|(Hns' & Hname' & [H|H])]; [by right| |by apply configured_not_in_use in H].
      left. apply ModuleConfiguredLabel_inj in H as [-> ->]; auto using re_ns_no_dot. by destruct k.
  - assert (∀ ns' name', l = ModuleConfiguredLabel ns' name' → re_ns ns' = true → re_name name' = true → False) as Hno.
    { intros ns' name' Hl H1 H2. assert (IsModuleConfiguredLabel l = (true, ns', name')) by by apply IsModuleConfiguredLabel_spec.
      congruence. }
    destruct (IsModuleInUseLabel l) as [[ok ns'] name'] eqn:E'. destruct ok.
    + pose proof E' as (-> & Hns & Hname)%IsModuleInUseLabel_spec.
      rewrite elem_of_union, elem_of_singleton. split.
      * intros [->|H]; [right; simpl; auto|by left].
      * intros [H|(Hns' & Hname' & [H|H])]; [by right|exfalso; eauto|].
        left. apply ModuleInUseLabel_inj in H as [-> ->]; auto using re_ns_no_dot. by destruct k.
    + split; [by left|]. intros [H|(H1 & H2 & [H|H])]; [done|exfalso; eauto|].
      assert (IsModuleInUseLabel l = (true, nsn_Namespace k, nsn_Name k)) by by apply IsModuleInUseLabel_spec. congruence.
Qed.

(** A change of a NodeModulesConfig leads to a request for exactly the modules its labels call
    configured or in use. *)
Theorem ListModulesForNMC_exact o k :
  k ∈ ListModulesForNMC o ↔
  re_ns (nsn_Namespace k) = true ∧ re_name (nsn_Name k) = true ∧
  (is_Some (GetLabels o !! ModuleConfiguredLabel (nsn_Namespace k) (nsn_Name k)) ∨
   is_Some (GetLabels o !! ModuleInUseLabel (nsn_Namespace k) (nsn_Name k))).
Proof.
  unfold ListModulesForNMC. rewrite elem_of_range_set.
  assert (∀ l (X : gset NamespacedName), k ∈ foldl label_request X l ↔ k ∈ X ∨ ∃ s, s ∈ l ∧ k ∈ label_request ∅ s) as ->.
  { induction l as [|s l IH]; intros X; simpl; [set_solver|]. rewrite IH. setoid_rewrite elem_of_label_request. set_solver. }
  setoid_rewrite elem_of_label_request. setoid_rewrite list_elem_of_fmap.
  assert (∀ s, (∃ y, s = y.1 ∧ y ∈ range_map (GetLabels o)) ↔ is_Some (GetLabels o !! s)) as Hk.
  { intros s. split.
    - intros ([s' v] & -> & H). apply elem_of_range_map in H. eauto.
    - intros [v H]. exists (s, v). by rewrite elem_of_range_map. }
  setoid_rewrite Hk. set_solver.
Qed.
End laws.
End filter.
