(* ===== verification/Jobs.v ===== *)
(** * Build and sign pods: events and delayed removal; the kernel cluster claim
    ([build_sign_events_reconciler.go], [job_gc_reconciler.go], [node_kernel_clusterclaim.go])

    Two finalizers keep a build or sign pod: one until its outcome was reported as an event of
    its owner, one until the configured delay after its deletion has passed.  A third small
    reconciler publishes the kernels of a spoke cluster as a cluster claim. *)

From S2P Require Import Prelude Types Kube GoStrings Externals Demo Labels NmcHelper Node BuildSign PodNodeLabel Filter.

Open Scope string_scope.
Open Scope nat_scope.
Open Scope list_scope.

(** ** [build_sign_events_reconciler.go] *)

Definition createdAnnotationKey := "kmm.node.kubernetes.io/created-event-sent".
Definition EventTypeNormal := "Normal".
Definition EventTypeWarning := "Warning".

Record jobEvent := { je_jobType : string }.

Definition ReasonCreated (b : jobEvent) : string := je_jobType b +:+ "Created".
Definition ReasonFailed (b : jobEvent) : string := je_jobType b +:+ "Failed".
Definition ReasonSucceeded (b : jobEvent) : string := je_jobType b +:+ "Succeeded".
Definition je_String (b : jobEvent) : string := je_jobType b.

Section events.
Context `{EXT : Externals}.

(** [cases.Title(language.English).String]. *)
Context (titler : string → string).

Definition newJobEvent (jobType : string) : result jobEvent :=
  if String.eqb jobType "" then Err (ErrNew "jobType cannot be empty")
  else Ok {| je_jobType := titler jobType |}.

Definition GetOwner (ref : OwnerReference) (namespace : string) : prog (result ObjectMeta) :=
  namespaced ← (perform (IsObjectNamespaced (or_APIVersion ref) (or_Kind ref)) : prog (result bool));
  match namespaced with
  | Err e => mret (Err (Errorf_v "could not determine if object %s is namespaced: %v" e))
  | Ok namespaced =>
      r ← (perform (GetUnstructured (or_APIVersion ref) (or_Kind ref) (nsn (if (namespaced : bool) then namespace else "") (or_Name ref))) : prog (result ObjectMeta));
      mret (wrap_w "could not get owner with kind %s and name %s: %w" r)
  end.

Definition job_without_finalizer (pod : Pod) : Pod :=
  pod_set_finalizers pod (RemoveFinalizer (om_Finalizers (pod_meta pod)) constants.JobEventFinalizer).

Definition job_removeFinalizer (pod : Pod) : prog (option error) :=
  if ContainsFinalizer (om_Finalizers (pod_meta pod)) constants.JobEventFinalizer then
    '(_, err) ← patch KPod pod (job_without_finalizer pod);
    mret (wrap_err "patch failed: %v" err)
  else mret None.

Definition record_annotated (owner : ObjectMeta) (annotations : gmap string string) (eventType reason fmt : string) (args : list string) : prog () :=
  Call (RecordAnnotatedEvent owner annotations eventType reason fmt args) (λ _, Ret ()).

Definition with_created (pod : Pod) : Pod := pod_set_meta pod (SetAnnotation (pod_meta pod) createdAnnotationKey "").

(** The event that reports the creation, sent once the annotation that remembers it is saved. *)
Definition report_created (owner : ObjectMeta) (je : jobEvent) (kernelVersion : string) (eventAnnotations : gmap string string) (pod : Pod) : prog (Pod * option error) :=
  match pod_Annotations pod !! createdAnnotationKey with
  | Some _ => mret (pod, None)
  | None =>
      '(pod, err) ← patch KPod pod (with_created pod);
      match err with
      | Some e => mret (pod, Some (Errorf_v "could not patch Pod %s/%s: %v" e))
      | None =>
          record_annotated owner (<["pod-creation-timestamp" := om_CreationTimestamp (pod_meta pod)]> eventAnnotations)
            EventTypeNormal (ReasonCreated je) "%s created for kernel %s" [je_String je; kernelVersion];;
          mret (pod, None)
      end
  end.

(** What a finished pod is reported as. *)
Definition outcome_event (je : jobEvent) (phase : PodPhase) : option (string * string * string) :=
  match phase with
  | PodFailed => Some (EventTypeWarning, ReasonFailed je, "%s job failed for kernel %s")
  | PodSucceeded => Some (EventTypeNormal, ReasonSucceeded je, "%s job succeeded for kernel %s")
  | _ => None
  end.

Definition JobEvent_Reconcile (pod : Pod) : prog (option error) :=
  match newJobEvent (map_get (pod_Labels pod) constants.ResourceType) with
  | Err e => mret (Some (Errorf_v "could not parse job type: %v" e))
  | Ok je =>
      let kernelVersion := map_get (pod_Labels pod) constants.TargetKernelTarget in
      match om_OwnerReferences (pod_meta pod) with
      | [ref] =>
          owner ← GetOwner ref (pod_Namespace pod);
          match owner with
          | Err e => if IsNotFound e then job_removeFinalizer pod else mret (Some e)
          | Ok owner =>
              let eventAnnotations : gmap string string :=
                {[ "kernel-version" := kernelVersion; "pod-name" := pod_Name pod ]} in
              '(pod, err) ← report_created owner je kernelVersion eventAnnotations pod;
              match err with
              | Some e => mret (Some e)
              | None =>
                  match outcome_event je (pod_Phase pod) with
                  | None => mret None
                  | Some (eventType, reason, fmtString) =>
                      err ← job_removeFinalizer pod;
                      match err with
                      | Some e => mret (Some (Errorf_v "could not patch pod %s/%s: %v" e))
                      | None =>
                          record_annotated owner eventAnnotations eventType reason fmtString [je_String je; kernelVersion];;
                          mret None
                      end
                  end
              end
          end
      | _ => mret (Some (ErrNew "unexpected number of owner references: expected 1, got %d"))
      end
  end.

Definition is_job (o : any_obj) : bool :=
  let label := map_get (GetLabels o) constants.ResourceType in
  String.eqb label (action_string BuildImage) || String.eqb label (action_string SignImage).

Definition jobEventPredicate `{CR : ControllerRuntime} : predicate :=
  NewPredicateFuncs (λ o, is_job o && ContainsFinalizer (om_Finalizers (ao_meta o)) constants.JobEventFinalizer).

(** ** [job_gc_reconciler.go] *)

(** [time.Duration] is an int64 of nanoseconds; [Time.Sub] saturates. *)
Definition second : Z := 1000000000.
Definition max_duration : Z := 2 ^ 63 - 1.
Definition time_Sub (t u : Z) : Z := Z.max (- 2 ^ 63) (Z.min max_duration (t - u)).

Definition gc_without_finalizer (pod : Pod) : Pod :=
  pod_set_finalizers pod (RemoveFinalizer (om_Finalizers (pod_meta pod)) constants.GCDelayFinalizer).

(** The result is the delay after which to come back (zero: never) and the error. *)
Definition JobGC_Reconcile (delay : Z) (pod : Pod) : prog (Z * option error) :=
  match om_DeletionTimestamp (pod_meta pod) with
  | None => mret (0%Z, Some (ErrPanic "nil deletion timestamp"))
  | Some ts =>
      let releaseAt := (ts * second + delay)%Z in
      now ← (perform TimeNow : prog Z);
      if negb (bool_decide (pod_Phase pod = PodSucceeded)) || bool_decide (now > releaseAt)%Z then
        '(_, err) ← patch KPod pod (gc_without_finalizer pod);
        mret (0%Z, err)
      else mret (time_Sub releaseAt now, None)
  end.

Definition jobGCPredicate `{CR : ControllerRuntime} : predicate :=
  NewPredicateFuncs (λ o, is_job o && ContainsFinalizer (om_Finalizers (ao_meta o)) constants.GCDelayFinalizer &&
                          bool_decide (is_Some (om_DeletionTimestamp (ao_meta o)))).

(** ** [node_kernel_clusterclaim.go] *)

(** [sort.Strings]: by bytes. *)
Definition sort_Strings (l : list string) : list string := merge_sort String.le l.

Definition kernels_of (nodes : list Node) : gset string :=
  list_to_set ((λ n, ni_KernelVersion (node_NodeInfo n)) <$> nodes).

Definition kernels_value (nodes : list Node) : string :=
  Join (sort_Strings (range_set (kernels_of nodes))) newline.

Definition empty_claim (name : string) : ClusterClaim := {| clc_meta := empty_meta "" name; clc_Value := "" |}.

Definition claim_mutate (value : string) (cc : ClusterClaim) : result ClusterClaim :=
  Ok {| clc_meta := clc_meta cc; clc_Value := value |}.

Definition NodeKernelClusterClaim_Reconcile : prog (option error) :=
  r ← list_all KNode [];
  match r with
  | Err e => mret (Some (Errorf_v "could not list nodes: %v" e))
  | Ok nodes =>
      r ← (perform (CreateOrPatch KClusterClaim (empty_claim constants.KernelVersionsClusterClaimName)
                      (claim_mutate (kernels_value nodes))) : prog (result ClusterClaim));
      mret (err_of r)
  end.

(** ** Properties: events *)

Definition owner_calls (ref : OwnerReference) (namespace : string) (b : bool) (x : result ObjectMeta) : list obs :=
  [Obs (IsObjectNamespaced (or_APIVersion ref) (or_Kind ref)) (Ok b);
   Obs (GetUnstructured (or_APIVersion ref) (or_Kind ref) (nsn (if b then namespace else "") (or_Name ref))) x].

Definition is_event (o : obs) : bool :=
  match obs_call o with RecordAnnotatedEvent _ _ _ _ _ _ => true | _ => false end.

(** The creation was reported before, or the pod is marked and then reported. *)
Definition created_part (owner : ObjectMeta) (je : jobEvent) (pod : Pod) (tr : list obs) (pod' : Pod) : Prop :=
  let kernel := map_get (pod_Labels pod) constants.TargetKernelTarget in
  (is_Some (pod_Annotations pod !! createdAnnotationKey) ∧ tr = [] ∧ pod' = pod) ∨
  (pod_Annotations pod !! createdAnnotationKey = None ∧
   tr = [Obs (Patch KPod pod (with_created pod) false) (Ok pod');
         Obs (RecordAnnotatedEvent owner
                (<["pod-creation-timestamp" := om_CreationTimestamp (pod_meta pod')]>
                   {[ "kernel-version" := kernel; "pod-name" := pod_Name pod ]})
                EventTypeNormal (ReasonCreated je) "%s created for kernel %s" [je_String je; kernel]) tt]).

(** The finalizer is absent, or is removed. *)
Definition finalizer_part (pod : Pod) (tr : list obs) : Prop :=
  if ContainsFinalizer (om_Finalizers (pod_meta pod)) constants.JobEventFinalizer
  then ∃ x, tr = [Obs (Patch KPod pod (job_without_finalizer pod) false) (Ok x)]
  else tr = [].

(** An unfinished pod keeps its finalizer; a finished one loses it and is then reported. *)
Definition outcome_part (owner : ObjectMeta) (je : jobEvent) (pod pod' : Pod) (tr : list obs) : Prop :=
  let kernel := map_get (pod_Labels pod) constants.TargetKernelTarget in
  match outcome_event je (pod_Phase pod') with
  | None => tr = []
  | Some (ty, reason, fmt) => ∃ fin, finalizer_part pod' fin ∧
      tr = fin ++ [Obs (RecordAnnotatedEvent owner {[ "kernel-version" := kernel; "pod-name" := pod_Name pod ]}
                          ty reason fmt [je_String je; kernel]) tt]
  end.

Lemma job_removeFinalizer_wp pod :
  wp (job_removeFinalizer pod) (λ tr err,
    Forall (λ o, is_event o = false) tr ∧ (err = None → finalizer_part pod tr)).
Proof.
  unfold job_removeFinalizer, finalizer_part. destruct (ContainsFinalizer _ _); simpl; [|by split].
  intros [p|e]; simpl; (split; [by repeat constructor|]); [eauto|done].
Qed.

Lemma report_created_wp owner je pod :
  let kernel := map_get (pod_Labels pod) constants.TargetKernelTarget in
  wp (report_created owner je kernel {[ "kernel-version" := kernel; "pod-name" := pod_Name pod ]} pod) (λ tr r,
    match r.2 with
    | None => created_part owner je pod tr r.1
    | Some _ => Forall (λ o, is_event o = false) tr
    end).
Proof.
  unfold report_created, created_part. destruct (pod_Annotations pod !! createdAnnotationKey) eqn:E; simpl.
  - left. eauto.
  - intros [p|e]; simpl; [|by repeat constructor]. intros []. right. by split.
Qed.

(** A build or sign pod is reported to its owner as follows, for every answer of the API server.
    A pass that succeeds reports the creation exactly if the pod carries no mark of an earlier
    report, after the mark was saved; then, exactly if the pod has finished, it removes the event
    finalizer and reports the outcome.  If the owner is gone the finalizer is removed without any
    event.  A pass that fails reports no outcome. *)
Theorem job_events_protocol pod je ref :
  newJobEvent (map_get (pod_Labels pod) constants.ResourceType) = Ok je →
  om_OwnerReferences (pod_meta pod) = [ref] →
  wp (JobEvent_Reconcile pod) (λ tr err,
    match err with
    | None =>
        (∃ b e fin, IsNotFound e = true ∧ finalizer_part pod fin ∧ tr = owner_calls ref (pod_Namespace pod) b (Err e) ++ fin) ∨
        (∃ b owner pod' part1 part2, created_part owner je pod part1 pod' ∧ outcome_part owner je pod pod' part2 ∧
           tr = owner_calls ref (pod_Namespace pod) b (Ok owner) ++ part1 ++ part2)
    | Some _ =>
        Forall (λ o, is_event o = false) tr ∨
        ∃ b owner pod' part1 part2, created_part owner je pod part1 pod' ∧ Forall (λ o, is_event o = false) part2 ∧
          tr = owner_calls ref (pod_Namespace pod) b (Ok owner) ++ part1 ++ part2
    end).
Proof.
  intros Hje Href. unfold JobEvent_Reconcile. rewrite Hje, Href. intros [b|e]; simpl; [|left; by repeat constructor].
  intros [owner|e]; cbn [wrap_w].
  - apply (wp_bind _ _ (λ tr r, _)). eapply wp_mono; [|apply report_created_wp]. cbv zeta. intros tr [pod' [e|]]; cbn [fst snd].
    { intros Htr. left. rewrite app_nil_r. by repeat constructor. }
    intros Hc. destruct (outcome_event je (pod_Phase pod')) as [[[ty reason] fmt]|] eqn:Eo.
    + apply (wp_bind _ _ (λ tr r, _)). eapply wp_mono; [|apply job_removeFinalizer_wp]. intros fin [e|] [Hf Hfin].
      * right. exists b, owner, pod', tr, fin. rewrite app_nil_r. auto.
      * intros []. right. exists b, owner, pod', tr, (fin ++ [Obs (RecordAnnotatedEvent owner {[ "kernel-version" := map_get (pod_Labels pod) constants.TargetKernelTarget; "pod-name" := pod_Name pod ]} ty reason fmt [je_String je; map_get (pod_Labels pod) constants.TargetKernelTarget]) tt]).
        split; [done|]. split; [|done]. unfold outcome_part. rewrite Eo. eauto.
    + right. exists b, owner, pod', tr, []. split_and!; [done| |done].
      unfold outcome_part. by rewrite Eo.
  - change (IsNotFound (Errorf_w "could not get owner with kind %s and name %s: %w" e)) with (IsNotFound e).
    destruct (IsNotFound e) eqn:He; [|left; by repeat constructor].
    eapply wp_mono; [|apply job_removeFinalizer_wp]. intros fin [e'|] [Hf Hfin]; [left; by repeat constructor|].
    left. exists b, e, fin. auto.
Qed.

(** ** Properties: delayed removal *)

(** The instant after which a pod deleted at [ts] is released. *)
Definition releaseAt (delay ts : Z) : Z := (ts * second + delay)%Z.

(** A pass at time [now] releases the pod. *)
Definition releases (delay ts : Z) (pod : Pod) (now : Z) : bool :=
  negb (bool_decide (pod_Phase pod = PodSucceeded)) || bool_decide (now > releaseAt delay ts)%Z.

Lemma JobGC_Reconcile_wp delay pod ts :
  om_DeletionTimestamp (pod_meta pod) = Some ts →
  wp (JobGC_Reconcile delay pod) (λ tr r, ∃ now,
    if releases delay ts pod now
    then ∃ x, tr = [Obs TimeNow now; Obs (Patch KPod pod (gc_without_finalizer pod) false) x] ∧ r = (0%Z, err_of x)
    else tr = [Obs TimeNow now] ∧ r = (Z.min max_duration (releaseAt delay ts - now), None) ∧ (0 ≤ r.1)%Z).
Proof.
  intros Hts. unfold JobGC_Reconcile. rewrite Hts. intros now. cbn [wp prog_bind mbind perform].
  fold (releaseAt delay ts). fold (releases delay ts pod now). destruct (releases delay ts pod now) eqn:E.
  - intros [p|e]; exists now; rewrite E; [exists (Ok p)|exists (Err e)]; done.
  - exists now. rewrite E. cbn [prog_ret mret wp]. unfold releases in E. apply orb_false_iff in E as [_ E%bool_decide_eq_false].
    assert (time_Sub (releaseAt delay ts) now = Z.min max_duration (releaseAt delay ts - now)) as ->; [|split_and!; [done..|]].
    + unfold time_Sub, max_duration. lia.
    + unfold max_duration. simpl. lia.
Qed.

Lemma gc_released_by (D : Z) (t : nat → Z) (m : nat) :
  (∀ n, (t n < D)%Z → (t n + Z.min max_duration (D - t n) ≤ t (S n))%Z) →
  ∀ n, ((D - t n) / max_duration ≤ Z.of_nat m)%Z →
    ∃ j, j ≤ S m ∧ (D ≤ t (n + j)%nat)%Z ∧ ∀ i, i < j → (t (n + i)%nat < D)%Z.
Proof.
  intros Hw. assert (0 < max_duration)%Z as Hpos by (unfold max_duration; lia).
  induction m as [|m IH]; intros n Hm.
  all: destruct (Z.le_gt_cases D (t n)) as [Hle|Hgt]; [exists 0; rewrite Nat.add_0_r; split_and!; lia|].
  all: pose proof (Hw n Hgt) as Hnext.
  all: assert ((D - t n ≤ max_duration)%Z → ∃ j, j ≤ 1 ∧ (D ≤ t (n + j)%nat)%Z ∧ ∀ i, i < j → (t (n + i)%nat < D)%Z) as Hone.
  1, 3: intros Hs; exists 1; rewrite Nat.add_1_r; split_and!; [lia|lia|]; intros i Hi; replace (n + i) with n by lia; lia.
  - apply Hone. apply Z.lt_le_incl, Z.lt_nge. intros Hge. assert (1 ≤ (D - t n) / max_duration)%Z; [|lia]. apply Z.div_le_lower_bound; lia.
  - destruct (Z.le_gt_cases (D - t n) max_duration) as [Hs|Hb].
    { destruct (Hone Hs) as (j & ? & ?). exists j. split; [lia|done]. }
    destruct (IH (S n)) as (j & Hj & Ht & Hi).
    + assert ((D - t (S n)) / max_duration ≤ (D - t n + (-1) * max_duration) / max_duration)%Z as H.
      { apply Z.div_le_mono; lia. }
      rewrite Z.div_add in H by lia. lia.
    + exists (S j). rewrite Nat.add_succ_r. split_and!; [lia|done|]. intros [|i] Hlt; [by rewrite Nat.add_0_r|].
      rewrite Nat.add_succ_r. apply (Hi i). lia.
Qed.

Lemma time_cons_inj z z' tr tr' : Obs TimeNow z :: tr = Obs TimeNow z' :: tr' → z = z' ∧ tr = tr'.
Proof.
  intros H. split; [|exact (f_equal tail H)].
  exact (f_equal (λ l, match l with Obs TimeNow z :: _ => z | _ => 0%Z end) H).
Qed.

(** The passes over a pod, by the instant at which they read the clock. *)
Lemma gc_pass_at delay pod ts now tr r :
  om_DeletionTimestamp (pod_meta pod) = Some ts →
  exec (JobGC_Reconcile delay pod) (Obs TimeNow now :: tr) r →
  if releases delay ts pod now
  then ∃ x, tr = [Obs (Patch KPod pod (gc_without_finalizer pod) false) x] ∧ r = (0%Z, err_of x)
  else tr = [] ∧ r = (Z.min max_duration (releaseAt delay ts - now), None).
Proof.
  intros Hts Hex. destruct (proj1 (wp_exec _ _) (JobGC_Reconcile_wp delay pod ts Hts) _ _ Hex) as (now' & Hpass).
  destruct (releases delay ts pod now') eqn:E.
  - destruct Hpass as (x & [<- ->]%time_cons_inj & ->). rewrite E. eauto.
  - destruct Hpass as ([<- ->]%time_cons_inj & -> & _). by rewrite E.
Qed.

Lemma gc_waits_at delay pod ts now :
  om_DeletionTimestamp (pod_meta pod) = Some ts → pod_Phase pod = PodSucceeded → (now ≤ releaseAt delay ts)%Z →
  exec (JobGC_Reconcile delay pod) [Obs TimeNow now] (Z.min max_duration (releaseAt delay ts - now), None).
Proof.
  intros Hts Hp Hle. unfold JobGC_Reconcile. rewrite Hts, Hp. fold (releaseAt delay ts). exists now, []. split; [done|].
  cbn [perform mbind prog_bind exec]. rewrite bool_decide_eq_true_2 by done. rewrite bool_decide_eq_false_2 by lia. simpl.
  split; [done|]. f_equal. unfold time_Sub, max_duration. lia.
Qed.

Lemma gc_fails_at delay pod ts now e :
  om_DeletionTimestamp (pod_meta pod) = Some ts → releases delay ts pod now = true →
  exec (JobGC_Reconcile delay pod) [Obs TimeNow now; Obs (Patch KPod pod (gc_without_finalizer pod) false) (Err e)] (0%Z, Some e).
Proof.
  intros Hts Hr. unfold JobGC_Reconcile. rewrite Hts. fold (releaseAt delay ts). eexists now, _. split; [done|].
  cbn [perform mbind prog_bind exec]. fold (releases delay ts pod now). rewrite Hr. eexists (Err e), []. done.
Qed.

(** At the very instant the delay ends a pass neither releases the pod nor asks to come back: a
    zero delay is no request. *)
Lemma gc_boundary_not_requeued delay pod ts :
  om_DeletionTimestamp (pod_meta pod) = Some ts → pod_Phase pod = PodSucceeded →
  exec (JobGC_Reconcile delay pod) [Obs TimeNow (releaseAt delay ts)] (0%Z, None).
Proof.
  intros Hts Hp. replace (0%Z, None) with (Z.min max_duration (releaseAt delay ts - releaseAt delay ts), @None error).
  - by apply gc_waits_at.
  - f_equal. unfold max_duration. lia.
Qed.

Section once.
Context `{EXTL : !ExternalsLaws} `{CR : ControllerRuntime} `{CRL : !ControllerRuntimeLaws}.

(** C23: the delayed removal of a build or sign pod terminates, but for one instant.  Take any times of
    passes over the deleted pod such that a pass that asked to come back, by a positive delay or by an
    error, is followed by one not earlier than it asked.  Then there is a pass among the first
    [2 + (releaseAt - first) / max_duration] (so one of the first two, for any delay a duration can
    express) before which every pass only waits and asks to come back, and from which on either every
    pass patches the pod without the finalizer, and asks to come back exactly if the patch failed; or
    that pass reads the clock at the very instant the delay of a succeeded pod ends, and then it neither
    patches nor asks to come back. *)
Theorem gc_terminates delay pod ts (t : nat → Z) :
  om_DeletionTimestamp (pod_meta pod) = Some ts →
  (∀ n tr r, exec (JobGC_Reconcile delay pod) (Obs TimeNow (t n) :: tr) r → (0 < r.1)%Z ∨ is_Some r.2 → (t n + r.1 ≤ t (S n))%Z) →
  ∃ n, n ≤ S (Z.to_nat ((releaseAt delay ts - t 0) / max_duration)) ∧
    (∀ m tr r, m < n → exec (JobGC_Reconcile delay pod) (Obs TimeNow (t m) :: tr) r → tr = [] ∧ (0 < r.1)%Z ∧ r.2 = None) ∧
    ((constants.GCDelayFinalizer ∉ om_Finalizers (pod_meta (gc_without_finalizer pod)) ∧
      ∀ m tr r, n ≤ m → exec (JobGC_Reconcile delay pod) (Obs TimeNow (t m) :: tr) r →
        ∃ x, tr = [Obs (Patch KPod pod (gc_without_finalizer pod) false) x] ∧ r = (0%Z, err_of x)) ∨
     (t n = releaseAt delay ts ∧ pod_Phase pod = PodSucceeded ∧
      ∀ tr r, exec (JobGC_Reconcile delay pod) (Obs TimeNow (t n) :: tr) r → tr = [] ∧ r = (0%Z, None))).
Proof.
  intros Hts Hnext. set (D := releaseAt delay ts).
  pose proof (RemoveFinalizer_gone (om_Finalizers (pod_meta pod)) constants.GCDelayFinalizer) as Hgone.
  assert (∀ m tr r, releases delay ts pod (t m) = true → exec (JobGC_Reconcile delay pod) (Obs TimeNow (t m) :: tr) r →
    ∃ x, tr = [Obs (Patch KPod pod (gc_without_finalizer pod) false) x] ∧ r = (0%Z, err_of x)) as Hrel.
  { intros m tr r Hr Hex. pose proof (gc_pass_at _ _ _ _ _ _ Hts Hex) as H. by rewrite Hr in H. }
  destruct (decide (pod_Phase pod = PodSucceeded)) as [Hp|Hp].
  2: { exists 0. split_and!; [lia|lia|]. left. split; [exact Hgone|]. intros m tr r _. apply Hrel. unfold releases. by rewrite bool_decide_eq_false_2. }
  destruct (gc_released_by D t (Z.to_nat ((D - t 0) / max_duration))) with (n := 0) as (n & Hn & Ht & Hlt); [|lia|].
  { intros n Hlt. apply (Hnext n [] (Z.min max_duration (D - t n), None)); [apply gc_waits_at; [done..|]; fold D; lia|].
    left. simpl. unfold max_duration. lia. }
  simpl in Ht, Hlt. exists n. split; [done|]. split.
  { intros m tr r Hm Hex. specialize (Hlt m Hm). pose proof (gc_pass_at _ _ _ _ _ _ Hts Hex) as H. unfold releases in H.
    rewrite bool_decide_eq_true_2, bool_decide_eq_false_2 in H by (done || (fold D; lia)). simpl in H. destruct H as [-> ->].
    fold D. simpl. unfold max_duration. split_and!; [done|lia|done]. }
  destruct (decide (t n = D)) as [E|E].
  - right. split_and!; [done..|]. intros tr r Hex. pose proof (gc_pass_at _ _ _ _ _ _ Hts Hex) as H. unfold releases in H.
    rewrite bool_decide_eq_true_2, bool_decide_eq_false_2 in H by (done || (fold D; lia)). simpl in H. destruct H as [-> ->].
    split; [done|]. fold D. rewrite E, Z.sub_diag. done.
  - left. split; [exact Hgone|]. assert (∀ m, n ≤ m → releases delay ts pod (t m) = true) as Hall.
    { assert (∀ m, (D < t m)%Z → releases delay ts pod (t m) = true) as Hr.
      { intros m Hm. unfold releases. rewrite (bool_decide_eq_true_2 (t m > _)%Z) by (fold D; lia). apply orb_true_r. }
      intros m Hm. apply Hr. induction Hm as [|m Hm IH]; [lia|].
      pose proof (Hnext m _ _ (gc_fails_at _ _ _ _ (ErrNew "") Hts (Hr m IH)) (or_intror (ex_intro _ _ eq_refl))) as H. simpl in H. lia. }
    intros m tr r Hm. by apply Hrel, Hall.
Qed.

(** Reports are not repeated: a pod marked as reported has nothing left for [created_part], and a
    pod whose finalizer was removed does not wake the controller up any more. *)
Lemma events_not_repeated pod old :
  is_Some (pod_Annotations (with_created pod) !! createdAnnotationKey) ∧
  accepts jobEventPredicate (UpdateEvent old (AnyObj KPod (job_without_finalizer pod))) = false.
Proof.
  split; [eexists; apply lookup_insert_eq|]. unfold jobEventPredicate. rewrite accepts_NewPredicateFuncs.
  apply andb_false_iff. right. rewrite ContainsFinalizer_spec. apply bool_decide_eq_false_2. apply RemoveFinalizer_gone.
Qed.
End once.
End events.

(** ** Witnesses *)

Definition demo_job_pod (phase : PodPhase) : Pod :=
  {| pod_meta := {| om_Name := "build-x"; om_GenerateName := ""; om_Namespace := "ns"; om_UID := ""; om_Generation := 0%Z;
                    om_CreationTimestamp := "now";
                    om_Labels := {[ constants.ResourceType := "BuildImage"; constants.TargetKernelTarget := "6.1.0" ]};
                    om_Annotations := ∅; om_Finalizers := [constants.GCDelayFinalizer; constants.JobEventFinalizer];
                    om_OwnerReferences := [{| or_APIVersion := "v1"; or_Kind := "ModuleBuildSignConfig"; or_Name := "mod"; or_UID := ""; or_Controller := true |}];
                    om_DeletionTimestamp := Some 0%Z |};
     pod_spec := pod_spec (demo_plugin_pod false);
     pod_status := {| pst_Phase := phase; pst_ContainerStatuses := []; pst_Ready := false |} |}.

Definition demo_job_owner : OwnerReference :=
  {| or_APIVersion := "v1"; or_Kind := "ModuleBuildSignConfig"; or_Name := "mod"; or_UID := ""; or_Controller := true |}.

(** The owner is read first in every pass that succeeds. *)
Lemma job_events_protocol_witness :
  wp (JobEvent_Reconcile (EXT := demo_externals) id (demo_job_pod PodRunning)) (λ tr err,
    err = None → ∃ b x rest, tr = owner_calls demo_job_owner "ns" b x ++ rest).
Proof.
  eapply wp_mono; [|refine (job_events_protocol (EXT := demo_externals) id (demo_job_pod PodRunning) {| je_jobType := "BuildImage" |} demo_job_owner _ _);
                    vm_compute; reflexivity].
  intros tr [e|] H Hn; [discriminate Hn|].
  destruct H as [(b & e & fin & _ & _ & Htr)|(b & owner & pod' & p1 & p2 & _ & _ & Htr)].
  - exists b, (Err e), fin. exact Htr.
  - exists b, (Ok owner), (p1 ++ p2). exact Htr.
Defined.

(** A delay of one minute, and passes at intervals of 61 seconds: the second pass releases the pod. *)
Lemma gc_terminates_witness :
  ∃ n, n ≤ 1 ∧ ∀ tr r, exec (JobGC_Reconcile (EXT := demo_externals) (60 * second) (demo_job_pod PodSucceeded))
                          (Obs TimeNow (Z.of_nat n * (61 * second))%Z :: tr) r →
    ∃ x, tr = [Obs (Patch KPod (demo_job_pod PodSucceeded) (gc_without_finalizer (EXT := demo_externals) (demo_job_pod PodSucceeded)) false) x] ∧
         r = (0%Z, err_of x).
Proof.
  assert (om_DeletionTimestamp (pod_meta (demo_job_pod PodSucceeded)) = Some 0%Z) as Hts by reflexivity.
  destruct (gc_terminates (EXT := demo_externals) (60 * second) (demo_job_pod PodSucceeded) 0 (λ n, Z.of_nat n * (61 * second))%Z Hts)
    as (n & Hn & _ & [[_ H]|(H & _)]).
  - intros n tr r Hex _. pose proof (gc_pass_at _ _ _ _ _ _ Hts Hex) as H.
    destruct (releases (60 * second) 0 (demo_job_pod PodSucceeded) _) eqn:E.
    + destruct H as (x & _ & ->). unfold second. simpl fst. lia.
    + destruct H as (_ & ->). unfold releases in E. apply orb_false_iff in E as [_ E%bool_decide_eq_false]. unfold releaseAt, second in *. simpl fst. lia.
  - exists n. split; [exact Hn|]. intros tr r. apply H. lia.
  - unfold releaseAt, second in H. lia.
Defined.
