(* ===== verification/Preflight.v ===== *)
(** * Preflight validation ([preflightvalidation_reconciler.go], [internal/preflight/preflight.go])

    A PreflightValidation asks whether every module has a working image for a kernel.  Each pass
    lists the modules, records in the status what the ModuleImagesConfig of each module says, and
    requests the images that are not settled yet. *)

From S2P Require Import Prelude Types Kube GoStrings Externals Demo Labels NmcHelper KernelMapper Mic.

Open Scope string_scope.
Open Scope nat_scope.
Open Scope list_scope.

(** Constants of [api/v1beta2/preflightvalidation_types.go]. *)
Definition VerificationSuccess := "Success".
Definition VerificationFailure := "Failure".
Definition VerificationInProgress := "InProgress".
Definition VerificationStageImage := "Image".
Definition VerificationStageDone := "Done".

(** ** [internal/preflight/preflight.go] *)

Definition pvm_matches (namespace name : string) (s : PreflightValidationModuleStatus) : bool :=
  String.eqb (pvm_Name s) name && String.eqb (pvm_Namespace s) namespace.

(** [now] is the answer of [metav1.Now]. *)
Definition pv_SetModuleStatus (pv : PreflightValidation) (namespace name status reason : string) (now : Z) : PreflightValidation :=
  let stage := if String.eqb status VerificationSuccess || String.eqb status VerificationFailure
               then VerificationStageDone else VerificationStageImage in
  let newStatus := {| pvm_base := {| crs_VerificationStatus := status; crs_StatusReason := reason;
                                     crs_VerificationStage := stage; crs_LastTransitionTime := now |};
                      pvm_Name := name; pvm_Namespace := namespace |} in
  pv_set_modules pv (upsert (pvm_matches namespace name) newStatus (pv_status_Modules pv)).

Definition pv_GetModuleStatus (pv : PreflightValidation) (namespace name : string) : string :=
  match find_first (pvm_matches namespace name) (pv_status_Modules pv) with
  | Some s => crs_VerificationStatus (pvm_base s)
  | None => ""
  end.

Definition verified (status : string) : bool :=
  String.eqb status VerificationSuccess || String.eqb status VerificationFailure.

Definition AllModulesVerified (pv : PreflightValidation) : bool :=
  forallb (λ s, verified (crs_VerificationStatus (pvm_base s))) (pv_status_Modules pv).

(** ** [internal/controllers/preflightvalidation_reconciler.go] *)

Definition preflight_mic (name : string) : string := name +:+ "-preflight".

(** Status and reason of a module whose ModuleImagesConfig answered [state] for its image. *)
Definition image_verdict (hasBuildOrSign : bool) (state : ImageState) : string * string :=
  match state with
  | ImageExists => (VerificationSuccess, "verified image exists")
  | ImageDoesNotExist =>
      (VerificationFailure,
       if hasBuildOrSign then "verified image does not exist" +:+ " and build/sign failed"
       else "verified image does not exist")
  | _ => (VerificationInProgress, "verification is not finished yet")
  end.

Definition has_build_or_sign (mld : ModuleLoaderData) : bool :=
  is_some (mld_Build mld) || is_some (mld_Sign mld).

Section preflight.
Context `{EXT : Externals}.

Definition set_unmapped (m : NamespacedName) (pv : PreflightValidation) : prog PreflightValidation :=
  now ← (perform TimeNow : prog Z);
  mret (pv_SetModuleStatus pv (nsn_Namespace m) (nsn_Name m) VerificationFailure "mapping not found" now).

Definition set_mapped (m : ModuleLoaderData) (pv : PreflightValidation) : prog PreflightValidation :=
  foundMIC ← mic_Get (preflight_mic (mld_Name m)) (mld_Namespace m);
  let '(modStatus, modReason) :=
    match foundMIC with
    | Ok foundMIC => image_verdict (has_build_or_sign m) (GetImageState foundMIC (mld_ContainerImage m))
    | Err _ => (VerificationInProgress, "verification is not finished yet")
    end in
  now ← (perform TimeNow : prog Z);
  mret (pv_SetModuleStatus pv (mld_Namespace m) (mld_Name m) modStatus modReason now).

Definition pv_updateStatus (modsWithMapping : list ModuleLoaderData) (modsWithoutMapping : list NamespacedName) (pv : PreflightValidation) : prog (PreflightValidation * option error) :=
  let unmodifiedPV := pv in
  pv ← for_range modsWithoutMapping set_unmapped pv;
  pv ← for_range modsWithMapping set_mapped pv;
  status_patch KPreflight unmodifiedPV pv.

(** The loop over the listed modules; those being deleted are ignored. *)
Fixpoint modules_data (kernelVersion : string) (mods : list Module_) (withMapping : list ModuleLoaderData) (withoutMapping : list NamespacedName) : result (list ModuleLoaderData * list NamespacedName) :=
  match mods with
  | [] => Ok (withMapping, withoutMapping)
  | mod_ :: mods =>
      match om_DeletionTimestamp (mod_meta mod_) with
      | Some _ => modules_data kernelVersion mods withMapping withoutMapping
      | None =>
          match GetModuleLoaderDataForKernel mod_ kernelVersion with
          | Err e =>
              if negb (errors_Is e ErrNoMatchingKernelMapping)
              then Err (rethrow_v "failed to get MLD for module %s/%s: %v" e)
              else modules_data kernelVersion mods withMapping (withoutMapping ++ [nsn (mod_Namespace mod_) (mod_Name mod_)])
          | Ok mld => modules_data kernelVersion mods (withMapping ++ [mld]) withoutMapping
          end
      end
  end.

Definition getModulesData (pv : PreflightValidation) : prog (result (list ModuleLoaderData * list NamespacedName)) :=
  r ← list_all KModule [];
  mret (match r with
        | Err e => Err (Errorf_v "failed to get list of all Modules: %v" e)
        | Ok modulesList => modules_data (pvs_KernelVersion (pv_spec pv)) modulesList [] []
        end).

Definition preflight_image (m : ModuleLoaderData) : ModuleImageSpec :=
  {| mis_Image := mld_ContainerImage m; mis_KernelVersion := mld_KernelVersion m;
     mis_Build := mld_Build m; mis_Sign := mld_Sign m; mis_SkipWaitMissingImage := false;
     mis_RegistryTLS := mld_RegistryTLS m; mis_DirName := mp_DirName (mld_Modprobe m) |}.

Definition process_module (pv : PreflightValidation) (m : ModuleLoaderData) (errs : list (option error)) : prog (list (option error)) :=
  if verified (pv_GetModuleStatus pv (mld_Namespace m) (mld_Name m)) then mret errs
  else
    err ← mic_CreateOrPatch (preflight_mic (mld_Name m)) (mld_Namespace m) [preflight_image m]
            (mld_ImageRepoSecret m) (mld_ImagePullPolicy m) (pvs_PushBuiltImage (pv_spec pv)) None
            (mld_Tolerations m) "PreflightValidation" (pv_meta pv);
    mret (match err with
          | Some e => errs ++ [Some (Errorf_v "failed to apply %s/%s MIC: %v" e)]
          | None => errs
          end).

Definition processPreflightValidation (modsWithMapping : list ModuleLoaderData) (pv : PreflightValidation) : prog (option error) :=
  errs ← for_range modsWithMapping (process_module pv) [];
  mret (errors_Join errs).

(** Success is reported only in the log. *)
Definition PreflightValidation_Reconcile (pv : PreflightValidation) : prog (option error) :=
  r ← getModulesData pv;
  match r with
  | Err e => mret (Some (rethrow_v "failed to get modules' data: %v" e))
  | Ok (modsWithMapping, modsWithoutMapping) =>
      '(pv, err) ← pv_updateStatus modsWithMapping modsWithoutMapping pv;
      match err with
      | Some e => mret (Some (Errorf_v "failed to update PreflightValidation's status: %v" e))
      | None =>
          err ← processPreflightValidation modsWithMapping pv;
          mret (wrap_err "failed to process the preflight validation: %v" err)
      end
  end.

(** ** The status as a typed map *)

Definition pvm_key (s : PreflightValidationModuleStatus) : NamespacedName := nsn (pvm_Namespace s) (pvm_Name s).
Definition mld_key (m : ModuleLoaderData) : NamespacedName := nsn (mld_Namespace m) (mld_Name m).
Definition pv_map (pv : PreflightValidation) : gmap NamespacedName PreflightValidationModuleStatus :=
  keyed_map pvm_key (pv_status_Modules pv).

(** An entry as the API declares it: one of the three statuses, and the stage that goes with it. *)
Definition pvm_typed (s : PreflightValidationModuleStatus) : Prop :=
  let status := crs_VerificationStatus (pvm_base s) in
  status ∈ [VerificationSuccess; VerificationFailure; VerificationInProgress] ∧
  crs_VerificationStage (pvm_base s) = if verified status then VerificationStageDone else VerificationStageImage.

Definition pv_typed (pv : PreflightValidation) : Prop :=
  NoDup (pvm_key <$> pv_status_Modules pv) ∧ Forall pvm_typed (pv_status_Modules pv).

(** What is recorded for a key: the status and the reason. *)
Definition recorded (pv : PreflightValidation) (k : NamespacedName) : option (string * string) :=
  (λ s, (crs_VerificationStatus (pvm_base s), crs_StatusReason (pvm_base s))) <$> pv_map pv !! k.

Lemma pvm_matches_key ns name s : pvm_matches ns name s = key_is pvm_key (nsn ns name) s.
Proof.
  unfold pvm_matches, key_is, pvm_key, nsn.
  destruct (String.eqb_spec (pvm_Name s) name), (String.eqb_spec (pvm_Namespace s) ns); simpl; symmetry;
    (apply bool_decide_eq_true_2 || apply bool_decide_eq_false_2); naive_solver.
Qed.

Lemma pv_GetModuleStatus_recorded pv ns name :
  pv_GetModuleStatus pv ns name = default "" (fst <$> recorded pv (nsn ns name)).
Proof.
  unfold pv_GetModuleStatus, recorded, pv_map. rewrite keyed_map_lookup.
  rewrite (find_first_ext _ (key_is pvm_key (nsn ns name))) by (intros; apply pvm_matches_key).
  by destruct (find_first _ _).
Qed.

Definition pvm_new (ns name status reason : string) (now : Z) : PreflightValidationModuleStatus :=
  {| pvm_base := {| crs_VerificationStatus := status; crs_StatusReason := reason;
                    crs_VerificationStage := if verified status then VerificationStageDone else VerificationStageImage;
                    crs_LastTransitionTime := now |};
     pvm_Name := name; pvm_Namespace := ns |}.

Lemma pv_SetModuleStatus_upsert pv ns name status reason now :
  pv_status_Modules (pv_SetModuleStatus pv ns name status reason now) =
  upsert (key_is pvm_key (nsn ns name)) (pvm_new ns name status reason now) (pv_status_Modules pv).
Proof. unfold pv_SetModuleStatus. simpl. apply upsert_ext. apply pvm_matches_key. Qed.

Lemma recorded_set pv ns name status reason now k :
  recorded (pv_SetModuleStatus pv ns name status reason now) k =
  if decide (k = nsn ns name) then Some (status, reason) else recorded pv k.
Proof.
  unfold recorded, pv_map. rewrite pv_SetModuleStatus_upsert.
  change (nsn ns name) with (pvm_key (pvm_new ns name status reason now)). rewrite keyed_map_upsert.
  case_decide as E; [by rewrite E, lookup_insert_eq|by rewrite lookup_insert_ne].
Qed.

Lemma pv_typed_set pv ns name status reason now :
  status ∈ [VerificationSuccess; VerificationFailure; VerificationInProgress] →
  pv_typed pv → pv_typed (pv_SetModuleStatus pv ns name status reason now).
Proof.
  intros Hs [Hnd Hty]. unfold pv_typed. rewrite pv_SetModuleStatus_upsert.
  change (nsn ns name) with (pvm_key (pvm_new ns name status reason now)). split; [by apply upsert_NoDup_keys|].
  apply Forall_forall. intros s [->|H]%elem_of_upsert; [|by eapply Forall_forall in Hty]. by split.
Qed.

Lemma image_verdict_status b st :
  (image_verdict b st).1 ∈ [VerificationSuccess; VerificationFailure; VerificationInProgress].
Proof. destruct st; set_solver. Qed.

(** What the answer to the request for its ModuleImagesConfig means for a module. *)
Definition mic_verdict (m : ModuleLoaderData) (x : result ModuleImagesConfig) : string * string :=
  match x with
  | Ok foundMIC => image_verdict (has_build_or_sign m) (GetImageState foundMIC (mld_ContainerImage m))
  | Err _ => (VerificationInProgress, "verification is not finished yet")
  end.

(** The request for the ModuleImagesConfig of a module, and what its answer says of the module. *)
Definition mic_read (m : ModuleLoaderData) : call := Get KMIC (nsn (mld_Namespace m) (mld_Name m +:+ "-preflight")).

Inductive verdict (m : ModuleLoaderData) : result ModuleImagesConfig → string → string → Prop :=
| v_unread e : verdict m (Err e) "InProgress" "verification is not finished yet"
| v_pending mic :
    GetImageState mic (mld_ContainerImage m) ≠ ImageExists → GetImageState mic (mld_ContainerImage m) ≠ ImageDoesNotExist →
    verdict m (Ok mic) "InProgress" "verification is not finished yet"
| v_exists mic : GetImageState mic (mld_ContainerImage m) = ImageExists → verdict m (Ok mic) "Success" "verified image exists"
| v_missing mic :
    GetImageState mic (mld_ContainerImage m) = ImageDoesNotExist → mld_Build m = None → mld_Sign m = None →
    verdict m (Ok mic) "Failure" "verified image does not exist"
| v_not_made mic :
    GetImageState mic (mld_ContainerImage m) = ImageDoesNotExist → is_Some (mld_Build m) ∨ is_Some (mld_Sign m) →
    verdict m (Ok mic) "Failure" "verified image does not exist and build/sign failed".

Lemma mic_verdict_correct m x : verdict m x (mic_verdict m x).1 (mic_verdict m x).2.
Proof.
  destruct x as [mic|e]; [|constructor]. simpl. destruct (GetImageState mic _) eqn:E; simpl; try (apply v_pending; congruence); [by apply v_exists|].
  unfold has_build_or_sign. destruct (mld_Build m) eqn:Eb, (mld_Sign m) eqn:Es; simpl.
  4: by apply v_missing.
  all: apply v_not_made; [done|]; eauto.
Qed.

(** The status in hand, compared with the one at the start. *)
Definition same_but_modules (pv new : PreflightValidation) : Prop := pv_meta new = pv_meta pv ∧ pv_spec new = pv_spec pv.

Lemma mic_verdict_status m x : (mic_verdict m x).1 ∈ [VerificationSuccess; VerificationFailure; VerificationInProgress].
Proof. destruct x; simpl; [apply image_verdict_status|set_solver]. Qed.

Lemma set_mapped_wp m pv :
  wp (set_mapped m pv) (λ tr pv', ∃ x now, tr = [Obs (mic_read m) x; Obs TimeNow now] ∧
    pv' = pv_SetModuleStatus pv (mld_Namespace m) (mld_Name m) (mic_verdict m x).1 (mic_verdict m x).2 now).
Proof.
  intros [foundMIC|e]; cbn.
  - destruct (image_verdict _ _) as [status reason] eqn:E. intros now. exists (Ok foundMIC), now. simpl. by rewrite E.
  - intros now. by exists (Err e), now.
Qed.

(** The status a pass computes and saves. *)
Definition status_saved (mapped : list ModuleLoaderData) (unmapped : list NamespacedName) (pv new : PreflightValidation) (reads : list obs) : Prop :=
  same_but_modules pv new ∧ (pv_typed pv → pv_typed new) ∧
  (∀ k, k ∉ unmapped → k ∉ (mld_key <$> mapped) → recorded new k = recorded pv k) ∧
  (∀ k, k ∈ unmapped → k ∉ (mld_key <$> mapped) → recorded new k = Some (VerificationFailure, "mapping not found")) ∧
  (NoDup (mld_key <$> mapped) → ∀ m, m ∈ mapped →
     ∃ x, Obs (mic_read m) x ∈ reads ∧ recorded new (mld_key m) = Some (mic_verdict m x)).

Lemma set_unmapped_loop l pv :
  wp (for_range l set_unmapped pv) (λ tr new,
    Forall (λ o, mutates (obs_call o) = false) tr ∧ status_saved [] l pv new tr).
Proof.
  eapply wp_mono; [|apply (wp_for_range _ (λ rest tr new, ∃ done_, l = done_ ++ rest ∧
    Forall (λ o, mutates (obs_call o) = false) tr ∧ same_but_modules pv new ∧ (pv_typed pv → pv_typed new) ∧
    ∀ k, recorded new k = if decide (k ∈ done_) then Some (VerificationFailure, "mapping not found") else recorded pv k))].
  - intros tr new (d & Hd & Hr & Hs & Ht & Hrec). rewrite app_nil_r in Hd. subst d.
    split; [done|]. split_and!; [apply Hs..|done| | |].
    + intros k Hk _. rewrite Hrec. by rewrite decide_False.
    + intros k Hk _. rewrite Hrec. by rewrite decide_True.
    + intros _ m Hm. inversion Hm.
  - exists []. split_and!; [done..|]. intros k. by rewrite decide_False by (apply not_elem_of_nil).
  - intros m rest tr new (d & -> & Hr & Hs & Ht & Hrec) now. simpl. exists (d ++ [m]).
    split_and!; [by rewrite <-app_assoc|apply Forall_app; split; [done|by repeat constructor]|apply Hs| |].
    + intros H. apply pv_typed_set; [set_solver|auto].
    + intros k. rewrite recorded_set. destruct m as [ns name]. simpl. change {| nsn_Namespace := ns; nsn_Name := name |} with (nsn ns name).
      destruct (decide (k = nsn ns name)) as [->|Hne].
      * rewrite decide_True; [done|]. set_solver.
      * rewrite Hrec. destruct (decide (k ∈ d)); [rewrite decide_True by set_solver; done|].
        rewrite decide_False; [done|]. set_solver.
Qed.

Lemma set_mapped_loop l pv :
  wp (for_range l set_mapped pv) (λ tr new,
    Forall (λ o, mutates (obs_call o) = false) tr ∧ status_saved l [] pv new tr).
Proof.
  eapply wp_mono; [|apply (wp_for_range _ (λ rest tr new, ∃ done_, l = done_ ++ rest ∧
    Forall (λ o, mutates (obs_call o) = false) tr ∧ status_saved done_ [] pv new tr))].
  - intros tr new (d & Hd & H). rewrite app_nil_r in Hd. by subst d.
  - exists []. split_and!; [done..|]. split_and!; [done..|]. intros _ m Hm. inversion Hm.
  - intros m rest tr new (d & -> & Hr & [Hm1 Hm2] & Ht & Hother & _ & Hmap).
    eapply wp_mono; [|apply set_mapped_wp]. intros tr' new' (x & now & -> & ->). exists (d ++ [m]).
    split_and!; [by rewrite <-app_assoc|apply Forall_app; split; [done|by repeat constructor]|].
    split_and!; [done..| | | |].
    + intros H. apply pv_typed_set; [apply mic_verdict_status|auto].
    + intros k _ Hk. rewrite fmap_app, not_elem_of_app in Hk. destruct Hk as [Hk1 Hk2].
      rewrite recorded_set, decide_False by set_solver. apply Hother; [apply not_elem_of_nil|done].
    + intros k Hk. inversion Hk.
    + rewrite fmap_app. intros (Hnd & Hdis & _)%NoDup_app m' [Hm'|Hm']%elem_of_app.
      * destruct (Hmap Hnd m' Hm') as (x' & Hx' & Hrec). exists x'. split; [set_solver|].
        rewrite recorded_set, decide_False; [done|]. intros E. apply (Hdis (mld_key m')); [by apply list_elem_of_fmap_2|].
        rewrite E. by left.
      * apply list_elem_of_singleton in Hm' as ->. exists x. split; [set_solver|].
        rewrite recorded_set. change (nsn (mld_Namespace m) (mld_Name m)) with (mld_key m). rewrite decide_True by done.
        by destruct (mic_verdict m x).
Qed.

Lemma pv_updateStatus_wp mapped unmapped pv :
  wp (pv_updateStatus mapped unmapped pv) (λ tr r, ∃ reads new x,
    tr = reads ++ [Obs (StatusPatch KPreflight pv new) x] ∧
    Forall (λ o, mutates (obs_call o) = false) reads ∧ status_saved mapped unmapped pv new reads ∧
    r = match x with Ok saved => (saved, None) | Err e => (new, Some e) end).
Proof.
  unfold pv_updateStatus. apply wp_bind. eapply wp_mono; [|apply set_unmapped_loop].
  intros tr1 pv1 (Hr1 & [Hm1 Hm2] & Ht1 & Ho1 & Hu1 & _). apply wp_bind. eapply wp_mono; [|apply set_mapped_loop].
  intros tr2 pv2 (Hr2 & [Hn1 Hn2] & Ht2 & Ho2 & Hu2 & Hmap2).
  assert (status_saved mapped unmapped pv pv2 (tr1 ++ tr2)) as Hsaved.
  { split_and!; [by split; [rewrite Hn1|rewrite Hn2]|auto| | |].
    - intros k Hk Hk'. rewrite Ho2 by (done || apply not_elem_of_nil). apply Ho1; [done|apply not_elem_of_nil].
    - intros k Hk Hk'. rewrite Ho2 by (done || apply not_elem_of_nil). apply Hu1; [done|apply not_elem_of_nil].
    - intros Hnd m Hm. destruct (Hmap2 Hnd m Hm) as (x & Hx & Hrec). exists x. split; [set_solver|done]. }
  intros [saved|e]; cbn; exists (tr1 ++ tr2), pv2; [exists (Ok saved)|exists (Err e)].
  all: split_and!; [by rewrite <-app_assoc|apply Forall_app; by split|done|done].
Qed.

(** ** The modules of a pass *)

Definition mod_nsn (m : Module_) : NamespacedName := nsn (mod_Namespace m) (mod_Name m).
Definition live (m : Module_) : Prop := om_DeletionTimestamp (mod_meta m) = None.
#[local] Instance live_dec m : Decision (live m).
Proof. unfold live. apply _. Defined.

Definition unmapped_for (kernel : string) (m : Module_) : Prop :=
  ∃ e, GetModuleLoaderDataForKernel m kernel = Err e ∧ errors_Is e ErrNoMatchingKernelMapping = true.

Lemma modules_data_Ok kernel mods mapped0 unmapped0 mapped unmapped :
  modules_data kernel mods mapped0 unmapped0 = Ok (mapped, unmapped) →
  ∃ ms us, mapped = mapped0 ++ ms ∧ unmapped = unmapped0 ++ us ∧
    (∀ m, m ∈ filter live mods → (∃ mld, GetModuleLoaderDataForKernel m kernel = Ok mld) ∨ unmapped_for kernel m) ∧
    (∀ mld, mld ∈ ms ↔ ∃ m, m ∈ filter live mods ∧ GetModuleLoaderDataForKernel m kernel = Ok mld) ∧
    (∀ k, k ∈ us ↔ ∃ m, m ∈ filter live mods ∧ unmapped_for kernel m ∧ k = mod_nsn m) ∧
    (NoDup (mod_nsn <$> mods) → NoDup (mld_key <$> ms)).
Proof.
  revert mapped0 unmapped0. induction mods as [|m mods IH]; intros mapped0 unmapped0; simpl.
  - intros [= <- <-]. exists [], []. rewrite !app_nil_r. split_and!; [done..|set_solver|set_solver|set_solver|constructor].
  - rewrite filter_cons. destruct (om_DeletionTimestamp (mod_meta m)) eqn:Ed.
    { intros (ms & us & ? & ? & ? & ? & ? & Hnd)%IH. exists ms, us. rewrite decide_False by (unfold live; congruence). split_and!; try done.
      intros [_ HN]%NoDup_cons. auto. }
    rewrite decide_True by done. clear Ed. destruct (GetModuleLoaderDataForKernel m kernel) as [mld|e] eqn:Em.
    + intros (ms & us & -> & -> & H1 & H2 & H3 & Hnd)%IH. exists (mld :: ms), us. rewrite <-app_assoc. split_and!; [done..| | | |].
      * intros m' [->|?]%elem_of_cons; eauto.
      * intros mld'. rewrite elem_of_cons, H2. setoid_rewrite elem_of_cons. split; [by intros [->|(m' & ? & ?)]; eauto|].
        intros (m' & [->|?] & Hm'); [left; congruence|eauto].
      * intros k. rewrite H3. setoid_rewrite elem_of_cons. split; [by intros (m' & ? & ?); eauto|].
        intros (m' & [->|?] & (e & He & _) & Hk); [congruence|]. exists m'. split_and!; [done| |done].
        destruct (H1 m') as [[mld' ?]|?]; [done|congruence|done].
      * intros [Hm Hmods]%NoDup_cons. apply NoDup_cons. split; [|auto].
        intros (mld' & Hk & (m' & Hm' & Hmld')%H2)%list_elem_of_fmap. apply Hm.
        apply GetModuleLoaderDataForKernel_identity in Em as (E1 & E2 & _). apply GetModuleLoaderDataForKernel_identity in Hmld' as (E3 & E4 & _).
        unfold mld_key in Hk. rewrite E1, E2, E3, E4 in Hk. change (mod_nsn m = mod_nsn m') in Hk. rewrite Hk.
        apply list_elem_of_filter in Hm' as [_ Hm']. by apply list_elem_of_fmap_2.
    + destruct (errors_Is e ErrNoMatchingKernelMapping) eqn:Ee; simpl; [|done].
      intros (ms & us & -> & -> & H1 & H2 & H3 & Hnd)%IH. exists ms, (mod_nsn m :: us). rewrite <-app_assoc. split_and!; [done..| | | |].
      * intros m' [->|?]%elem_of_cons; [right; by exists e|auto].
      * intros mld'. rewrite H2. setoid_rewrite elem_of_cons. split; [by intros (m' & ? & ?); eauto|].
        intros (m' & [->|?] & Hm'); [congruence|eauto].
      * intros k. rewrite elem_of_cons, H3. setoid_rewrite elem_of_cons. split; [|intros (m' & [->|?] & ? & ->); eauto].
        intros [->|(m' & ? & ? & ?)]; [|eauto]. exists m. split_and!; [by left|by exists e|done].
      * intros [_ H]%NoDup_cons. auto.
Qed.

(** The data of the live modules that have a mapping, and the modules that end the pass. *)
Definition resolved (kernel : string) (mods : list Module_) : list ModuleLoaderData :=
  omap (λ m, match GetModuleLoaderDataForKernel m kernel with Ok mld => Some mld | Err _ => None end) (filter live mods).

Definition unusable_for (kernel : string) (m : Module_) : Prop :=
  ∃ e, GetModuleLoaderDataForKernel m kernel = Err e ∧ errors_Is e ErrNoMatchingKernelMapping = false.

Lemma modules_data_resolved kernel mods mapped0 unmapped0 :
  match modules_data kernel mods mapped0 unmapped0 with
  | Ok (mapped, _) => mapped = mapped0 ++ resolved kernel mods ∧ Forall (λ m, ¬ unusable_for kernel m) (filter live mods)
  | Err _ => Exists (unusable_for kernel) (filter live mods)
  end.
Proof.
  unfold resolved. revert mapped0 unmapped0. induction mods as [|m mods IH]; intros mapped0 unmapped0; simpl; [by rewrite app_nil_r|].
  rewrite filter_cons. destruct (om_DeletionTimestamp (mod_meta m)) eqn:Ed.
  { rewrite decide_False by (unfold live; congruence). apply IH. }
  rewrite decide_True by done. simpl. destruct (GetModuleLoaderDataForKernel m kernel) as [mld|e] eqn:Em.
  - specialize (IH (mapped0 ++ [mld]) unmapped0). destruct (modules_data _ _ _ _) as [[mapped unmapped]|e]; [|by right].
    destruct IH as [-> Hall]. rewrite <-app_assoc. split; [done|]. constructor; [|done]. intros (e & He & _). congruence.
  - destruct (errors_Is e ErrNoMatchingKernelMapping) eqn:Ee; simpl; [|left; by exists e].
    specialize (IH mapped0 (unmapped0 ++ [nsn (mod_Namespace m) (mod_Name m)])). destruct (modules_data _ _ _ _) as [[mapped unmapped]|e']; [|by right].
    destruct IH as [-> Hall]. split; [done|]. constructor; [|done]. intros (e' & He & H). congruence.
Qed.

(** ** The requests of a pass *)

Definition mic_request (pv : PreflightValidation) (m : ModuleLoaderData) : call :=
  CreateOrPatch KMIC (empty_mic (mld_Namespace m) (mld_Name m +:+ "-preflight"))
    (mic_mutate "PreflightValidation" (pv_meta pv)
       {| mics_Images :=
            [{| mis_Image := mld_ContainerImage m; mis_KernelVersion := mld_KernelVersion m; mis_Build := mld_Build m;
                mis_Sign := mld_Sign m; mis_SkipWaitMissingImage := false; mis_RegistryTLS := mld_RegistryTLS m;
                mis_DirName := mp_DirName (mld_Modprobe m) |}];
          mics_ImageRepoSecret := mld_ImageRepoSecret m;
          mics_ImagePullPolicy := mld_ImagePullPolicy m; mics_PushBuiltImage := pvs_PushBuiltImage (pv_spec pv);
          mics_ImageRebuildTriggerGeneration := None; mics_Tolerations := mld_Tolerations m |}).

(** The modules of the pass whose status in [pv] is not final. *)
Definition unsettled (pv : PreflightValidation) (mapped : list ModuleLoaderData) : list ModuleLoaderData :=
  filter (λ m, (fst <$> recorded pv (mld_key m)) ≠ Some "Success" ∧ (fst <$> recorded pv (mld_key m)) ≠ Some "Failure") mapped.

Lemma verified_reflect pv m :
  reflect ((fst <$> recorded pv (mld_key m)) = Some "Success" ∨ (fst <$> recorded pv (mld_key m)) = Some "Failure")
          (verified (pv_GetModuleStatus pv (mld_Namespace m) (mld_Name m))).
Proof.
  rewrite pv_GetModuleStatus_recorded. fold (mld_key m). unfold verified.
  destruct (fst <$> recorded pv (mld_key m)) as [st|]; simpl; [|constructor; naive_solver].
  destruct (String.eqb_spec st VerificationFailure) as [->|H1]; [constructor; by right|].
  destruct (String.eqb_spec st VerificationSuccess) as [->|H2]; [constructor; by left|].
  constructor. unfold VerificationFailure, VerificationSuccess in *. naive_solver.
Qed.

Lemma processPreflightValidation_wp mapped pv :
  wp (processPreflightValidation mapped pv) (λ tr err,
    obs_call <$> tr = mic_request pv <$> unsettled pv mapped ∧
    (err = None ↔ Forall (λ o, succeeded o = true) tr)).
Proof.
  unfold processPreflightValidation. apply wp_bind. eapply wp_mono; [|apply (wp_for_range _ (λ rest tr errs,
    ∃ d, mapped = d ++ rest ∧ obs_call <$> tr = mic_request pv <$> unsettled pv d ∧
      (errors_Join errs = None ↔ Forall (λ o, succeeded o = true) tr)))].
  - intros tr errs (d & Hd & Htr & Herr). rewrite app_nil_r in Hd. subst d. simpl. by rewrite app_nil_r.
  - exists []. split_and!; [done..|]. by split; [constructor|].
  - intros m rest tr errs (d & -> & Htr & Herr). unfold process_module.
    assert (unsettled pv (d ++ [m]) = unsettled pv d ++
              if verified (pv_GetModuleStatus pv (mld_Namespace m) (mld_Name m)) then [] else [m]) as Hu.
    { unfold unsettled. rewrite filter_app, filter_cons. destruct (verified_reflect pv m) as [H|H].
      - by rewrite decide_False by tauto.
      - by rewrite decide_True by tauto. }
    destruct (verified _) eqn:Ev.
    + exists (d ++ [m]). rewrite Hu, !app_nil_r, <-app_assoc. done.
    + intros x. cbn. exists (d ++ [m]). rewrite Hu, fmap_app, Htr, fmap_app, <-app_assoc. split_and!; [done|by destruct x|].
      rewrite Forall_app, <-Herr. destruct x as [o|e]; simpl.
      * rewrite Forall_singleton. simpl. naive_solver.
      * rewrite errors_Join_app. split; [intros [_ H]; discriminate H|]. intros [_ H]. inversion H. simpl in *. discriminate.
Qed.

(** What a pass records, in terms of the listed modules. *)
Definition pass_records (kernel : string) (mods : list Module_) (pv new : PreflightValidation) (reads : list obs) : Prop :=
  (∀ m, m ∈ mods → live m → unmapped_for kernel m → recorded new (mod_nsn m) = Some (VerificationFailure, "mapping not found")) ∧
  (∀ m mld, m ∈ mods → live m → GetModuleLoaderDataForKernel m kernel = Ok mld →
     ∃ x status reason, Obs (mic_read mld) x ∈ reads ∧ verdict mld x status reason ∧ recorded new (mod_nsn m) = Some (status, reason)) ∧
  (∀ k, (∀ m, m ∈ mods → live m → mod_nsn m ≠ k) → recorded new k = recorded pv k).

Lemma mld_key_of m kernel mld : GetModuleLoaderDataForKernel m kernel = Ok mld → mld_key mld = mod_nsn m.
Proof. intros (E1 & E2 & _)%GetModuleLoaderDataForKernel_identity. unfold mld_key, mod_nsn. by rewrite E1, E2. Qed.

Lemma status_saved_records kernel mods mapped unmapped pv new reads :
  modules_data kernel mods [] [] = Ok (mapped, unmapped) → NoDup (mod_nsn <$> mods) →
  status_saved mapped unmapped pv new reads → pass_records kernel mods pv new reads.
Proof.
  intros (ms & us & Em & Eu & Hall & Hms & Hus & Hnd)%modules_data_Ok Hmods (_ & _ & Ho & Hu & Hm).
  simpl in Em, Eu. subst mapped unmapped. specialize (Hnd Hmods). split_and!.
  - intros m Hin Hl Hun. apply Hu; [apply Hus; exists m; by rewrite list_elem_of_filter|].
    intros (mld & Hk & (m' & [Hl' Hin']%list_elem_of_filter & Hm')%Hms)%list_elem_of_fmap.
    apply mld_key_of in Hm' as Hk'. rewrite Hk' in Hk. apply (NoDup_fmap_inj _ _ _ _ Hmods Hin Hin') in Hk as ->.
    destruct Hun as (e & He & _). congruence.
  - intros m mld Hin Hl Hmld. apply mld_key_of in Hmld as Hk. rewrite <-Hk. destruct (Hm Hnd mld) as (x & Hx & Hr).
    { apply Hms. exists m. by rewrite list_elem_of_filter. }
    exists x, (mic_verdict mld x).1, (mic_verdict mld x).2. split_and!; [done|apply mic_verdict_correct|]. rewrite Hr. by destruct (mic_verdict mld x).
  - intros k Hk. apply Ho.
    + intros (m & [Hl Hin]%list_elem_of_filter & _ & E)%Hus. by apply (Hk m).
    + intros (mld & E & (m & [Hl Hin]%list_elem_of_filter & Hmld)%Hms)%list_elem_of_fmap.
      apply mld_key_of in Hmld. apply (Hk m); congruence.
Qed.


(** C22: every status a pass sends is well typed if the current one is: one entry per module, with one
    of the three declared statuses and stage Done exactly for the final ones; metadata and spec are
    left alone. *)
Theorem preflight_status_typed pv :
  pv_typed pv →
  wp (PreflightValidation_Reconcile pv) (λ tr _, ∀ base new x,
    Obs (StatusPatch KPreflight base new) x ∈ tr → base = pv ∧ same_but_modules pv new ∧ pv_typed new).
Proof.
  intros Hty. unfold PreflightValidation_Reconcile. intros [mods|e]; cbn; [|set_solver].
  destruct (modules_data _ mods [] []) as [[mapped unmapped]|e] eqn:Ed; [|set_solver].
  apply (wp_bind _ _ (λ tr r, _)). eapply wp_mono; [|apply pv_updateStatus_wp].
  intros tr r (reads & new & x & -> & Hreads & (Hsame & Htyped & _) & ->).
  assert (∀ post base new' x', Forall (λ o, match obs_call o with StatusPatch _ _ _ => false | _ => true end = true) post →
    Obs (StatusPatch KPreflight base new') x' ∈ Obs (ListAll KModule []) (Ok mods) :: (reads ++ [Obs (StatusPatch KPreflight pv new) x]) ++ post →
    base = pv ∧ same_but_modules pv new' ∧ pv_typed new') as Hin.
  { intros post base new' x' Hpost. rewrite Forall_forall in Hreads, Hpost. rewrite elem_of_cons, !elem_of_app, list_elem_of_singleton.
    intros [H|[[H|H]|H]]; [discriminate H|by apply Hreads in H| |by apply Hpost in H].
    assert (base = pv ∧ new' = new) as [-> ->]; [|auto].
    exact (conj (f_equal (λ o, match obs_call o with StatusPatch KPreflight b _ => b | _ => pv end) H)
                (f_equal (λ o, match obs_call o with StatusPatch KPreflight _ n => n | _ => new end) H)). }
  destruct x as [saved|e].
  - apply (wp_bind _ _ (λ tr r, _)). eapply wp_mono; [|apply processPreflightValidation_wp]. intros post err [Hpost _].
    intros base new' x'. rewrite app_nil_r. apply Hin.
    apply (Forall_obs_call (λ c, match c with StatusPatch _ _ _ => false | _ => true end = true)).
    rewrite Hpost. apply Forall_fmap, Forall_forall. done.
  - intros base new' x'. apply Hin. constructor.
Qed.

(** A module without a module loader section (a device plugin alone) makes every pass that meets
    it panic: no module gets a status. *)
Lemma preflight_panics_without_loader pv m mods :
  live m → ms_ModuleLoader (mod_spec m) = None →
  exec (PreflightValidation_Reconcile pv) [Obs (ListAll KModule []) (Ok (m :: mods))] (Some (ErrPanic "nil ModuleLoader")).
Proof.
  intros Hl Hml. exists (Ok (m :: mods)), []. split; [done|]. cbn. unfold live in Hl. rewrite Hl.
  unfold GetModuleLoaderDataForKernel. by rewrite Hml.
Qed.

(** Recording the status a module already has moves its transition time. *)
Lemma transition_time_moves pv ns name status reason now now' :
  (λ s, crs_LastTransitionTime (pvm_base s)) <$>
    pv_map (pv_SetModuleStatus (pv_SetModuleStatus pv ns name status reason now) ns name status reason now') !! nsn ns name = Some now'.
Proof.
  unfold pv_map. rewrite pv_SetModuleStatus_upsert.
  change (nsn ns name) with (pvm_key (pvm_new ns name status reason now')). by rewrite keyed_map_upsert, lookup_insert_eq.
Qed.
End preflight.

(** ** Witness *)

Definition demo_pv : PreflightValidation :=
  {| pv_meta := empty_meta "" "preflight"; pv_spec := {| pvs_KernelVersion := "6.1.0"; pvs_PushBuiltImage := false |};
     pv_status_Modules := [pvm_new "ns" "old" VerificationInProgress "verification is not finished yet" 1%Z] |}.

Lemma preflight_status_typed_witness :
  pv_typed demo_pv ∧
  wp (PreflightValidation_Reconcile (EXT := demo_externals) demo_pv) (λ tr _, ∀ base new x,
    Obs (StatusPatch KPreflight base new) x ∈ tr → NoDup (pvm_key <$> pv_status_Modules new)).
Proof.
  assert (pv_typed demo_pv) as H.
  { split; [apply NoDup_singleton|]. apply Forall_singleton. split; [|reflexivity]. right. right. left. }
  split; [exact H|]. eapply wp_mono; [|exact (preflight_status_typed (EXT := demo_externals) demo_pv H)].
  intros tr r Hall base new x Hin. destruct (Hall base new x Hin) as (_ & _ & Hnd & _). exact Hnd.
Defined.
