(* ===== verification/Hub.v ===== *)
(** * Hub and spoke ([internal/cluster], [internal/manifestwork], [internal/statusupdater],
    [internal/controllers/hub/managedclustermodule_reconciler.go])

    On the hub a ManagedClusterModule selects clusters.  For each one the hub resolves the kernels
    the cluster reports, has the images built on the hub, and then sends the module as a
    ManifestWork whose kernel mappings are literals.

    The reconciler passes its ManagedClusterModule by value to the function that fills the
    ManifestWork, but the module loader section is behind a pointer: the function writes to the
    caller's section.  [shared_writes] is the caller's object after those writes, and the loop
    over the clusters continues with it. *)

From S2P Require Import Prelude Types Kube GoStrings Externals Demo Labels NmcHelper Node KernelMapper BuildSign Mic ModuleReconciler Webhook Filter Jobs.

Open Scope string_scope.
Open Scope nat_scope.
Open Scope list_scope.

(** ** [internal/cluster/cluster.go] *)

Definition SelectedManagedClusters (mcm : ManagedClusterModule) : prog (result (list ManagedCluster)) :=
  list_all KManagedCluster [MatchingLabels (mcms_Selector (mcm_spec mcm))].

Definition KernelVersions (cluster : ManagedCluster) : result (list string) :=
  match find_first (λ c, String.eqb (mcc_Name c) constants.KernelVersionsClusterClaimName) (mcl_ClusterClaims cluster) with
  | Some clusterClaim => Ok (sort_Strings (split_on (is_char "010") (mcc_Value clusterClaim)))
  | None => Err (ErrNew "KMM kernel version ClusterClaim not found")
  end.

Definition mcl_Name (c : ManagedCluster) : string := om_Name (mcl_meta c).

Definition zero_status : ModuleStatus :=
  {| mst_DevicePlugin := empty_ds_status; mst_DRA := empty_ds_status; mst_ModuleLoader := empty_ds_status;
     mst_ImageRebuildTriggerGeneration := None |}.

(** The module of a managed cluster module in a namespace. *)
Definition mcm_module (mcm : ManagedClusterModule) (namespace : string) : Module_ :=
  {| mod_meta := empty_meta namespace (mcm_Name mcm); mod_spec := mcms_ModuleSpec (mcm_spec mcm); mod_status := zero_status |}.

(** ** [internal/manifestwork/manifestwork.go] *)

Definition moduleStatusJSONPaths : list JsonPath :=
  (λ n, {| jp_Name := n; jp_Path := ".status." +:+ n |}) <$>
  ["devicePlugin.availableNumber"; "devicePlugin.desiredNumber"; "devicePlugin.nodesMatchingSelectorNumber";
   "dra.availableNumber"; "dra.desiredNumber"; "dra.nodesMatchingSelectorNumber";
   "moduleLoader.availableNumber"; "moduleLoader.desiredNumber"; "moduleLoader.nodesMatchingSelectorNumber"].

(** [kmmv1beta1.GroupVersion.Group]. *)
Definition GroupName := "kmm.sigs.x-k8s.io".

Definition getOwnedManifestWorks (mcm : ManagedClusterModule) : prog (result (list ManifestWork)) :=
  list_all KManifestWork [MatchingLabels {[ constants.ManagedClusterModuleNameLabel := mcm_Name mcm ]}].

Fixpoint mw_delete_loop (clusterNames : gset string) (works : list ManifestWork) : prog (option error) :=
  match works with
  | [] => mret None
  | mw :: works =>
      if bool_decide (mw_Namespace mw ∈ clusterNames) then mw_delete_loop clusterNames works
      else
        err ← delete_obj KManifestWork mw;
        match err with
        | Some e => mret (Some (Errorf_w "failed to delete ManifestWork %s/%s: %w" e))
        | None => mw_delete_loop clusterNames works
        end
  end.

Definition mw_GarbageCollect (clusters : list ManagedCluster) (mcm : ManagedClusterModule) : prog (option error) :=
  r ← getOwnedManifestWorks mcm;
  match r with
  | Err e => mret (Some (Errorf_w "failed to get owned ManifestWorks: %w" e))
  | Ok manifestWorks => mw_delete_loop (list_to_set (mcl_Name <$> clusters)) manifestWorks
  end.

Definition GetOwnedManifestWorks := getOwnedManifestWorks.

Definition mappingFromModuleLoaderData (mld : ModuleLoaderData) : KernelMapping :=
  {| km_Build := None; km_Sign := None; km_ContainerImage := mld_ContainerImage mld;
     km_Literal := mld_KernelVersion mld; km_RegistryTLS := None; km_Regexp := "";
     km_InTreeModuleToRemove := ""; km_InTreeModulesToRemove := mld_InTreeModulesToRemove mld |}.

(** Assignments to fields of the module loader's container. *)
Definition clear_build_sign (ml : ModuleLoaderSpec) : ModuleLoaderSpec :=
  let c := ml_Container ml in
  {| ml_Container :=
       {| mlc_Build := None; mlc_Sign := None; mlc_Version := mlc_Version c; mlc_ContainerImage := mlc_ContainerImage c;
          mlc_ImagePullPolicy := mlc_ImagePullPolicy c; mlc_KernelMappings := mlc_KernelMappings c;
          mlc_Modprobe := mlc_Modprobe c; mlc_RegistryTLS := mlc_RegistryTLS c;
          mlc_InTreeModuleToRemove := mlc_InTreeModuleToRemove c; mlc_InTreeModulesToRemove := mlc_InTreeModulesToRemove c |};
     ml_ServiceAccountName := ml_ServiceAccountName ml |}.

Definition set_mappings (ml : ModuleLoaderSpec) (mappings : list KernelMapping) : ModuleLoaderSpec :=
  let c := ml_Container ml in
  {| ml_Container :=
       {| mlc_Build := mlc_Build c; mlc_Sign := mlc_Sign c; mlc_Version := mlc_Version c; mlc_ContainerImage := mlc_ContainerImage c;
          mlc_ImagePullPolicy := mlc_ImagePullPolicy c; mlc_KernelMappings := mappings;
          mlc_Modprobe := mlc_Modprobe c; mlc_RegistryTLS := mlc_RegistryTLS c;
          mlc_InTreeModuleToRemove := mlc_InTreeModuleToRemove c; mlc_InTreeModulesToRemove := mlc_InTreeModulesToRemove c |};
     ml_ServiceAccountName := ml_ServiceAccountName ml |}.

Definition mcm_set_loader (mcm : ManagedClusterModule) (ml : ModuleLoaderSpec) : ManagedClusterModule :=
  let s := mcms_ModuleSpec (mcm_spec mcm) in
  mcm_set_spec mcm
    {| mcms_ModuleSpec :=
         {| ms_DevicePlugin := ms_DevicePlugin s; ms_DRA := ms_DRA s; ms_ModuleLoader := Some ml;
            ms_ImageRepoSecret := ms_ImageRepoSecret s; ms_Selector := ms_Selector s; ms_Tolerations := ms_Tolerations s;
            ms_ImageRebuildTriggerGeneration := ms_ImageRebuildTriggerGeneration s |};
       mcms_SpokeNamespace := mcms_SpokeNamespace (mcm_spec mcm); mcms_Selector := mcms_Selector (mcm_spec mcm) |}.

Definition mcm_loader (mcm : ManagedClusterModule) : option ModuleLoaderSpec := ms_ModuleLoader (mcms_ModuleSpec (mcm_spec mcm)).

Definition trim_kernel (k : string) : string := TrimSuffix k "+".

Section hub.
Context `{EXT : Externals}.

(** The namespace is the operator's, where the images are built. *)
Definition cluster_GetModuleLoaderDataForKernel (namespace : string) (mcm : ManagedClusterModule) (kernelVersion : string) : result ModuleLoaderData :=
  GetModuleLoaderDataForKernel (mcm_module mcm namespace) kernelVersion.

Definition managedClusterKernelMappings (mcm : ManagedClusterModule) (kernelVersions : list string) : list KernelMapping :=
  let mod_ := mcm_module mcm (mcms_SpokeNamespace (mcm_spec mcm)) in
  omap (λ kernelVersion,
          match GetModuleLoaderDataForKernel mod_ (trim_kernel kernelVersion) with
          | Err _ => None
          | Ok mld => Some (mappingFromModuleLoaderData mld)
          end) kernelVersions.

(** The caller's object after [SetManifestWorkAsDesired] wrote through the loader pointer. *)
Definition shared_writes (mcm : ManagedClusterModule) (kernelVersions : list string) : result ManagedClusterModule :=
  match mcm_loader mcm with
  | None => Err (ErrPanic "nil ModuleLoader")
  | Some ml =>
      let ml := clear_build_sign ml in
      let mcm := mcm_set_loader mcm ml in
      Ok (mcm_set_loader mcm (set_mappings ml (managedClusterKernelMappings mcm kernelVersions)))
  end.

Definition manifest_spec (mod_ : Module_) : ManifestWorkSpec :=
  {| mws_Manifests := [mod_];
     mws_ManifestConfigs :=
       [{| mco_ResourceIdentifier := {| ri_Group := GroupName; ri_Resource := "modules"; ri_Name := mod_Name mod_; ri_Namespace := mod_Namespace mod_ |};
           mco_JsonPaths := moduleStatusJSONPaths |}];
     mws_Other := "" |}.

Definition SetManifestWorkAsDesired (mcm : ManagedClusterModule) (kernelVersions : list string) (mw : ManifestWork) : result ManifestWork :=
  mcm ← shared_writes mcm kernelVersions;
  let mod_ := mcm_module mcm (mcms_SpokeNamespace (mcm_spec mcm)) in
  om ← SetControllerReference "ManagedClusterModule" (mcm_meta mcm)
         (meta_set_labels (mw_meta mw) {[ constants.ManagedClusterModuleNameLabel := mcm_Name mcm ]});
  Ok {| mw_meta := om; mw_spec := manifest_spec mod_; mw_Conditions := mw_Conditions mw |}.

(** ** [internal/statusupdater/statusupdater.go] *)

Definition condition_step (counts : Z * Z) (c : Condition) : Z * Z :=
  if negb (String.eqb (cond_Status c) ConditionTrue) then counts
  else if String.eqb (cond_Type c) WorkApplied then (int32 (counts.1 + 1), counts.2)
  else if String.eqb (cond_Type c) WorkDegraded then (counts.1, int32 (counts.2 + 1))
  else counts.

Definition work_counts (works : list ManifestWork) : Z * Z :=
  foldl (λ counts mw, foldl condition_step counts (mw_Conditions mw)) (0%Z, 0%Z) works.

Definition mcm_status_of (works : list ManifestWork) : ManagedClusterModuleStatus :=
  {| mcmst_NumberDesired := int32 (Z.of_nat (length works));
     mcmst_NumberApplied := (work_counts works).1;
     mcmst_NumberDegraded := (work_counts works).2 |}.

Definition ManagedClusterModuleUpdateStatus (mcm : ManagedClusterModule) (ownedManifestWorks : list ManifestWork) : prog (option error) :=
  '(_, err) ← status_patch KMCM mcm (mcm_set_status mcm (mcm_status_of ownedManifestWorks));
  mret err.

(** Not called by any controller. *)
Definition ModuleUpdateStatus (mod_ : Module_) (kernelMappingNodes targetedNodes : list Node) (existingDS : list DaemonSet) : prog (option error) :=
  let nodesMatchingSelectorNumber := int32 (Z.of_nat (length targetedNodes)) in
  let numDesired := int32 (Z.of_nat (length kernelMappingNodes)) in
  let numAvailableDevicePlugin := foldl (λ n ds, int32 (n + ds_status_NumberAvailable ds)) 0%Z existingDS in
  let st := mod_status mod_ in
  let loader := {| dss_NodesMatchingSelectorNumber := nodesMatchingSelectorNumber; dss_DesiredNumber := numDesired;
                   dss_AvailableNumber := dss_AvailableNumber (mst_ModuleLoader st) |} in
  let plugin := if is_some (ms_DevicePlugin (mod_spec mod_))
                then {| dss_NodesMatchingSelectorNumber := nodesMatchingSelectorNumber; dss_DesiredNumber := numDesired;
                        dss_AvailableNumber := numAvailableDevicePlugin |}
                else mst_DevicePlugin st in
  '(_, err) ← status_patch KModule mod_
      (mod_set_status mod_ {| mst_DevicePlugin := plugin; mst_DRA := mst_DRA st; mst_ModuleLoader := loader;
                              mst_ImageRebuildTriggerGeneration := mst_ImageRebuildTriggerGeneration st |});
  mret err.

(** ** [managedclustermodule_reconciler.go] *)

(** The namespace of the operator, where the images are built. *)
Context (operatorNamespace : string).

Definition hub_image (mld : ModuleLoaderData) : ModuleImageSpec :=
  {| mis_Image := mld_ContainerImage mld; mis_KernelVersion := mld_KernelVersion mld;
     mis_Build := mld_Build mld; mis_Sign := mld_Sign mld; mis_SkipWaitMissingImage := false;
     mis_RegistryTLS := mld_RegistryTLS mld; mis_DirName := mp_DirName (mld_Modprobe mld) |}.

Fixpoint hub_images (mcm : ManagedClusterModule) (kernelVersions : list string) (images : list ModuleImageSpec) : result (list ModuleImageSpec) :=
  match kernelVersions with
  | [] => Ok images
  | kver :: kernelVersions =>
      match cluster_GetModuleLoaderDataForKernel operatorNamespace mcm (trim_kernel kver) with
      | Err e =>
          if negb (errors_Is e ErrNoMatchingKernelMapping) then Err (rethrow_v "failed to get MLD for kernel %s: %v" e)
          else hub_images mcm kernelVersions images
      | Ok mld => hub_images mcm kernelVersions (images ++ [hub_image mld])
      end
  end.

Definition hub_mic (mcm : ManagedClusterModule) (clusterName : string) : string := mcm_Name mcm +:+ "-" +:+ clusterName.

Definition setMicAsDesired (mcm : ManagedClusterModule) (clusterName : string) (kernelVersions : list string) : prog (option error) :=
  match hub_images mcm kernelVersions [] with
  | Err e => mret (Some e)
  | Ok images =>
      match mcm_loader mcm with
      | None => mret (Some (ErrPanic "nil ModuleLoader"))
      | Some ml =>
          let s := mcms_ModuleSpec (mcm_spec mcm) in
          err ← mic_CreateOrPatch (hub_mic mcm clusterName) operatorNamespace images (ms_ImageRepoSecret s)
                  (mlc_ImagePullPolicy (ml_Container ml)) true (ms_ImageRebuildTriggerGeneration s) (ms_Tolerations s)
                  "ManagedClusterModule" (mcm_meta mcm);
          mret (wrap_err "failed to createOrPatch MIC %s: %v" err)
      end
  end.

Definition areImagesReady (mcm : ManagedClusterModule) (clusterName : string) : prog (result bool) :=
  r ← mic_Get (hub_mic mcm clusterName) operatorNamespace;
  mret (match r with
        | Err e => Err (Errorf_v "failed to get MIC %s: %v" e)
        | Ok micObj => Ok (DoAllImagesExist micObj)
        end).

Definition empty_mw (ns name : string) : ManifestWork :=
  {| mw_meta := empty_meta ns name; mw_spec := {| mws_Manifests := []; mws_ManifestConfigs := []; mws_Other := "" |};
     mw_Conditions := [] |}.

(** One cluster: the object the next cluster is handled with, or the panic that ends the pass. *)
Definition reconcile_cluster (cluster : ManagedCluster) (mcm : ManagedClusterModule) : prog (result ManagedClusterModule) :=
  match KernelVersions cluster with
  | Err _ => mret (Ok mcm)
  | Ok kernelVersions =>
      err ← setMicAsDesired mcm (mcl_Name cluster) kernelVersions;
      match err with
      | Some e => mret (if is_panic e then Err e else Ok mcm)
      | None =>
          ready ← areImagesReady mcm (mcl_Name cluster);
          match ready with
          | Err _ | Ok false => mret (Ok mcm)
          | Ok true =>
              r ← (perform (CreateOrPatchRan KManifestWork (empty_mw (mcl_Name cluster) (mcm_Name mcm))
                              (SetManifestWorkAsDesired mcm kernelVersions)) : prog (result ManifestWork * bool));
              let ran := match r.1 with Ok _ => true | Err _ => r.2 end in
              mret (if ran then shared_writes mcm kernelVersions else Ok mcm)
          end
      end
  end.

Fixpoint reconcile_clusters (clusters : list ManagedCluster) (mcm : ManagedClusterModule) : prog (result ManagedClusterModule) :=
  match clusters with
  | [] => mret (Ok mcm)
  | cluster :: clusters =>
      r ← reconcile_cluster cluster mcm;
      match r with
      | Err e => mret (Err e)
      | Ok mcm => reconcile_clusters clusters mcm
      end
  end.

Definition ManagedClusterModule_Reconcile (mcm : ManagedClusterModule) : prog (option error) :=
  clusters ← SelectedManagedClusters mcm;
  match clusters with
  | Err e => mret (Some (Errorf_v "failed to get selected clusters: %v" e))
  | Ok clusters =>
      r ← reconcile_clusters clusters mcm;
      match r with
      | Err e => mret (Some e)
      | Ok mcm =>
          err ← mw_GarbageCollect clusters mcm;
          match err with
          | Some e => mret (Some (Errorf_v "failed to garbage collect ManifestWorks with no matching cluster selector: %v" e))
          | None =>
              owned ← GetOwnedManifestWorks mcm;
              match owned with
              | Err e => mret (Some (Errorf_v "failed to fetch owned ManifestWorks of the ManagedClusterModule: %v" e))
              | Ok owned =>
                  err ← ManagedClusterModuleUpdateStatus mcm owned;
                  mret (wrap_err "failed to update status of the ManagedClusterModule: %v" err)
              end
          end
      end
  end.

(** ** The kernels of a cluster *)

Definition node_kernel_version (n : Node) : string := ni_KernelVersion (node_NodeInfo n).
Definition no_newline (s : string) : bool := string_forallb (λ c, negb (is_char "010" c)) s.

Lemma split_Join_lines l : l ≠ [] → Forall (λ s, no_newline s = true) l → split_on (is_char "010") (Join l newline) = l.
Proof.
  intros Hl Hall. induction Hall as [|s l Hs Hall IH]; [done|]. destruct l as [|s' l]; [by apply split_on_none|].
  rewrite Join_cons by done. change (newline +:+ Join (s' :: l) newline) with (String "010"%char (Join (s' :: l) newline)).
  rewrite split_on_app, split_on_none, IH by done. done.
Qed.

Lemma sort_Strings_perm l : sort_Strings l ≡ₚ l.
Proof. apply merge_sort_Permutation. Qed.

Lemma sort_Strings_sorted l : StronglySorted String.le (sort_Strings l).
Proof. apply StronglySorted_merge_sort; apply _. Qed.

Lemma sort_Strings_idemp l : sort_Strings (sort_Strings l) = sort_Strings l.
Proof.
  apply (StronglySorted_unique String.le); [apply sort_Strings_sorted..|]. apply sort_Strings_perm.
Qed.

(** The claim a cluster publishes, as the hub sees it. *)
Definition publishes (cluster : ManagedCluster) (cc : ClusterClaim) : Prop :=
  kernel_claim cluster = Some {| mcc_Name := constants.KernelVersionsClusterClaimName; mcc_Value := clc_Value cc |}.

Section laws.
Context `{EXTL : !ExternalsLaws}.

Lemma kernels_value_split nodes :
  nodes ≠ [] → Forall (λ n, no_newline (node_kernel_version n) = true) nodes →
  sort_Strings (split_on (is_char "010") (kernels_value nodes)) = sort_Strings (range_set (kernels_of nodes)).
Proof.
  intros Hn Hall. unfold kernels_value. rewrite split_Join_lines; [apply sort_Strings_idemp| |].
  - destruct nodes as [|n nodes]; [done|]. intros E. apply (not_elem_of_nil (node_kernel_version n)). rewrite <-E.
    rewrite sort_Strings_perm, elem_of_range_set. unfold kernels_of. rewrite elem_of_list_to_set. left.
  - rewrite sort_Strings_perm. apply Forall_forall. intros k. rewrite elem_of_range_set. unfold kernels_of.
    rewrite elem_of_list_to_set, list_elem_of_fmap. intros (n & -> & Hin). rewrite Forall_forall in Hall. by apply Hall.
Qed.

Lemma kernels_of_sorted nodes :
  let ks := sort_Strings (range_set (kernels_of nodes)) in
  StronglySorted String.le ks ∧ NoDup ks ∧ ∀ k, k ∈ ks ↔ ∃ n, n ∈ nodes ∧ node_kernel_version n = k.
Proof.
  split_and!; [apply sort_Strings_sorted| |].
  - rewrite sort_Strings_perm. unfold range_set. apply NoDup_range_map.
  - intros k. rewrite sort_Strings_perm, elem_of_range_set. unfold kernels_of. rewrite elem_of_list_to_set, list_elem_of_fmap.
    unfold node_kernel_version. naive_solver.
Qed.

(** What a spoke publishes is what the hub reads.  The spoke's reconciler lists its nodes and
    writes one claim; from any object that carries that claim the hub recovers exactly the kernel
    versions of those nodes, sorted and without duplicates, provided there is a node and kernel
    versions contain no newline. *)
Theorem kernel_claim_roundtrip :
  wp NodeKernelClusterClaim_Reconcile (λ tr err,
    (∃ e, tr = [Obs (ListAll KNode []) (Err e)] ∧ is_Some err) ∨
    ∃ nodes mutate x,
      tr = [Obs (ListAll KNode []) (Ok nodes);
            Obs (CreateOrPatch KClusterClaim (empty_claim constants.KernelVersionsClusterClaimName) mutate) x] ∧
      err = err_of x ∧
      ∀ cc cc' cluster, mutate cc = Ok cc' → publishes cluster cc' →
        nodes ≠ [] → Forall (λ n, no_newline (node_kernel_version n) = true) nodes →
        ∃ ks, KernelVersions cluster = Ok ks ∧ StronglySorted String.le ks ∧ NoDup ks ∧
          ∀ k, k ∈ ks ↔ ∃ n, n ∈ nodes ∧ node_kernel_version n = k).
Proof.
  unfold NodeKernelClusterClaim_Reconcile. intros [nodes|e]; simpl; [|left; eauto]. intros x. right.
  exists nodes, (claim_mutate (kernels_value nodes)), x. split_and!; [done..|].
  intros cc cc' cluster [= <-] Hpub Hn Hall. unfold publishes, kernel_claim, clusterClaim in Hpub.
  exists (sort_Strings (range_set (kernels_of nodes))). split; [|apply kernels_of_sorted].
  unfold KernelVersions. rewrite Hpub. simpl. by rewrite kernels_value_split.
Qed.

End laws.

(** ** The module a spoke receives *)

(** The object whose build and sign sections are cleared, from which the mappings are computed. *)
Definition cleared (mcm : ManagedClusterModule) (ml : ModuleLoaderSpec) : ManagedClusterModule :=
  mcm_set_loader mcm (clear_build_sign ml).

(** What the hub resolves for a kernel of a cluster. *)
Definition hub_resolves (mcm : ManagedClusterModule) (ml : ModuleLoaderSpec) (k : string) : result ModuleLoaderData :=
  GetModuleLoaderDataForKernel (mcm_module (cleared mcm ml) (mcms_SpokeNamespace (mcm_spec mcm))) k.

(** The module of the ManifestWork. *)
Definition spoke_receives (mcm : ManagedClusterModule) (ml : ModuleLoaderSpec) (ks : list string) : Module_ :=
  mcm_module (mcm_set_loader (cleared mcm ml) (set_mappings (clear_build_sign ml) (managedClusterKernelMappings (cleared mcm ml) ks)))
    (mcms_SpokeNamespace (mcm_spec mcm)).

Lemma SetManifestWorkAsDesired_manifest mcm ml ks mw mw' :
  mcm_loader mcm = Some ml → SetManifestWorkAsDesired mcm ks mw = Ok mw' →
  mws_Manifests (mw_spec mw') = [spoke_receives mcm ml ks].
Proof.
  intros Hml. unfold SetManifestWorkAsDesired, shared_writes. rewrite Hml. intros H. res_inv. done.
Qed.

Lemma spoke_mappings mcm ml ks :
  managedClusterKernelMappings (cleared mcm ml) ks =
  omap (λ k, match hub_resolves mcm ml (trim_kernel k) with Ok mld => Some (mappingFromModuleLoaderData mld) | Err _ => None end) ks.
Proof. reflexivity. Qed.

Lemma hub_resolves_kernel mcm ml k mld : hub_resolves mcm ml k = Ok mld → mld_KernelVersion mld = k.
Proof. by intros (_ & _ & ? & _)%GetModuleLoaderDataForKernel_identity. Qed.

Lemma find_spoke_mapping mcm ml ks k :
  k ≠ "" →
  findKernelMapping (managedClusterKernelMappings (cleared mcm ml) ks) k =
  if decide (k ∈ trim_kernel <$> ks) then
    match hub_resolves mcm ml k with
    | Ok mld => Ok (mappingFromModuleLoaderData mld)
    | Err _ => Err (ErrSentinel ErrNoMatchingKernelMapping)
    end
  else Err (ErrSentinel ErrNoMatchingKernelMapping).
Proof.
  intros Hk. rewrite spoke_mappings. set (f := λ k, match hub_resolves mcm ml (trim_kernel k) with Ok mld => _ | Err _ => _ end).
  induction ks as [|x ks IH]; [done|]. rewrite fmap_cons.
  change (omap f (x :: ks)) with (match f x with Some y => y :: omap f ks | None => omap f ks end). unfold f at 1.
  destruct (decide (trim_kernel x = k)) as [E|E].
  - rewrite decide_True by (rewrite <-E; left). rewrite E. destruct (hub_resolves mcm ml k) as [mld|e] eqn:Eh.
    + simpl. rewrite (hub_resolves_kernel _ _ _ _ Eh). destruct (String.eqb_spec k ""); [done|]. by rewrite String.eqb_refl.
    + rewrite IH. by case_decide.
  - destruct (hub_resolves mcm ml (trim_kernel x)) as [mld|e] eqn:Eh; simpl.
    + rewrite (hub_resolves_kernel _ _ _ _ Eh).
      assert (String.eqb (trim_kernel x) k = false) as -> by (by apply String.eqb_neq). rewrite andb_false_r, IH.
      repeat case_decide; set_solver.
    + rewrite IH. repeat case_decide; set_solver.
Qed.

(** The data of the hub without what stays there: no build, no sign, and the registry options of
    the module instead of the mapping's. *)
Definition spoke_data (ml : ModuleLoaderSpec) (mld : ModuleLoaderData) : ModuleLoaderData :=
  {| mld_KernelVersion := mld_KernelVersion mld; mld_KernelNormalizedVersion := mld_KernelNormalizedVersion mld;
     mld_ImageRepoSecret := mld_ImageRepoSecret mld; mld_Selector := mld_Selector mld;
     mld_Name := mld_Name mld; mld_Namespace := mld_Namespace mld; mld_ServiceAccountName := mld_ServiceAccountName mld;
     mld_Build := None; mld_Sign := None; mld_ModuleVersion := mld_ModuleVersion mld;
     mld_ContainerImage := mld_ContainerImage mld; mld_ImagePullPolicy := mld_ImagePullPolicy mld;
     mld_Modprobe := mld_Modprobe mld; mld_RegistryTLS := Some (mlc_RegistryTLS (ml_Container ml));
     mld_InTreeModulesToRemove := mld_InTreeModulesToRemove mld; mld_OwnerUID := mld_OwnerUID mld;
     mld_Tolerations := mld_Tolerations mld |}.

Lemma base_mld_kernel m mod_ ml k sign : mld_KernelNormalizedVersion (base_mld m mod_ ml k sign) = NormalizeVersion k.
Proof. done. Qed.

(** Resolving on the spoke a kernel the hub resolved. *)
Lemma spoke_resolves mcm ml ks k mld :
  k ≠ "" → k ∈ trim_kernel <$> ks → hub_resolves mcm ml k = Ok mld →
  (∀ env, envsubst_Parse env (mld_ContainerImage mld) = Ok (mld_ContainerImage mld)) → mld_ContainerImage mld ≠ "" →
  mlc_InTreeModuleToRemove (ml_Container ml) = "" →
  GetModuleLoaderDataForKernel (spoke_receives mcm ml ks) k = Ok (spoke_data ml mld).
Proof.
  intros Hk Hin Hhub Himg Hne Htree.
  pose proof Hhub as Hhub'. unfold hub_resolves, GetModuleLoaderDataForKernel in Hhub'. simpl in Hhub'.
  unfold GetModuleLoaderDataForKernel, spoke_receives. simpl ms_ModuleLoader.
  cbn [mcm_module mod_spec ml_Container set_mappings mlc_KernelMappings]. rewrite find_spoke_mapping, decide_True, Hhub by done.
  destruct (findKernelMapping (mlc_KernelMappings (ml_Container ml)) k) as [m|e]; [|done]. simpl in Hhub'.
  destruct (prepareModuleLoaderData m _ _ k) as [mld0|e] eqn:Ep; [|done]. simpl in Hhub'.
  destruct (replaceTemplates mld0) as [mld1|e] eqn:Er; [|done]. simpl in Hhub'. injection Hhub' as <-.
  apply prepareModuleLoaderData_Ok in Ep as [sign ->].
  unfold replaceTemplates in Er. rewrite base_mld_kernel in Er.
  destruct (KernelComponentsAsEnvVars (NormalizeVersion k)) as [env|e] eqn:Ee; [|done]. simpl in Er.
  destruct (envsubst_Parse (env ++ _) _) as [img|e] eqn:Ei; [|done]. simpl in Er. injection Er as <-.
  cbn [mld_set_image mld_ContainerImage] in Himg, Hne. simpl.
  unfold replaceTemplates. rewrite base_mld_kernel, Ee. cbn.
  destruct (String.eqb_spec img ""); [done|]. cbn. rewrite Himg. cbn.
  unfold mld_set_image, spoke_data. simpl. rewrite Htree. simpl. f_equal.
  destruct (km_InTreeModuleToRemove m =? "")%string eqn:Em, (km_InTreeModulesToRemove m); simpl; try done.
  all: try rewrite Em; try done. by destruct (mlc_InTreeModulesToRemove (ml_Container ml)).
Qed.

Lemma spoke_no_mapping mcm ml ks k :
  findKernelMapping (managedClusterKernelMappings (cleared mcm ml) ks) k = Err (ErrSentinel ErrNoMatchingKernelMapping) →
  ∃ e, GetModuleLoaderDataForKernel (spoke_receives mcm ml ks) k = Err e ∧ errors_Is e ErrNoMatchingKernelMapping = true.
Proof.
  intros H. unfold GetModuleLoaderDataForKernel, spoke_receives. simpl ms_ModuleLoader.
  cbn [mcm_module mod_spec ml_Container set_mappings mlc_KernelMappings]. rewrite H. simpl. eexists. by split.
Qed.


(** A mapping's registry options do not reach the spoke. *)
Lemma mapping_tls_stays_on_hub mcm ml k mld m t :
  findKernelMapping (mlc_KernelMappings (ml_Container ml)) k = Ok m → km_RegistryTLS m = Some t → t ≠ mlc_RegistryTLS (ml_Container ml) →
  hub_resolves mcm ml k = Ok mld →
  mld_RegistryTLS mld = Some t ∧ mld_RegistryTLS (spoke_data ml mld) ≠ mld_RegistryTLS mld.
Proof.
  intros Hm Ht Hne (ml' & m' & mld0 & img & [= <-] & Hm' & Hp & ->)%GetModuleLoaderDataForKernel_inv.
  simpl in Hm'. rewrite Hm in Hm'. injection Hm' as <-. apply prepareModuleLoaderData_Ok in Hp as [sign ->]. simpl. rewrite Ht. simpl.
  split; [done|]. congruence.
Qed.

Lemma elem_of_spoke_mappings mcm ml ks k mld :
  k ∈ trim_kernel <$> ks → hub_resolves mcm ml k = Ok mld →
  mappingFromModuleLoaderData mld ∈ managedClusterKernelMappings (cleared mcm ml) ks.
Proof.
  intros (x & -> & Hx)%list_elem_of_fmap Hh. rewrite spoke_mappings, list_elem_of_omap. exists x. by rewrite Hh.
Qed.

Lemma hub_in_tree mcm ml k mld :
  mlc_InTreeModuleToRemove (ml_Container ml) ≠ "" → hub_resolves mcm ml k = Ok mld → is_Some (mld_InTreeModulesToRemove mld).
Proof.
  intros Hne (ml' & m & mld0 & img & [= <-] & _ & Hp & ->)%GetModuleLoaderDataForKernel_inv.
  apply prepareModuleLoaderData_Ok in Hp as [sign ->]. simpl.
  destruct (String.eqb_spec (km_InTreeModuleToRemove m) "") as [E|E]; simpl.
  - destruct (String.eqb_spec (mlc_InTreeModuleToRemove (ml_Container ml)) ""); [done|]. eauto.
  - destruct (String.eqb_spec (km_InTreeModuleToRemove m) ""); [done|]. eauto.
Qed.

(** A managed cluster module that sets the deprecated in-tree field of the container is
    refused by every spoke.  The hub translates the field into the list form in each mapping it
    sends, and keeps the field itself: the admission webhook of the spoke, which accepts only one of
    the two, refuses the module, whatever the hub's webhook said, as soon as one kernel of the
    cluster is resolved. *)
Theorem spoke_refuses_deprecated_in_tree mcm ml ks k mld kv :
  mlc_InTreeModuleToRemove (ml_Container ml) ≠ "" → k ∈ trim_kernel <$> ks → hub_resolves mcm ml k = Ok mld →
  is_Some (validateModule (spoke_receives mcm ml ks) kv).
Proof.
  intros Hne Hin Hh. destruct (validateModule _ kv) eqn:Hv; [eauto|]. exfalso.
  destruct (hub_in_tree _ _ _ _ Hne Hh) as [l Hl].
  apply (elem_of_spoke_mappings _ _ _ _ _ Hin) in Hh.
  eapply validateModule_loader in Hv as (Hc & _); [|done].
  unfold validateModuleLoaderContainerSpec in Hc. rewrite !union_None, first_error_None, Forall_forall in Hc.
  destruct Hc as (_ & Hc). specialize (Hc _ Hh). apply validateKernelMapping_accepts in Hc as (_ & _ & _ & Hc).
  simpl in Hc. rewrite Hl in Hc. naive_solver.
Qed.

(** ** Writes through the shared loader section *)

(** Handling one cluster changes what the hub does for the next ones.  After the ManifestWork
    of a cluster with kernels [ks] was filled, the reconciler's own object resolves only those
    kernels any more, and without build and sign sections; so for a next cluster that has none of
    these kernels the ModuleImagesConfig is given no images at all, and the module it is sent has no
    kernel mapping, although the user's mappings may well cover its kernels. *)
Theorem next_cluster_is_forgotten mcm mcm' ks :
  shared_writes mcm ks = Ok mcm' →
  (∀ ns k mld, k ≠ "" → cluster_GetModuleLoaderDataForKernel ns mcm' k = Ok mld →
     k ∈ trim_kernel <$> ks ∧ mld_Build mld = None ∧ mld_Sign mld = None) ∧
  ∀ ks', Forall (λ k, trim_kernel k ≠ "" ∧ trim_kernel k ∉ trim_kernel <$> ks) ks' →
    hub_images mcm' ks' [] = Ok [] ∧
    ∃ ml, mcm_loader mcm' = Some ml ∧ mlc_KernelMappings (ml_Container (set_mappings (clear_build_sign ml) (managedClusterKernelMappings (cleared mcm' ml) ks'))) = [].
Proof.
  unfold shared_writes. destruct (mcm_loader mcm) as [ml|] eqn:Hml; [|done]. intros [= <-].
  set (mappings := managedClusterKernelMappings _ ks).
  assert (∀ k, k ≠ "" → k ∉ trim_kernel <$> ks → findKernelMapping mappings k = Err (ErrSentinel ErrNoMatchingKernelMapping)) as Hno.
  { intros k Hk Hin. unfold mappings. fold (cleared mcm ml). rewrite find_spoke_mapping by done. by rewrite decide_False. }
  assert (∀ km, km ∈ mappings → km_Build km = None ∧ km_Sign km = None) as Hplain.
  { intros km. unfold mappings, managedClusterKernelMappings. rewrite list_elem_of_omap. intros (x & _ & Hx).
    destruct (GetModuleLoaderDataForKernel _ _); [|done]. by injection Hx as <-. }
  split.
  - intros ns k mld Hk (ml' & m & mld0 & img & [= <-] & Hm & Hp & ->)%GetModuleLoaderDataForKernel_inv. simpl in Hm.
    destruct (decide (k ∈ trim_kernel <$> ks)) as [Hin|Hin]; [|rewrite Hno in Hm by done; discriminate Hm].
    split; [done|]. destruct (Hplain m) as [Hb Hs].
    { apply findKernelMapping_Ok in Hm as (pre & post & -> & _). set_solver. }
    unfold prepareModuleLoaderData in Hp. simpl in Hp. rewrite Hs in Hp. simpl in Hp. injection Hp as <-. simpl. by rewrite Hb.
  - intros ks' Hks'. split.
    + induction Hks' as [|x ks' [Hx1 Hx2] _ IH]; simpl; [done|]. unfold cluster_GetModuleLoaderDataForKernel, GetModuleLoaderDataForKernel.
      simpl. rewrite Hno by done. simpl. exact IH.
    + eexists. split; [reflexivity|]. simpl. unfold managedClusterKernelMappings. simpl.
      induction Hks' as [|x ks' [Hx1 Hx2] _ IH]; simpl; [done|]. unfold GetModuleLoaderDataForKernel at 1. simpl. rewrite Hno by done. exact IH.
Qed.

(** ** The counters of the status *)

Definition holds (ty : string) (c : Condition) : Prop := cond_Status c = ConditionTrue ∧ cond_Type c = ty.
#[local] Instance holds_dec ty c : Decision (holds ty c).
Proof. unfold holds. apply _. Defined.

Lemma int32_add_l a b : int32 (int32 a + b) = int32 (a + b).
Proof.
  unfold int32. f_equal.
  replace ((a + 2 ^ 31) mod 2 ^ 32 - 2 ^ 31 + b + 2 ^ 31)%Z with ((a + 2 ^ 31) mod 2 ^ 32 + b)%Z by lia.
  rewrite Zplus_mod_idemp_l. f_equal. lia.
Qed.

Definition condition_count (ty : string) (l : list Condition) : Z := Z.of_nat (length (filter (holds ty) l)).

Lemma condition_steps l a d :
  foldl condition_step (int32 a, int32 d) l =
  (int32 (a + condition_count WorkApplied l), int32 (d + condition_count WorkDegraded l)).
Proof.
  unfold condition_count. revert a d. induction l as [|c l IH]; intros a d; [simpl; by rewrite !Z.add_0_r|]. cbn [foldl].
  rewrite !filter_cons.
  assert (condition_step (int32 a, int32 d) c =
          (int32 (a + if decide (holds WorkApplied c) then 1 else 0), int32 (d + if decide (holds WorkDegraded c) then 1 else 0))) as ->.
  { unfold condition_step, holds. destruct (String.eqb_spec (cond_Status c) ConditionTrue) as [E|E]; simpl.
    2: { rewrite !decide_False by naive_solver. by rewrite !Z.add_0_r. }
    destruct (String.eqb_spec (cond_Type c) WorkApplied) as [E1|E1]; simpl.
    { rewrite decide_True, decide_False by (unfold WorkApplied, WorkDegraded in *; naive_solver congruence). by rewrite int32_add_l, Z.add_0_r. }
    destruct (String.eqb_spec (cond_Type c) WorkDegraded) as [E2|E2]; simpl.
    - rewrite decide_False, decide_True by naive_solver. by rewrite int32_add_l, Z.add_0_r.
    - rewrite !decide_False by naive_solver. by rewrite !Z.add_0_r. }
  rewrite IH. f_equal; f_equal; case_decide; simpl length; lia.
Qed.

(** The counters of a managed cluster module are the number of its works, and the numbers of
    Applied and Degraded conditions of these works that hold, as int32. *)
Theorem mcm_status_counts works :
  let conditions := works ≫= mw_Conditions in
  mcm_status_of works =
  {| mcmst_NumberDesired := int32 (Z.of_nat (length works));
     mcmst_NumberApplied := int32 (condition_count WorkApplied conditions);
     mcmst_NumberDegraded := int32 (condition_count WorkDegraded conditions) |}.
Proof.
  intros conditions. unfold mcm_status_of, work_counts.
  assert (∀ c0, foldl (λ counts mw, foldl condition_step counts (mw_Conditions mw)) c0 works = foldl condition_step c0 conditions) as ->.
  { unfold conditions. induction works as [|mw works IH]; intros c0; simpl; [done|]. by rewrite foldl_app, IH. }
  change (0%Z, 0%Z) with (int32 0, int32 0). by rewrite condition_steps.
Qed.

(** ** One pass of the hub *)

(** The image of a kernel version that the module resolves. *)
Definition image_of (mld : ModuleLoaderData) (s : ModuleImageSpec) : Prop :=
  mis_Image s = mld_ContainerImage mld ∧ mis_KernelVersion s = mld_KernelVersion mld ∧
  mis_Build s = mld_Build mld ∧ mis_Sign s = mld_Sign mld ∧ mis_SkipWaitMissingImage s = false ∧
  mis_RegistryTLS s = mld_RegistryTLS mld ∧ mis_DirName s = mp_DirName (mld_Modprobe mld).

(** The images of the kernels of a cluster: one for each kernel version a mapping is for.  There
    are none to speak of when a mapping that matches cannot be used. *)
Inductive cluster_images (mcm : ManagedClusterModule) : list string → list ModuleImageSpec → Prop :=
| ci_nil : cluster_images mcm [] []
| ci_image k ks mld s images :
    cluster_GetModuleLoaderDataForKernel operatorNamespace mcm (trim_kernel k) = Ok mld → image_of mld s →
    cluster_images mcm ks images → cluster_images mcm (k :: ks) (s :: images)
| ci_untargeted k ks e images :
    cluster_GetModuleLoaderDataForKernel operatorNamespace mcm (trim_kernel k) = Err e →
    errors_Is e ErrNoMatchingKernelMapping = true → cluster_images mcm ks images → cluster_images mcm (k :: ks) images.

Definition unusable (mcm : ManagedClusterModule) (k : string) : Prop :=
  ∃ e, cluster_GetModuleLoaderDataForKernel operatorNamespace mcm (trim_kernel k) = Err e ∧
       errors_Is e ErrNoMatchingKernelMapping = false.

(** The request that applies the ModuleImagesConfig of a cluster: these images, to be pushed. *)
Definition mic_request (mcm : ManagedClusterModule) (ml : ModuleLoaderSpec) (c : ManagedCluster) (images : list ModuleImageSpec) : call :=
  let s := mcms_ModuleSpec (mcm_spec mcm) in
  CreateOrPatch KMIC (empty_mic operatorNamespace (mcm_Name mcm +:+ "-" +:+ mcl_Name c))
    (mic_mutate "ManagedClusterModule" (mcm_meta mcm)
       {| mics_Images := filterDuplicateImages images; mics_ImageRepoSecret := ms_ImageRepoSecret s;
          mics_ImagePullPolicy := mlc_ImagePullPolicy (ml_Container ml); mics_PushBuiltImage := true;
          mics_ImageRebuildTriggerGeneration := ms_ImageRebuildTriggerGeneration s; mics_Tolerations := ms_Tolerations s |}).

Definition mic_read (mcm : ManagedClusterModule) (c : ManagedCluster) : call :=
  Get KMIC (nsn operatorNamespace (mcm_Name mcm +:+ "-" +:+ mcl_Name c)).

Definition work_request (mcm : ManagedClusterModule) (c : ManagedCluster) (ks : list string) : call :=
  CreateOrPatchRan KManifestWork (empty_mw (mcl_Name c) (mcm_Name mcm)) (SetManifestWorkAsDesired mcm ks).

(** All images of the spec exist by the last state recorded for each. *)
Definition images_exist (m : ModuleImagesConfig) : Prop :=
  ∀ s, s ∈ mics_Images (mic_spec m) →
    mist_Status <$> last (filter (λ st, mist_Image st = mis_Image s) (mic_states m)) = Some ImageExists.

(** What is done for one cluster, given the object in hand, and the object in hand afterwards:
    filling a ManifestWork writes through its loader section. *)
Inductive cluster_run (mcm : ManagedClusterModule) (c : ManagedCluster) : list obs → ManagedClusterModule → Prop :=
| cr_no_kernels e : KernelVersions c = Err e → cluster_run mcm c [] mcm
| cr_unusable ks : KernelVersions c = Ok ks → Exists (unusable mcm) ks → cluster_run mcm c [] mcm
| cr_not_applied ks ml images e :
    KernelVersions c = Ok ks → mcm_loader mcm = Some ml → cluster_images mcm ks images →
    cluster_run mcm c [Obs (mic_request mcm ml c images) (Err e)] mcm
| cr_not_read ks ml images x e :
    KernelVersions c = Ok ks → mcm_loader mcm = Some ml → cluster_images mcm ks images →
    cluster_run mcm c [Obs (mic_request mcm ml c images) (Ok x); Obs (mic_read mcm c) (Err e)] mcm
| cr_waits ks ml images x micObj :
    KernelVersions c = Ok ks → mcm_loader mcm = Some ml → cluster_images mcm ks images → ¬ images_exist micObj →
    cluster_run mcm c [Obs (mic_request mcm ml c images) (Ok x); Obs (mic_read mcm c) (Ok micObj)] mcm
| cr_sends ks ml images x micObj w mcm' :
    KernelVersions c = Ok ks → mcm_loader mcm = Some ml → cluster_images mcm ks images → images_exist micObj →
    (if is_ok w.1 || w.2 then shared_writes mcm ks = Ok mcm' else mcm' = mcm) →
    cluster_run mcm c [Obs (mic_request mcm ml c images) (Ok x); Obs (mic_read mcm c) (Ok micObj); Obs (work_request mcm c ks) w] mcm'.

(** The clusters one after the other. *)
Inductive clusters_run : ManagedClusterModule → list ManagedCluster → list obs → ManagedClusterModule → Prop :=
| csr_nil mcm : clusters_run mcm [] [] mcm
| csr_cons mcm c tr mcm1 l trs mcm' :
    cluster_run mcm c tr mcm1 → clusters_run mcm1 l trs mcm' → clusters_run mcm (c :: l) (tr ++ trs) mcm'.

Lemma GetModuleLoaderData_no_panic mod_ k e :
  is_Some (ms_ModuleLoader (mod_spec mod_)) → GetModuleLoaderDataForKernel mod_ k = Err e → is_panic e = false.
Proof.
  intros [ml Hml]. unfold GetModuleLoaderDataForKernel. rewrite Hml. destruct (findKernelMapping _ _); simpl; [|by intros [= <-]].
  destruct (prepareModuleLoaderData _ _ _ _); simpl; [|by intros [= <-]]. destruct (replaceTemplates _); simpl; [done|by intros [= <-]].
Qed.

Lemma hub_images_spec mcm ks images :
  is_Some (mcm_loader mcm) →
  match hub_images mcm ks images with
  | Ok l => ∃ images', l = images ++ images' ∧ cluster_images mcm ks images'
  | Err e => Exists (unusable mcm) ks ∧ is_panic e = false
  end.
Proof.
  intros Hml. revert images. induction ks as [|k ks IH]; intros images; simpl; [exists []; by rewrite app_nil_r; split; [|constructor]|].
  destruct (cluster_GetModuleLoaderDataForKernel _ _ _) as [mld|e] eqn:E.
  - specialize (IH (images ++ [hub_image mld])). destruct (hub_images _ _ _); [|destruct IH; auto].
    destruct IH as (images' & -> & H). exists (hub_image mld :: images'). rewrite <-app_assoc. split; [done|].
    by eapply ci_image; [exact E|repeat split|].
  - pose proof E as Hp. apply GetModuleLoaderData_no_panic in Hp; [|done]. destruct (errors_Is e _) eqn:Ee; simpl.
    + specialize (IH images). destruct (hub_images _ _ _); [|destruct IH; auto].
      destruct IH as (images' & -> & H). exists images'. split; [done|]. by eapply ci_untargeted.
    + split; [left; by exists e|]. unfold rethrow_v. by rewrite Hp.
Qed.

Lemma recorded_states l k :
  foldl (λ m s, <[mist_Image s := mist_Status s]> m) (∅ : gmap string ImageState) l !! k =
  mist_Status <$> last (filter (λ st, mist_Image st = k) l).
Proof.
  induction l as [|s l IH] using rev_ind; [done|]. rewrite foldl_app, filter_app. simpl. rewrite filter_cons, filter_nil.
  case_decide as E; [subst k; by rewrite lookup_insert_eq, last_snoc|]. by rewrite lookup_insert_ne, app_nil_r by done.
Qed.

Lemma images_exist_reflect m : reflect (images_exist m) (DoAllImagesExist m).
Proof.
  apply iff_reflect. unfold images_exist, DoAllImagesExist. rewrite forallb_forall. setoid_rewrite <-list_elem_of_In.
  split; intros H s Hs; specialize (H s Hs).
  - apply bool_decide_eq_true. by rewrite recorded_states, H.
  - apply bool_decide_eq_true in H. rewrite recorded_states in H. by destruct (mist_Status <$> _); simplify_eq/=.
Qed.

(** Filling a ManifestWork keeps the object in hand the user's up to the loader section. *)
Definition same_mcm (mcm mcm' : ManagedClusterModule) : Prop :=
  mcm_meta mcm' = mcm_meta mcm ∧ is_Some (mcm_loader mcm').

Lemma shared_writes_same mcm mcm' ks : shared_writes mcm ks = Ok mcm' → same_mcm mcm mcm'.
Proof. unfold shared_writes. destruct (mcm_loader mcm); [|done]. intros [= <-]. split; [done|]. simpl. eauto. Qed.

Lemma reconcile_cluster_wp mcm c :
  is_Some (mcm_loader mcm) →
  wp (reconcile_cluster c mcm) (λ tr r, ∃ mcm', r = Ok mcm' ∧ cluster_run mcm c tr mcm' ∧ same_mcm mcm mcm').
Proof.
  intros Hml. unfold reconcile_cluster. assert (same_mcm mcm mcm) as Hsame by by split.
  destruct (KernelVersions c) as [ks|e] eqn:Ek; [|exists mcm; split_and!; by econstructor].
  unfold setMicAsDesired. pose proof (hub_images_spec mcm ks [] Hml) as Hi. destruct (hub_images mcm ks []) as [images|e] eqn:Ei.
  2: { destruct Hi as [Hi Hp]. simpl. rewrite Hp. exists mcm. split_and!; [done|by eapply cr_unusable|done]. }
  destruct Hi as (images' & E & Hi). simpl in E. subst images'. pose proof Hml as [ml Hl]. rewrite Hl.
  intros [y|e]; cbn [wrap_err err_of fmap option_fmap option_map is_panic].
  2: { exists mcm. split_and!; [done|by eapply cr_not_applied|done]. }
  intros [micObj|e]; cbn; [|exists mcm; split_and!; [done|by eapply cr_not_read|done]].
  destruct (images_exist_reflect micObj) as [Hd|Hd]; [|exists mcm; split_and!; [done|by eapply cr_waits|done]].
  intros w. cbn. assert (∃ mcm', shared_writes mcm ks = Ok mcm') as [mcm' Hw] by (unfold shared_writes; rewrite Hl; eauto).
  pose proof (shared_writes_same _ _ _ Hw) as Hs.
  destruct w as [[o|e] ran]; [|destruct ran]; cbn; rewrite ?Hw; eexists; (split; [done|]); (split; [|done]); by eapply cr_sends.
Qed.

Lemma reconcile_clusters_wp clusters mcm :
  is_Some (mcm_loader mcm) →
  wp (reconcile_clusters clusters mcm) (λ tr r, ∃ mcm', r = Ok mcm' ∧ clusters_run mcm clusters tr mcm' ∧ same_mcm mcm mcm').
Proof.
  revert mcm. induction clusters as [|c clusters IH]; intros mcm Hml; simpl; [exists mcm; split_and!; [done|constructor|by split]|].
  apply wp_bind. eapply wp_mono; [|by apply reconcile_cluster_wp]. intros tr r (mcm1 & -> & Hrun & Hm & Hml1).
  eapply wp_mono; [|apply IH, Hml1]. intros tr' r (mcm' & -> & Hall & Hm' & Hml').
  exists mcm'. split_and!; [done|by econstructor|]. split; [congruence|done].
Qed.

Definition selected_list (mcm : ManagedClusterModule) : call :=
  ListAll KManagedCluster [MatchingLabels (mcms_Selector (mcm_spec mcm))].
Definition owned_list (mcm : ManagedClusterModule) : call :=
  ListAll KManifestWork [MatchingLabels {[ constants.ManagedClusterModuleNameLabel := mcm_Name mcm ]}].

(** The works in clusters that are not selected. *)
Definition obsolete (clusters : list ManagedCluster) (works : list ManifestWork) : list ManifestWork :=
  filter (λ mw, mw_Namespace mw ∉ mcl_Name <$> clusters) works.

Lemma mw_delete_loop_wp clusters works :
  wp (mw_delete_loop (list_to_set (mcl_Name <$> clusters)) works) (λ tr err,
    deletes_until KManifestWork (obsolete clusters works) tr (bool_decide (err = None))).
Proof.
  induction works as [|mw works IH]; simpl; [constructor|]. unfold obsolete. rewrite filter_cons. fold (obsolete clusters works).
  case_bool_decide as Hb; rewrite elem_of_list_to_set in Hb; [rewrite decide_False by naive_solver; apply IH|].
  rewrite decide_True by done. intros [u|e]; simpl; [|apply du_failed].
  eapply wp_mono; [|exact IH]. intros tr err H. by constructor.
Qed.

(** The counters: the number of works, and the numbers of conditions of the two kinds that hold. *)
Definition counters (works : list ManifestWork) (st : ManagedClusterModuleStatus) : Prop :=
  mcmst_NumberDesired st = int32 (Z.of_nat (length works)) ∧
  mcmst_NumberApplied st = int32 (condition_count WorkApplied (works ≫= mw_Conditions)) ∧
  mcmst_NumberDegraded st = int32 (condition_count WorkDegraded (works ≫= mw_Conditions)).

(** What follows the clusters: obsolete works are deleted, and if all that succeeded the status is
    computed from the works listed then. *)
Inductive finish_run (mcm : ManagedClusterModule) (clusters : list ManagedCluster) : list obs → option error → Prop :=
| fr_not_listed e err : is_Some err → finish_run mcm clusters [Obs (owned_list mcm) (Err e)] err
| fr_not_deleted works dels err :
    deletes_until KManifestWork (obsolete clusters works) dels false → is_Some err →
    finish_run mcm clusters (Obs (owned_list mcm) (Ok works) :: dels) err
| fr_not_counted works dels e err :
    deletes_until KManifestWork (obsolete clusters works) dels true → is_Some err →
    finish_run mcm clusters (Obs (owned_list mcm) (Ok works) :: dels ++ [Obs (owned_list mcm) (Err e)]) err
| fr_counted works dels owned st x err :
    deletes_until KManifestWork (obsolete clusters works) dels true → counters owned st → (err = None ↔ is_ok x = true) →
    finish_run mcm clusters
      (Obs (owned_list mcm) (Ok works) :: dels ++
       [Obs (owned_list mcm) (Ok owned); Obs (StatusPatch KMCM mcm (mcm_set_status mcm st)) x]) err.

(** C20: one pass of the hub over a managed cluster module with a loader section, for every answer of
    the API server.  The selected clusters are listed and each is handled, in order and whatever
    happened to the others.  For a cluster that publishes its kernels, and unless a matching mapping
    cannot be used, the ModuleImagesConfig named after module and cluster is applied with the images
    of these kernels, one per image name; only if that succeeded, it is read back; only if it is read
    and all images of its spec exist, the ManifestWork of the cluster is created or patched.
    Afterwards the owned works are listed and exactly those in clusters that are not selected are
    deleted, up to the first failure; only if none failed, the owned works are listed again and the
    status is updated to their counts.  The pass reports an error exactly if a list, a deletion or
    the status update failed; what failed for one cluster is not reported. *)
Theorem hub_pass mcm :
  is_Some (mcm_loader mcm) →
  wp (ManagedClusterModule_Reconcile mcm) (λ tr err,
    (∃ e, tr = [Obs (selected_list mcm) (Err e)] ∧ is_Some err) ∨
    ∃ clusters trs mcm' rest, tr = Obs (selected_list mcm) (Ok clusters) :: trs ++ rest ∧
      clusters_run mcm clusters trs mcm' ∧ finish_run mcm' clusters rest err).
Proof.
  intros Hml. unfold ManagedClusterModule_Reconcile. intros [clusters|e]; cbn; [|left; eauto].
  apply (wp_bind _ _ (λ tr r, _)). eapply wp_mono; [|by apply reconcile_clusters_wp].
  intros trs r (mcm' & -> & Hall & Hs).
  eapply (wp_mono _ (λ rest err, finish_run mcm' clusters rest err)); [intros rest err Hf; right; by exists clusters, trs, mcm', rest|].
  intros [works|e]; cbn; [|apply fr_not_listed; eauto].
  apply (wp_bind _ _ (λ tr r, _)). eapply wp_mono; [|apply mw_delete_loop_wp]. intros dels err Hd. destruct err as [e|]; cbn.
  { rewrite bool_decide_false in Hd by done. rewrite app_nil_r. apply fr_not_deleted; eauto. }
  rewrite bool_decide_true in Hd by done. intros [owned|e]; cbn; [|apply fr_not_counted; eauto].
  assert (counters owned (mcm_status_of owned)) as Hc by (rewrite mcm_status_counts; by split_and!).
  intros x; simpl in x; destruct x as [x|e]; cbn; by apply fr_counted.
Qed.
End hub.

(** ** Witnesses *)

Definition demo_regexp_ml : ModuleLoaderSpec := set_mappings demo_ml [demo_mapping "" "6." "registry/mod:6"].

Definition demo_mcm : ManagedClusterModule :=
  {| mcm_meta := empty_meta "" "mod";
     mcm_spec := {| mcms_ModuleSpec := {| ms_DevicePlugin := None; ms_DRA := None; ms_ModuleLoader := Some demo_regexp_ml;
                                          ms_ImageRepoSecret := None; ms_Selector := ∅; ms_Tolerations := [];
                                          ms_ImageRebuildTriggerGeneration := None |};
                    mcms_SpokeNamespace := "ns"; mcms_Selector := ∅ |};
     mcm_status := {| mcmst_NumberDesired := 0; mcmst_NumberApplied := 0; mcmst_NumberDegraded := 0 |} |}.


Definition demo_cluster (kernels : string) : ManagedCluster :=
  {| mcl_meta := empty_meta "" "cluster-a";
     mcl_ClusterClaims := [{| mcc_Name := constants.KernelVersionsClusterClaimName; mcc_Value := kernels |}] |}.

(** A claim published for one node, and what the hub makes of it. *)
Lemma kernel_claim_roundtrip_witness :
  KernelVersions (demo_cluster (kernels_value (EXT := demo_externals) [demo_node "node-a" ∅])) = Ok ["6.1.0"] ∧
  wp (NodeKernelClusterClaim_Reconcile (EXT := demo_externals)) (λ tr err,
    is_Some err ∨ ∃ nodes mutate x, tr = [Obs (ListAll KNode []) (Ok nodes);
      Obs (CreateOrPatch KClusterClaim (empty_claim constants.KernelVersionsClusterClaimName) mutate) x]).
Proof.
  split; [vm_compute; reflexivity|]. eapply wp_mono; [|exact (kernel_claim_roundtrip (EXT := demo_externals))].
  intros tr err [(e & _ & He)|(nodes & mutate & x & Htr & _)]; [left; exact He|right; exists nodes, mutate, x; exact Htr].
Defined.

(** The mapping covers both clusters; after the first one the second gets no image. *)
Lemma next_cluster_is_forgotten_witness :
  length <$> (match hub_images (EXT := demo_externals) "kmm" demo_mcm ["6.2.0"] [] with Ok l => Some l | Err _ => None end) = Some 1 ∧
  ∃ mcm', shared_writes (EXT := demo_externals) demo_mcm ["6.1.0"] = Ok mcm' ∧
          hub_images (EXT := demo_externals) "kmm" mcm' ["6.2.0"] [] = Ok [].
Proof.
  split; [vm_compute; reflexivity|]. eexists. split; [vm_compute; reflexivity|].
  refine (proj1 (proj2 (next_cluster_is_forgotten (EXT := demo_externals) "kmm" demo_mcm _ ["6.1.0"] _) ["6.2.0"] _)).
  - vm_compute. reflexivity.
  - apply Forall_singleton. split; [discriminate|]. apply (bool_decide_unpack _). vm_compute. reflexivity.
Defined.

Definition demo_in_tree_ml : ModuleLoaderSpec :=
  let c := ml_Container demo_regexp_ml in
  {| ml_Container :=
       {| mlc_Build := None; mlc_Sign := None; mlc_Version := mlc_Version c; mlc_ContainerImage := mlc_ContainerImage c;
          mlc_ImagePullPolicy := mlc_ImagePullPolicy c; mlc_KernelMappings := mlc_KernelMappings c; mlc_Modprobe := mlc_Modprobe c;
          mlc_RegistryTLS := mlc_RegistryTLS c; mlc_InTreeModuleToRemove := "old"; mlc_InTreeModulesToRemove := None |};
     ml_ServiceAccountName := "" |}.

Definition demo_in_tree_mcm : ManagedClusterModule := mcm_set_loader demo_mcm demo_in_tree_ml.

(** The hub accepts it, the spoke does not. *)
Lemma spoke_refuses_deprecated_in_tree_witness :
  hub_ValidateCreate (EXT := demo_externals) demo_in_tree_mcm None = None ∧
  is_Some (validateModule (EXT := demo_externals) (spoke_receives (EXT := demo_externals) demo_in_tree_mcm demo_in_tree_ml ["6.1.0"]) None).
Proof.
  split; [vm_compute; reflexivity|].
  refine (spoke_refuses_deprecated_in_tree (EXT := demo_externals) demo_in_tree_mcm demo_in_tree_ml ["6.1.0"] "6.1.0" _ None _ _ _).
  - discriminate.
  - left.
  - vm_compute. reflexivity.
Defined.

Lemma hub_pass_witness :
  is_Some (mcm_loader demo_mcm) ∧
  wp (ManagedClusterModule_Reconcile (EXT := demo_externals) "kmm" demo_mcm) (λ tr err,
    is_Some err ∨ ∃ clusters trs mcm' rest, tr = Obs (selected_list demo_mcm) (Ok clusters) :: trs ++ rest ∧
      clusters_run (EXT := demo_externals) "kmm" demo_mcm clusters trs mcm' ∧ finish_run mcm' clusters rest err).
Proof.
  assert (is_Some (mcm_loader demo_mcm)) as H by (eexists; reflexivity). split; [exact H|].
  eapply wp_mono; [|exact (hub_pass (EXT := demo_externals) "kmm" demo_mcm H)].
  intros tr err [(e & _ & He)|Hrun]; [left; exact He|right; exact Hrun].
Defined.
