(* ===== verification/Watches.v ===== *)
(** * What wakes the controllers up (the [SetupWithManager] functions)

    Each controller declares the kinds it watches, with the predicates events must pass and the
    handler that turns an event into requests.  The theorems relate the events that are dropped to
    what the reconcilers read: a dropped event must not change a decision. *)

From S2P Require Import Prelude Types Kube GoStrings Externals Demo Labels NmcHelper Node KernelMapper PodNodeLabel VersionLabels Filter Jobs Hub.

Open Scope string_scope.
Open Scope nat_scope.
Open Scope list_scope.

(** ** Controllers *)

Section watches.
Context `{EXT : Externals} `{CR : ControllerRuntime}.

Inductive handler :=
| ForObject
| OwnedBy (ownerKind : string)
| MapFunc (f : any_obj → prog (list NamespacedName)).

Record watch := { w_kind : kind; w_handler : handler; w_predicates : list predicate }.

(** [c_filters] are the predicates of [WithEventFilter], which hold for every watch. *)
Record controller := { c_watches : list watch; c_filters : list predicate }.

Definition For_ (k : kind) (ps : list predicate) : watch := {| w_kind := k; w_handler := ForObject; w_predicates := ps |}.
Definition Owns (owner : string) (k : kind) (ps : list predicate) : watch := {| w_kind := k; w_handler := OwnedBy owner; w_predicates := ps |}.
Definition Watches_ (k : kind) (f : any_obj → prog (list NamespacedName)) (ps : list predicate) : watch :=
  {| w_kind := k; w_handler := MapFunc f; w_predicates := ps |}.

(** The requests one event leads to through one watch of a controller. *)
Definition deliver (c : controller) (w : watch) (e : event) : prog (list NamespacedName) :=
  if forallb (λ p, accepts p e) (c_filters c ++ w_predicates w) then
    match w_handler w with
    | ForObject => mret (EnqueueRequestForObject e)
    | OwnedBy owner => mret (EnqueueRequestForOwner owner e)
    | MapFunc f => for_range (mapped_objects e) (λ o reqs, rs ← f o; mret (reqs ++ rs)) []
    end
  else mret [].

Definition event_kind (e : event) : kind :=
  match e with
  | CreateEvent o | DeleteEvent o | GenericEvent o => ao_kind o
  | UpdateEvent _ o => ao_kind o
  end.

(** All requests one event leads to: it goes through every watch of its kind. *)
Definition notify (c : controller) (e : event) : prog (list NamespacedName) :=
  for_range (filter (λ w, w_kind w = event_kind e) (c_watches c)) (λ w reqs, rs ← deliver c w e; mret (reqs ++ rs)) [].

Definition pure_map (f : any_obj → list NamespacedName) : any_obj → prog (list NamespacedName) := λ o, mret (f o).

Definition nodeToNMCMapFunc (o : any_obj) : list NamespacedName := [nsn "" (GetName o)].

Definition NMC_SetupWithManager : controller :=
  {| c_watches := [For_ KNMC []; Owns "NodeModulesConfig" KPod [];
                   Watches_ KNode (pure_map nodeToNMCMapFunc) [NMCReconcilerNodePredicate]];
     c_filters := [] |}.

Definition Module_SetupWithManager : controller :=
  {| c_watches := [For_ KModule []; Owns "Module" KPod [ModuleReconcilePodPredicate];
                   Owns "Module" KMIC [ModuleReconcileMICPredicate];
                   Watches_ KNode FindModulesForNMCNodeChange [ModuleReconcilerNodePredicate];
                   Watches_ KNMC (pure_map ListModulesForNMC) []];
     c_filters := [] |}.

Definition DevicePlugin_SetupWithManager : controller :=
  {| c_watches := [For_ KModule []; Owns "Module" KDaemonSet [];
                   Watches_ KNode FindModulesForNode [DevicePluginReconcilerNodePredicate]];
     c_filters := [] |}.

Definition DRA_SetupWithManager : controller :=
  {| c_watches := [For_ KModule []; Owns "Module" KDaemonSet [];
                   Watches_ KDeviceClass (pure_map DeviceClassToModuleReconcileRequest) [filter_HasLabel constants.ModuleNameLabel];
                   Watches_ KNode FindModulesForNode [ModuleReconcilerNodePredicate]];
     c_filters := [] |}.

Definition isDaemonSetPod : predicate :=
  NewPredicateFuncs (λ o, existsb (λ r, String.eqb (or_Kind r) "DaemonSet") (om_OwnerReferences (ao_meta o))).

Definition PodNodeLabel_SetupWithManager : controller :=
  {| c_watches := [For_ KPod []];
     c_filters := [predicate_And [predicate_Or [PodReadinessChangedPredicate; DeletingPredicate];
                                  filter_HasLabel constants.ModuleNameLabel; isDaemonSetPod]] |}.

Definition MIC_SetupWithManager : controller :=
  {| c_watches := [For_ KMIC []; Owns "ModuleImagesConfig" KPod []; Owns "ModuleImagesConfig" KMBSC []]; c_filters := [] |}.

Definition MBSC_SetupWithManager : controller :=
  {| c_watches := [For_ KMBSC []; Owns "ModuleBuildSignConfig" KPod []]; c_filters := [] |}.

Definition Preflight_SetupWithManager : controller :=
  {| c_watches := [For_ KPreflight [PreflightReconcilerUpdatePredicate]; Owns "PreflightValidation" KMIC [];
                   Watches_ KModule EnqueueAllPreflightValidations [PreflightReconcilerUpdatePredicate]];
     c_filters := [] |}.

Definition JobEvent_SetupWithManager : controller := {| c_watches := [For_ KPod [jobEventPredicate]]; c_filters := [] |}.

Definition JobGC_SetupWithManager : controller := {| c_watches := [For_ KPod [jobGCPredicate]]; c_filters := [] |}.

Definition NodeLabelModuleVersion_SetupWithManager : controller :=
  {| c_watches := [For_ KNode []]; c_filters := [NodeLabelModuleVersionUpdatePredicate] |}.

Definition NodeKernelClusterClaim_SetupWithManager : controller :=
  {| c_watches := [For_ KNode [NodeUpdateKernelChangedPredicate];
                   Watches_ KClusterClaim (pure_map (λ _, [nsn "" ""]))
                     [NewPredicateFuncs (λ o, String.eqb (GetName o) constants.KernelVersionsClusterClaimName)]];
     c_filters := [] |}.

Definition ManagedClusterModule_SetupWithManager : controller :=
  {| c_watches := [For_ KMCM []; Owns "ManagedClusterModule" KManifestWork [];
                   Owns "ManagedClusterModule" KMIC [ModuleReconcileMICPredicate];
                   Watches_ KManagedCluster FindManagedClusterModulesForCluster
                     [ManagedClusterModuleReconcilerManagedClusterPredicate]];
     c_filters := [] |}.

(** ** Updates of nodes and pods *)

Definition node_update (old new : Node) : event := UpdateEvent (AnyObj KNode old) (AnyObj KNode new).
Definition pod_update (old new : Pod) : event := UpdateEvent (AnyObj KPod old) (AnyObj KPod new).

(** What decides whether a module runs on a node: its selector and its tolerations. *)
Definition targets (m : Module_) (n : Node) : bool :=
  bool_decide (mod_selector m ⊆ node_Labels n) && IsNodeSchedulable n (ms_Tolerations (mod_spec m)).

(** One condition of each type, as the API server keeps them. *)
Definition conditions_ok (n : Node) : Prop := NoDup (nc_Type <$> node_Conditions n).

Section laws.
Context `{EXTL : !ExternalsLaws} `{CRL : !ControllerRuntimeLaws}.

Lemma ready_condition n c :
  conditions_ok n → c ∈ node_Conditions n → nc_Type c = NodeReady → getNodeReadyConditionStatus n = nc_Status c.
Proof.
  unfold conditions_ok, getNodeReadyConditionStatus. induction (node_Conditions n) as [|d cs IH]; intros Hnd Hin Hty; [inversion Hin|].
  rewrite fmap_cons in Hnd. apply NoDup_cons in Hnd as [Hd Hnd]. simpl. apply elem_of_cons in Hin as [->|Hin].
  - by rewrite Hty, String.eqb_refl.
  - destruct (String.eqb_spec (nc_Type d) NodeReady) as [E|E]; [|auto]. exfalso. apply Hd. rewrite E, <-Hty.
    by apply list_elem_of_fmap_2.
Qed.

Lemma ready_condition_iff n :
  conditions_ok n →
  (∃ c, c ∈ node_Conditions n ∧ nc_Type c = NodeReady ∧ nc_Status c = ConditionTrue) ↔ getNodeReadyConditionStatus n = ConditionTrue.
Proof.
  intros Hok. split.
  - intros (c & Hin & Hty & <-). by apply ready_condition.
  - unfold getNodeReadyConditionStatus. destruct (find_first _ _) as [c|] eqn:E; [|done].
    apply find_first_Some in E as [Hin Hty%String.eqb_eq]. intros Hs. eauto.
Qed.

Lemma IsNodeSchedulable_taints old new tols :
  node_Taints old = node_Taints new → IsNodeSchedulable old tols = IsNodeSchedulable new tols.
Proof. unfold IsNodeSchedulable. by intros ->. Qed.

Lemma nmc_update_dropped old new :
  accepts NMCReconcilerNodePredicate (node_update old new) = false ↔
  node_Taints old = node_Taints new ∧ node_SpecOther old = node_SpecOther new ∧ node_Labels old = node_Labels new ∧
  node_NodeInfo old = node_NodeInfo new ∧ getNodeReadyConditionStatus old = getNodeReadyConditionStatus new.
Proof.
  unfold NMCReconcilerNodePredicate, skipDeletions, filterRelevantNodeUpdates, node_update.
  rewrite accepts_And. cbn [forallb]. rewrite !accepts_Funcs. unfold relevant_update. cbn [as_Node andb].
  case_bool_decide as E1; cbn [negb andb]; [|split; [done|intros (? & ? & _); congruence]]. injection E1 as E1 E2.
  case_bool_decide as E3; cbn [negb andb]; [|split; [done|naive_solver]].
  case_bool_decide as E4; cbn [negb andb]; [|split; [done|naive_solver]].
  rewrite andb_true_r, negb_false_iff, String.eqb_eq. naive_solver.
Qed.

Lemma module_update_dropped old new :
  accepts ModuleReconcilerNodePredicate (node_update old new) = false ↔
  node_Taints old = node_Taints new ∧ node_Labels old = node_Labels new.
Proof.
  unfold ModuleReconcilerNodePredicate, skipDeletions, nodeTaintsChanged, node_update.
  rewrite accepts_And. cbn [forallb]. rewrite accepts_Or. cbn [existsb]. rewrite !accepts_Funcs, accepts_LabelChanged.
  unfold taints_changed, update_only. cbn [as_Node andb].
  rewrite andb_true_r, orb_false_r, orb_false_iff, !negb_false_iff, !bool_decide_eq_true.
  unfold node_Labels. simpl. naive_solver.
Qed.

Lemma targets_dropped m old new :
  node_Taints old = node_Taints new → node_Labels old = node_Labels new → targets m old = targets m new.
Proof. intros Ht Hl. unfold targets. by rewrite Hl, (IsNodeSchedulable_taints old new). Qed.

Lemma targets_selected m n : targets m n = true → mod_selector m ⊆ node_Labels n.
Proof. unfold targets. by intros [H%bool_decide_eq_true _]%andb_true_iff. Qed.

(** A change of targeting concerns a module that selects the node before or after. *)
Lemma retargeted_selected m old new : targets m old ≠ targets m new → mod_selector m ⊆ node_Labels old ∨ mod_selector m ⊆ node_Labels new.
Proof.
  intros H. destruct (targets m old) eqn:E1; [left; by apply targets_selected|].
  destruct (targets m new) eqn:E2; [right; by apply targets_selected|done].
Qed.

(** The module listings in a trace succeeded with a list that has the module. *)
Definition lists_module (m : Module_) (P : list Module_ → Prop) (o : obs) : Prop :=
  match o with
  | Obs (ListAll KModule _) (Ok mods) => m ∈ mods ∧ P mods
  | Obs (ListAll KModule _) (Err _) => False
  | _ => True
  end.

(** Requests of a map function collected over the two objects of an update. *)
Lemma map_update_wp (f : any_obj → prog (list NamespacedName)) old new (Q : any_obj → list obs → list NamespacedName → Prop) :
  (∀ o, wp (f o) (Q o)) →
  wp (for_range (mapped_objects (UpdateEvent old new)) (λ o reqs, rs ← f o; mret (reqs ++ rs)) []) (λ tr reqs,
    ∃ tr1 tr2 reqs1 reqs2, tr = tr1 ++ tr2 ∧ reqs = reqs1 ++ reqs2 ∧ Q old tr1 reqs1 ∧ Q new tr2 reqs2).
Proof.
  intros Hf. rewrite mapped_objects_spec. cbn [event_objects for_range].
  apply wp_bind, wp_bind. eapply wp_mono; [|apply Hf]. intros tr1 reqs1 H1. cbn [mret prog_ret wp].
  apply wp_bind, wp_bind. eapply wp_mono; [|apply Hf]. intros tr2 reqs2 H2. cbn [mret prog_ret wp app].
  exists tr1, tr2, reqs1, reqs2. by rewrite !app_nil_r.
Qed.

Lemma FindModulesForNode_selected o :
  wp (FindModulesForNode o) (λ tr reqs, ∀ m, mod_selector m ⊆ GetLabels o →
    Forall (lists_module m (λ mods, ∀ m', m' ∈ mods → selector_ok (mod_selector m'))) tr → mod_key m ∈ reqs).
Proof.
  intros [mods|e]; cbn [mret prog_ret wp mbind prog_bind].
  - intros m Hsel H. apply Forall_singleton in H as [Hin Hok]. rewrite select_until_error_spec, before_error_all by done.
    apply list_elem_of_fmap_2, list_elem_of_filter. done.
  - intros m _ H. apply Forall_cons in H as [[] _].
Qed.

Lemma FindModulesForNMCNodeChange_selected o :
  wp (FindModulesForNMCNodeChange o) (λ tr reqs, ∀ m, mod_selector m ⊆ GetLabels o →
    Forall (lists_module m (λ _, selector_ok (mod_selector m))) tr → mod_key m ∈ reqs).
Proof.
  intros [mods|e]; cbn [mret prog_ret wp mbind prog_bind nmc_Get get perform].
  - intros x m Hsel H. apply Forall_cons in H as [[Hin Hok] _].
    assert (mod_key m ∈ node_change_requests (GetLabels o) mods) as Hreq by (apply elem_of_node_change_requests; eauto).
    destruct x as [nms|e]; [|destruct (IsNotFound e)]; apply elem_of_range_set; [|done..]. rewrite elem_of_foldl_union. by left.
  - intros m _ H. apply Forall_cons in H as [[] _].
Qed.

(** The watch of a kind among the declared ones. *)
Local Ltac node_watch Hin Hk :=
  cbn in Hin; repeat (apply elem_of_cons in Hin as [->|Hin]; [first [discriminate Hk|reflexivity]|]); by inversion Hin.

(** A controller with one watch for nodes, behind the predicate of the Module controller. *)
Lemma node_watch_wakes c f (P : Module_ → list Module_ → Prop) old new :
  filter (λ w, w_kind w = KNode) (c_watches c) = [Watches_ KNode f [ModuleReconcilerNodePredicate]] → c_filters c = [] →
  (∀ o, wp (f o) (λ tr reqs, ∀ m, mod_selector m ⊆ GetLabels o → Forall (lists_module m (P m)) tr → mod_key m ∈ reqs)) →
  (node_Taints old = node_Taints new → node_Labels old = node_Labels new → notify c (node_update old new) = mret []) ∧
  wp (notify c (node_update old new)) (λ tr reqs,
    ∀ m, targets m old ≠ targets m new → Forall (lists_module m (P m)) tr → mod_key m ∈ reqs).
Proof.
  intros Hw Hc Hf. unfold notify. cbn [event_kind node_update ao_kind]. rewrite Hw. cbn [for_range]. unfold deliver. rewrite Hc.
  cbn [Watches_ w_predicates w_handler app forallb]. rewrite andb_true_r. split.
  - intros Ht Hl. by rewrite (proj2 (module_update_dropped old new) (conj Ht Hl)).
  - destruct (accepts ModuleReconcilerNodePredicate (node_update old new)) eqn:E.
    + apply wp_bind, wp_bind. eapply wp_mono; [|exact (map_update_wp f _ _ _ Hf)].
      intros tr reqs (tr1 & tr2 & reqs1 & reqs2 & -> & -> & H1 & H2). cbn. rewrite !app_nil_r. intros m Hm [HF1 HF2]%Forall_app. apply elem_of_app.
      destruct (retargeted_selected _ _ _ Hm); [left; by apply H1|right; by apply H2].
    + apply module_update_dropped in E as [Ht Hl]. intros m Hm. destruct Hm. by apply targets_dropped.
Qed.

(** C24: updates of nodes wake the Module and DRA controllers when they matter.  If an update changes
    whether a module targets the node, which is by its labels and its taints, each of the two
    controllers gets a request for that module, provided every listing of the modules succeeds with the
    module in it and its selector can be evaluated (for DRA, whose lookup stops at the first selector
    that cannot, those of all modules).  An update that leaves labels and taints alone changes
    targeting for no module and leads to no call and no request. *)
Theorem retargeting_wakes_controllers old new :
  (node_Taints old = node_Taints new → node_Labels old = node_Labels new →
   (∀ m, targets m old = targets m new) ∧
   notify Module_SetupWithManager (node_update old new) = mret [] ∧ notify DRA_SetupWithManager (node_update old new) = mret []) ∧
  wp (notify Module_SetupWithManager (node_update old new)) (λ tr reqs,
    ∀ m, targets m old ≠ targets m new → Forall (lists_module m (λ _, selector_ok (mod_selector m))) tr → mod_key m ∈ reqs) ∧
  wp (notify DRA_SetupWithManager (node_update old new)) (λ tr reqs,
    ∀ m, targets m old ≠ targets m new →
      Forall (lists_module m (λ mods, ∀ m', m' ∈ mods → selector_ok (mod_selector m'))) tr → mod_key m ∈ reqs).
Proof.
  destruct (node_watch_wakes Module_SetupWithManager FindModulesForNMCNodeChange (λ m _, selector_ok (mod_selector m)) old new)
    as [Hm1 Hm2]; [done|done|apply FindModulesForNMCNodeChange_selected|].
  destruct (node_watch_wakes DRA_SetupWithManager FindModulesForNode (λ _ mods, ∀ m', m' ∈ mods → selector_ok (mod_selector m')) old new)
    as [Hd1 Hd2]; [done|done|apply FindModulesForNode_selected|].
  split_and!; [|done|done]. intros Ht Hl. split_and!; [|by apply Hm1|by apply Hd1]. intros m. by apply targets_dropped.
Qed.

(** The node watch of the device plugin controller drops every update that leaves the taints alone,
    even if it makes the node match, or stop matching, the selector of a module. *)
Theorem device_plugin_misses_label_changes old new w :
  node_Taints old = node_Taints new → w ∈ c_watches DevicePlugin_SetupWithManager → w_kind w = KNode →
  deliver DevicePlugin_SetupWithManager w (node_update old new) = mret [].
Proof.
  intros Ht Hin Hk.
  assert (w = Watches_ KNode FindModulesForNode [DevicePluginReconcilerNodePredicate]) as -> by node_watch Hin Hk.
  unfold deliver. cbn [Watches_ w_predicates w_handler app forallb c_filters DevicePlugin_SetupWithManager].
  unfold DevicePluginReconcilerNodePredicate, nodeTaintsChanged, skipDeletions. rewrite accepts_And. cbn [forallb].
  rewrite !accepts_Funcs. unfold node_update, taints_changed. cbn [as_Node]. by rewrite bool_decide_eq_true_2.
Qed.

(** An update that a controller does not see cannot change what it would do.  For the
    NodeModulesConfig controller: labels, schedulability for any tolerations, and whether the node
    counts as rebooted since any boot are the same before and after.  For the pod-node-label
    controller: the pod is as ready as before and is not being deleted.  For the version-label
    controller: every version label is the same.  For the cluster-claim controller: the claim
    computed from any list of nodes is the same. *)
Theorem dropped_updates_are_irrelevant :
  (∀ old new, conditions_ok old → conditions_ok new → accepts NMCReconcilerNodePredicate (node_update old new) = false →
     node_Labels old = node_Labels new ∧ (∀ tols, IsNodeSchedulable old tols = IsNodeSchedulable new tols) ∧
     ∀ bootId, IsNodeRebooted old bootId = IsNodeRebooted new bootId) ∧
  (∀ old new moduleName, pod_Labels new !! constants.ModuleNameLabel = Some moduleName → moduleName ≠ "" →
     accepts isDaemonSetPod (pod_update old new) = true →
     forallb (λ p, accepts p (pod_update old new)) (c_filters PodNodeLabel_SetupWithManager) = false →
     IsPodReady old = IsPodReady new ∧ pod_deleting new = false) ∧
  (∀ old new, accepts NodeLabelModuleVersionUpdatePredicate (node_update old new) = false →
     ∀ k, IsVersionLabel k = true → node_Labels old !! k = node_Labels new !! k) ∧
  (∀ old new before after, accepts NodeUpdateKernelChangedPredicate (node_update old new) = false →
     kernels_value (before ++ old :: after) = kernels_value (before ++ new :: after)).
Proof.
  split_and!.
  - intros old new Ho Hn (Ht & _ & Hl & Hi & Hr)%nmc_update_dropped. split_and!; [done|by intros; apply IsNodeSchedulable_taints|].
    intros bootId. apply eq_bool_prop_intro. rewrite !Is_true_true, !IsNodeRebooted_spec, Hi.
    rewrite (ready_condition_iff old Ho), (ready_condition_iff new Hn), Hr. done.
  - intros old new name Hname Hne Hds. cbn [c_filters PodNodeLabel_SetupWithManager forallb]. rewrite andb_true_r, accepts_And.
    cbn [forallb]. rewrite Hds, accepts_Or. cbn [existsb]. unfold pod_update, PodReadinessChangedPredicate, DeletingPredicate, filter_HasLabel.
    rewrite accepts_Funcs, !accepts_NewPredicateFuncs. cbn [readiness_changed as_Pod GetLabels ao_meta ao_kind ao_obj obj_meta].
    change (GetLabels {| ao_kind := KPod; ao_obj := new |}) with (pod_Labels new). unfold map_get. rewrite Hname. cbn [from_option id]. rewrite (proj2 (String.eqb_neq name "") Hne).
    cbn [negb]. rewrite !andb_true_r, orb_false_r, orb_false_iff, negb_false_iff, eqb_true_iff, bool_decide_eq_false.
    intros [Hr Hd]. split; [done|]. unfold pod_deleting. destruct (om_DeletionTimestamp (pod_meta new)); [|done]. destruct Hd. eauto.
  - intros old new. unfold NodeLabelModuleVersionUpdatePredicate, node_update. rewrite accepts_Funcs. cbn [version_labels_changed as_Node].
    rewrite negb_false_iff, bool_decide_eq_true. intros Heq k Hk.
    assert (∀ m : labels_t, GetNodesVersionLabels m !! k = m !! k) as Hlook.
    { intros m. unfold GetNodesVersionLabels. apply option_eq. intros v. rewrite map_lookup_filter_Some. naive_solver. }
    etrans; [symmetry; apply Hlook|]. rewrite Heq. apply Hlook.
  - intros old new before after. unfold NodeUpdateKernelChangedPredicate, node_update. rewrite accepts_Funcs. cbn [kernel_changed as_Node].
    rewrite negb_false_iff, String.eqb_eq. intros Hk. unfold kernels_value, kernels_of. by rewrite !fmap_app, !fmap_cons, Hk.
Qed.

Definition cluster_update (old new : ManagedCluster) : event := UpdateEvent (AnyObj KManagedCluster old) (AnyObj KManagedCluster new).
Definition mcl_Labels (c : ManagedCluster) : labels_t := om_Labels (mcl_meta c).
Definition mcm_selector (m : ManagedClusterModule) : labels_t := mcms_Selector (mcm_spec m).

Definition lists_mcm (m : ManagedClusterModule) (o : obs) : Prop :=
  match o with
  | Obs (ListAll KMCM _) (Ok l) => m ∈ l ∧ ∀ m', m' ∈ l → selector_ok (mcm_selector m')
  | Obs (ListAll KMCM _) (Err _) => False
  | _ => True
  end.

Lemma cluster_update_dropped old new :
  accepts ManagedClusterModuleReconcilerManagedClusterPredicate (cluster_update old new) = false →
  mcl_Labels old = mcl_Labels new ∧ ∀ ks, KernelVersions new = Ok ks → KernelVersions old = Ok ks.
Proof.
  unfold ManagedClusterModuleReconcilerManagedClusterPredicate, kmmClusterClaimChanged, cluster_update. rewrite accepts_Or. cbn [existsb].
  rewrite accepts_LabelChanged, accepts_Funcs. cbn [update_only claim_changed as_ManagedCluster].
  rewrite orb_false_r, orb_false_iff, negb_false_iff, bool_decide_eq_true. intros [Hl Hc]. split; [exact Hl|].
  intros ks Hks. unfold KernelVersions in *. fold (clusterClaim constants.KernelVersionsClusterClaimName (mcl_ClusterClaims new)) in Hks.
  fold (kernel_claim new) in Hks. destruct (kernel_claim new) as [c|]; [|done]. apply negb_false_iff, bool_decide_eq_true in Hc.
  fold (clusterClaim constants.KernelVersionsClusterClaimName (mcl_ClusterClaims old)). fold (kernel_claim old). by rewrite <-Hc.
Qed.

Lemma FindManagedClusterModulesForCluster_selected o :
  wp (FindManagedClusterModulesForCluster o) (λ tr reqs, ∀ m, mcm_selector m ⊆ GetLabels o →
    Forall (lists_mcm m) tr → nsn "" (mcm_Name m) ∈ reqs).
Proof.
  intros [mods|e]; cbn [mret prog_ret wp mbind prog_bind].
  - intros m Hsel H. apply Forall_cons in H as [[Hin Hok] _]. rewrite select_until_error_spec, before_error_all by done.
    apply list_elem_of_fmap. exists m. split; [done|]. by apply list_elem_of_filter.
  - intros m _ H. apply Forall_cons in H as [[] _].
Qed.

(** A change of a managed cluster that matters reaches the hub reconciler.  If an update changes
    the labels of a cluster, or makes it report kernel versions it did not report before, every
    managed cluster module that selects the cluster before or after is requested, provided the
    modules can be listed and their selectors are valid. *)
Theorem cluster_changes_wake_hub old new w :
  w ∈ c_watches ManagedClusterModule_SetupWithManager → w_kind w = KManagedCluster →
  wp (deliver ManagedClusterModule_SetupWithManager w (cluster_update old new)) (λ tr reqs, ∀ m,
    (mcl_Labels old ≠ mcl_Labels new ∨ ∃ ks, KernelVersions new = Ok ks ∧ KernelVersions old ≠ Ok ks) →
    (mcm_selector m ⊆ mcl_Labels old ∨ mcm_selector m ⊆ mcl_Labels new) →
    Forall (lists_mcm m) tr → nsn "" (mcm_Name m) ∈ reqs).
Proof.
  intros Hin Hk.
  assert (w = Watches_ KManagedCluster FindManagedClusterModulesForCluster [ManagedClusterModuleReconcilerManagedClusterPredicate]) as -> by node_watch Hin Hk.
  unfold deliver. cbn [Watches_ w_predicates w_handler app forallb c_filters ManagedClusterModule_SetupWithManager]. rewrite andb_true_r.
  destruct (accepts _ (cluster_update old new)) eqn:E.
  - eapply wp_mono; [|exact (map_update_wp _ _ _ _ FindManagedClusterModulesForCluster_selected)].
    intros tr reqs (tr1 & tr2 & reqs1 & reqs2 & -> & -> & H1 & H2) m _ Hsel [HF1 HF2]%Forall_app. apply elem_of_app.
    destruct Hsel; [left; by apply H1|right; by apply H2].
  - apply cluster_update_dropped in E as [Hl Hks]. intros m [H|(ks & H1 & H2)]; [done|]. destruct H2. auto.
Qed.
End laws.
End watches.

(** ** Witnesses *)

Definition demo_gpu_node : Node := demo_node "node-a" {[ "gpu" := "yes" ]}.

Definition demo_gpu_module : Module_ :=
  {| mod_meta := mod_meta demo_module;
     mod_spec := {| ms_DevicePlugin := None; ms_DRA := None; ms_ModuleLoader := Some demo_ml;
                    ms_ImageRepoSecret := None; ms_Selector := {[ "gpu" := "yes" ]}; ms_Tolerations := [];
                    ms_ImageRebuildTriggerGeneration := None |};
     mod_status := mod_status demo_module |}.

(** A node gets the label a module selects. *)
Lemma retargeting_wakes_controllers_witness :
  targets demo_gpu_module (demo_node "node-a" ∅) ≠ targets demo_gpu_module demo_gpu_node ∧
  wp (notify (CR := demo_runtime) (Module_SetupWithManager (EXT := demo_externals)) (node_update (demo_node "node-a" ∅) demo_gpu_node)) (λ tr reqs,
    Forall (lists_module demo_gpu_module (λ _, selector_ok (mod_selector demo_gpu_module))) tr → mod_key demo_gpu_module ∈ reqs).
Proof.
  assert (targets demo_gpu_module (demo_node "node-a" ∅) ≠ targets demo_gpu_module demo_gpu_node) as Ht by (vm_compute; discriminate).
  split; [exact Ht|].
  destruct (retargeting_wakes_controllers (EXT := demo_externals) (CR := demo_runtime) (demo_node "node-a" ∅) demo_gpu_node) as (_ & H & _).
  eapply wp_mono; [|exact H]. intros tr reqs Hreq. apply Hreq. exact Ht.
Defined.

Lemma dropped_updates_are_irrelevant_witness :
  IsNodeRebooted (demo_node "node-a" ∅) "boot-0" = IsNodeRebooted (demo_node "node-a" ∅) "boot-0" ∧
  kernels_value (EXT := demo_externals) [demo_node "node-a" ∅] = kernels_value (EXT := demo_externals) [demo_node "node-a" {[ "gpu" := "yes" ]}].
Proof.
  destruct (dropped_updates_are_irrelevant (EXT := demo_externals) (CR := demo_runtime)) as (H1 & _ & _ & H4). split.
  - refine (proj2 (proj2 (H1 (demo_node "node-a" ∅) (demo_node "node-a" ∅) _ _ _)) "boot-0").
    + apply NoDup_singleton.
    + apply NoDup_singleton.
    + vm_compute. reflexivity.
  - exact (H4 (demo_node "node-a" ∅) (demo_node "node-a" {[ "gpu" := "yes" ]}) [] [] eq_refl).
Defined.

Definition demo_hub_watch : watch :=
  Watches_ (CR := demo_runtime) KManagedCluster (FindManagedClusterModulesForCluster (EXT := demo_externals))
    [ManagedClusterModuleReconcilerManagedClusterPredicate].

(** A cluster that starts to report its kernels. *)
Lemma cluster_changes_wake_hub_witness :
  wp (deliver (CR := demo_runtime) ManagedClusterModule_SetupWithManager demo_hub_watch
        (cluster_update {| mcl_meta := empty_meta "" "cluster-a"; mcl_ClusterClaims := [] |} (demo_cluster "6.1.0")))
    (λ tr reqs, Forall (lists_mcm demo_mcm) tr → nsn "" "mod" ∈ reqs).
Proof.
  eapply wp_mono; [|refine (cluster_changes_wake_hub (EXT := demo_externals) (CR := demo_runtime)
    {| mcl_meta := empty_meta "" "cluster-a"; mcl_ClusterClaims := [] |} (demo_cluster "6.1.0") demo_hub_watch _ eq_refl)].
  - intros tr reqs H Hall. refine (H demo_mcm _ _ Hall).
    + right. exists ["6.1.0"]. split; [vm_compute; reflexivity|discriminate].
    + left. apply map_empty_subseteq.
  - right. right. right. left.
Defined.

Lemma FindModulesForNMCNodeChange_exact_witness :
  wp (FindModulesForNMCNodeChange (EXT := demo_externals) (AnyObj KNode (demo_node "node-a" ∅))) (λ tr reqs,
    reqs = [] ∨ ∃ mods x, tr = [Obs (ListAll KModule []) (Ok mods); Obs (Get KNMC (nsn "" "node-a")) x]).
Proof.
  eapply wp_mono; [|exact (FindModulesForNMCNodeChange_exact (EXT := demo_externals) (AnyObj KNode (demo_node "node-a" ∅)))].
  intros tr reqs [(e & _ & Hr)|(mods & x & Htr & _)]; [left; exact Hr|right; exists mods, x; exact Htr].
Defined.
