(* ===== verification/Worker.v ===== *)
(** * The worker binary ([cmd/worker], [internal/worker], [internal/utils/filesystem_helper.go])

    The program the worker pods run on a node: it reads the configuration the operator left in
    the pod's annotation, prepares firmware and modprobe.d files and runs modprobe.  The
    operating system and the copy library answer through the [OS] calls of [Kube]. *)

From S2P Require Import Prelude Types Kube GoStrings Externals Demo Labels WorkerPod Webhook.

Open Scope string_scope.
Open Scope nat_scope.
Open Scope list_scope.

Definition os (c : oscall) : prog (os_resp c) := perform (OS c).

(** ** [modprobe.go], [cmdlog.go] *)

Definition modprobe_cmd (args : list string) : list string := "modprobe" :: args.

Definition NewCommandLogger (cmd : list string) : prog (option error) :=
  err ← (os (StderrPipe cmd) : prog (option error));
  match err with
  | Some _ => mret (Some (ErrNew "could not obtain a pipe to stderr"))
  | None =>
      err ← (os (StdoutPipe cmd) : prog (option error));
      match err with
      | Some _ => mret (Some (ErrNew "could not obtain a pipe to stdout"))
      | None => mret None
      end
  end.

(** [CommandLogger.Wait]: the two readers send their errors in the order they finish. *)
Definition cl_Wait (cmd : list string) : prog (option error) :=
  r ← (os (ReadOutputs cmd) : prog (option error * option error * bool));
  let '(errStderr, errStdout, stderrFirst) := r in
  mret (errors_Join (if (stderrFirst : bool) then [errStderr; errStdout] else [errStdout; errStderr])).

Definition modprobe_Run (args : list string) : prog (option error) :=
  let cmd := modprobe_cmd args in
  err ← NewCommandLogger cmd;
  match err with
  | Some e => mret (Some (Errorf_v "could not create a command logger: %v" e))
  | None =>
      err ← (os (StartCommand cmd) : prog (option error));
      match err with
      | Some e => mret (Some (Errorf_v "could not start modprobe: %v" e))
      | None =>
          err ← cl_Wait cmd;
          match err with
          | Some e => mret (Some (Errorf_v "error while waiting on the command logger: %v" e))
          | None =>
              err ← (os (WaitCommand cmd) : prog (option error));
              mret (wrap_err "error while waiting on the command: %v" err)
          end
      end
  end.

(** ** [filesystem_helper.go] *)

(** The elements of a cleaned path after its root. *)
Definition path_elements (p : string) : list string :=
  if String.eqb p "." || String.eqb p "/" then []
  else split_on (is_char "/") (TrimPrefix p "/").

Fixpoint strip_common (base targ : list string) : list string * list string :=
  match base, targ with
  | b :: base', t :: targ' => if String.eqb b t then strip_common base' targ' else (base, targ)
  | _, _ => (base, targ)
  end.

(** [filepath.Rel] for a target [filepath.Walk] reports below its root. *)
Definition filepath_Rel (basepath targpath : string) : result string :=
  let base := Clean basepath in
  let targ := Clean targpath in
  if String.eqb targ base then Ok "."
  else if negb (bool_decide (IsAbs base = IsAbs targ)) then Err (ErrNew "Rel: can't make targpath relative to basepath")
  else
    let '(b, t) := strip_common (path_elements base) (path_elements targ) in
    if bool_decide (head b = Some "..") then Err (ErrNew "Rel: can't make targpath relative to basepath")
    else Ok (Join (((λ _, "..") <$> b) ++ t) "/").

(** The callback of [RemoveSrcFilesFromDst] on one visit: the walk stops at an error, and
    neither a failing [Rel] nor a failing [os.Remove] is one. *)
Definition remove_visit (srcDir dstDir : string) (e : WalkEntry) (err : option error) : prog (option error) :=
  match err with
  | Some _ => mret err
  | None =>
      match we_Err e with
      | Some err => mret (Some err)
      | None =>
          if we_IsDir e then mret None
          else
            match filepath_Rel srcDir (we_Path e) with
            | Err _ => mret None
            | Ok relPath =>
                _ ← (os (RemoveFile (filepath_Join [dstDir; relPath])) : prog (option error));
                mret None
            end
      end
  end.

Definition RemoveSrcFilesFromDst (srcDir dstDir : string) : prog (option error) :=
  visits ← (os (WalkDir srcDir) : prog (list WalkEntry));
  err ← for_range visits (remove_visit srcDir dstDir) None;
  match err with
  | Some _ => mret (Some (ErrNew "failed to remove files %s/* from %s"))
  | None => mret None
  end.

Section worker.
Context `{EXT : Externals}.

(** [regex.MatchString] of a compiled expression. *)
Definition regex_matches (fileRegex s : string) : bool :=
  match regexp_MatchString fileRegex s with Ok b => b | Err _ => false end.

(** The walk of [FileExists]: it ends at the first error or the first match ([fs.SkipAll]). *)
Fixpoint exists_visits (fileRegex : string) (visits : list WalkEntry) : bool * option error :=
  match visits with
  | [] => (false, None)
  | d :: visits =>
      match we_Err d with
      | Some err => (false, Some err)
      | None =>
          if negb (we_IsDir d) && regex_matches fileRegex (we_Name d) then (true, None)
          else exists_visits fileRegex visits
      end
  end.

Definition FileExists (root fileRegex : string) : prog (bool * option error) :=
  match regexp_Compile fileRegex with
  | Some e => mret (false, Some (Errorf_v "failed to compile regex %s: %v" e))
  | None =>
      visits ← (os (WalkDir root) : prog (list WalkEntry));
      mret (exists_visits fileRegex visits)
  end.

(** ** [worker.go] *)

Definition workerModprobeDDir := "/etc/modprobe.d".
Definition FirmwareClassPathLocation := "/sys/module/firmware_class/parameters/path".

(** The regular files among the entries of the staged directory, or the error that stops. *)
Fixpoint staged_files (order : list string) (entries : list DirEntry) : result (list DirEntry) :=
  match entries with
  | [] => Ok []
  | e :: entries =>
      match de_Regular e with
      | Err err => Err (Errorf_v "failed to stat %s: %v" err)
      | Ok false => staged_files order entries
      | Ok true =>
          if (0 <? length order) && String.eqb (de_Name e) "softdep.conf"
          then Err (ErrNew "staged modprobedDir %s contains softdep.conf which collides with modulesLoadingOrder")
          else files ← staged_files order entries; Ok (e :: files)
      end
  end.

Definition copy_staged (src : string) (e : DirEntry) (err : option error) : prog (option error) :=
  match err with
  | Some _ => mret err
  | None =>
      err ← (os (CopyTree (filepath_Join [src; de_Name e]) (filepath_Join [workerModprobeDDir; de_Name e])) : prog (option error));
      mret (wrap_err "failed to copy %s to %s: %v" err)
  end.

(** [len] of a slice that may be nil. *)
Definition loading_order (cfg : ModuleConfig) : list string :=
  default [] (mp_ModulesLoadingOrder (mc_Modprobe cfg)).

Definition applyModprobedDir (cfg : ModuleConfig) : prog (option error) :=
  let dir := mp_ModprobedDir (mc_Modprobe cfg) in
  if String.eqb dir "" then mret None
  else
    let src := filepath_Join [sharedFilesDir; dir] in
    entries ← (os (ReadDir src) : prog (result (list DirEntry)));
    match entries with
    | Err e => mret (Some (Errorf_v "failed to read staged modprobedDir %s: %v" e))
    | Ok entries =>
        match staged_files (loading_order cfg) entries with
        | Err e => mret (Some e)
        | Ok [] => mret (Some (ErrNew "staged modprobedDir %s contains no regular files"))
        | Ok files =>
            err ← (os (MkdirAll workerModprobeDDir) : prog (option error));
            match err with
            | Some e => mret (Some (Errorf_v "failed to create %s: %v" e))
            | None => for_range files (copy_staged src) None
            end
        end
    end.

(** [cfg.InTreeModulesToRemove], or the deprecated single name. *)
Definition in_tree_modules (cfg : ModuleConfig) : option (list string) :=
  match mc_InTreeModulesToRemove cfg with
  | Some l => Some l
  | None => if String.eqb (mc_InTreeModuleToRemove cfg) "" then None else Some [mc_InTreeModuleToRemove cfg]
  end.

Definition module_regex (module : string) : string := "^" +:+ module +:+ ".ko".

(** One in-tree module: kept when its file is found; an error only skips it. *)
Definition collect_in_tree (module : string) (modulesToUnload : list string) : prog (list string) :=
  '(found, err) ← FileExists "/lib/modules" (module_regex module);
  match err with
  | Some _ => mret modulesToUnload
  | None => mret (if (found : bool) then modulesToUnload ++ [module] else modulesToUnload)
  end.

Definition remove_in_tree (cfg : ModuleConfig) : prog (option error) :=
  match in_tree_modules cfg with
  | None => mret None
  | Some inTreeModulesToRemove =>
      modulesToUnload ← for_range inTreeModulesToRemove collect_in_tree [];
      match modulesToUnload with
      | [] => mret None
      | _ =>
          err ← modprobe_Run ("-rv" :: modulesToUnload);
          mret (wrap_err "could not remove in-tree modules %s: %v" err)
      end
  end.

(** The firmware of the image, copied to the host directory; the library's [OnError] option
    wraps the error of each file. *)
Definition copy_firmware (cfg : ModuleConfig) (firmwareMountPath : string) : prog (option error) :=
  let fp := mp_FirmwarePath (mc_Modprobe cfg) in
  if String.eqb fp "" then mret None
  else
    err ← (os (CopyTree (filepath_Join [sharedFilesDir; fp]) firmwareMountPath) : prog (option error));
    mret (wrap_err "failed to copy firmware from path %s to path %s: %v" err).

Definition load_args (cfg : ModuleConfig) : list string :=
  let mp := mc_Modprobe cfg in
  match mp_RawArgs mp with
  | Some raw => ma_Load raw
  | None =>
      ["-vd"; filepath_Join [sharedFilesDir; mp_DirName mp]] ++
      match mp_Args mp with Some a => ma_Load a | None => [] end ++
      [mp_ModuleName mp] ++ mp_Parameters mp
  end.

Definition LoadKmod (cfg : ModuleConfig) (firmwareMountPath : string) : prog (option error) :=
  err ← remove_in_tree cfg;
  match err with
  | Some _ => mret err
  | None =>
      err ← copy_firmware cfg firmwareMountPath;
      match err with
      | Some _ => mret err
      | None =>
          err ← applyModprobedDir cfg;
          match err with
          | Some e => mret (Some (Errorf_w "failed to apply modprobe.d files: %w" e))
          | None => modprobe_Run (load_args cfg)
          end
      end
  end.

Definition SetFirmwareClassPath (value : string) : prog (option error) :=
  orig ← (os (ReadFile FirmwareClassPathLocation) : prog (result string));
  match orig with
  | Err e => mret (Some (Errorf_v "could not read %s: %v" e))
  | Ok orig =>
      if String.eqb orig value then mret None
      else
        err ← (os (WriteFile FirmwareClassPathLocation value) : prog (option error));
        mret (wrap_err "could not write %q into %s: %v" err)
  end.

Definition unload_args (cfg : ModuleConfig) : list string :=
  let mp := mc_Modprobe cfg in
  match mp_RawArgs mp with
  | Some raw => ma_Unload raw
  | None =>
      ["-rvd"; filepath_Join [sharedFilesDir; mp_DirName mp]] ++
      match mp_Args mp with Some a => ma_Unload a | None => [] end ++
      (if 0 <? length (loading_order cfg) then loading_order cfg else [mp_ModuleName mp])
  end.

Definition UnloadKmod (cfg : ModuleConfig) (firmwareMountPath : string) : prog (option error) :=
  err ← applyModprobedDir cfg;
  match err with
  | Some e => mret (Some (Errorf_w "failed to apply modprobe.d files: %w" e))
  | None =>
      err ← modprobe_Run (unload_args cfg);
      match err with
      | Some e => mret (Some (Errorf_v "failed to unload module %q: %v" e))
      | None =>
          let fp := mp_FirmwarePath (mc_Modprobe cfg) in
          if String.eqb fp "" then mret None
          else
            _ ← RemoveSrcFilesFromDst (filepath_Join [sharedFilesDir; fp]) firmwareMountPath;
            mret None
      end
  end.

(** ** [config.go], [funcs_kmod.go] *)

(** [UnmarshalStrict] of [k8s.io/apimachinery/pkg/util/yaml] is that of [sigs.k8s.io/yaml]. *)
Definition ReadConfigFile (path : string) : prog (result ModuleConfig) :=
  b ← (os (ReadFile path) : prog (result string));
  match b with
  | Err e => mret (Err (Errorf_v "could not read the configuration file %s: %v" e))
  | Ok b =>
      let '(cfg, err) := yaml_UnmarshalStrict_config b empty_config in
      match err with
      | Some e => mret (Err (Errorf_v "could not decode the configuration from %s: %v" e))
      | None => mret (Ok cfg)
      end
  end.

(** The flag [firmware-path]: [None] when the command line does not set it ([Changed] is false
    and its value the empty default).  [load_config] is the part of [kmodLoadFunc] after the
    configuration was read. *)
Definition load_config (cfg : ModuleConfig) (mountPathFlag : option string) : prog (option error) :=
  err ← match mountPathFlag with
        | Some value => SetFirmwareClassPath value
        | None => mret None
        end;
  match err with
  | Some e => mret (Some (Errorf_v "could not set the firmware_class.path parameter: %v" e))
  | None => LoadKmod cfg (default "" mountPathFlag)
  end.

Definition kmodLoadFunc (cfgPath : string) (mountPathFlag : option string) : prog (option error) :=
  cfg ← ReadConfigFile cfgPath;
  match cfg with
  | Err e => mret (Some (Errorf_v "could not read config file %s: %v" e))
  | Ok cfg => load_config cfg mountPathFlag
  end.

Definition kmodUnloadFunc (cfgPath : string) (mountPathFlag : option string) : prog (option error) :=
  cfg ← ReadConfigFile cfgPath;
  match cfg with
  | Err e => mret (Some (Errorf_v "could not read config file %s: %v" e))
  | Ok cfg => UnloadKmod cfg (default "" mountPathFlag)
  end.
End worker.

(** ** [pullsecrets.go] *)

Section pull_secrets.
(** [kubernetes.NewFromPullSecrets] of go-containerregistry, on the type, the key and the
    content of each secret. *)
Context {Keychain : Type} (NewFromPullSecrets : list (string * string * string) → result Keychain).

(** The type of the secret a file name stands for. *)
Definition secret_type (sKey : string) : option string :=
  if String.eqb sKey ".dockercfg" then Some "kubernetes.io/dockercfg"
  else if String.eqb sKey ".dockerconfigjson" then Some "kubernetes.io/dockerconfigjson"
  else None.

(** One visit of the walk; [filepath.Base] of the visited path is the name of the entry. *)
Definition secret_visit (de : WalkEntry) (s : list (string * string * string) * option error) : prog (list (string * string * string) * option error) :=
  let '(secrets, stopped) := s in
  match stopped with
  | Some _ => mret s
  | None =>
      if bool_decide (is_Some (we_Err de)) || we_IsDir de then mret (secrets, we_Err de)
      else
        match secret_type (we_Name de) with
        | None => mret (secrets, None)
        | Some sType =>
            b ← (os (ReadFile (we_Path de)) : prog (result string));
            match b with
            | Err e => mret (secrets, Some (Errorf_v "could not read %s: %v" e))
            | Ok b => mret (secrets ++ [(sType, we_Name de, b)], None)
            end
        end
  end.

Definition ReadKubernetesSecrets (rootDir : string) : prog (result Keychain) :=
  visits ← (os (WalkDir rootDir) : prog (list WalkEntry));
  '(secrets, err) ← for_range visits secret_visit ([], None);
  match err with
  | Some e => mret (Err (Errorf_v "error while walking %q: %v" e))
  | None => mret (NewFromPullSecrets secrets)
  end.
End pull_secrets.

(** ** Scripts

    What a stage of the worker is meant to do: calls in order, and conditions under which it
    refuses to go on. *)

Inductive action := Do (c : oscall) | Require (b : bool).

Definition no_error (e : option error) : bool := match e with None => true | Some _ => false end.

(** Whether the operating system reported no error. *)
Definition os_ok (o : obs) : bool :=
  match o with
  | Obs (OS (ReadFile _)) r => is_ok r
  | Obs (OS (ReadDir _)) r => is_ok r
  | Obs (OS (WriteFile _ _)) r | Obs (OS (MkdirAll _)) r | Obs (OS (CopyTree _ _)) r | Obs (OS (RemoveFile _)) r
  | Obs (OS (StderrPipe _)) r | Obs (OS (StdoutPipe _)) r | Obs (OS (StartCommand _)) r | Obs (OS (WaitCommand _)) r =>
      no_error r
  | Obs (OS (ReadOutputs _)) r => no_error r.1.1 && no_error r.1.2
  | _ => true
  end.

(** A run follows a script when it makes its calls in order, goes on exactly as long as they
    succeed and the conditions hold, and ends without an error only at its end. *)
Inductive follows : list action → list obs → option error → Prop :=
| follows_end : follows [] [] None
| follows_do c x s tr r : os_ok (Obs (OS c) x) = true → follows s tr r → follows (Do c :: s) (Obs (OS c) x :: tr) r
| follows_fail c x s e : os_ok (Obs (OS c) x) = false → follows (Do c :: s) [Obs (OS c) x] (Some e)
| follows_require s tr r : follows s tr r → follows (Require true :: s) tr r
| follows_refuse s e : follows (Require false :: s) [] (Some e).
#[local] Hint Constructors follows : core.

Lemma follows_app s1 s2 tr1 tr2 r :
  follows s1 tr1 None → follows s2 tr2 r → follows (s1 ++ s2) (tr1 ++ tr2) r.
Proof. intros H. remember None as n. induction H; simplify_eq; simpl; auto. Qed.

Lemma follows_stop s1 s2 tr e e' : follows s1 tr (Some e) → follows (s1 ++ s2) tr (Some e').
Proof. intros H. remember (Some e) as n. induction H; simplify_eq; simpl; auto. Qed.

Lemma wp_follows_seq s1 s2 (p q : prog (option error)) (wrap : error → error) :
  wp p (follows s1) → wp q (follows s2) →
  wp (err ← p; match err with Some e => mret (Some (wrap e)) | None => q end) (follows (s1 ++ s2)).
Proof.
  intros Hp Hq. apply wp_bind. eapply wp_mono; [|exact Hp]. intros tr [e|] Htr; simpl.
  - rewrite app_nil_r. by eapply follows_stop.
  - eapply wp_mono; [|exact Hq]. intros tr' r. by apply follows_app.
Qed.

Lemma follows_wrap s tr err (wrap : error → error) : follows s tr err → follows s tr (wrap <$> err).
Proof. induction 1; simpl; auto. Qed.

Definition run_script (args : list string) : list action :=
  let cmd := modprobe_cmd args in
  [Do (StderrPipe cmd); Do (StdoutPipe cmd); Do (StartCommand cmd); Do (ReadOutputs cmd); Do (WaitCommand cmd)].

Lemma modprobe_Run_follows args : wp (modprobe_Run args) (follows (run_script args)).
Proof.
  unfold modprobe_Run, run_script. cbn. intros [e|]; cbn; [by apply follows_fail|].
  intros [e|]; cbn; [by apply follows_do, follows_fail|].
  intros [e|]; cbn; [by do 2 (apply follows_do; [done|]); apply follows_fail|].
  intros [[e1 e2] first]; cbn.
  destruct (errors_Join _) eqn:E; cbn.
  - do 3 (apply follows_do; [done|]). apply follows_fail. cbn.
    by destruct e1, e2, first.
  - assert (e1 = None ∧ e2 = None) as [-> ->].
    { destruct first; apply errors_Join_None in E; rewrite !Forall_cons in E; naive_solver. }
    intros [e|]; cbn; do 4 (apply follows_do; [done|]); auto.
Qed.

(** The stage that installs the modprobe.d files, given the entries of the staged directory. *)
Definition regular (e : DirEntry) : bool := match de_Regular e with Ok b => b | Err _ => false end.
Definition regular_files (entries : list DirEntry) : list DirEntry :=
  filter (λ e, regular e = true) entries.

Definition no_entry_refused (order : list string) (entries : list DirEntry) : bool :=
  forallb (λ e, match de_Regular e with
                | Err _ => false
                | Ok b => negb (b && (0 <? length order) && String.eqb (de_Name e) "softdep.conf")
                end) entries.

Lemma staged_files_spec order entries :
  match staged_files order entries with
  | Ok files => no_entry_refused order entries = true ∧ files = regular_files entries
  | Err _ => no_entry_refused order entries = false
  end.
Proof.
  unfold regular_files, no_entry_refused, regular.
  induction entries as [|e entries IH]; [done|]. cbn [staged_files forallb]. rewrite filter_cons.
  destruct (de_Regular e) as [[]|err]; cbn [negb andb]; [|by rewrite decide_False|done].
  rewrite decide_True by done.
  destruct ((0 <? length order) && String.eqb (de_Name e) "softdep.conf"); cbn [negb andb]; [done|].
  destruct (staged_files order entries); cbn [mbind result_bind]; [|done]. by destruct IH as [-> <-].
Qed.

Definition modprobed_script (cfg : ModuleConfig) (entries : list DirEntry) : list action :=
  let dir := mp_ModprobedDir (mc_Modprobe cfg) in
  let src := filepath_Join [sharedFilesDir; dir] in
  if String.eqb dir "" then []
  else
    [Do (ReadDir src); Require (no_entry_refused (loading_order cfg) entries);
     Require (0 <? length (regular_files entries)); Do (MkdirAll workerModprobeDDir)] ++
    ((λ e, Do (CopyTree (filepath_Join [src; de_Name e]) (filepath_Join [workerModprobeDDir; de_Name e])))
       <$> regular_files entries).

(** The directory listings a run obtained. *)
Definition listings (tr : list obs) : list (list DirEntry) :=
  omap (λ o, match o with Obs (OS (ReadDir _)) (Ok l) => Some l | _ => None end) tr.

Definition reads_no_dir (a : action) : bool := match a with Do (ReadDir _) => false | _ => true end.

Lemma follows_no_listing s tr r : follows s tr r → forallb reads_no_dir s = true → listings tr = [].
Proof. induction 1 as [|[] ? ? ? ?|[]| |]; cbn; auto; done. Qed.

Lemma copies_follow src files :
  wp (for_range files (copy_staged src) None)
     (follows ((λ e, Do (CopyTree (filepath_Join [src; de_Name e]) (filepath_Join [workerModprobeDDir; de_Name e]))) <$> files)).
Proof.
  assert (∀ l e, wp (for_range l (copy_staged src) (Some e)) (λ tr r, tr = [] ∧ r = Some e)) as Hstop.
  { intros l e. by induction l. }
  induction files as [|f files IH]; cbn; [done|]. intros [e|]; cbn.
  - eapply wp_mono; [|apply Hstop]. intros tr r [-> ->]. by apply follows_fail.
  - eapply wp_mono; [|exact IH]. intros tr r. by apply follows_do.
Qed.

#[local] Arguments for_range : simpl never.

Lemma applyModprobedDir_follows cfg :
  wp (applyModprobedDir cfg) (λ tr r, ∃ entries,
    follows (modprobed_script cfg entries) tr r ∧ Forall (λ l, l = entries) (listings tr)).
Proof.
  unfold applyModprobedDir, modprobed_script. destruct (String.eqb _ ""); [by exists []|].
  cbn. intros [entries|e]; cbn; [|exists []; split; [by apply follows_fail|done]].
  pose proof (staged_files_spec (loading_order cfg) entries) as Hst.
  destruct (staged_files _ entries) as [files|e]; cbn.
  - destruct Hst as [Hok Hf]. destruct files as [|f files]; cbn.
    + exists entries. rewrite Hok, <-Hf. split; [by apply follows_do, follows_require, follows_refuse|by repeat constructor].
    + intros [e|]; cbn.
      * exists entries. rewrite Hok, <-Hf. split; [|by repeat constructor].
        by apply follows_do, follows_require, follows_require, follows_fail.
      * pose proof (copies_follow (filepath_Join [sharedFilesDir; mp_ModprobedDir (mc_Modprobe cfg)]) (f :: files)) as Hc.
        eapply wp_mono; [|exact Hc]. intros tr r Htr. exists entries. rewrite Hok, <-Hf. split.
        -- by do 4 constructor.
        -- apply follows_no_listing in Htr; [change (Forall (λ l, l = entries) (entries :: listings tr)); rewrite Htr; by repeat constructor|].
           apply forallb_forall. by intros ? (? & <- & _)%in_map_iff.
  - exists entries. rewrite Hst. split; [by apply follows_do, follows_refuse|by repeat constructor].
Qed.

(** The search for the files of the in-tree modules: one walk per module whose expression
    compiles, and the modules found are kept in order. *)
Section follows.
Context `{EXT : Externals}.

#[local] Arguments module_regex : simpl never.

Definition finds (module : string) (visits : list WalkEntry) : bool :=
  match exists_visits (module_regex module) visits with (true, None) => true | _ => false end.

Definition found_in_tree (modules : list string) (visits : list (list WalkEntry)) : list string :=
  (filter (λ mv, finds mv.1 mv.2 = true) (zip modules visits)).*1.

Definition searched (modules : list string) : list string :=
  filter (λ m, regexp_Compile (module_regex m) = None) modules.

Definition searches (modules : list string) (tr : list obs) (ms : list string) : Prop :=
  ∃ visits, length visits = length (searched modules) ∧
    tr = Obs (OS (WalkDir "/lib/modules")) <$> visits ∧ ms = found_in_tree (searched modules) visits.

Lemma collect_in_tree_wp m acc :
  wp (collect_in_tree m acc) (λ tr acc', ∃ visits,
    tr = Obs (OS (WalkDir "/lib/modules")) <$> visits ∧ length visits = length (searched [m]) ∧
    acc' = acc ++ found_in_tree (searched [m]) visits).
Proof.
  unfold collect_in_tree, FileExists, searched, found_in_tree. rewrite filter_cons.
  destruct (regexp_Compile (module_regex m)) as [e|] eqn:E; cbn.
  - exists []. by rewrite app_nil_r.
  - intros visits. destruct (exists_visits (module_regex m) visits) as [found err] eqn:Ev.
    assert (finds m visits = found && no_error err) as Hf by (unfold finds; rewrite Ev; by destruct found, err).
    destruct err, found; exists [visits]; rewrite !(decide_True (P := None = None)) by done; cbn [zip_with]; rewrite filter_cons; cbn [fst snd]; rewrite Hf; cbn; by rewrite ?app_nil_r.
Qed.

Lemma searches_cons m modules visits tr ms :
  length visits = length (searched [m]) → searches modules tr ms →
  searches (m :: modules) ((Obs (OS (WalkDir "/lib/modules")) <$> visits) ++ tr)
    (found_in_tree (searched [m]) visits ++ ms).
Proof.
  intros Hv (vs & Hl & -> & ->). exists (visits ++ vs).
  assert (searched (m :: modules) = searched [m] ++ searched modules) as -> by apply (filter_app _ [m]).
  rewrite !length_app, Hv, Hl, fmap_app. split_and!; [done|done|].
  unfold found_in_tree. by rewrite zip_with_app, filter_app, fmap_app by done.
Qed.

Lemma collect_wp modules acc :
  wp (for_range modules collect_in_tree acc) (λ tr ms, ∃ ms', ms = acc ++ ms' ∧ searches modules tr ms').
Proof.
  revert acc. induction modules as [|m modules IH]; intros acc.
  { exists []. split; [by rewrite app_nil_r|]. by exists []. }
  change (for_range (m :: modules) collect_in_tree acc)
    with (s' ← collect_in_tree m acc; for_range modules collect_in_tree s').
  apply wp_bind. eapply wp_mono; [|apply collect_in_tree_wp]. intros tr acc' (vs & -> & Hv & ->).
  eapply wp_mono; [|apply IH]. intros tr' ms (ms' & -> & Hs).
  eexists. split; [by rewrite <-app_assoc|]. by apply searches_cons.
Qed.

(** ** Loading *)

Definition in_tree_script (ms : list string) : list action :=
  match ms with [] => [] | _ => run_script ("-rv" :: ms) end.

Definition firmware_script (cfg : ModuleConfig) (mount : string) : list action :=
  let fp := mp_FirmwarePath (mc_Modprobe cfg) in
  if String.eqb fp "" then [] else [Do (CopyTree (filepath_Join [sharedFilesDir; fp]) mount)].

Definition load_script (cfg : ModuleConfig) (mount : string) (ms : list string) (entries : list DirEntry) : list action :=
  in_tree_script ms ++ firmware_script cfg mount ++ modprobed_script cfg entries ++ run_script (load_args cfg).

Lemma copy_firmware_follows cfg mount : wp (copy_firmware cfg mount) (follows (firmware_script cfg mount)).
Proof.
  unfold copy_firmware, firmware_script. destruct (String.eqb _ ""); [constructor|].
  cbn. intros [e|]; cbn; auto.
Qed.

Lemma remove_in_tree_follows cfg :
  wp (remove_in_tree cfg) (λ tr r, ∃ walks t ms, tr = walks ++ t ∧
    searches (default [] (in_tree_modules cfg)) walks ms ∧ follows (in_tree_script ms) t r).
Proof.
  unfold remove_in_tree. destruct (in_tree_modules cfg) as [modules|]; cbn [default].
  2: { exists [], [], []. split_and!; [done|by exists []|constructor]. }
  apply wp_bind. eapply wp_mono; [|apply collect_wp]. intros walks ms (ms' & -> & Hs). cbn [app].
  destruct ms' as [|m ms'].
  - exists walks, [], []. by split_and!.
  - apply wp_bind. eapply wp_mono; [|apply modprobe_Run_follows]. intros t r Ht. cbn.
    exists walks, t, (m :: ms'). rewrite app_nil_r. split_and!; [done..|]. by apply follows_wrap.
Qed.

(** Scripts without a [ReadDir] leave the listings of a run alone. *)
Lemma listings_app tr tr' : listings (tr ++ tr') = listings tr ++ listings tr'.
Proof. apply omap_app. Qed.

Lemma in_tree_no_listing ms t r : follows (in_tree_script ms) t r → listings t = [].
Proof. intros H. apply (follows_no_listing _ _ _ H). by destruct ms. Qed.
Lemma firmware_no_listing cfg mount t r : follows (firmware_script cfg mount) t r → listings t = [].
Proof. intros H. apply (follows_no_listing _ _ _ H). unfold firmware_script. by destruct (String.eqb _ _). Qed.
Lemma run_no_listing args t r : follows (run_script args) t r → listings t = [].
Proof. intros H. by apply (follows_no_listing _ _ _ H). Qed.

(** The two stages both commands end with. *)
Lemma install_and_run_follows cfg args (wrap : error → error) :
  wp (err ← applyModprobedDir cfg;
      match err with Some e => mret (Some (wrap e)) | None => modprobe_Run args end)
     (λ tr r, ∃ entries, follows (modprobed_script cfg entries ++ run_script args) tr r ∧
                         Forall (λ l, l = entries) (listings tr)).
Proof.
  apply wp_bind. eapply wp_mono; [|apply applyModprobedDir_follows]. intros t [e|] (entries & Ht & Hl).
  - exists entries. rewrite app_nil_r. split; [by eapply follows_stop|done].
  - eapply wp_mono; [|apply modprobe_Run_follows]. intros t' r Ht'. exists entries.
    split; [by apply follows_app|]. by rewrite listings_app, (run_no_listing _ _ _ Ht'), app_nil_r.
Qed.

(** C18: loading a module follows a script.  The worker walks /lib/modules once for every
    in-tree module to remove whose expression compiles; then, in this order, it removes the
    in-tree modules whose file it found with one modprobe -rv (none, when none was found),
    copies the firmware to the host directory if the configuration has one, installs the
    regular files of the staged modprobe.d directory (refusing when an entry cannot be read,
    softdep.conf would collide with the loading order, or there is no regular file, before it
    writes anything there), and runs modprobe with the configured arguments.  It stops at the first failing
    call, and reports success exactly when it reached the end: the module is never loaded
    after a step before it failed. *)
Theorem LoadKmod_follows_script cfg mount :
  wp (LoadKmod cfg mount) (λ tr r, ∃ walks t ms entries, tr = walks ++ t ∧
    searches (default [] (in_tree_modules cfg)) walks ms ∧
    follows (load_script cfg mount ms entries) t r ∧
    Forall (λ l, l = entries) (listings t)).
Proof.
  unfold LoadKmod. apply wp_bind. eapply wp_mono; [|apply remove_in_tree_follows].
  intros tr1 [e|] (walks & t1 & ms & -> & Hs & H1); cbn.
  { exists walks, t1, ms, []. rewrite app_nil_r. split_and!; [done|done|by eapply follows_stop|].
    by rewrite (in_tree_no_listing _ _ _ H1). }
  apply wp_bind. eapply wp_mono; [|apply copy_firmware_follows]. intros t2 [e|] H2; cbn.
  { exists walks, (t1 ++ t2), ms, []. rewrite app_nil_r, <-app_assoc. split_and!; [done|done| |].
    - apply follows_app; [done|]. by eapply follows_stop.
    - by rewrite listings_app, (in_tree_no_listing _ _ _ H1), (firmware_no_listing _ _ _ _ H2). }
  eapply wp_mono; [|apply (install_and_run_follows _ _ (Errorf_w "failed to apply modprobe.d files: %w"))].
  intros t3 r (entries & H3 & Hl). exists walks, (t1 ++ t2 ++ t3), ms, entries.
  split_and!; [by rewrite <-!app_assoc|done|by do 2 (apply follows_app; [done|])|].
  by rewrite !listings_app, (in_tree_no_listing _ _ _ H1), (firmware_no_listing _ _ _ _ H2).
Qed.

(** ** Unloading *)

(** Removing the files a walk visits: up to its first error, which it ends with; directories stay,
    and a file that cannot be removed does not stop it. *)
Inductive removes_visits (src dst : string) : list WalkEntry → list obs → option error → Prop :=
| rv_end : removes_visits src dst [] [] None
| rv_error e err l : we_Err e = Some err → removes_visits src dst (e :: l) [] (Some err)
| rv_dir e l tr r :
    we_Err e = None → we_IsDir e = true → removes_visits src dst l tr r → removes_visits src dst (e :: l) tr r
| rv_file e rel x l tr r :
    we_Err e = None → we_IsDir e = false → filepath_Rel src (we_Path e) = Ok rel → removes_visits src dst l tr r →
    removes_visits src dst (e :: l) (Obs (OS (RemoveFile (filepath_Join [dst; rel]))) x :: tr) r
| rv_outside e err l tr r :
    we_Err e = None → we_IsDir e = false → filepath_Rel src (we_Path e) = Err err → removes_visits src dst l tr r →
    removes_visits src dst (e :: l) tr r.

Definition removes_firmware (cfg : ModuleConfig) (mount : string) (tr : list obs) : Prop :=
  let fp := mp_FirmwarePath (mc_Modprobe cfg) in
  let src := filepath_Join [sharedFilesDir; fp] in
  if String.eqb fp "" then tr = []
  else ∃ visits tr' r, tr = Obs (OS (WalkDir src)) visits :: tr' ∧ removes_visits src mount visits tr' r.

Lemma remove_visits_wp src dst visits :
  wp (for_range visits (remove_visit src dst) None) (removes_visits src dst visits).
Proof.
  assert (∀ l e, wp (for_range l (remove_visit src dst) (Some e)) (λ tr r, tr = [] ∧ r = Some e)) as Hstop.
  { intros l e. by induction l. }
  induction visits as [|e visits IH]; [constructor|].
  change (for_range (e :: visits) (remove_visit src dst) None)
    with (s' ← remove_visit src dst e None; for_range visits (remove_visit src dst) s').
  cbn [remove_visit]. destruct (we_Err e) as [err|] eqn:Ee; cbn [mbind prog_bind].
  { eapply wp_mono; [|apply Hstop]. intros tr r [-> ->]. by constructor. }
  destruct (we_IsDir e) eqn:Ed; [eapply wp_mono; [|exact IH]; intros tr r Htr; by constructor|].
  destruct (filepath_Rel src (we_Path e)) as [rel|err] eqn:Er; [|eapply wp_mono; [|exact IH]; intros tr r Htr; by eapply rv_outside].
  intros x. eapply wp_mono; [|exact IH]. intros tr r Htr. by constructor.
Qed.

Lemma RemoveSrcFilesFromDst_wp src dst :
  wp (RemoveSrcFilesFromDst src dst) (λ tr _, ∃ visits tr' r, tr = Obs (OS (WalkDir src)) visits :: tr' ∧ removes_visits src dst visits tr' r).
Proof.
  intros visits.
  change (wp (err ← for_range visits (remove_visit src dst) None;
              match err with
              | Some _ => mret (Some (ErrNew "failed to remove files %s/* from %s"))
              | None => mret None
              end)
             (λ tr (_ : option error), ∃ visits0 tr' r, Obs (OS (WalkDir src)) visits :: tr = Obs (OS (WalkDir src)) visits0 :: tr' ∧
               removes_visits src dst visits0 tr' r)).
  apply wp_bind. eapply wp_mono; [|apply remove_visits_wp]. intros tr r Htr.
  destruct r as [e|]; cbn; [exists visits, tr, (Some e)|exists visits, tr, None]; by rewrite app_nil_r.
Qed.

(** Unloading follows the same script backwards: the staged modprobe.d files are installed,
    then modprobe runs with the unload arguments, and only when both succeeded the firmware
    files of the image are removed from the host directory, each file the walk of the image's
    firmware visits before its first error (directories stay).  The result is an error exactly
    when one of the first two stages failed: leftover firmware does not fail an unload. *)
Theorem UnloadKmod_follows_script cfg mount :
  wp (UnloadKmod cfg mount) (λ tr r, ∃ t rest r' entries, tr = t ++ rest ∧
    follows (modprobed_script cfg entries ++ run_script (unload_args cfg)) t r' ∧
    Forall (λ l, l = entries) (listings t) ∧
    match r' with
    | Some _ => is_Some r ∧ rest = []
    | None => r = None ∧ removes_firmware cfg mount rest
    end).
Proof.
  unfold UnloadKmod. apply wp_bind. eapply wp_mono; [|apply applyModprobedDir_follows].
  intros t1 [e|] (entries & H1 & Hl).
  { exists t1, [], (Some e), entries. split_and!; [done|by eapply follows_stop|done|done|done]. }
  apply wp_bind. eapply wp_mono; [|apply modprobe_Run_follows]. intros t2 r2 H2.
  assert (follows (modprobed_script cfg entries ++ run_script (unload_args cfg)) (t1 ++ t2) r2) as Hf
    by by apply follows_app.
  assert (Forall (λ l, l = entries) (listings (t1 ++ t2))) as Hl'.
  { by rewrite listings_app, (run_no_listing _ _ _ H2), app_nil_r. }
  destruct r2 as [e|].
  { exists (t1 ++ t2), [], (Some e), entries. rewrite !app_nil_r. by split_and!. }
  unfold removes_firmware. destruct (String.eqb _ "").
  { exists (t1 ++ t2), [], None, entries. rewrite !app_nil_r. by split_and!. }
  apply wp_bind. eapply wp_mono; [|apply RemoveSrcFilesFromDst_wp]. intros t3 r3 H3.
  exists (t1 ++ t2), t3, None, entries. cbn. by rewrite app_nil_r, app_assoc.
Qed.
End follows.

(** ** Firmware files: what a load copies, an unload removes *)

(** The name of a file or directory in a path. *)
Definition plain_element (e : string) : Prop := path_element e ∧ e ≠ "." ∧ e ≠ "..".

Lemma plain_walk dirs els : Forall plain_element els → foldl walk dirs els = dirs ++ els.
Proof.
  intros H. revert dirs. induction H as [|e els ([He _] & H1 & H2) _ IH]; intros dirs; simpl; [by rewrite app_nil_r|].
  rewrite IH. unfold walk. destruct (String.eqb_spec e ""), (String.eqb_spec e "."), (String.eqb_spec e ".."); try done.
  simpl. by rewrite <-app_assoc.
Qed.

Lemma walk_plain els : ∀ dirs,
  Forall (λ e, string_forallb (λ c, negb (is_char "/" c)) e = true) els → Forall plain_element dirs →
  Forall plain_element (foldl walk dirs els).
Proof.
  induction els as [|e els IH]; intros dirs; simpl; [done|]. rewrite Forall_cons. intros [He Hels] Hd. apply IH; [done|].
  unfold walk. destruct (String.eqb_spec e ""), (String.eqb_spec e "."), (String.eqb_spec e ".."); try done; simpl.
  - destruct dirs as [|x dirs _] using rev_ind; [done|]. rewrite removelast_last. by apply Forall_app in Hd as [? _].
  - apply Forall_app. split; [done|]. by repeat constructor.
Qed.

Lemma resolved_plain p : Forall plain_element (resolved p).
Proof. apply walk_plain; [apply split_on_free|constructor]. Qed.

Lemma IsAbs_slash s : IsAbs (String "/" s) = true.
Proof. apply HasPrefix_spec. by exists s. Qed.

Lemma Clean_rooted p : IsAbs p = true → Clean p = "/" +:+ Join (resolved p) "/".
Proof.
  unfold Clean, IsAbs. intros ->. by rewrite (clean_steps_walk _ [] (not_elem_of_nil _)).
Qed.

Lemma split_Join_path els : els ≠ [] → Forall plain_element els → split_on (is_char "/") (Join els "/") = els.
Proof.
  intros Hn Hall. induction Hall as [|e els ([_ He] & _) Hall IH]; [done|]. destruct els as [|e' els]; [by apply split_on_none|].
  rewrite Join_cons by done. change ("/" +:+ Join (e' :: els) "/") with (String "/"%char (Join (e' :: els) "/")).
  rewrite split_on_app, split_on_none, IH by done. done.
Qed.

Lemma resolved_rooted els : Forall plain_element els → resolved ("/" +:+ Join els "/") = els.
Proof.
  intros H. unfold resolved. change ("/" +:+ Join els "/") with (String "/"%char (Join els "/")). simpl.
  destruct els as [|e els]; [done|]. by rewrite split_Join_path, plain_walk.
Qed.

Lemma path_elements_rooted els : Forall plain_element els → path_elements ("/" +:+ Join els "/") = els.
Proof.
  intros H. unfold path_elements, TrimPrefix. rewrite strip_prefix_app. simpl.
  destruct els as [|e els]; [done|]. rewrite split_Join_path by done.
  assert (Join (e :: els) "/" ≠ "") as Hj.
  { inversion H as [|? ? ([He _] & _)]; subst. destruct els; simpl; [done|]. by destruct e. }
  by destruct (String.eqb_spec (Join (e :: els) "/") "").
Qed.

Lemma strip_common_prefix base els : strip_common base (base ++ els) = ([], els).
Proof. induction base as [|b base IH]; simpl; [by destruct els|]. by rewrite String.eqb_refl. Qed.

Lemma resolved_below src els :
  els ≠ [] → Forall plain_element els → resolved (src +:+ "/" +:+ Join els "/") = resolved src ++ els.
Proof.
  intros Hn H. unfold resolved. change ("/" +:+ Join els "/") with (String "/"%char (Join els "/")).
  by rewrite split_on_app, foldl_app, split_Join_path, plain_walk.
Qed.

Lemma Rel_Join src els :
  IsAbs src = true → els ≠ [] → Forall plain_element els →
  filepath_Rel src (filepath_Join [src; Join els "/"]) = Ok (Join els "/").
Proof.
  intros Hsrc Hn Hels.
  assert (src ≠ "") as Hs by (intros ->; done).
  assert (Join els "/" ≠ "") as Hj.
  { destruct Hels as [|e els ([He _] & _)]; [done|]. destruct els; simpl; [done|]. by destruct e. }
  assert (filepath_Join [src; Join els "/"] = "/" +:+ Join (resolved src ++ els) "/") as ->.
  { unfold filepath_Join. rewrite filter_all by (by repeat constructor). cbn [Join].
    rewrite Clean_rooted; [by rewrite resolved_below|]. apply HasPrefix_spec in Hsrc as [t ->]. apply IsAbs_slash. }
  assert (Forall plain_element (resolved src ++ els)) as Hall by (apply Forall_app; auto using resolved_plain).
  unfold filepath_Rel. rewrite !Clean_rooted by (done || apply IsAbs_slash). rewrite (resolved_rooted _ Hall).
  rewrite !path_elements_rooted by auto using resolved_plain. rewrite strip_common_prefix.
  destruct (String.eqb_spec ("/" +:+ Join (resolved src ++ els) "/") ("/" +:+ Join (resolved src) "/")) as [Heq|]; [|done].
  apply (f_equal path_elements) in Heq. rewrite !path_elements_rooted in Heq by auto using resolved_plain.
  apply (f_equal length) in Heq. rewrite length_app in Heq. destruct els; [done|]. simpl in Heq. lia.
Qed.

(** The files below a firmware directory, each the list of its path elements, as a walk that
    meets no error reports them among the directories. *)
Definition walk_reports (src : string) (files : list (list string)) (visits : list WalkEntry) : Prop :=
  Forall (λ v, we_Err v = None) visits ∧
  we_Path <$> filter (λ v, we_IsDir v = false) visits = (λ els, filepath_Join [src; Join els "/"]) <$> files.

(** The removals of a walk without errors. *)
Lemma removes_reported src dst files visits tr r :
  IsAbs src = true → Forall (λ els, els ≠ [] ∧ Forall plain_element els) files → walk_reports src files visits →
  removes_visits src dst visits tr r →
  obs_call <$> tr = (λ els, OS (RemoveFile (filepath_Join [dst; Join els "/"]))) <$> files.
Proof.
  intros Hsrc Hfiles [Herr Hpaths] H. revert files Hfiles Herr Hpaths.
  induction H as [|e err l He|e l tr r He Hd H IH|e rel x l tr r He Hd Hrel H IH|e err l tr r He Hd Hrel H IH]; intros files Hfiles.
  - intros _ Hp. by destruct files.
  - intros [? _]%Forall_cons. congruence.
  - intros [_ Hl]%Forall_cons. rewrite filter_cons, Hd. intros Hp. by apply IH.
  - intros [_ Hl]%Forall_cons. rewrite filter_cons, Hd. destruct Hfiles as [|els files [Hn Hels] Hfiles]; [done|].
    intros Hp. injection Hp as Hp Hpaths. rewrite Hp, Rel_Join in Hrel by done. injection Hrel as <-.
    by rewrite !fmap_cons, (IH files Hfiles Hl Hpaths).
  - intros [_ Hl]%Forall_cons. rewrite filter_cons, Hd. destruct Hfiles as [|els files [Hn Hels] Hfiles]; [done|].
    intros Hp. injection Hp as Hp _. by rewrite Hp, Rel_Join in Hrel.
Qed.

Lemma image_dir_abs fp : IsAbs (filepath_Join [sharedFilesDir; fp]) = true.
Proof.
  unfold filepath_Join, sharedFilesDir. destruct (decide (fp = "")) as [->|]; [done|].
  rewrite filter_all by (by repeat constructor). rewrite Clean_rooted; [apply IsAbs_slash|]. apply IsAbs_slash.
Qed.


Definition demo_firmware_config : ModuleConfig :=
  {| mc_KernelVersion := mc_KernelVersion demo_config; mc_ContainerImage := mc_ContainerImage demo_config;
     mc_ImagePullPolicy := mc_ImagePullPolicy demo_config; mc_InsecurePull := mc_InsecurePull demo_config;
     mc_InTreeModulesToRemove := mc_InTreeModulesToRemove demo_config; mc_InTreeModuleToRemove := mc_InTreeModuleToRemove demo_config;
     mc_Modprobe := {| mp_ModuleName := "mod_kmod"; mp_Parameters := []; mp_DirName := "/opt"; mp_Args := None; mp_RawArgs := None;
                       mp_FirmwarePath := "/firmware"; mp_ModprobedDir := ""; mp_ModulesLoadingOrder := None |} |}.


(** ** From the operator to the node *)

Section end_to_end.
Context `{EXT : Externals} `{EXTL : !ExternalsLaws} (workerCfg : WorkerConfig) (workerImage : string).

(** The run of a program after its first call was answered by [x]. *)
Definition file_answer (o : obs) : option (result string) :=
  match o with Obs (OS (ReadFile _)) r => Some r | _ => None end.

Lemma exec_read {R} path (k : result string → prog R) b tr r :
  exec (Call (OS (ReadFile path)) k) (Obs (OS (ReadFile path)) b :: tr) r ↔ exec (k b) tr r.
Proof.
  split; [|by intros H; exists b, tr]. intros (x & tr' & Heq & H).
  pose proof (f_equal (λ l, head l ≫= file_answer) Heq) as Hx.
  pose proof (f_equal tail Heq) as Ht. cbn in Hx, Ht. by simplify_eq.
Qed.

Lemma ReadConfigFile_exec {R} path cfg b (k : result ModuleConfig → prog R) tr r :
  config_stored cfg = true → yaml_Marshal_config cfg = Ok b →
  exec (ReadConfigFile path ≫= k) (Obs (OS (ReadFile path)) (Ok b) :: tr) r ↔ exec (k (Ok cfg)) tr r.
Proof.
  intros Hc Hb.
  change (ReadConfigFile path ≫= k) with (Call (OS (ReadFile path)) (λ x : result string,
    (match x with
     | Err e => mret (Err (Errorf_v "could not read the configuration file %s: %v" e))
     | Ok b =>
         let '(cfg, err) := yaml_UnmarshalStrict_config b empty_config in
         match err with
         | Some e => mret (Err (Errorf_v "could not decode the configuration from %s: %v" e))
         | None => mret (Ok cfg)
         end
     end : prog (result ModuleConfig)) ≫= k)).
  rewrite exec_read. by rewrite (yaml_config_roundtrip cfg b).
Qed.

(** What the operator configured is what the worker does on the node.  For a loader pod
    made from an entry of the NodeModulesConfig's spec, the worker's command line is
    [kmod load <file>], with the [firmware-path] flag set to the host's firmware directory
    exactly when the entry has firmware; and when the file holds the pod's configuration
    annotation, the runs of the worker are those of loading the entry's own configuration,
    after setting the kernel's firmware search path when the flag is given.  In the same way an
    unloader pod made from an entry of the status unloads that entry's configuration. *)
Theorem worker_pods_do_as_configured nmc nms nmst pl pu :
  LoaderPodTemplate workerCfg workerImage nmc nms = Ok pl →
  UnloaderPodTemplate workerCfg workerImage nmc nmst = Ok pu →
  config_stored (nms_Config nms) = true → config_stored (nmst_Config nmst) = true →
  let read p := Obs (OS (ReadFile configFullPath)) (Ok (GetConfigAnnotation (Some p))) in
  let flag cfg := firmware_flag workerCfg cfg in
  (worker_args pl = Some (worker_command workerCfg "load" (nms_Config nms)) ∧
   ∀ tr r, exec (kmodLoadFunc configFullPath (flag (nms_Config nms))) (read pl :: tr) r ↔
           exec (load_config (nms_Config nms) (flag (nms_Config nms))) tr r) ∧
  (worker_args pu = Some (worker_command workerCfg "unload" (nmst_Config nmst)) ∧
   ∀ tr r, exec (kmodUnloadFunc configFullPath (flag (nmst_Config nmst))) (read pu :: tr) r ↔
           exec (UnloadKmod (nmst_Config nmst) (default "" (flag (nmst_Config nmst)))) tr r).
Proof.
  intros (Hl & _ & _ & _ & _ & Hla)%loader_template_facts (Hu & _ & _ & _ & Hua)%unloader_template_facts Hcl Hcu.
  cbv zeta. split; (split; [done|]); intros tr r.
  - unfold kmodLoadFunc. by rewrite (ReadConfigFile_exec _ _ _ _ _ _ Hcl (wpf_config _ _ _ _ Hl)).
  - unfold kmodUnloadFunc. by rewrite (ReadConfigFile_exec _ _ _ _ _ _ Hcu (wpf_config _ _ _ _ Hu)).
Qed.
End end_to_end.

Lemma worker_pods_do_as_configured_witness :
  worker_args demo_loader_pod = Some (worker_command demo_worker_cfg "load" (nms_Config demo_spec)) ∧
  worker_args demo_unloader_pod = Some (worker_command demo_worker_cfg "unload" (nmst_Config demo_status)).
Proof.
  destruct (worker_pods_do_as_configured (EXT := demo_externals) demo_worker_cfg "worker:v1" (demo_nmc "node-a" [])
    demo_spec demo_status demo_loader_pod demo_unloader_pod) as [[Hl _] [Hu _]];
    [vm_compute; reflexivity..|]. by split.
Defined.
