(* ===== verification/WorkerMain.v ===== *)
(** * The worker's command line ([cmd/worker])

    The tree of commands [main] builds, the hook that creates the worker, and the handlers of
    [kmod load] and [kmod unload].  The library that finds the command and parses the flags is a
    parameter ([Cobra]) with its documented behaviour on command lines of the form
    [<command path> <arguments> --flag value ...].  The theorem follows a worker pod from the
    operator's template to the exit status of its container. *)

From S2P Require Import Prelude Types Kube GoStrings Externals Demo Labels NmcHelper WorkerPod Worker.

Open Scope string_scope.
Open Scope nat_scope.
Open Scope list_scope.

(** ** Commands *)

(** A flag of a command after parsing. *)
Record pflag := { fl_Value : string; fl_Changed : bool }.
Definition flagset := gmap string pflag.

(** The package variables of [main.go] the handlers use: whether [w] was created. *)
Record globals := { g_w : bool }.

Definition hook := globals → globals * option error.
Definition handler := globals → flagset → list string → prog (option error).

(** A [cobra.Command]: its name, the check of its arguments, its hook, its handler, its string flags
    with their defaults, and its subcommands. *)
Inductive Command :=
| Cmd (Use : string) (Args : option (list string → option error)) (PersistentPreRunE : option hook)
      (RunE : option handler) (Flags : gmap string string) (Commands : list Command).

Definition cmd_Use (c : Command) : string := let 'Cmd u _ _ _ _ _ := c in u.
Definition cmd_Args (c : Command) : option (list string → option error) := let 'Cmd _ a _ _ _ _ := c in a.
Definition cmd_PreRunE (c : Command) : option hook := let 'Cmd _ _ p _ _ _ := c in p.
Definition cmd_RunE (c : Command) : option handler := let 'Cmd _ _ _ r _ _ := c in r.
Definition cmd_Flags (c : Command) : gmap string string := let 'Cmd _ _ _ _ f _ := c in f.
Definition cmd_Commands (c : Command) : list Command := let 'Cmd _ _ _ _ _ l := c in l.

Definition AddCommand (c : Command) (l : list Command) : Command :=
  let 'Cmd u a p r f cs := c in Cmd u a p r f (cs ++ l).

(** [Flags().String(name, value, usage)]. *)
Definition Flags_String (c : Command) (name value : string) : Command :=
  let 'Cmd u a p r f cs := c in Cmd u a p r (<[name := value]> f) cs.

(** ** What the library documents *)

Definition subcommand (c : Command) (name : string) : option Command :=
  find_first (λ d, String.eqb (cmd_Use d) name) (cmd_Commands c).

(** The command a path leads to, and the hook of the last command on the way that has one. *)
Fixpoint find_command (c : Command) (path : list string) : option Command :=
  match path with
  | [] => Some c
  | p :: path => d ← subcommand c p; find_command d path
  end.

Fixpoint find_hook (c : Command) (path : list string) : option hook :=
  match path with
  | [] => cmd_PreRunE c
  | p :: path =>
      match subcommand c p ≫= λ d, find_hook d path with
      | Some h => Some h
      | None => cmd_PreRunE c
      end
  end.

Definition flag_args (set : list (string * string)) : list string :=
  concat ((λ fv : string * string, ["--" +:+ fv.1; fv.2]) <$> set).

Definition parsed_flags (c : Command) (set : list (string * string)) : flagset :=
  foldl (λ m fv, <[fv.1 := {| fl_Value := fv.2; fl_Changed := true |}]> m)
    ((λ d, {| fl_Value := d; fl_Changed := false |}) <$> cmd_Flags c) set.

(** A positional argument. *)
Definition positional (a : string) : bool := negb (HasPrefix a "-").

(** A command that was found: the arguments are checked, then the hook runs, then the handler. *)
Definition run_command (hk : option hook) (check : list string → option error) (run : handler)
    (g : globals) (flags : flagset) (args : list string) : prog (option error) :=
  match check args with
  | Some e => mret (Some e)
  | None =>
      let '(g, err) := match hk with Some h => h g | None => (g, None) end in
      match err with Some e => mret (Some e) | None => run g flags args end
  end.

Class Cobra := {
  ExactArgs : nat → list string → option error;
  ExecuteContext : Command → globals → list string → prog (option error);
}.

Class CobraLaws (C : Cobra) : Prop := {
  ExactArgs_spec n args : ExactArgs n args = None ↔ length args = n;
  Execute_spec root g path leaf check run args set :
    find_command root path = Some leaf → cmd_Commands leaf = [] →
    cmd_Args leaf = Some check → cmd_RunE leaf = Some run →
    Forall (λ a, positional a = true) args →
    Forall (λ fv, is_Some (cmd_Flags leaf !! fv.1)) set →
    ExecuteContext root g (path ++ args ++ flag_args set) =
      run_command (find_hook root path) check run g (parsed_flags leaf set) args;
}.

Section worker_main.
Context `{EXT : Externals} `{C : Cobra}.

(** ** [cmd/worker/funcs_kmod.go] *)

(** The version and the commit are only logged; [w] is created. *)
Definition rootFuncPreRunE : hook := λ _, ({| g_w := true |}, None).

Definition load_RunE : handler := λ g flags args,
  match args with
  | [] => mret (Some (ErrPanic "index out of range"))
  | cfgPath :: _ =>
      cfg ← ReadConfigFile cfgPath;
      match cfg with
      | Err e => mret (Some (Errorf_v "could not read config file %s: %v" e))
      | Ok cfg =>
          match flags !! FlagFirmwarePath, g_w g with
          | Some mountPathFlag, true =>
              err ← (if fl_Changed mountPathFlag then SetFirmwareClassPath (fl_Value mountPathFlag) else mret None);
              match err with
              | Some e => mret (Some (Errorf_v "could not set the firmware_class.path parameter: %v" e))
              | None => LoadKmod cfg (fl_Value mountPathFlag)
              end
          | _, _ => mret (Some (ErrPanic "nil pointer dereference"))
          end
      end
  end.

Definition unload_RunE : handler := λ g flags args,
  match args with
  | [] => mret (Some (ErrPanic "index out of range"))
  | cfgPath :: _ =>
      cfg ← ReadConfigFile cfgPath;
      match cfg with
      | Err e => mret (Some (Errorf_v "could not read config file %s: %v" e))
      | Ok cfg =>
          match flags !! FlagFirmwarePath, g_w g with
          | Some mountPathFlag, true => UnloadKmod cfg (fl_Value mountPathFlag)
          | _, _ => mret (Some (ErrPanic "nil pointer dereference"))
          end
      end
  end.

(** Both commands get the flag, with the empty default. *)
Definition setCommandsFlags (load unload : Command) : Command * Command :=
  (Flags_String load FlagFirmwarePath "", Flags_String unload FlagFirmwarePath "").

(** ** [cmd/worker/main.go] *)

Definition rootCmd : Command := Cmd "worker" None (Some rootFuncPreRunE) None ∅ [].
Definition kmodCmd : Command := Cmd "kmod" None None None ∅ [].
Definition kmodLoadCmd : Command := Cmd "load" (Some (ExactArgs 1)) None (Some load_RunE) ∅ [].
Definition kmodUnloadCmd : Command := Cmd "unload" (Some (ExactArgs 1)) None (Some unload_RunE) ∅ [].

Definition command_tree : Command :=
  let '(load, unload) := setCommandsFlags kmodLoadCmd kmodUnloadCmd in
  AddCommand rootCmd [AddCommand kmodCmd [load; unload]].

(** The exit status of the process. *)
Definition worker_main (args : list string) : prog Z :=
  err ← ExecuteContext command_tree {| g_w := false |} args;
  mret (match err with Some _ => 1%Z | None => 0%Z end).

(** ** From the pod to the exit status *)

Context {CL : CobraLaws C}.

Definition flag_set (flag : option string) : list (string * string) :=
  match flag with Some v => [(FlagFirmwarePath, v)] | None => [] end.

(** The two command lines of the operator reach their handlers, after [w] was created. *)
Lemma command_dispatch (verb : string) (cfgPath : string) (flag : option string) :
  positional cfgPath = true → verb = "load" ∨ verb = "unload" →
  ExecuteContext command_tree {| g_w := false |} (["kmod"; verb; cfgPath] ++ flag_args (flag_set flag)) =
  (if String.eqb verb "load" then kmodLoadFunc else kmodUnloadFunc) cfgPath flag.
Proof.
  intros Hp Hv.
  assert (ExactArgs 1 [cfgPath] = None) as Hex by (by apply ExactArgs_spec).
  assert (Forall (λ a, positional a = true) [cfgPath]) as Hpos by (by constructor).
  destruct Hv as [-> | ->].
  - change (["kmod"; "load"; cfgPath] ++ ?l) with (["kmod"; "load"] ++ [cfgPath] ++ l).
    erewrite Execute_spec by (try reflexivity; try done; destruct flag; repeat constructor; by eexists).
    unfold run_command. rewrite Hex. simpl. unfold kmodLoadFunc, load_config. by destruct flag.
  - change (["kmod"; "unload"; cfgPath] ++ ?l) with (["kmod"; "unload"] ++ [cfgPath] ++ l).
    erewrite Execute_spec by (try reflexivity; try done; destruct flag; repeat constructor; by eexists).
    unfold run_command. rewrite Hex. simpl. unfold kmodUnloadFunc. by destruct flag.
Qed.

Lemma exec_ret_map {A B} (p : prog A) (f : A → B) tr b :
  exec (a ← p; mret (f a)) tr b ↔ ∃ a, exec p tr a ∧ b = f a.
Proof.
  revert tr. induction p as [r|c k IH]; intros tr; simpl; [naive_solver|]. split.
  - intros (x & tr' & -> & (a & Ha & ->)%IH). exists a. eauto.
  - intros (a & (x & tr' & -> & Ha) & ->). exists x, tr'. split; [done|]. apply IH. eauto.
Qed.

Definition exit_status (err : option error) : Z := match err with Some _ => 1%Z | None => 0%Z end.

Context `{EXTL : !ExternalsLaws} (workerCfg : WorkerConfig) (workerImage : string).

Lemma worker_command_flags verb cfg :
  worker_command workerCfg verb cfg = ["kmod"; verb; configFullPath] ++ flag_args (flag_set (firmware_flag workerCfg cfg)).
Proof. unfold worker_command. by destruct (firmware_flag workerCfg cfg). Qed.

(** C19: a worker pod ends well exactly when its module was loaded, or unloaded, as configured.  The
    container of a loader pod made from an entry of the spec runs the worker with the pod's
    arguments; when the configuration file holds the pod's annotation, the process does what
    loading the entry's configuration does, with the kernel's firmware search path set to the
    host's firmware directory exactly if the entry has firmware, and exits with status 0 if that
    succeeded and 1 if it failed.  An unloader pod made from an entry of the status unloads that
    entry in the same way. *)
Theorem worker_pod_exit_status nmc nms nmst pl pu argsl argsu :
  LoaderPodTemplate workerCfg workerImage nmc nms = Ok pl →
  UnloaderPodTemplate workerCfg workerImage nmc nmst = Ok pu →
  worker_args pl = Some argsl → worker_args pu = Some argsu →
  config_stored (nms_Config nms) = true → config_stored (nmst_Config nmst) = true →
  let read p := Obs (OS (ReadFile configFullPath)) (Ok (GetConfigAnnotation (Some p))) in
  let flag cfg := firmware_flag workerCfg cfg in
  (∀ tr code, exec (worker_main argsl) (read pl :: tr) code ↔
     ∃ err, exec (load_config (nms_Config nms) (flag (nms_Config nms))) tr err ∧ code = exit_status err) ∧
  (∀ tr code, exec (worker_main argsu) (read pu :: tr) code ↔
     ∃ err, exec (UnloadKmod (nmst_Config nmst) (default "" (flag (nmst_Config nmst)))) tr err ∧ code = exit_status err).
Proof.
  intros Hl Hu Hal Hau Hcl Hcu read flag.
  destruct (worker_pods_do_as_configured workerCfg workerImage nmc nms nmst pl pu Hl Hu Hcl Hcu) as [[Hl1 Hl2] [Hu1 Hu2]].
  rewrite Hal in Hl1. injection Hl1 as ->. rewrite Hau in Hu1. injection Hu1 as ->.
  split; intros tr code; unfold worker_main; rewrite worker_command_flags, command_dispatch by auto.
  - rewrite exec_ret_map. split; intros (err & H & ->); exists err; (split; [by apply Hl2|done]).
  - rewrite exec_ret_map. split; intros (err & H & ->); exists err; (split; [by apply Hu2|done]).
Qed.
End worker_main.

(** ** A parser with the documented behaviour *)

(** Down the tree as far as the words name subcommands. *)
Fixpoint descend (c : Command) (hk : option hook) (line : list string) : Command * option hook * list string :=
  let hk := match cmd_PreRunE c with Some h => Some h | None => hk end in
  match line with
  | [] => (c, hk, [])
  | a :: rest =>
      match subcommand c a with
      | Some d => descend d hk rest
      | None => (c, hk, line)
      end
  end.

(** Positional arguments and flags, in any order. *)
Fixpoint parse_line (flags : gmap string string) (line : list string) : option (list string * list (string * string)) :=
  match line with
  | [] => Some ([], [])
  | a :: rest =>
      if positional a then '(args, set) ← parse_line flags rest; Some (a :: args, set)
      else
        match strip_prefix "--" a, rest with
        | Some f, v :: rest =>
            if bool_decide (is_Some (flags !! f)) then '(args, set) ← parse_line flags rest; Some (args, (f, v) :: set)
            else None
        | _, _ => None
        end
  end.

Definition exact_args (n : nat) (args : list string) : option error :=
  if bool_decide (length args = n) then None else Some (ErrNew "accepts %d arg(s), received %d").

Definition execute (root : Command) (g : globals) (line : list string) : prog (option error) :=
  let '(c, hk, rest) := descend root None line in
  match parse_line (cmd_Flags c) rest with
  | None => mret (Some (ErrNew "unknown flag"))
  | Some (args, set) =>
      match cmd_RunE c with
      | None => mret None
      | Some run => run_command hk (default (λ _, None) (cmd_Args c)) run g (parsed_flags c set) args
      end
  end.

#[export] Instance simple_cobra : Cobra := {| ExactArgs := exact_args; ExecuteContext := execute |}.

Lemma descend_path c path leaf hk rest :
  find_command c path = Some leaf → cmd_Commands leaf = [] →
  descend c hk (path ++ rest) = (leaf, match find_hook c path with Some h => Some h | None => hk end, rest).
Proof.
  revert c hk. induction path as [|p path IH]; intros c hk; simpl.
  - intros [= ->] Hl. assert (∀ a, subcommand leaf a = None) as Hno by (intros a; unfold subcommand; by rewrite Hl).
    destruct rest as [|a rest]; simpl; [|rewrite Hno]; by destruct (cmd_PreRunE leaf).
  - destruct (subcommand c p) as [d|]; [|done]. simpl. intros Hf Hl. rewrite (IH d _ Hf Hl).
    destruct (find_hook d path); [done|]. by destruct (cmd_PreRunE c).
Qed.

Lemma parse_line_spec flags args set :
  Forall (λ a, positional a = true) args → Forall (λ fv : string * string, is_Some (flags !! fv.1)) set →
  parse_line flags (args ++ flag_args set) = Some (args, set).
Proof.
  intros Ha Hs. induction Ha as [|a args Hp Ha IH]; cbn [app parse_line]; [|by rewrite Hp, IH].
  induction Hs as [|[f v] set Hf Hs IH]; [done|].
  change (flag_args ((f, v) :: set)) with (("--" +:+ f) :: v :: flag_args set). cbn [parse_line].
  unfold positional. rewrite (proj2 (HasPrefix_spec _ "-")) by (by exists ("-" +:+ f)). cbn [negb].
  rewrite strip_prefix_app, bool_decide_true, IH by done. done.
Qed.

#[export] Instance simple_cobra_laws : CobraLaws simple_cobra.
Proof.
  split.
  - intros n args. simpl. unfold exact_args. by case_bool_decide.
  - intros root g path leaf check run args set Hf Hl Ha Hr Hp Hs. simpl. unfold execute.
    rewrite (descend_path _ _ _ _ _ Hf Hl), (parse_line_spec _ _ _ Hp Hs), Hr, Ha. by destruct (find_hook root path).
Qed.

Definition demo_load_args : list string := ["kmod"; "load"; "/etc/kmm-worker/config.yaml"].
Definition demo_unload_args : list string := ["kmod"; "unload"; "/etc/kmm-worker/config.yaml"].

Lemma worker_pod_exit_status_witness : worker_args demo_loader_pod = Some demo_load_args ∧ ∀ tr code,
  exec (worker_main (EXT := demo_externals) demo_load_args)
    (Obs (OS (ReadFile configFullPath)) (Ok (GetConfigAnnotation (Some demo_loader_pod))) :: tr) code ↔
  ∃ err, exec (load_config (EXT := demo_externals) (nms_Config demo_spec) None) tr err ∧ code = exit_status err.
Proof.
  split; [vm_compute; reflexivity|]. intros tr code. destruct (worker_pod_exit_status (EXT := demo_externals) (C := simple_cobra) demo_worker_cfg "worker:v1" (demo_nmc "node-a" [])
    demo_spec demo_status demo_loader_pod demo_unloader_pod demo_load_args demo_unload_args) as [Hl _];
    [vm_compute; reflexivity..|]. apply Hl.
Defined.
