(* ===== verification/Conversion.v ===== *)
(** * Conversion between the two versions of PreflightValidation
    ([api/v1beta1/preflightvalidation_types.go])

    Version v1beta2, the one stored, lists the status of each module; the deprecated v1beta1
    has a map from [namespace/name], and for older clients also from the bare name. *)

From S2P Require Import Prelude Types Kube GoStrings Externals Demo Preflight.

Open Scope string_scope.
Open Scope nat_scope.
Open Scope list_scope.

(** [PreflightValidation] of v1beta1; the values of the map are pointers. *)
Record PreflightValidation_v1beta1 := {
  pv1_meta : ObjectMeta;
  pv1_spec : PreflightValidationSpec;
  pv1_CRStatuses : gmap string (option CRBaseStatus);
}.

(** [strings.Cut(s, "/")]. *)
Fixpoint Cut (s : string) : option (string * string) :=
  match s with
  | "" => None
  | String c t =>
      if is_char "/" c then Some ("", t)
      else '(before, after) ← Cut t; Some (String c before, after)
  end.

(** The loop of [ConvertTo] over the entries in the order they are visited: it returns from the
    whole conversion at an entry it cannot convert. *)
Fixpoint convert_entries (entries : list (string * option CRBaseStatus)) : list PreflightValidationModuleStatus :=
  match entries with
  | [] => []
  | (k, v) :: entries =>
      match Cut k, v with
      | Some (namespace, name), Some v =>
          {| pvm_base := v; pvm_Name := name; pvm_Namespace := namespace |} :: convert_entries entries
      | _, _ => []
      end
  end.

Section convert.
Context `{EXT : Externals}.

Definition ConvertTo (p : PreflightValidation_v1beta1) : PreflightValidation :=
  {| pv_meta := pv1_meta p; pv_spec := pv1_spec p;
     pv_status_Modules := convert_entries (range_map (pv1_CRStatuses p)) |}.
End convert.

Definition status_key (v : PreflightValidationModuleStatus) : string := pvm_Namespace v +:+ "/" +:+ pvm_Name v.

(** One module: its status under both keys. *)
Definition convert_module (m : gmap string (option CRBaseStatus)) (v : PreflightValidationModuleStatus) : gmap string (option CRBaseStatus) :=
  <[pvm_Name v := Some (pvm_base v)]> (<[status_key v := Some (pvm_base v)]> m).

Definition ConvertFrom (src : PreflightValidation) : PreflightValidation_v1beta1 :=
  {| pv1_meta := pv_meta src; pv1_spec := pv_spec src;
     pv1_CRStatuses := foldl convert_module ∅ (pv_status_Modules src) |}.

(** ** Keys *)

Definition slash_free (s : string) : bool := string_forallb (λ c, negb (is_char "/" c)) s.

Lemma Cut_app a b : slash_free a = true → Cut (a +:+ "/" +:+ b) = Some (a, b).
Proof.
  induction a as [|c a IH]; [done|]. intros [Hc Ha]%andb_true_iff. apply negb_true_iff in Hc.
  change (String c a +:+ "/" +:+ b) with (String c (a +:+ "/" +:+ b)). cbn [Cut]. by rewrite Hc, IH.
Qed.

Lemma Cut_None s : slash_free s = true → Cut s = None.
Proof.
  induction s as [|c s IH]; [done|]. intros [Hc Hs]%andb_true_iff. apply negb_true_iff in Hc.
  cbn [Cut]. by rewrite Hc, IH.
Qed.

Lemma Cut_Some s a b : Cut s = Some (a, b) → s = a +:+ "/" +:+ b ∧ slash_free a = true.
Proof.
  revert a b. induction s as [|c s IH]; [done|]. cbn [Cut]. intros a b. destruct (is_char "/" c) eqn:Hc.
  - intros [= <- <-]. apply Ascii.eqb_eq in Hc as <-. done.
  - destruct (Cut s) as [[a' b']|]; [|done]. cbn. intros [= <- <-]. destruct (IH a' b' eq_refl) as [-> Ha].
    split; [done|]. unfold slash_free. cbn [string_forallb]. by rewrite Hc.
Qed.

(** Namespaces and names, which the API server keeps free of slashes. *)
Definition named (v : PreflightValidationModuleStatus) : Prop :=
  slash_free (pvm_Namespace v) = true ∧ slash_free (pvm_Name v) = true.

Lemma Cut_status_key v : named v → Cut (status_key v) = Some (pvm_Namespace v, pvm_Name v).
Proof. intros [? _]. by apply Cut_app. Qed.

Lemma status_key_not_bare v w : named v → named w → status_key v ≠ pvm_Name w.
Proof. intros Hv [_ Hw] E. apply Cut_None in Hw. by rewrite <-E, Cut_status_key in Hw. Qed.

Lemma status_key_inj v w :
  named v → named w → status_key v = status_key w → pvm_Namespace v = pvm_Namespace w ∧ pvm_Name v = pvm_Name w.
Proof. intros Hv Hw E. pose proof (Cut_status_key v Hv) as H. rewrite E, Cut_status_key in H by done. by simplify_eq. Qed.

(** ** The map of a list of module statuses *)

Definition keyed (l : list PreflightValidationModuleStatus) : Prop :=
  Forall named l ∧ NoDup ((λ v, (pvm_Namespace v, pvm_Name v)) <$> l).

Lemma convert_modules_keys l m k :
  Forall named l → Cut k ≠ None →
  foldl convert_module m l !! k =
  match find_first (λ v, String.eqb (status_key v) k) (reverse l) with
  | Some v => Some (Some (pvm_base v))
  | None => m !! k
  end.
Proof.
  intros Hl Hk. revert m. induction l as [|v l IH] using rev_ind; intros m; [done|].
  apply Forall_app in Hl as [Hl [Hv _]%Forall_cons]. rewrite foldl_app, reverse_snoc. cbn [foldl find_first].
  unfold convert_module. rewrite lookup_insert_ne.
  2: { intros <-. destruct Hv as [_ Hv]. by apply Cut_None in Hv. }
  destruct (String.eqb_spec (status_key v) k) as [<-|Hne].
  - by rewrite lookup_insert_eq.
  - rewrite lookup_insert_ne by done. by apply IH.
Qed.

Section roundtrip.
Context `{EXT : Externals} `{EXTL : !ExternalsLaws}.

(** Entries that belong to a module: a value under a key [namespace/name]. *)
Definition module_entry (kv : string * option CRBaseStatus) : Prop :=
  is_Some kv.2 ∧ ∃ ns name, kv.1 = ns +:+ "/" +:+ name ∧ slash_free ns = true ∧ slash_free name = true.

Lemma convert_entries_all entries :
  Forall module_entry entries →
  Forall named (convert_entries entries) ∧
  ((λ v, (status_key v, Some (pvm_base v))) <$> convert_entries entries) = entries.
Proof.
  induction 1 as [|[k v] entries ([st Hst] & ns & name & Hk & Hns & Hname) _ [IH1 IH2]]; cbn [fst snd convert_entries] in *; [done|].
  subst. rewrite Cut_app by done. rewrite fmap_cons, IH2. split; [by constructor|done].
Qed.

Lemma convert_entries_sound entries v :
  v ∈ convert_entries entries → (status_key v, Some (pvm_base v)) ∈ entries ∧ slash_free (pvm_Namespace v) = true.
Proof.
  induction entries as [|[k st] entries IH]; cbn [convert_entries]; [by intros ?%elem_of_nil|].
  destruct (Cut k) as [[ns name]|] eqn:Hk; [|by intros ?%elem_of_nil].
  destruct st as [st|]; [|by intros ?%elem_of_nil]. apply Cut_Some in Hk as [-> Hns].
  intros [->|Hin]%elem_of_cons; [by split; [left|]|]. apply IH in Hin as [? ?]. split; [by right|done].
Qed.

(** The entries before the first one that does not belong to a module. *)
Lemma convert_entries_prefix entries :
  Forall (λ kv, ∀ ns name, Cut kv.1 = Some (ns, name) → slash_free name = true) entries →
  ∃ kept rest, entries = kept ++ rest ∧ Forall module_entry kept ∧
    (∀ kv rest', rest = kv :: rest' → ¬ module_entry kv) ∧ convert_entries entries = convert_entries kept.
Proof.
  induction 1 as [|[k v] entries Hk _ (kept & rest & -> & IH1 & IH2 & IH3)]; [exists [], []; by split_and!|].
  assert (¬ module_entry (k, v) → convert_entries ((k, v) :: kept ++ rest) = [] →
    ∃ kept0 rest0, (k, v) :: kept ++ rest = kept0 ++ rest0 ∧ Forall module_entry kept0 ∧
      (∀ kv rest', rest0 = kv :: rest' → ¬ module_entry kv) ∧ convert_entries ((k, v) :: kept ++ rest) = convert_entries kept0) as Hstop.
  { intros Hno Hnil. exists [], ((k, v) :: kept ++ rest). split_and!; [done|constructor| |done]. by intros ? ? [= <- <-]. }
  cbn [convert_entries] in *. cbn in Hk. destruct (Cut k) as [[ns name]|] eqn:Ec.
  - apply Cut_Some in Ec as [-> Hns]. specialize (Hk ns name eq_refl). destruct v as [v|].
    + exists ((ns +:+ "/" +:+ name, Some v) :: kept), rest. split_and!; [done| |done|].
      * constructor; [|done]. split; [by eexists|]. by exists ns, name.
      * cbn [convert_entries]. by rewrite Cut_app, IH3.
    + apply Hstop; [|done]. intros [[? [=]] _].
  - apply Hstop; [|done]. intros (_ & ns & name & E & Hns & _). pose proof (Cut_app ns name Hns) as Hc. rewrite <-E in Hc. cbn in Hc. congruence.
Qed.


(** The other way around the statuses can be lost.  Converting a v1beta2 object with at
    least one module status to v1beta1 and back never invents a status, but the entries under
    bare names, which the first conversion adds for older clients, end the second one: there is
    an order of visiting the map in which no status is left, although every one of them was
    under its [namespace/name] key. *)
Theorem preflight_conversion_loses pv :
  keyed (pv_status_Modules pv) → pv_status_Modules pv ≠ [] →
  let p := ConvertFrom pv in
  (∀ v, v ∈ pv_status_Modules pv → pv1_CRStatuses p !! status_key v = Some (Some (pvm_base v))) ∧
  (∀ v, v ∈ pv_status_Modules (ConvertTo p) → v ∈ pv_status_Modules pv) ∧
  ∃ entries, entries ≡ₚ map_to_list (pv1_CRStatuses p) ∧ convert_entries entries = [].
Proof.
  intros [Hn Hk] Hne.
  assert (∀ k st, Cut k ≠ None → pv1_CRStatuses (ConvertFrom pv) !! k = Some st →
    ∃ v, v ∈ pv_status_Modules pv ∧ status_key v = k ∧ st = Some (pvm_base v)) as Hlook.
  { intros k st Hc. cbn. rewrite convert_modules_keys, lookup_empty by done.
    destruct (find_first _ _) as [v|] eqn:E; [|done]. intros [= <-].
    apply find_first_Some in E as [Hv <-%String.eqb_eq]. rewrite elem_of_reverse in Hv. eauto. }
  split_and!.
  - intros v Hv. assert (named v) as Hnv by (rewrite Forall_forall in Hn; auto). cbn.
    rewrite convert_modules_keys by (done || by rewrite Cut_status_key).
    destruct (find_first _ _) as [w|] eqn:E.
    + apply find_first_Some in E as [Hw Hkey%String.eqb_eq]. rewrite elem_of_reverse in Hw.
      assert (named w) as Hnw by (rewrite Forall_forall in Hn; auto).
      destruct (status_key_inj w v Hnw Hnv Hkey) as [H1 H2].
      by rewrite (NoDup_fmap_inj _ _ w v Hk Hw Hv) by (by rewrite H1, H2).
    + rewrite find_first_None in E. specialize (E v (elem_of_reverse_2 _ _ Hv)). by rewrite String.eqb_refl in E.
  - cbn. intros v Hv. apply convert_entries_sound in Hv as [Hin Hns]. apply elem_of_range_map in Hin.
    apply Hlook in Hin as (w & Hw & Hkey & [= Hb]); [|unfold status_key; by rewrite Cut_app].
    assert (named w) as Hnw by (rewrite Forall_forall in Hn; auto).
    pose proof (Cut_status_key w Hnw) as Hc. rewrite Hkey in Hc. unfold status_key in Hc. rewrite Cut_app in Hc by done.
    destruct v, w; simplify_eq/=. done.
  - cbn. destruct (pv_status_Modules pv) as [|v l _] using rev_ind; [done|].
    rewrite foldl_app. cbn [foldl]. unfold convert_module at 1.
    set (m := <[status_key v := _]> _). exists ((pvm_Name v, Some (pvm_base v)) :: map_to_list (delete (pvm_Name v) m)).
    split; [by rewrite <-insert_delete_eq, map_to_list_insert by apply lookup_delete_eq|].
    cbn. apply Forall_app in Hn as [_ [[_ Hv] _]%Forall_cons]. by rewrite Cut_None.
Qed.
End roundtrip.

(** ** Examples *)

Definition demo_status_of (s : string) : CRBaseStatus :=
  {| crs_VerificationStatus := s; crs_StatusReason := ""; crs_VerificationStage := "Done"; crs_LastTransitionTime := 1 |}.

Definition demo_v1beta1 : PreflightValidation_v1beta1 :=
  {| pv1_meta := empty_meta "" "preflight"; pv1_spec := {| pvs_KernelVersion := "6.0.1"; pvs_PushBuiltImage := false |};
     pv1_CRStatuses := {[ "default/a" := Some (demo_status_of "Success"); "default/b" := Some (demo_status_of "Failure") ]} |}.

Definition demo_v1beta2 : PreflightValidation :=
  {| pv_meta := empty_meta "" "preflight"; pv_spec := {| pvs_KernelVersion := "6.0.1"; pvs_PushBuiltImage := false |};
     pv_status_Modules :=
       [{| pvm_base := demo_status_of "Success"; pvm_Name := "a"; pvm_Namespace := "default" |};
        {| pvm_base := demo_status_of "Failure"; pvm_Name := "b"; pvm_Namespace := "default" |}] |}.


Lemma preflight_conversion_loses_witness :
  pv_status_Modules (ConvertTo (EXT := demo_externals) (ConvertFrom demo_v1beta2)) = [] ∧
  ∃ entries, entries ≡ₚ map_to_list (pv1_CRStatuses (ConvertFrom demo_v1beta2)) ∧ convert_entries entries = [].
Proof.
  split; [vm_compute; reflexivity|].
  destruct (preflight_conversion_loses (EXT := demo_externals) demo_v1beta2) as (_ & _ & H).
  - split; [by repeat constructor|]. apply (bool_decide_unpack _). vm_compute. exact I.
  - done.
  - exact H.
Defined.
