(* ===== verification/Config.v ===== *)
(** * Operator configuration and metrics ([internal/config], [internal/metrics])

    The manager starts from a built-in configuration that a ConfigMap may override; the
    reconcilers report through Prometheus gauges. *)

From S2P Require Import Prelude Types Kube GoStrings Externals Demo Labels NmcHelper WorkerPod DevicePlugin.

Open Scope string_scope.
Open Scope nat_scope.
Open Scope list_scope.

(** ** [config.go] *)

(** A [time.Duration], in nanoseconds. *)
Record Job := { job_GCDelay : Z }.
Record LeaderElection := { le_Enabled : bool; le_ResourceID : string }.
Record Metrics := { mx_BindAddress : string; mx_EnableAuthnAuthz : bool; mx_SecureServing : bool }.
Record Config := {
  cfg_HealthProbeBindAddress : string;
  cfg_Job : Job;
  cfg_LeaderElection : LeaderElection;
  cfg_Metrics : Metrics;
  cfg_WebhookPort : Z;
  cfg_Worker : WorkerConfig;
}.

Definition ErrCannotUseCustomConfig : error := ErrSentinel "ErrCannotUseCustomConfig".

Definition newDefaultConfig (isHubConfig : bool) : Config :=
  {| cfg_HealthProbeBindAddress := ":8081";
     cfg_Job := {| job_GCDelay := 0 |};
     cfg_LeaderElection :=
       {| le_Enabled := true; le_ResourceID := if isHubConfig then "kmm-hub.sigs.x-k8s.io" else "kmm.sigs.x-k8s.io" |};
     cfg_Metrics := {| mx_BindAddress := "0.0.0.0:8443"; mx_EnableAuthnAuthz := true; mx_SecureServing := true |};
     cfg_WebhookPort := 9443;
     cfg_Worker := {| wc_RunAsUser := Some 0%Z; wc_SELinuxType := "spc_t"; wc_FirmwareHostPath := Some "/lib/firmware" |} |}.

(** The options of the manager; the health probe, scheme and webhook server are built from the
    remaining fields. *)
Record ManagerOptions := {
  mo_HealthProbeBindAddress : string;
  mo_LeaderElection : bool;
  mo_LeaderElectionID : string;
  mo_MetricsBindAddress : string;
  mo_MetricsSecureServing : bool;
  mo_MetricsAuthenticated : bool;
  mo_WebhookPort : Z;
}.

Definition GetManagerOptionsFromConfig (conf : Config) : ManagerOptions :=
  {| mo_HealthProbeBindAddress := cfg_HealthProbeBindAddress conf;
     mo_LeaderElection := le_Enabled (cfg_LeaderElection conf);
     mo_LeaderElectionID := le_ResourceID (cfg_LeaderElection conf);
     mo_MetricsBindAddress := mx_BindAddress (cfg_Metrics conf);
     mo_MetricsSecureServing := mx_SecureServing (cfg_Metrics conf);
     mo_MetricsAuthenticated := mx_EnableAuthnAuthz (cfg_Metrics conf);
     mo_WebhookPort := cfg_WebhookPort conf |}.

Section config.
(** The strict decoder of [gopkg.in/yaml.v3]: it decodes into an existing value, which it may
    have changed when it fails.  [client.New]: its error, if any. *)
Context (yaml_Decode : string → Config → Config * option error) (client_New : option error).

Definition getClient : option error := wrap_err "failed to create new client %v" client_New.

(** The value the pointer refers to afterwards, and the error. *)
Definition decodeStrictYAMLIntoConfig (yamlData : string) (config : Config) : Config * option error :=
  let '(config, err) := yaml_Decode yamlData config in
  (config, wrap_err "error unmarshaling YAML: %v" err).

Definition configKey := "controller_config.yaml".

Definition overrideConfigFromCM (cm : option ConfigMap) (cfg : Config) : Config * option error :=
  match cm with
  | None => (cfg, Some (ErrNew "cm can not be nil"))
  | Some cm =>
      match cm_Data cm !! configKey with
      | None => (cfg, Some (ErrNew "key %q not found in ConfigMap %s/%s"))
      | Some rawConfig => decodeStrictYAMLIntoConfig rawConfig cfg
      end
  end.

(** The returned pair: a configuration can come with an error. *)
Definition GetConfig (userConfigMapName userConfigMapNamespace : string) (isHubConfig : bool) : prog (option Config * option error) :=
  let defaultCfg := newDefaultConfig isHubConfig in
  match getClient with
  | Some err => mret (None, Some (Errorf_v "failed to get client %v" err))
  | None =>
      r ← get KConfigMap (nsn userConfigMapNamespace userConfigMapName);
      match r with
      | Err err =>
          if IsNotFound err then mret (Some defaultCfg, None)
          else mret (None, Some (Errorf_v "failed to get ConfigMap %s/%s: %v" err))
      | Ok managerConfig =>
          let '(cfg, err) := overrideConfigFromCM (Some managerConfig) (newDefaultConfig isHubConfig) in
          match err with
          | Some _ =>
              mret (Some defaultCfg, Some (Errorf_w "%w; unable to load KMM config from ConfigMap: %v" ErrCannotUseCustomConfig))
          | None => mret (Some cfg, None)
          end
      end
  end.

(** What a ConfigMap means for the configuration: the defaults with its document decoded over
    them, if it has one and the document is valid. *)
Definition custom_config (isHub : bool) (cm : ConfigMap) : option Config :=
  raw ← cm_Data cm !! configKey;
  match yaml_Decode raw (newDefaultConfig isHub) with (cfg, None) => Some cfg | (_, Some _) => None end.

(** C28: the configuration the operator runs with is the built-in one or the built-in one
    completely overridden, never something in between.  There is a configuration unless the
    client cannot be created or the ConfigMap cannot be read for another reason than being
    absent; it is the default one when there is no ConfigMap, the decoded one when the
    ConfigMap is valid, and the untouched default one, together with the recognisable error
    [ErrCannotUseCustomConfig], when the ConfigMap lacks the key or its document is refused,
    even though the decoder may have filled part of its target by then. *)
Theorem GetConfig_all_or_nothing name ns isHub :
  wp (GetConfig name ns isHub) (λ tr r,
    match getClient, tr with
    | Some _, [] => r.1 = None ∧ is_Some r.2
    | None, [Obs (Get KConfigMap key) (Ok cm)] =>
        key = nsn ns name ∧
        match custom_config isHub cm with
        | Some cfg => r = (Some cfg, None)
        | None => r.1 = Some (newDefaultConfig isHub) ∧
                  ∃ e, r.2 = Some e ∧ errors_Is e "ErrCannotUseCustomConfig" = true
        end
    | None, [Obs (Get KConfigMap key) (Err e)] =>
        key = nsn ns name ∧
        if IsNotFound e then r = (Some (newDefaultConfig isHub), None)
        else r.1 = None ∧ ∃ e', r.2 = Some e' ∧ errors_Is e' "ErrCannotUseCustomConfig" = false
    | _, _ => False
    end).
Proof.
  unfold GetConfig. destruct getClient as [err|]; cbn; [done|]. intros [cm|e]; cbn.
  - unfold custom_config. destruct (cm_Data cm !! configKey) as [raw|]; cbn; [|split_and!; [done..|by eexists]].
    unfold decodeStrictYAMLIntoConfig. destruct (yaml_Decode raw (newDefaultConfig isHub)) as [cfg [err|]]; cbn;
      [split_and!; [done..|by eexists]|done].
  - destruct (IsNotFound e); cbn; [done|]. split_and!; [done..|by eexists].
Qed.
End config.

(** ** [metrics.go] *)

Definition kmmModulesQuery := "kmm_module_num".
Definition kmmInClusterBuildQuery := "kmm_in_cluster_build_num".
Definition kmmInClusterSignQuery := "kmm_in_cluster_sign_num".
Definition kmmDevicePluginQuery := "kmm_device_plugin_num".
Definition kmmPreflightQuery := "kmm_preflight_num".
Definition kmmModprobeArgsQuery := "kmm_modprobe_args".
Definition kmmModprobeRawArgsQuery := "kmm_modprobe_raw_args".

(** The gauges with the values of their label combinations (none for a plain gauge), and the
    names the registry exposes.  All values are small integers, which [float64] represents. *)
Record metrics := { mt_series : gmap (string * list string) Z; mt_registered : list string }.

Definition metrics_New : metrics :=
  {| mt_series :=
       {[ (kmmModulesQuery, []) := 0%Z; (kmmInClusterBuildQuery, []) := 0%Z; (kmmInClusterSignQuery, []) := 0%Z;
          (kmmDevicePluginQuery, []) := 0%Z; (kmmPreflightQuery, []) := 0%Z ]};
     mt_registered := [] |}.

Definition metrics_Register (m : metrics) : metrics :=
  {| mt_series := mt_series m;
     mt_registered := mt_registered m ++
       [kmmModulesQuery; kmmInClusterBuildQuery; kmmInClusterSignQuery; kmmDevicePluginQuery; kmmPreflightQuery;
        kmmModprobeArgsQuery] |}.

Definition set_gauge (name : string) (ls : list string) (value : Z) (m : metrics) : metrics :=
  {| mt_series := <[(name, ls) := value]> (mt_series m); mt_registered := mt_registered m |}.

Definition SetKMMModulesNum (value : Z) : metrics → metrics := set_gauge kmmModulesQuery [] value.
Definition SetKMMInClusterBuildNum (value : Z) : metrics → metrics := set_gauge kmmInClusterBuildQuery [] value.
Definition SetKMMInClusterSignNum (value : Z) : metrics → metrics := set_gauge kmmInClusterSignQuery [] value.
Definition SetKMMDevicePluginNum (value : Z) : metrics → metrics := set_gauge kmmDevicePluginQuery [] value.
Definition SetKMMPreflightsNum (value : Z) : metrics → metrics := set_gauge kmmPreflightQuery [] value.
Definition SetKMMModprobeArgs (modName namespace modprobeArgs : string) : metrics → metrics :=
  set_gauge kmmModprobeArgsQuery [modName; namespace; modprobeArgs] 1.
Definition SetKMMModprobeRawArgs (modName namespace modprobeRawArgs : string) : metrics → metrics :=
  set_gauge kmmModprobeRawArgsQuery [modName; namespace; modprobeRawArgs] 1.

(** The calls [setKMMOMetrics] of the device plugin reconciler makes. *)
Definition report_KMMOMetrics (k : KMMOMetrics) (m : metrics) : metrics :=
  let m := foldl (λ m '(name, ns, args), SetKMMModprobeArgs name ns args m) m (kmmo_ModprobeArgs k) in
  let m := foldl (λ m '(name, ns, args), SetKMMModprobeRawArgs name ns args m) m (kmmo_ModprobeRawArgs k) in
  let m := SetKMMModulesNum (Z.of_nat (kmmo_Modules k)) m in
  let m := SetKMMInClusterBuildNum (Z.of_nat (kmmo_InClusterBuild k)) m in
  let m := SetKMMInClusterSignNum (Z.of_nat (kmmo_InClusterSign k)) m in
  SetKMMDevicePluginNum (Z.of_nat (kmmo_DevicePlugin k)) m.

(** What a scrape of the metrics endpoint shows of a series. *)
Definition scraped (m : metrics) (name : string) (ls : list string) : option Z :=
  if bool_decide (name ∈ mt_registered m) then mt_series m !! (name, ls) else None.

(** The gauge vectors only grow: a label combination that was set stays. *)
Lemma foldl_set_gauge name (l : list (string * string * string)) m :
  let set m '(n, ns, a) := set_gauge name [n; ns; a] 1 m in
  mt_registered (foldl set m l) = mt_registered m ∧
  (∀ q ls, q ≠ name → mt_series (foldl set m l) !! (q, ls) = mt_series m !! (q, ls)) ∧
  (∀ n ns a, mt_series (foldl set m l) !! (name, [n; ns; a]) =
             if bool_decide ((n, ns, a) ∈ l) then Some 1%Z else mt_series m !! (name, [n; ns; a])).
Proof.
  cbv zeta. revert m. induction l as [|[[n ns] a] l IH]; intros m; [done|]. cbn [foldl].
  destruct (IH (set_gauge name [n; ns; a] 1 m)) as (H1 & H2 & H3). split_and!; [by rewrite H1| |].
  - intros q ls Hq. rewrite H2 by done. cbn. by rewrite lookup_insert_ne by naive_solver.
  - intros n' ns' a'. rewrite H3. cbn. destruct (decide ((n', ns', a') = (n, ns, a))) as [[= -> -> ->]|Hne].
    + rewrite lookup_insert_eq. rewrite (bool_decide_eq_true_2 (_ ∈ _ :: _)) by left. by case_bool_decide.
    + rewrite lookup_insert_ne by naive_solver. repeat case_bool_decide; set_solver.
Qed.

Lemma report_registered k m : mt_registered (report_KMMOMetrics k m) = mt_registered m.
Proof.
  etrans; [exact (proj1 (foldl_set_gauge kmmModprobeRawArgsQuery (kmmo_ModprobeRawArgs k) _))|].
  exact (proj1 (foldl_set_gauge kmmModprobeArgsQuery (kmmo_ModprobeArgs k) _)).
Qed.

Lemma report_args k m n ns a :
  mt_series (report_KMMOMetrics k m) !! (kmmModprobeArgsQuery, [n; ns; a]) =
  if bool_decide ((n, ns, a) ∈ kmmo_ModprobeArgs k) then Some 1%Z else mt_series m !! (kmmModprobeArgsQuery, [n; ns; a]).
Proof.
  cbn. rewrite !lookup_insert_ne by done.
  etrans; [apply (proj1 (proj2 (foldl_set_gauge kmmModprobeRawArgsQuery (kmmo_ModprobeRawArgs k) _))); done|].
  exact (proj2 (proj2 (foldl_set_gauge kmmModprobeArgsQuery (kmmo_ModprobeArgs k) _)) n ns a).
Qed.

(** After any reports the endpoint shows the numbers of the last one.  Of the modprobe
    arguments it shows every combination ever reported, those of modules since changed or
    deleted too; the raw arguments are never shown, because their gauge is not registered. *)
Theorem metrics_exposed (ks : list KMMOMetrics) k :
  let m := report_KMMOMetrics k (foldl (λ m k, report_KMMOMetrics k m) (metrics_Register metrics_New) ks) in
  scraped m kmmModulesQuery [] = Some (Z.of_nat (kmmo_Modules k)) ∧
  scraped m kmmInClusterBuildQuery [] = Some (Z.of_nat (kmmo_InClusterBuild k)) ∧
  scraped m kmmInClusterSignQuery [] = Some (Z.of_nat (kmmo_InClusterSign k)) ∧
  scraped m kmmDevicePluginQuery [] = Some (Z.of_nat (kmmo_DevicePlugin k)) ∧
  (∀ n ns a, scraped m kmmModprobeArgsQuery [n; ns; a] = Some 1%Z ↔
             ∃ k', k' ∈ ks ++ [k] ∧ (n, ns, a) ∈ kmmo_ModprobeArgs k') ∧
  (∀ ls, scraped m kmmModprobeRawArgsQuery ls = None).
Proof.
  cbv zeta. set (m0 := foldl _ _ ks).
  assert (mt_registered m0 = mt_registered (metrics_Register metrics_New)) as Hreg.
  { unfold m0. induction ks as [|k' ks IH] using rev_ind; [done|]. by rewrite foldl_app; cbn [foldl]; rewrite report_registered. }
  assert (∀ n ns a, mt_series m0 !! (kmmModprobeArgsQuery, [n; ns; a]) =
    if bool_decide (Exists (λ k', (n, ns, a) ∈ kmmo_ModprobeArgs k') ks) then Some 1%Z else None) as Hargs.
  { intros n ns a. clear Hreg. unfold m0. induction ks as [|k' ks IH] using rev_ind.
    - rewrite bool_decide_eq_false_2 by (by intros ?%Exists_nil). cbn.
      rewrite !lookup_insert_ne by done. by rewrite lookup_singleton_ne.
    - rewrite foldl_app. cbn [foldl]. rewrite report_args, IH. repeat case_bool_decide; rewrite ?Exists_app, ?Exists_cons, ?Exists_nil in *; tauto. }
  assert (∀ name ls, name ∈ mt_registered (metrics_Register metrics_New) →
    scraped (report_KMMOMetrics k m0) name ls = mt_series (report_KMMOMetrics k m0) !! (name, ls)) as Hs.
  { intros name ls Hin. unfold scraped. by rewrite report_registered, Hreg, bool_decide_eq_true_2. }
  split_and!.
  1-4: rewrite Hs by (apply (bool_decide_unpack _); vm_compute; exact I); cbn;
       repeat (rewrite lookup_insert_ne by done); by rewrite lookup_insert_eq.
  - intros n ns a. rewrite Hs by (apply (bool_decide_unpack _); vm_compute; exact I). rewrite report_args, Hargs.
    setoid_rewrite elem_of_app. setoid_rewrite list_elem_of_singleton.
    repeat case_bool_decide; rewrite ?Exists_exists in *; naive_solver.
  - intros ls. unfold scraped. by rewrite report_registered, Hreg.
Qed.
