(* ===== verification/Manager.v ===== *)
(** * The three servers ([cmd/manager], [cmd/manager-hub], [cmd/webhook-server], [internal/cmd])

    Each reads its environment and configuration and then registers controllers or webhooks
    with a manager of controller-runtime.  The theorems relate what is registered to what the
    other components rely on. *)

From S2P Require Import Prelude Types Kube GoStrings Externals Demo Labels NmcHelper WorkerPod BuildSign Webhook Dra Filter Jobs Watches Config.

Open Scope string_scope.
Open Scope nat_scope.
Open Scope list_scope.

(** ** [internal/cmd/cmdutils.go], [GetBoolEnv], [internal/version] *)

Section manager.
Context `{EXT : Externals} `{CR : ControllerRuntime}.

(** What surrounds a server: the client library, the discovery API, and the outcome of each
    registration with controller-runtime, by name. *)
Record platform := {
  pf_yaml_Decode : string → Config → Config * option error;
  pf_client_New : option error;
  pf_NewDiscoveryClient : option error;
  pf_ServerVersion : result string;
  pf_NewManager : ManagerOptions → option error;
  pf_Install : option error;
  pf_Complete : string → option error;
  pf_Start : option error;
}.
Context (pf : platform).

(** A fatal error ends the process: the error of the whole command. *)
Definition fatal_if (msg : string) (e : option error) : result () :=
  match e with Some e => Err (Errorf_v msg e) | None => Ok () end.

Definition GetEnvOrFatalError (name : string) : result string :=
  if String.eqb (os_Getenv name) "" then Err (ErrNew "Could not get the environment variable") else Ok (os_Getenv name).

(** The revision the binary was built from, for the log; [bi] is what [debug.ReadBuildInfo]
    returns, the settings as keys and values. *)
Definition GitCommit (bi : option (list (string * string))) : result string :=
  match bi with
  | None => Err (ErrNew "build info is not available")
  | Some settings =>
      match find_first (λ s, String.eqb s.1 "vcs.revision") settings with
      | Some s => Ok s.2
      | None => Err (ErrNew "%s not found in build info settings")
      end
  end.

(** [strconv.ParseBool]. *)
Definition ParseBool (s : string) : option bool :=
  if bool_decide (s ∈ ["1"; "t"; "T"; "true"; "TRUE"; "True"]) then Some true
  else if bool_decide (s ∈ ["0"; "f"; "F"; "false"; "FALSE"; "False"]) then Some false
  else None.

Definition GetBoolEnv (s : string) : result bool :=
  if String.eqb (os_Getenv s) "" then Ok false
  else match ParseBool (os_Getenv s) with Some managed => Ok managed | None => Err (ErrNew "%q: invalid value for %s") end.

Definition DiscoverKubeVersion : result version.KubeVersion :=
  match pf_NewDiscoveryClient pf with
  | Some e => Err (Errorf_v "failed to create discovery client: %v" e)
  | None =>
      v ← wrap_v "failed to query Kubernetes server version: %v" (pf_ServerVersion pf);
      version.ParseKubeVersion v
  end.

(** ** Registering controllers *)

Definition DevicePluginReconcilerName := "DevicePluginReconciler".
Definition ModuleReconcilerName := "ModuleReconciler".
Definition NodeModulesConfigReconcilerName := "NodeModulesConfig".
Definition PodNodeLabelReconcilerName := "PodNodeLabel".
Definition DRAReconcilerName := "DRAReconciler".
Definition NodeLabelModuleVersionReconcilerName := "NodeLabelModuleVersion".
Definition MICReconcilerName := "MICReconciler".
Definition NodeKernelClusterClaimReconcilerName := "NodeKernelClusterClaim".
Definition MBSCReconcilerName := "MBSCReconciler".
Definition BuildSignEventsReconcilerName := "BuildSignEvents".
Definition JobGCReconcilerName := "JobGCReconciler".
Definition PreflightValidationReconcilerName := "PreflightValidation".
Definition ManagedClusterModuleReconcilerName := "ManagedClusterModule".

Definition named_controller : Type := string * controller.

(** [if err = c.SetupWithManager(mgr); err != nil { cmd.FatalError(...) }], one after the other. *)
Fixpoint setup_controllers (l : list named_controller) : result () :=
  match l with
  | [] => Ok ()
  | (name, _) :: l => fatal_if "unable to create controller" (pf_Complete pf name) ≫= λ _, setup_controllers l
  end.

(** What a server runs once its manager is started. *)
Record server := { sv_config : Config; sv_options : ManagerOptions; sv_controllers : list named_controller }.

(** The end of every main function: health checks, then the manager runs. *)
Definition start_manager (sv : server) : result server :=
  _ ← fatal_if "unable to set up health check" (pf_Complete pf "healthz");
  _ ← fatal_if "unable to set up ready check" (pf_Complete pf "readyz");
  _ ← fatal_if "problem running manager" (pf_Start pf);
  Ok sv.

(** The configuration both managers go on with: an unusable ConfigMap is only logged. *)
Definition manager_config (r : option Config * option error) : result Config :=
  match r with
  | (cfg, Some e) =>
      if errors_Is e "ErrCannotUseCustomConfig"
      then match cfg with Some cfg => Ok cfg | None => Err (ErrPanic "nil configuration") end
      else Err (Errorf_v "failed to get kmm config" e)
  | (Some cfg, None) => Ok cfg
  | (None, None) => Err (ErrPanic "nil configuration")
  end.

(** ** [cmd/manager/main.go] *)

(** The controllers registered before the mode of the manager matters. *)
Definition base_controllers (kubeVersion : version.KubeVersion) : list named_controller :=
  [(DevicePluginReconcilerName, DevicePlugin_SetupWithManager);
   (ModuleReconcilerName, Module_SetupWithManager);
   (NodeModulesConfigReconcilerName, NMC_SetupWithManager);
   (PodNodeLabelReconcilerName, PodNodeLabel_SetupWithManager)] ++
  (if version.AtLeast kubeVersion constants.MinKubeMajorForDRA constants.MinKubeMinorForDRA
   then [(DRAReconcilerName, DRA_SetupWithManager)] else []) ++
  [(NodeLabelModuleVersionReconcilerName, NodeLabelModuleVersion_SetupWithManager);
   (MICReconcilerName, MIC_SetupWithManager)].

Definition managed_controllers : list named_controller :=
  [(NodeKernelClusterClaimReconcilerName, NodeKernelClusterClaim_SetupWithManager)].

Definition standalone_controllers : list named_controller :=
  [(MBSCReconcilerName, MBSC_SetupWithManager);
   (BuildSignEventsReconcilerName, JobEvent_SetupWithManager);
   (JobGCReconcilerName, JobGC_SetupWithManager);
   (PreflightValidationReconcilerName, Preflight_SetupWithManager)].

(** [main] after the configuration was read. *)
Definition manager_run (managed : bool) (cfg : Config) : result server :=
  let options := GetManagerOptionsFromConfig cfg in
  kubeVersion ← wrap_v "unable to discover Kubernetes version" DiscoverKubeVersion;
  _ ← fatal_if "unable to create manager" (pf_NewManager pf options);
  _ ← setup_controllers (base_controllers kubeVersion);
  _ ← (if managed then fatal_if "could not add the Cluster API to the scheme" (pf_Install pf) else Ok ());
  let rest := if managed then managed_controllers else standalone_controllers in
  _ ← setup_controllers rest;
  start_manager {| sv_config := cfg; sv_options := options; sv_controllers := base_controllers kubeVersion ++ rest |}.

Definition manager_main (userConfigMapName : string) : prog (result server) :=
  match GetEnvOrFatalError "OPERATOR_NAMESPACE" with
  | Err e => mret (Err e)
  | Ok operatorNamespace =>
      match GetEnvOrFatalError "RELATED_IMAGE_WORKER" with
      | Err e => mret (Err e)
      | Ok _ =>
          let managed := match GetBoolEnv "KMM_MANAGED" with Ok b => b | Err _ => false end in
          r ← GetConfig (pf_yaml_Decode pf) (pf_client_New pf) userConfigMapName operatorNamespace false;
          mret (manager_config r ≫= manager_run managed)
      end
  end.

(** ** [cmd/manager-hub/main.go] *)

Definition hub_controllers : list named_controller :=
  [(MICReconcilerName, MIC_SetupWithManager);
   (MBSCReconcilerName, MBSC_SetupWithManager);
   (ManagedClusterModuleReconcilerName, ManagedClusterModule_SetupWithManager);
   (BuildSignEventsReconcilerName, JobEvent_SetupWithManager);
   (JobGCReconcilerName, JobGC_SetupWithManager)].

Definition hub_run (cfg : Config) : result server :=
  let options := GetManagerOptionsFromConfig cfg in
  _ ← fatal_if "unable to create manager" (pf_NewManager pf options);
  _ ← setup_controllers hub_controllers;
  start_manager {| sv_config := cfg; sv_options := options; sv_controllers := hub_controllers |}.

Definition hub_main (userConfigMapName : string) : prog (result server) :=
  match GetEnvOrFatalError "OPERATOR_NAMESPACE" with
  | Err e => mret (Err e)
  | Ok operatorNamespace =>
      r ← GetConfig (pf_yaml_Decode pf) (pf_client_New pf) userConfigMapName operatorNamespace true;
      mret (manager_config r ≫= hub_run)
  end.

(** ** [cmd/webhook-server/main.go] *)

Record webhook_flags := {
  enableModule : bool; enableManagedClusterModule : bool; enableNamespaceDeletion : bool; enablePreflightValidation : bool;
}.

(** The webhooks served; that of Modules knows the version of the cluster, that of
    ManagedClusterModules none. *)
Inductive webhook_server :=
| ModuleValidator (kubeVersion : option version.KubeVersion)
| ManagedClusterModuleValidator (kubeVersion : option version.KubeVersion)
| NamespaceValidator
| PreflightConversion
| PreflightValidationValidator.

Definition options_without_election (o : ManagerOptions) : ManagerOptions :=
  {| mo_HealthProbeBindAddress := mo_HealthProbeBindAddress o; mo_LeaderElection := false;
     mo_LeaderElectionID := mo_LeaderElectionID o; mo_MetricsBindAddress := mo_MetricsBindAddress o;
     mo_MetricsSecureServing := mo_MetricsSecureServing o; mo_MetricsAuthenticated := mo_MetricsAuthenticated o;
     mo_WebhookPort := mo_WebhookPort o |}.

Definition serve_webhook (on : bool) (name : string) (w : webhook_server) : result (list webhook_server) :=
  if on then _ ← fatal_if "unable to create webhook" (pf_Complete pf name); Ok [w] else Ok [].

Definition webhook_run (flags : webhook_flags) (cfg : Config) : result (list webhook_server) :=
  let options := options_without_election (GetManagerOptionsFromConfig cfg) in
  _ ← fatal_if "unable to create manager" (pf_NewManager pf options);
  ms ← (if enableModule flags
        then kubeVersion ← wrap_v "unable to discover Kubernetes version" DiscoverKubeVersion;
             serve_webhook true "ModuleValidator" (ModuleValidator (Some kubeVersion))
        else Ok []);
  hubs ← serve_webhook (enableManagedClusterModule flags) "ManagedClusterModuleValidator" (ManagedClusterModuleValidator None);
  nss ← serve_webhook (enableNamespaceDeletion flags) "NamespaceValidator" NamespaceValidator;
  convs ← serve_webhook (enablePreflightValidation flags) "PreflightValidation/v1beta1" PreflightConversion;
  pvs ← serve_webhook (enablePreflightValidation flags) "PreflightValidationValidator" PreflightValidationValidator;
  _ ← fatal_if "unable to set up health check" (pf_Complete pf "healthz");
  _ ← fatal_if "unable to set up ready check" (pf_Complete pf "readyz");
  _ ← fatal_if "problem running manager" (pf_Start pf);
  Ok (ms ++ hubs ++ nss ++ convs ++ pvs).

(** Unlike the managers, the webhook server gives up on every error of [GetConfig]. *)
Definition webhook_config (r : option Config * option error) : result Config :=
  match r with
  | (_, Some e) => Err (Errorf_v "failed to get kmm config" e)
  | (Some cfg, None) => Ok cfg
  | (None, None) => Err (ErrPanic "nil configuration")
  end.

Definition webhook_main (userConfigMapName : string) (flags : webhook_flags) : prog (result (list webhook_server)) :=
  match GetEnvOrFatalError "OPERATOR_NAMESPACE" with
  | Err e => mret (Err e)
  | Ok operatorNamespace =>
      r ← GetConfig (pf_yaml_Decode pf) (pf_client_New pf) userConfigMapName operatorNamespace false;
      mret (webhook_config r ≫= webhook_run flags)
  end.
End manager.

(** ** What the servers guarantee together *)

Section props.
Context `{EXT : Externals} `{EXTL : !ExternalsLaws} `{CR : ControllerRuntime} `{CRL : !ControllerRuntimeLaws} (pf : platform).

Lemma exec_bind_ret {A B} (p : prog A) (f : A → B) tr r :
  exec (p ≫= λ a, mret (f a)) tr r → ∃ a, exec p tr a ∧ r = f a.
Proof.
  revert tr. induction p as [a|c k IH]; intros tr; cbn.
  - intros [-> ->]. by eexists.
  - intros (x & tr' & -> & H). apply IH in H as (a & Ha & ->). exists a. split; [|done]. by eexists _, _.
Qed.

Lemma start_manager_Ok sv sv' : start_manager pf sv = Ok sv' → sv' = sv.
Proof. unfold start_manager. intros H. by res_inv. Qed.

(** The mode of the manager. *)
Definition managed_mode : bool := match GetBoolEnv "KMM_MANAGED" with Ok b => b | Err _ => false end.

Lemma manager_main_server name tr sv :
  exec (manager_main pf name) tr (Ok sv) →
  ∃ kv, DiscoverKubeVersion pf = Ok kv ∧
    sv_controllers sv = base_controllers kv ++ (if managed_mode then managed_controllers else standalone_controllers).
Proof.
  unfold manager_main. destruct (GetEnvOrFatalError "OPERATOR_NAMESPACE") as [ns|]; [|by intros [_ [=]]].
  destruct (GetEnvOrFatalError "RELATED_IMAGE_WORKER"); [|by intros [_ [=]]].
  intros (r & _ & Hr)%exec_bind_ret. symmetry in Hr. apply result_bind_Ok in Hr as (cfg & _ & Hr).
  unfold manager_run in Hr. apply result_bind_Ok in Hr as (kv & Hkv%wrap_v_Ok & Hr). exists kv. split; [done|].
  apply result_bind_Ok in Hr as (? & _ & Hr). apply result_bind_Ok in Hr as (? & _ & Hr).
  apply result_bind_Ok in Hr as (? & _ & Hr). apply result_bind_Ok in Hr as (? & _ & Hr).
  by apply start_manager_Ok in Hr as ->.
Qed.

Lemma hub_main_server name tr sv : exec (hub_main pf name) tr (Ok sv) → sv_controllers sv = hub_controllers.
Proof.
  unfold hub_main. destruct (GetEnvOrFatalError "OPERATOR_NAMESPACE") as [ns|]; [|by intros [_ [=]]].
  intros (r & _ & Hr)%exec_bind_ret. symmetry in Hr. apply result_bind_Ok in Hr as (cfg & _ & Hr).
  unfold hub_run in Hr. apply result_bind_Ok in Hr as (? & _ & Hr). apply result_bind_Ok in Hr as (? & _ & Hr).
  by apply start_manager_Ok in Hr as ->.
Qed.

Lemma webhook_main_module name flags tr ws kv :
  exec (webhook_main pf name flags) tr (Ok ws) → ModuleValidator kv ∈ ws →
  ∃ v, kv = Some v ∧ DiscoverKubeVersion pf = Ok v.
Proof.
  assert (∀ on n w l, serve_webhook pf on n w = Ok l → ModuleValidator kv ∈ l → w = ModuleValidator kv) as Hserve.
  { unfold serve_webhook. intros [] n w l H Hin; res_inv; by rewrite ?elem_of_cons, ?elem_of_nil in Hin; destruct_or?. }
  unfold webhook_main. destruct (GetEnvOrFatalError "OPERATOR_NAMESPACE") as [ns|]; [|by intros [_ [=]]].
  intros (r & _ & Hr)%exec_bind_ret Hin. symmetry in Hr. apply result_bind_Ok in Hr as (cfg & _ & Hr).
  unfold webhook_run in Hr. apply result_bind_Ok in Hr as (? & _ & Hr).
  apply result_bind_Ok in Hr as (ms & Hms & Hr).
  apply result_bind_Ok in Hr as (hubs & Hhubs & Hr). apply result_bind_Ok in Hr as (nss & Hnss & Hr).
  apply result_bind_Ok in Hr as (convs & Hconvs & Hr). apply result_bind_Ok in Hr as (pvs & Hpvs & Hr).
  do 3 apply result_bind_Ok in Hr as (? & _ & Hr). injection Hr as <-.
  rewrite !elem_of_app in Hin. destruct Hin as [Hin|[Hin|[Hin|[Hin|Hin]]]].
  - destruct (enableModule flags); [|injection Hms as <-; by apply elem_of_nil in Hin].
    apply result_bind_Ok in Hms as (v & Hv%wrap_v_Ok & Hms). apply (Hserve _ _ _ _ Hms) in Hin. simplify_eq. eauto.
  - by apply (Hserve _ _ _ _ Hhubs) in Hin.
  - by apply (Hserve _ _ _ _ Hnss) in Hin.
  - by apply (Hserve _ _ _ _ Hconvs) in Hin.
  - by apply (Hserve _ _ _ _ Hpvs) in Hin.
Qed.

Lemma validateModule_dra m kv :
  ValidateCreate m (Some kv) = None → is_Some (ms_DRA (mod_spec m)) →
  version.AtLeast kv constants.MinKubeMajorForDRA constants.MinKubeMinorForDRA = true.
Proof.
  intros H [dra Hd]. unfold ValidateCreate, validateModule in H. rewrite !union_None in H.
  assert (validateDRA m (Some kv) = None) as Hv by (rewrite !wrap_err_None in H; tauto).
  unfold validateDRA in Hv. rewrite Hd, !union_None, fail_if_None in Hv. destruct Hv as [Hv _].
  rewrite negb_false_iff in Hv. tauto.
Qed.

(** C26: no accepted module is left without its controller.  When the manager and the webhook
    server of one cluster are running, every Module with a DRA section that the webhook
    accepts is served: the manager runs the DRA reconciler (both depend on the version of the
    cluster); and whatever the version, it runs the Module, NodeModulesConfig, device plugin,
    pod label, version label and image reconcilers. *)
Theorem accepted_modules_served name name' flags tr tr' sv ws kv m :
  exec (manager_main pf name) tr (Ok sv) → exec (webhook_main pf name' flags) tr' (Ok ws) →
  ModuleValidator kv ∈ ws → ValidateCreate m kv = None →
  (is_Some (ms_DRA (mod_spec m)) → DRAReconcilerName ∈ (sv_controllers sv).*1) ∧
  [ModuleReconcilerName; NodeModulesConfigReconcilerName; DevicePluginReconcilerName; PodNodeLabelReconcilerName;
   NodeLabelModuleVersionReconcilerName; MICReconcilerName] ⊆ (sv_controllers sv).*1.
Proof.
  intros (kv' & Hkv & ->)%manager_main_server Hw Hin Hm.
  destruct (webhook_main_module _ _ _ _ _ Hw Hin) as (v & -> & Hv). rewrite Hv in Hkv. injection Hkv as <-.
  unfold base_controllers. rewrite !fmap_app. split.
  - intros Hd. rewrite (validateModule_dra _ _ Hm Hd). rewrite !elem_of_app. left. right. left. left.
  - intros x. rewrite !elem_of_cons, elem_of_nil, !elem_of_app. cbn. rewrite !elem_of_cons, elem_of_nil. tauto.
Qed.

(** ** Build and sign pods *)

(** The controller of that name that runs is woken up by every update that leads to [p], for [p]. *)
Definition woken_for (sv : server) (name : string) (p : Pod) : Prop :=
  ∃ c w, (name, c) ∈ sv_controllers sv ∧ w ∈ c_watches c ∧ w_kind w = KPod ∧
    ∀ old, ∃ reqs, deliver c w (pod_update old p) = mret reqs ∧ meta_key (pod_meta p) ∈ reqs.

Lemma woken_by_predicate sv name (pred : predicate) p :
  (name, {| c_watches := [For_ KPod [pred]]; c_filters := [] |}) ∈ sv_controllers sv →
  (∀ old, accepts pred (pod_update old p) = true) → woken_for sv name p.
Proof.
  intros Hin Hacc. eexists _, _. split; [exact Hin|]. split; [left|]. split; [done|]. intros old.
  unfold deliver. cbn [c_filters app w_predicates For_ forallb]. rewrite Hacc. eexists. split; [done|].
  apply EnqueueRequestForObject_spec. exists (AnyObj KPod p). split; [|done]. right. left.
Qed.

Lemma job_pod_label modName kernel action p :
  pod_Labels p = resourceLabels modName kernel action → is_job (AnyObj KPod p) = true.
Proof.
  intros Hl. unfold is_job. change (GetLabels (AnyObj KPod p)) with (pod_Labels p). rewrite Hl.
  assert (map_get (resourceLabels modName kernel action) constants.ResourceType = action_string action) as ->.
  { unfold map_get, resourceLabels, moduleKernelLabels, moduleLabels.
    rewrite !lookup_insert_ne by done. by rewrite lookup_singleton_eq. }
  destruct action; by rewrite String.eqb_refl, ?orb_true_r.
Qed.

(** The pods that build and sign images are always let go.  In the standalone manager and
    in the hub manager, the only ones that run the reconciler creating those pods, also run
    the two reconcilers that own their finalizers: as long as a build or sign pod has the
    finalizer of the events, every update of it wakes up the events reconciler, and when it is
    being deleted with the finalizer of the delayed removal, the garbage collector. *)
Theorem build_pods_are_released name tr sv modName kernel action p :
  exec (manager_main pf name) tr (Ok sv) ∨ exec (hub_main pf name) tr (Ok sv) →
  MBSCReconcilerName ∈ (sv_controllers sv).*1 →
  pod_Labels p = resourceLabels modName kernel action →
  (constants.JobEventFinalizer ∈ om_Finalizers (pod_meta p) → woken_for sv BuildSignEventsReconcilerName p) ∧
  (constants.GCDelayFinalizer ∈ om_Finalizers (pod_meta p) → is_Some (om_DeletionTimestamp (pod_meta p)) →
   woken_for sv JobGCReconcilerName p).
Proof.
  intros Hrun Hmbsc Hl.
  assert ((BuildSignEventsReconcilerName, JobEvent_SetupWithManager) ∈ sv_controllers sv ∧
          (JobGCReconcilerName, JobGC_SetupWithManager) ∈ sv_controllers sv) as [Hev Hgc].
  { destruct Hrun as [(kv & _ & Hs)%manager_main_server|Hs%hub_main_server]; rewrite Hs in *.
    - destruct managed_mode.
      + exfalso. unfold base_controllers in Hmbsc. rewrite !fmap_app in Hmbsc.
        destruct (version.AtLeast _ _ _); cbn in Hmbsc; rewrite !elem_of_cons, elem_of_nil in Hmbsc; by destruct_or?.
      + unfold standalone_controllers. split; apply elem_of_app; right; rewrite !elem_of_cons; tauto.
    - unfold hub_controllers. split; rewrite !elem_of_cons; tauto. }
  pose proof (job_pod_label _ _ _ _ Hl) as Hjob.
  split.
  - intros Hf. eapply woken_by_predicate; [exact Hev|]. intros old. unfold jobEventPredicate, pod_update.
    rewrite accepts_NewPredicateFuncs, Hjob, ContainsFinalizer_spec. by apply bool_decide_eq_true.
  - intros Hf Hd. eapply woken_by_predicate; [exact Hgc|]. intros old. unfold jobGCPredicate, pod_update.
    rewrite accepts_NewPredicateFuncs, Hjob, ContainsFinalizer_spec. cbn [andb].
    rewrite andb_true_iff, !bool_decide_eq_true. done.
Qed.

(** An unusable ConfigMap, which the error says leaves the defaults in use, stops the webhook
    server: the managers go on with the defaults, the webhook server exits. *)
Lemma unusable_config_stops_webhooks name ns cm :
  custom_config (pf_yaml_Decode pf) false cm = None →
  ∃ r, exec (GetConfig (pf_yaml_Decode pf) None name ns false) [Obs (Get KConfigMap (nsn ns name)) (Ok cm)] r ∧
       manager_config r = Ok (newDefaultConfig false) ∧ is_ok (webhook_config r) = false.
Proof.
  intros Hc. eexists. split; [|shelve]. cbn. eexists (Ok cm), []. split; [done|]. unfold custom_config in Hc.
  destruct (cm_Data cm !! configKey) as [raw|]; cbn in *; [|by split].
  unfold decodeStrictYAMLIntoConfig. destruct (pf_yaml_Decode pf raw (newDefaultConfig false)) as [cfg [e|]]; [|done].
  cbn. by split.
  Unshelve. done.
Qed.
End props.

(** ** Examples *)

Definition demo_platform : platform :=
  {| pf_yaml_Decode _ cfg := (cfg, None); pf_client_New := None; pf_NewDiscoveryClient := None;
     pf_ServerVersion := Ok "v1.34.1"; pf_NewManager _ := None; pf_Install := None; pf_Complete _ := None; pf_Start := None |}.

Definition demo_flags : webhook_flags :=
  {| enableModule := true; enableManagedClusterModule := false; enableNamespaceDeletion := true; enablePreflightValidation := true |}.

Definition no_config_map : list obs :=
  [Obs (Get KConfigMap (nsn "registry/OPERATOR_NAMESPACE:v1" "cfg")) (Err (ErrStatus ReasonNotFound))].

Definition demo_server : server :=
  {| sv_config := newDefaultConfig false; sv_options := GetManagerOptionsFromConfig (newDefaultConfig false);
     sv_controllers := base_controllers {| version.Major := 1; version.Minor := 34 |} ++ standalone_controllers |}.

Definition demo_dra_signed : Module_ :=
  {| mod_meta := mod_meta demo_signed_module;
     mod_spec := {| ms_DevicePlugin := None; ms_DRA := Some demo_dra; ms_ModuleLoader := Some demo_signed_ml;
                    ms_ImageRepoSecret := None; ms_Selector := ∅; ms_Tolerations := [];
                    ms_ImageRebuildTriggerGeneration := None |};
     mod_status := mod_status demo_signed_module |}.

Lemma accepted_modules_served_witness :
  DRAReconcilerName ∈ (sv_controllers demo_server).*1.
Proof.
  destruct (accepted_modules_served demo_platform "cfg" "cfg" demo_flags no_config_map no_config_map demo_server
    [ModuleValidator (Some {| version.Major := 1; version.Minor := 34 |}); NamespaceValidator; PreflightConversion; PreflightValidationValidator]
    (Some {| version.Major := 1; version.Minor := 34 |}) demo_dra_signed) as [H _].
  - exists (Err (ErrStatus ReasonNotFound)), []. split; [reflexivity|]. split; reflexivity.
  - exists (Err (ErrStatus ReasonNotFound)), []. split; [reflexivity|]. split; reflexivity.
  - left.
  - vm_compute. reflexivity.
  - apply H. vm_compute. by eexists.
Defined.

Lemma build_pods_are_released_witness :
  woken_for demo_server BuildSignEventsReconcilerName demo_build_pod.
Proof.
  destruct (build_pods_are_released demo_platform "cfg" no_config_map demo_server
    (mld_Name demo_build_mld) (mld_KernelNormalizedVersion demo_build_mld) BuildImage demo_build_pod) as [H _].
  - left. exists (Err (ErrStatus ReasonNotFound)), []. split; [reflexivity|]. split; reflexivity.
  - do 7 right. left.
  - vm_compute. reflexivity.
  - apply H. apply (bool_decide_unpack _). vm_compute. exact I.
Defined.
