(* ===== verification/Admission.v ===== *)
(** * Admission requests ([internal/webhook], [internal/webhook/hub], [cmd/webhook-server])

    From the rules the API server is configured with (the markers beside the validators) to the
    answer of a validator: which path a request goes to, which validator is registered there,
    and what its method for the verb does with an object of any type.  The path under which
    controller-runtime serves a validator is a parameter with its documented form. *)

From S2P Require Import Prelude Types Kube GoStrings Externals Demo Labels KernelMapper Webhook Manager.

Open Scope string_scope.
Open Scope nat_scope.
Open Scope list_scope.

(** ** Objects and validators *)

(** A [runtime.Object], by its dynamic type. *)
Inductive object :=
| OModule (m : Module_)
| OManagedClusterModule (m : ManagedClusterModule)
| ONamespace (n : Namespace)
| OPreflightValidation (p : PreflightValidation)
| OOther.

Record CustomValidator := {
  v_ValidateCreate : object → option error;
  v_ValidateUpdate : object → object → option error;
  v_ValidateDelete : object → option error;
}.

Definition bad_type (what fmt : string) : error :=
  ErrNew ("bad type for the " +:+ what +:+ "; expected " +:+ fmt +:+ ", got " +:+ fmt).

Section validators.
Context `{EXT : Externals}.

Definition module_validator (kubeVersion : option version.KubeVersion) : CustomValidator :=
  {| v_ValidateCreate o := match o with OModule m => ValidateCreate m kubeVersion | _ => Some (bad_type "object" "%T") end;
     v_ValidateUpdate old new :=
       match old, new with
       | OModule o, OModule n => ValidateUpdate o n kubeVersion
       | OModule _, _ => Some (bad_type "new object" "%T")
       | _, _ => Some (bad_type "old object" "%T")
       end;
     v_ValidateDelete _ := Some NotImplemented |}.

(** The hub's validator holds one for Modules, as an interface. *)
Definition mcm_validator (m : CustomValidator) : CustomValidator :=
  {| v_ValidateCreate o :=
       match o with
       | OManagedClusterModule c => v_ValidateCreate m (OModule (hub_module c))
       | _ => Some (bad_type "object" "%T")
       end;
     v_ValidateUpdate old new :=
       match old, new with
       | OManagedClusterModule o, OManagedClusterModule n =>
           v_ValidateUpdate m (OModule (hub_module o)) (OModule (hub_module n))
       | _, _ => Some (bad_type "object" "%T")
       end;
     v_ValidateDelete _ := Some NotImplemented |}.

(** The type assertion of [ValidateDelete] is not checked: another type panics. *)
Definition namespace_validator : CustomValidator :=
  {| v_ValidateCreate _ := Some NotImplemented;
     v_ValidateUpdate _ _ := Some NotImplemented;
     v_ValidateDelete o :=
       match o with ONamespace n => namespace_ValidateDelete n | _ => Some (ErrPanic "interface conversion") end |}.

Definition preflight_validator : CustomValidator :=
  {| v_ValidateCreate o := match o with OPreflightValidation p => validatePreflight p | _ => Some (bad_type "object" "%v") end;
     v_ValidateUpdate old new :=
       match old, new with
       | OPreflightValidation _, OPreflightValidation n => validatePreflight n
       | OPreflightValidation _, _ => Some (bad_type "new object" "%v")
       | _, _ => Some (bad_type "old object" "%v")
       end;
     v_ValidateDelete _ := Some NotImplemented |}.
End validators.

(** ** Registration *)

Record GroupVersionKind := { gvk_Group : string; gvk_Version : string; gvk_Kind : string }.

Definition kmm_v1beta1 (kd : string) : GroupVersionKind :=
  {| gvk_Group := "kmm.sigs.x-k8s.io"; gvk_Version := "v1beta1"; gvk_Kind := kd |}.
Definition kmm_v1beta2 (kd : string) : GroupVersionKind :=
  {| gvk_Group := "kmm.sigs.x-k8s.io"; gvk_Version := "v1beta2"; gvk_Kind := kd |}.
Definition hub_v1beta1 (kd : string) : GroupVersionKind :=
  {| gvk_Group := "hub.kmm.sigs.x-k8s.io"; gvk_Version := "v1beta1"; gvk_Kind := kd |}.
Definition core_v1 (kd : string) : GroupVersionKind :=
  {| gvk_Group := ""; gvk_Version := "v1"; gvk_Kind := kd |}.

Definition object_gvk (o : object) : option GroupVersionKind :=
  match o with
  | OModule _ => Some (kmm_v1beta1 "Module")
  | OManagedClusterModule _ => Some (hub_v1beta1 "ManagedClusterModule")
  | ONamespace _ => Some (core_v1 "Namespace")
  | OPreflightValidation _ => Some (kmm_v1beta2 "PreflightValidation")
  | OOther => None
  end.

(** What the [SetupWebhookWithManager] methods register: the type after [For] and the validator. *)
Definition registration : Type := GroupVersionKind * CustomValidator.

Section setup.
Context `{EXT : Externals}.

Definition setup_module (kubeVersion : option version.KubeVersion) : registration :=
  (kmm_v1beta1 "Module", module_validator kubeVersion).
Definition setup_mcm (kubeVersion : option version.KubeVersion) : registration :=
  (hub_v1beta1 "ManagedClusterModule", mcm_validator (module_validator kubeVersion)).
Definition setup_namespace : registration := (core_v1 "Namespace", namespace_validator).
Definition setup_preflight : registration := (kmm_v1beta2 "PreflightValidation", preflight_validator).

(** The conversion webhook has no validator. *)
Definition registered (w : webhook_server) : option registration :=
  match w with
  | ModuleValidator kv => Some (setup_module kv)
  | ManagedClusterModuleValidator kv => Some (setup_mcm kv)
  | NamespaceValidator => Some setup_namespace
  | PreflightValidationValidator => Some setup_preflight
  | PreflightConversion => None
  end.
End setup.

(** ** The rules of the API server *)

Inductive verb := VCreate | VUpdate | VDelete.

#[export] Instance verb_eq_dec : EqDecision verb.
Proof. solve_decision. Defined.

Record webhook_rule := { wr_path : string; wr_group : string; wr_version : string; wr_verbs : list verb }.

(** The [+kubebuilder:webhook] markers. *)
Definition module_marker : webhook_rule :=
  {| wr_path := "/validate-kmm-sigs-x-k8s-io-v1beta1-module"; wr_group := "kmm.sigs.x-k8s.io";
     wr_version := "v1beta1"; wr_verbs := [VCreate; VUpdate] |}.
Definition mcm_marker : webhook_rule :=
  {| wr_path := "/validate-hub-kmm-sigs-x-k8s-io-v1beta1-managedclustermodule"; wr_group := "hub.kmm.sigs.x-k8s.io";
     wr_version := "v1beta1"; wr_verbs := [VCreate; VUpdate] |}.
Definition namespace_marker : webhook_rule :=
  {| wr_path := "/validate--v1-namespace"; wr_group := ""; wr_version := "v1"; wr_verbs := [VDelete] |}.
Definition preflight_marker : webhook_rule :=
  {| wr_path := "/validate-kmm-sigs-x-k8s-io-v1beta2-preflightvalidation"; wr_group := "kmm.sigs.x-k8s.io";
     wr_version := "v1beta2"; wr_verbs := [VCreate; VUpdate] |}.

Definition marker (w : webhook_server) : option webhook_rule :=
  match w with
  | ModuleValidator _ => Some module_marker
  | ManagedClusterModuleValidator _ => Some mcm_marker
  | NamespaceValidator => Some namespace_marker
  | PreflightValidationValidator => Some preflight_marker
  | PreflightConversion => None
  end.

(** A request: [old] is the stored object, [new] the one sent. *)
Definition answer (v : CustomValidator) (vb : verb) (old new : object) : option error :=
  match vb with
  | VCreate => v_ValidateCreate v new
  | VUpdate => v_ValidateUpdate v old new
  | VDelete => v_ValidateDelete v old
  end.

(** The check a request for an object of the right type comes down to. *)
Definition request_check `{EXT : Externals} (w : webhook_server) (vb : verb) (old new : object) : option error :=
  match w, vb, old, new with
  | ModuleValidator kv, VCreate, _, OModule n => ValidateCreate n kv
  | ModuleValidator kv, VUpdate, OModule o, OModule n => ValidateUpdate o n kv
  | ManagedClusterModuleValidator kv, VCreate, _, OManagedClusterModule n => hub_ValidateCreate n kv
  | ManagedClusterModuleValidator kv, VUpdate, OManagedClusterModule o, OManagedClusterModule n => hub_ValidateUpdate o n kv
  | NamespaceValidator, VDelete, ONamespace o, _ => namespace_ValidateDelete o
  | PreflightValidationValidator, (VCreate | VUpdate), _, OPreflightValidation n => validatePreflight n
  | _, _, _, _ => Some NotImplemented
  end.

Section served.
Context `{EXT : Externals} (validatePath : GroupVersionKind → string).

(** The path of controller-runtime, [/validate-<group>-<version>-<kind>], with dashes for the dots
    of the group and the kind in lower case. *)
Definition path_documented : Prop :=
  ∀ g, validatePath g = "/validate-" +:+ replace_char "." "-" (gvk_Group g) +:+ "-" +:+ gvk_Version g +:+ "-" +:+
                        string_map to_lower (gvk_Kind g).

Definition of_kind (g : GroupVersionKind) (o : object) : Prop := object_gvk o = Some g.

(** The admission rules and the validators fit together.  For every validating webhook of the
    server: the API server calls the very path the validator is registered under, for the group and
    version of the registered type; a request with a verb of the rule and objects of that type
    gets the verdict of the type's own check; a verb without a rule is one the validator does
    not implement, whatever the object; and a creation or update with an object of another
    type is refused. *)
Theorem admission_rules_fit w r g v :
  path_documented → marker w = Some r → registered w = Some (g, v) →
  wr_path r = validatePath g ∧ wr_group r = gvk_Group g ∧ wr_version r = gvk_Version g ∧
  (∀ vb old new, vb ∈ wr_verbs r → of_kind g old → of_kind g new →
     answer v vb old new = request_check w vb old new) ∧
  (∀ vb old new, vb ∉ wr_verbs r → answer v vb old new = Some NotImplemented) ∧
  (∀ vb old new, vb ≠ VDelete → ¬ of_kind g new → is_Some (answer v vb old new)).
Proof.
  unfold of_kind. intros Hp Hm Hs. rewrite Hp. destruct w; simpl in Hm, Hs; try done; injection Hm as <-; injection Hs as <- <-; (split_and!; try reflexivity).
  all: try (intros vb old new Hv Ho Hn; destruct vb; simpl in Hv; try (exfalso; set_solver); destruct old, new; simplify_eq/=; done).
  all: try (intros vb old new Hv; destruct vb; simpl in *; try (exfalso; apply Hv; set_solver); done).
  all: intros vb old new Hv Hn; destruct vb; [destruct new; simpl in *; try done; eauto|destruct old, new; simpl in *; try done; eauto|done].
Qed.
End served.

Definition demo_validatePath (g : GroupVersionKind) : string :=
  "/validate-" +:+ replace_char "." "-" (gvk_Group g) +:+ "-" +:+ gvk_Version g +:+ "-" +:+ string_map to_lower (gvk_Kind g).

Lemma admission_rules_fit_witness :
  answer (module_validator (EXT := demo_externals) None) VCreate OOther (OModule demo_module) =
  ValidateCreate (EXT := demo_externals) demo_module None ∧
  wr_path module_marker = demo_validatePath (kmm_v1beta1 "Module").
Proof.
  destruct (admission_rules_fit (EXT := demo_externals) demo_validatePath (ModuleValidator None) module_marker
    (kmm_v1beta1 "Module") (module_validator None)) as (H1 & _ & _ & H2 & _);
    [by intros g|reflexivity|reflexivity|].
  split; [|exact H1]. apply (H2 VCreate (OModule demo_module) (OModule demo_module)); [left|reflexivity..].
Defined.
